(* ===== verification/_CoqProject ===== *)
-Q . S2P
Prelude.v
Wire.v
Crypto.v
Toy.v
Noise.v
HandshakeProofs.v
HandshakeTypes.v
Replay.v
Session.v
Net.v
Host.v
Ownership.v
Netcfg.v
NetcfgProofs.v
Restore.v
Relay.v
RelayProofs.v
RelayRuns.v
Tunnel.v
Channel.v
Lifetime.v
RelayWitnesses.v
Programs.v
ProgramsProofs.v
ProgramsRestore.v
Traces.v
Ipv6.v
Killed.v
Underlay.v
ProgramsWitnesses.v
