(* ===== verification/Prelude.v ===== *)
(** * A verification library for the vpn-impl tunnel (root file)

    ** The program

    The repository is a small point-to-point VPN that speaks the WireGuard
    protocol over UDP: [vpn] (the client), [vpnd] (the server) and [vpnkey]
    (keys).  Both ends run the same loop: packets from a TUN device are sealed
    and sent to the peer, datagrams from the socket are handed to the handshake
    or opened and written to the device, a signal ends it.  Around the loop the
    programs configure the interface, install routes or NAT rules through
    ip(8), iptables(8) and ip6tables(8), and undo all of it on the way out.

    ** Files, and what they model

    - [Prelude]: outcomes of C++ code ([Res]: a value, an exception, undefined
      behaviour), fixed-width integers, checked spans, little-endian reads and
      writes, and the tactics and hint database [vpn] the other files share.
    - [Wire]: src/wire.h, src/wire.cpp.  Constants, the four messages, [decode],
      the [encode] overloads, MAC spans, padding, [inner_packet_length].
    - [Crypto]: src/crypto.h, src/crypto.cpp.  Every wrapper; [Toy] is a concrete
      instance of the libraries they call.
    - [Noise]: src/noise.h, src/noise.cpp.  [Identity], [TimestampGuard], and
      [Handshake] with its four message functions.  [HandshakeProofs] relates
      them to the transcripts of the protocol, [HandshakeTypes] runs arbitrary
      sequences of them.
    - [Replay], [Session]: src/session.h, src/session.cpp.  The bitmap with its
      clearing loop, and [seal]/[open] in place.
    - [Net]: src/udp, src/tun, src/args.h.  Receiving, sending, endpoints and
      numerals in text.
    - [Relay]: src/relay.h, src/relay.cpp.  The state of [run_relay] as a record,
      one function per handler, the drains, the dispatch and the loop; a handler
      returns the actions it performs.  [RelayProofs] and [RelayRuns] are its
      invariant and theorems, [Tunnel] puts two relays together, [Channel] puts
      a hostile network between them, [Lifetime] adds handshakes and restarts,
      [RelayWitnesses] evaluates.
    - [Host]: the machine (kernel, files, children) as a class, the monad [M] of
      code that acts on it with the scopes of C++, [UniqueFd] of src/fd.h, and
      the ledger, the specification of cleaning up: the stack of what is still
      to be undone, and the list of what stayed because undoing it failed.
    - [Ownership]: src/fd.h as objects at addresses, src/secure_buf.h as objects
      in memory, byte by byte.
    - [Netcfg], [NetcfgProofs]: src/netcfg.h, src/netcfg.cpp.  Children, routes,
      rules, sysctls and their guards.  [Restore] observes the machine's tables
      in runs whose trace is clean.
    - [Programs], [ProgramsProofs], [ProgramsRestore], [ProgramsWitnesses]:
      src/vpn.cpp, src/vpnd.cpp, src/vpnkey.cpp, [TunDevice::open],
      [bind_any], [load_identity], and [run_relay] with its two descriptors
      around the loop of [Relay].  [Traces] follows them effect by effect, for
      [Ipv6], [Killed] and [Underlay], which speak of every moment of a run.

    ** What the theorems show

    - Messages: [decode] accepts exactly the serialized messages, never leaves
      the datagram, and inverts [encode]; lengths taken from the network stay
      inside what was received.
    - Cryptographic wrappers: HMAC is RFC 2104, the KDF is right with its
      outputs aliased, timestamps compare in the order of the clock.
    - Handshake: the two sides agree on keys; a message is accepted exactly when
      the configured peer built it; replays are refused; failures change
      nothing; any sequence of calls keeps the sizes of every buffer.
    - Session: nonces never repeat, the window refines the set of all accepted
      counters, each packet is delivered at most once.
    - Relay: from start-up, on any input, no undefined behaviour, and no
      exception but for a kernel answer the code does not tolerate, so that the
      loop runs until a signal; nothing unauthenticated causes any action or
      exception; every datagram is counted once; initiations are rate-limited.
    - Tunnel: from any state without a session a handshake completes and a packet
      comes out at the other end byte for byte; under a network
      that drops, repeats, reorders and invents datagrams, from start-up on and
      through any number of handshakes and restarts, each side writes only
      packets the other took in, each at most once, so that the system refines
      two channels that lose and reorder and do nothing else; within a session,
      what arrives inside the window is written.
    - Machine: every descriptor has one owner and is closed once; a byte of a key
      is found in memory only inside a live key object.  The installers are all
      or nothing and both programs exit, with the removal of every change run,
      each once and last first, and the changes whose removal failed reported on
      standard error.  At no moment is everything routed into the tunnel without
      the route, over the interface that ip(8) named, that keeps its own packets
      out, nor, under the policies refuse and block, with IPv6 left open beside
      it; a killed process leaves at most a given list of changes behind.  On a
      machine whose tools do what they document, failures included, the tables
      and the forwarding sysctl end as they began after every run in which no
      removal failed and every command could be waited for and was not killed.

    ** What is assumed

    Code outside the repository is a parameter, with its documented behaviour as
    a class, instantiated by a concrete function in the witnesses: [Primitives]
    with [PrimitivesOk] and [Base64Ok] (libsodium and libb2), [Inet] with
    [InetOk] (inet_pton and inet_ntop), [Host] (the kernel; no laws), and
    [Machine] with [MachineOk] (what the routing and filter tools do to their
    tables: any call, command or write may fail, and then changes nothing; what
    a command did that was killed or not waited for is left open).  [sodium_memzero]
    and [sodium_free] are variables of a section of [Ownership].  What cryptography promises beyond these laws is a condition of a
    step relation: [Channel] lets the network forge no tag and start no
    handshake; [Lifetime] lets it forge no tag ([sealed_by_peer]) and complete no
    handshake that gives a receiving key a second time ([new_key]).

    ** Bounds

    No theorem is limited to a number of steps.  The kernel's answers to a
    non-blocking descriptor are a list, and past its end the answer is EAGAIN,
    so the retry loops recurse on it; likewise the events of [epoll_wait].  The
    clearing loop of the replay window runs on fuel, one round for each of the
    8192 bits, and [Replay] proves that this is enough for every counter the
    code passes to it.  Decimal printing has 20 digits, enough for 64 bits.
    Integers carry their width: [u32] and [u64] wrap where the source's types do.

    ** Not modelled

    The build files and the tests.  Memory locking, guard pages and timing.  The
    bytes of the C++ stack outside the objects of src/secure_buf.h (so that a
    std::vector or a hash state is not wiped is a finding, not a theorem).
    Allocation failure, except for the guarded allocation of a [LockedKey].  When a handler throws, the actions it
    had performed in that step are not part of the result.  The kernel's own
    consequences of a command (connected routes, packet filtering). *)

From Stdlib Require Import ZArith Lia.
From stdpp Require Import base tactics numbers list strings option.

(** ** Outcomes of C++ code

    A call returns a value, throws an exception, or has undefined behaviour
    (an out-of-range access through a span, for instance).  All three are
    values of [Res], so that "never undefined" is a statement to prove. *)

Inductive exn : Type :=
| logic_error (what : string)
| invalid_argument (what : string)
| runtime_error (what : string)
| system_error (code : Z) (what : string)
| bad_alloc.

Inductive Res (A : Type) : Type :=
| Ok (a : A)
| Throw (e : exn)
| Ub.
Arguments Ok {A} a.
Arguments Throw {A} e.
Arguments Ub {A}.

#[export] Instance Res_ret : MRet Res := fun A a => Ok a.
#[export] Instance Res_bind : MBind Res := fun A B f m =>
  match m with
  | Ok a => f a
  | Throw e => Throw e
  | Ub => Ub
  end.

(** The counted loop [for (size_t i = 0; i < n; ++i)]. *)
Fixpoint for_loop {S : Type} (n i : nat) (body : nat -> S -> Res S) (s : S) : Res S :=
  match n with
  | O => Ok s
  | Datatypes.S n' => s' ← body i s; for_loop n' (Datatypes.S i) body s'
  end.

(** ** Machine words: a [w]-bit unsigned integer is a [Z] in [[0, 2^w)]. *)

Definition u8 (z : Z) : Z := (z mod 2 ^ 8)%Z.
Definition u16 (z : Z) : Z := (z mod 2 ^ 16)%Z.
Definition u32 (z : Z) : Z := (z mod 2 ^ 32)%Z.
Definition u64 (z : Z) : Z := (z mod 2 ^ 64)%Z.
Definition is_u8 (z : Z) : Prop := (0 <= z < 2 ^ 8)%Z.
Definition is_u16 (z : Z) : Prop := (0 <= z < 2 ^ 16)%Z.
Definition is_u32 (z : Z) : Prop := (0 <= z < 2 ^ 32)%Z.
Definition is_u64 (z : Z) : Prop := (0 <= z < 2 ^ 64)%Z.

(** A byte string: what a [std::span<const uint8_t>] shows. *)
Definition bytes_ok (l : list Z) : Prop := Forall is_u8 l.

#[export] Instance is_u8_dec z : Decision (is_u8 z).
Proof. unfold is_u8. apply _. Defined.
#[export] Instance is_u32_dec z : Decision (is_u32 z).
Proof. unfold is_u32. apply _. Defined.
#[export] Instance is_u64_dec z : Decision (is_u64 z).
Proof. unfold is_u64. apply _. Defined.
#[export] Instance bytes_ok_dec l : Decision (bytes_ok l).
Proof. unfold bytes_ok. apply _. Defined.

(** ** Memory accesses through spans *)

(** [span\[i\]], as a read. *)
Definition rd (l : list Z) (i : nat) : Res Z :=
  match l !! i with
  | Some b => Ok b
  | None => Ub
  end.

(** [span\[i\] = b]. *)
Definition st (l : list Z) (i : nat) (b : Z) : Res (list Z) :=
  if decide (i < length l) then Ok (<[i := b]> l) else Ub.

(** [span.subspan(off, len)] read as a value. *)
Definition subspan (l : list Z) (off len : nat) : Res (list Z) :=
  if decide (off + len ≤ length l) then Ok (take len (drop off l)) else Ub.

(** [span.subspan(off)], to the end. *)
Definition subspan_from (l : list Z) (off : nat) : Res (list Z) :=
  if decide (off ≤ length l) then Ok (drop off l) else Ub.

(** [span.first(len)]. *)
Definition first (l : list Z) (len : nat) : Res (list Z) := subspan l 0 len.

(** [std::ranges::copy(src, dst.begin() + off)]. *)
Definition copy_to (dst : list Z) (off : nat) (src : list Z) : Res (list Z) :=
  if decide (off + length src ≤ length dst)
  then Ok (take off dst ++ src ++ drop (off + length src) dst)
  else Ub.

(** ** Little- and big-endian reference readings *)

Fixpoint le_val (l : list Z) : Z :=
  match l with
  | [] => 0
  | b :: r => b + 256 * le_val r
  end%Z.

Fixpoint be_val (l : list Z) : Z :=
  match l with
  | [] => 0
  | b :: r => b * 256 ^ Z.of_nat (length r) + be_val r
  end%Z.

Fixpoint le_bytes (n : nat) (v : Z) : list Z :=
  match n with
  | O => []
  | S n' => (v mod 256)%Z :: le_bytes n' (v / 256)%Z
  end.

(** ** Automation *)

Create HintDb vpn discriminated.
Create Rewrite HintDb vpn_res.

Lemma bind_Ok {A B} (a : A) (f : A -> Res B) : (Ok a ≫= f) = f a.
Proof. reflexivity. Qed.
Lemma bind_Throw {A B} e (f : A -> Res B) : ((Throw e : Res A) ≫= f) = Throw e.
Proof. reflexivity. Qed.
Lemma bind_Ub {A B} (f : A -> Res B) : ((Ub : Res A) ≫= f) = Ub.
Proof. reflexivity. Qed.

#[export] Hint Rewrite @bind_Ok @bind_Throw @bind_Ub : vpn_res.

Lemma bind_Ok_inv {A B} (m : Res A) (f : A -> Res B) b :
  (m ≫= f) = Ok b -> exists a, m = Ok a /\ f a = Ok b.
Proof. destruct m; cbn; [eauto | done..]. Qed.

(** Step through every bind of a hypothesis that says a computation returned. *)
Ltac res_inv H :=
  repeat match type of H with
  | (_ ≫= _) = Ok _ =>
      let x := fresh "x" in let E := fresh "E" in
      apply bind_Ok_inv in H as (x & E & H)
  end.

(** Close the arithmetic side conditions of span accesses. *)
Ltac len :=
  repeat (rewrite length_app || rewrite length_take || rewrite length_drop ||
          rewrite length_insert || rewrite length_replicate);
  cbn [length]; lia.

(** Read the boolean tests of the code as propositions. *)
Ltac bool_hyps :=
  repeat match goal with
  | H : (_ =? _)%Z = true |- _ => apply Z.eqb_eq in H
  | H : (_ =? _)%Z = false |- _ => apply Z.eqb_neq in H
  | H : (_ <? _)%Z = true |- _ => apply Z.ltb_lt in H
  | H : (_ <? _)%Z = false |- _ => apply Z.ltb_ge in H
  | H : (_ <=? _)%Z = true |- _ => apply Z.leb_le in H
  | H : (_ <=? _)%Z = false |- _ => apply Z.leb_gt in H
  | H : (_ =? _) = true |- _ => apply Nat.eqb_eq in H
  | H : (_ =? _) = false |- _ => apply Nat.eqb_neq in H
  | H : (_ <? _) = true |- _ => apply Nat.ltb_lt in H
  | H : (_ <? _) = false |- _ => apply Nat.ltb_ge in H
  | H : _ && _ = true |- _ => apply andb_true_iff in H as [? ?]
  | H : _ || _ = false |- _ => apply orb_false_iff in H as [? ?]
  | H : negb _ = true |- _ => apply negb_true_iff in H
  | H : negb _ = false |- _ => apply negb_false_iff in H
  end.

(** ** Loops *)

Lemma for_loop_inv {S : Type} (P : nat -> S -> Prop) n i body (s : S) :
  (forall j t, i ≤ j < i + n -> P j t -> exists t', body j t = Ok t' /\ P (Datatypes.S j) t') ->
  P i s -> exists s', for_loop n i body s = Ok s' /\ P (i + n) s'.
Proof.
  revert i s. induction n as [|n IH]; intros i s Hstep H0; simpl.
  - exists s. by rewrite Nat.add_0_r.
  - destruct (Hstep i s ltac:(lia) H0) as (t & -> & Ht). cbn.
    rewrite <- Nat.add_succ_comm. apply IH; [|done].
    intros j u Hj. apply Hstep. lia.
Qed.

Lemma st_ok (l : list Z) i b : i < length l -> st l i b = Ok (<[i := b]> l).
Proof. intros. unfold st. by rewrite decide_True. Qed.

(** A loop that stores [f i] at [off + i] for [i] from [i0] on. *)
Lemma for_loop_st (f : nat -> Z) off n i (buf : list Z) :
  off + i + n ≤ length buf ->
  for_loop n i (fun j b => st b (off + j) (f j)) buf
  = Ok (take (off + i) buf ++ (f <$> seq i n) ++ drop (off + i + n) buf).
Proof.
  revert i buf. induction n as [|n IH]; intros i buf Hlen; cbn [for_loop seq fmap list_fmap].
  - by rewrite Nat.add_0_r, app_nil_l, take_drop.
  - rewrite st_ok by lia. rewrite bind_Ok, IH by len.
    f_equal.
    replace (off + S i) with (S (off + i)) by lia.
    rewrite (take_S_r _ _ (f i)) by (apply list_lookup_insert_eq; lia).
    rewrite take_insert_ge by lia. rewrite drop_insert_lt by lia.
    rewrite <- app_assoc. cbn. do 3 f_equal. f_equal. lia.
Qed.

Lemma for_loop_ext {S : Type} n i (body body' : nat -> S -> Res S) (s : S) :
  (forall j t, i ≤ j < i + n -> body j t = body' j t) ->
  for_loop n i body s = for_loop n i body' s.
Proof.
  revert i s. induction n as [|n IH]; intros i s H; simpl; [done|].
  rewrite H by lia. destruct (body' i s) as [t|e|]; cbn; [|done..].
  apply IH. intros. apply H. lia.
Qed.

(** Visiting every index of a list is mapping over it. *)
Lemma fmap_seq_lookup_total {B} (g : Z -> B) (l : list Z) :
  (fun i => g (l !!! i)) <$> seq 0 (length l) = g <$> l.
Proof.
  induction l as [|x l IH]; [done|]. cbn [length seq fmap list_fmap]. f_equal.
  rewrite <- fmap_S_seq, <- list_fmap_compose. exact IH.
Qed.

(** ** Spans *)

Lemma rd_lookup (l : list Z) i b : l !! i = Some b -> rd l i = Ok b.
Proof. unfold rd. by intros ->. Qed.

Lemma subspan_ok (l : list Z) off len :
  off + len ≤ length l -> subspan l off len = Ok (take len (drop off l)).
Proof. intros. unfold subspan. by rewrite decide_True. Qed.

Lemma subspan_app (pre mid post : list Z) off len :
  length pre = off -> length mid = len ->
  subspan (pre ++ mid ++ post) off len = Ok mid.
Proof.
  intros <- <-. rewrite subspan_ok by len.
  by rewrite drop_app_length, take_app_length.
Qed.

Lemma copy_to_app (pre rest src : list Z) off :
  length pre = off -> length src ≤ length rest ->
  copy_to (pre ++ rest) off src = Ok ((pre ++ src) ++ drop (length src) rest).
Proof.
  intros <- H. unfold copy_to. rewrite decide_True by len.
  rewrite take_app_length, drop_app, drop_ge by lia.
  rewrite <- app_assoc. do 3 f_equal. simpl. f_equal. lia.
Qed.

Lemma copy_to_start (l src : list Z) :
  length src ≤ length l -> copy_to l 0 src = Ok (src ++ drop (length src) l).
Proof. intros H. by apply (copy_to_app [] l src 0). Qed.

Lemma bytes_ok_app l k : bytes_ok (l ++ k) <-> bytes_ok l /\ bytes_ok k.
Proof. apply Forall_app. Qed.
Lemma bytes_ok_take n l : bytes_ok l -> bytes_ok (take n l).
Proof. apply Forall_take. Qed.
Lemma bytes_ok_drop n l : bytes_ok l -> bytes_ok (drop n l).
Proof. apply Forall_drop. Qed.
Lemma bytes_ok_replicate n : bytes_ok (replicate n 0%Z).
Proof. apply Forall_replicate. unfold is_u8. lia. Qed.
Lemma bytes_ok_nil : bytes_ok [].
Proof. constructor. Qed.
#[export] Hint Resolve bytes_ok_take bytes_ok_drop bytes_ok_replicate bytes_ok_nil : vpn.

(** ** Endianness *)

Lemma length_le_bytes n v : length (le_bytes n v) = n.
Proof. revert v. induction n; intros; simpl; auto. Qed.

Lemma bytes_ok_le_bytes n v : bytes_ok (le_bytes n v).
Proof.
  revert v. induction n; intros; simpl; constructor; [|apply IHn].
  unfold is_u8. apply Z.mod_pos_bound. lia.
Qed.
#[export] Hint Resolve bytes_ok_le_bytes : vpn.

Lemma land_255 z : Z.land z 255 = (z mod 256)%Z.
Proof. change 255%Z with (Z.ones 8). by rewrite Z.land_ones. Qed.

(** The loop form of the encoders: byte [i] is [(v >> 8 i) & 0xff]. *)
Lemma le_bytes_shift n v :
  le_bytes n v = (fun i => u8 (Z.land (Z.shiftr v (8 * Z.of_nat i)) 255)) <$> seq 0 n.
Proof.
  revert v. induction n as [|n IH]; intros v; [done|].
  cbn [le_bytes seq fmap list_fmap]. f_equal.
  - rewrite Z.shiftr_0_r, land_255. unfold u8. by rewrite Z.mod_mod.
  - rewrite IH, <- fmap_S_seq, <- list_fmap_compose. apply list_fmap_ext.
    intros i x _. cbn. do 2 f_equal.
    rewrite !Z.shiftr_div_pow2 by lia. rewrite Z.div_div by lia.
    f_equal. change 256%Z with (2 ^ 8)%Z. rewrite <- Z.pow_add_r by lia. f_equal. lia.
Qed.

Lemma le_val_bound l : bytes_ok l -> (0 <= le_val l < 256 ^ Z.of_nat (length l))%Z.
Proof.
  induction 1 as [|b l Hb _ IH]; simpl le_val; [simpl; lia|].
  cbn [length]. rewrite Nat2Z.inj_succ, Z.pow_succ_r by lia. unfold is_u8 in Hb. lia.
Qed.

Lemma le_val_app l k :
  le_val (l ++ k) = (le_val l + 256 ^ Z.of_nat (length l) * le_val k)%Z.
Proof.
  induction l as [|b l IH]; [simpl; lia|].
  cbn [app le_val length]. rewrite IH, Nat2Z.inj_succ, Z.pow_succ_r by lia. lia.
Qed.

Lemma le_val_le_bytes n v : le_val (le_bytes n v) = (v mod 256 ^ Z.of_nat n)%Z.
Proof.
  revert v. induction n as [|n IH]; intros v; cbn [le_bytes le_val].
  - by rewrite Z.mod_1_r.
  - rewrite IH, Nat2Z.inj_succ, Z.pow_succ_r by lia.
    pose proof (Z.pow_pos_nonneg 256 (Z.of_nat n)).
    rewrite Z.rem_mul_r by lia. done.
Qed.

Lemma le_bytes_le_val l : bytes_ok l -> le_bytes (length l) (le_val l) = l.
Proof.
  induction 1 as [|b l Hb _ IH]; [done|]. cbn [length le_bytes le_val].
  unfold is_u8 in Hb.
  replace (b + 256 * le_val l)%Z with (le_val l * 256 + b)%Z by lia.
  rewrite Z.div_add_l, Z.add_comm, Z.mod_add, Z.mod_small, Z.div_small by lia.
  by rewrite Z.add_0_r, IH.
Qed.

Lemma lor_disjoint_add a b k :
  (0 <= k)%Z -> (0 <= a < 2 ^ k)%Z -> Z.lor a (Z.shiftl b k) = (a + b * 2 ^ k)%Z.
Proof.
  intros Hk Ha. rewrite <- Z.shiftl_mul_pow2 by done. symmetry.
  assert (Z.land a (Z.shiftl b k) = 0)%Z as Hland.
  { apply Z.bits_inj'. intros n Hn. rewrite Z.land_spec, Z.bits_0, Z.shiftl_spec by done.
    destruct (decide (n < k)%Z).
    - by rewrite (Z.testbit_neg_r b (n - k)), andb_false_r by lia.
    - rewrite <- (Z.mod_small a (2 ^ k)) by done. by rewrite Z.mod_pow2_bits_high by lia. }
  by rewrite Z.add_nocarry_lxor, Z.lxor_lor.
Qed.

Lemma lxor_u8 a b : is_u8 a -> is_u8 b -> is_u8 (Z.lxor a b).
Proof.
  unfold is_u8. intros Ha Hb. split; [apply Z.lxor_nonneg; lia|].
  destruct (decide (Z.lxor a b = 0)%Z) as [->|Hne]; [lia|].
  apply Z.log2_lt_pow2; [pose proof (proj2 (Z.lxor_nonneg a b)); lia|].
  eapply Z.le_lt_trans; [apply Z.log2_lxor; lia|].
  apply Z.max_lub_lt.
  - destruct (decide (a = 0)%Z) as [->|]; [done|]. apply Z.log2_lt_pow2; lia.
  - destruct (decide (b = 0)%Z) as [->|]; [done|]. apply Z.log2_lt_pow2; lia.
Qed.

Lemma u8_small z : is_u8 z -> u8 z = z.
Proof. apply Z.mod_small. Qed.
Lemma u32_small z : is_u32 z -> u32 z = z.
Proof. apply Z.mod_small. Qed.
Lemma u64_small z : is_u64 z -> u64 z = z.
Proof. apply Z.mod_small. Qed.

Lemma be_val_bound l : bytes_ok l -> (0 <= be_val l < 256 ^ Z.of_nat (length l))%Z.
Proof.
  induction 1 as [|b l Hb _ IH]; simpl be_val; [simpl; lia|].
  cbn [length]. rewrite Nat2Z.inj_succ, Z.pow_succ_r by lia. unfold is_u8 in Hb. nia.
Qed.

(** Clearing the low [k] bits of a [w]-bit word. *)
Lemma land_lnot_ones x k w :
  (0 <= k)%Z -> (0 <= w)%Z -> (0 <= x < 2 ^ w)%Z ->
  Z.land x (Z.lnot (Z.ones k) mod 2 ^ w) = (x - x mod 2 ^ k)%Z.
Proof.
  intros Hk Hw Hx. rewrite <- (Z.land_ones _ w) by done.
  rewrite (Z.land_comm (Z.lnot _)), Z.land_assoc, Z.land_ones, Z.mod_small by done.
  rewrite <- Z.ldiff_land, Z.ldiff_ones_r by lia.
  rewrite Z.shiftl_mul_pow2, Z.shiftr_div_pow2 by lia.
  pose proof (Z.pow_pos_nonneg 2 k). pose proof (Z.div_mod x (2 ^ k)). lia.
Qed.

Lemma be_val_rev l : be_val l = le_val (rev l).
Proof.
  induction l as [|b l IH]; [done|]. cbn [rev be_val].
  rewrite le_val_app, IH, length_rev. cbn [le_val]. lia.
Qed.

Lemma bytes_ok_rev l : bytes_ok l -> bytes_ok (rev l).
Proof. apply List.Forall_rev. Qed.
#[export] Hint Resolve bytes_ok_rev : vpn.

Lemma be_val_app l k : be_val (l ++ k) = (be_val l * 256 ^ Z.of_nat (length k) + be_val k)%Z.
Proof. rewrite !be_val_rev, rev_app_distr, le_val_app, length_rev. lia. Qed.
