(* ===== verification/Wire.v ===== *)
(** * Wire: WireGuard message framing ([src/wire.h], [src/wire.cpp])

    The four message types, [decode], the four [encode] overloads,
    [encode_transport_header], the MAC offsets, the padding arithmetic and
    [inner_packet_length].  Every access goes through the checked span
    operations of [Prelude], so a read or write outside a buffer is [Ub].

    The reference is [serialize]: the concatenation of a message's fields.
    The theorems say that [decode] never leaves the datagram and is exactly
    the inverse of [serialize], that each [encode] writes [serialize] and
    nothing else, and that the lengths computed from attacker-controlled
    fields stay inside what was received. *)

From Stdlib Require Import ZArith Lia.
From stdpp Require Import base tactics numbers list option.
From S2P Require Import Prelude.

(** ** Constants *)

Inductive Type_ : Set :=
| handshake_initiation
| handshake_response
| cookie_reply
| transport_data.

Definition type_code (t : Type_) : Z :=
  match t with
  | handshake_initiation => 1
  | handshake_response => 2
  | cookie_reply => 3
  | transport_data => 4
  end%Z.

Definition kPrefix : nat := 4.
Definition kIndexSize : nat := 4.
Definition kCounterSize : nat := 8.
Definition kPublicKeySize : nat := 32.
Definition kTagSize : nat := 16.
Definition kMacSize : nat := 16.
Definition kTimestampSize : nat := 12.
Definition kCookieSize : nat := 16.
Definition kCookieNonceSize : nat := 24.
Definition kEncryptedStaticSize : nat := kPublicKeySize + kTagSize.
Definition kEncryptedTimestampSize : nat := kTimestampSize + kTagSize.
Definition kEncryptedNothingSize : nat := kTagSize.
Definition kEncryptedCookieSize : nat := kCookieSize + kTagSize.

Definition kInitiationSenderOffset : nat := 4.
Definition kInitiationEphemeralOffset : nat := 8.
Definition kInitiationStaticOffset : nat := 40.
Definition kInitiationTimestampOffset : nat := 88.
Definition kInitiationMac1Offset : nat := 116.
Definition kInitiationMac2Offset : nat := 132.
Definition kInitiationSize : nat := 148.

Definition kResponseSenderOffset : nat := 4.
Definition kResponseReceiverOffset : nat := 8.
Definition kResponseEphemeralOffset : nat := 12.
Definition kResponseNothingOffset : nat := 44.
Definition kResponseMac1Offset : nat := 60.
Definition kResponseMac2Offset : nat := 76.
Definition kResponseSize : nat := 92.

Definition kCookieReceiverOffset : nat := 4.
Definition kCookieNonceOffset : nat := 8.
Definition kCookieEncryptedOffset : nat := 32.
Definition kCookieReplySize : nat := 64.

Definition kTransportReceiverOffset : nat := 4.
Definition kTransportCounterOffset : nat := 8.
Definition kTransportHeaderSize : nat := 16.
Definition kTransportMinSize : nat := kTransportHeaderSize + kTagSize.

Definition kDefaultTunnelMtu : Z := 1420.
Definition kOuterOverhead : Z := 20 + 8.

(** [size_t] arithmetic, at its 64-bit width. *)
Definition padded_length (plaintext : Z) : Z :=
  Z.land (u64 (plaintext + 15)) (u64 (Z.lnot 15)).

Definition max_datagram (mtu : Z) : Z :=
  u64 (Z.of_nat kTransportHeaderSize + padded_length mtu + Z.of_nat kTagSize).

(** The [static_assert]s of the header, and that they hold. *)
Definition initiation_layout : bool :=
  (kInitiationEphemeralOffset =? kInitiationSenderOffset + kIndexSize) &&
  (kInitiationStaticOffset =? kInitiationEphemeralOffset + kPublicKeySize) &&
  (kInitiationTimestampOffset =? kInitiationStaticOffset + kEncryptedStaticSize) &&
  (kInitiationMac1Offset =? kInitiationTimestampOffset + kEncryptedTimestampSize) &&
  (kInitiationMac2Offset =? kInitiationMac1Offset + kMacSize) &&
  (kInitiationSize =? kInitiationMac2Offset + kMacSize).
Definition response_layout : bool :=
  (kResponseReceiverOffset =? kResponseSenderOffset + kIndexSize) &&
  (kResponseEphemeralOffset =? kResponseReceiverOffset + kIndexSize) &&
  (kResponseNothingOffset =? kResponseEphemeralOffset + kPublicKeySize) &&
  (kResponseMac1Offset =? kResponseNothingOffset + kEncryptedNothingSize) &&
  (kResponseMac2Offset =? kResponseMac1Offset + kMacSize) &&
  (kResponseSize =? kResponseMac2Offset + kMacSize).
Definition cookie_layout : bool :=
  (kCookieNonceOffset =? kCookieReceiverOffset + kIndexSize) &&
  (kCookieEncryptedOffset =? kCookieNonceOffset + kCookieNonceSize) &&
  (kCookieReplySize =? kCookieEncryptedOffset + kEncryptedCookieSize).
Definition transport_layout : bool :=
  (kTransportCounterOffset =? kTransportReceiverOffset + kIndexSize) &&
  (kTransportHeaderSize =? kTransportCounterOffset + kCounterSize).
Definition padding_asserts : bool :=
  (padded_length 0 =? 0)%Z && (padded_length 1 =? 16)%Z && (padded_length 16 =? 16)%Z &&
  (padded_length 1420 =? 1424)%Z && (max_datagram 1420 + kOuterOverhead =? 1484)%Z.

Example static_asserts_hold :
  initiation_layout && response_layout && cookie_layout && transport_layout && padding_asserts = true.
Proof. reflexivity. Qed.

(** ** Decoded messages *)

Record HandshakeInitiation : Type := mkInitiation {
  hi_sender_index : Z;
  hi_ephemeral : list Z;
  hi_encrypted_static : list Z;
  hi_encrypted_timestamp : list Z;
  hi_mac1 : list Z;
  hi_mac2 : list Z
}.

Record HandshakeResponse : Type := mkResponse {
  hr_sender_index : Z;
  hr_receiver_index : Z;
  hr_ephemeral : list Z;
  hr_encrypted_nothing : list Z;
  hr_mac1 : list Z;
  hr_mac2 : list Z
}.

Record CookieReply : Type := mkCookieReply {
  cr_receiver_index : Z;
  cr_nonce : list Z;
  cr_encrypted_cookie : list Z
}.

Record TransportData : Type := mkTransport {
  td_receiver_index : Z;
  td_counter : Z;
  td_sealed : list Z
}.

Inductive Message : Type :=
| MInitiation (m : HandshakeInitiation)
| MResponse (m : HandshakeResponse)
| MCookie (m : CookieReply)
| MTransport (m : TransportData).

(** ** Field access *)

Definition read_u32_le (b : list Z) : Res Z :=
  b0 ← rd b 0; b1 ← rd b 1; b2 ← rd b 2; b3 ← rd b 3;
  Ok (Z.lor (Z.lor (Z.lor b0 (u32 (Z.shiftl b1 8))) (u32 (Z.shiftl b2 16)))
            (u32 (Z.shiftl b3 24))).

Definition read_u64_le (b : list Z) : Res Z :=
  for_loop 8 0 (fun i value =>
    x ← rd b i; Ok (Z.lor value (u64 (Z.shiftl x (8 * Z.of_nat i))))) 0%Z.

(** [write_u32_le(buf.subspan<off, 4>(), value)]. *)
Definition write_u32_le (buf : list Z) (off : nat) (value : Z) : Res (list Z) :=
  if decide (off + 4 ≤ length buf) then
    for_loop 4 0 (fun i b =>
      st b (off + i) (u8 (Z.land (Z.shiftr value (8 * Z.of_nat i)) 255))) buf
  else Ub.

Definition write_u64_le (buf : list Z) (off : nat) (value : Z) : Res (list Z) :=
  if decide (off + 8 ≤ length buf) then
    for_loop 8 0 (fun i b =>
      st b (off + i) (u8 (Z.land (Z.shiftr value (8 * Z.of_nat i)) 255))) buf
  else Ub.

Definition write_prefix (out : list Z) (t : Type_) : Res (list Z) :=
  out ← st out 0 (type_code t);
  out ← st out 1 0%Z;
  out ← st out 2 0%Z;
  st out 3 0%Z.

(** Short-circuit evaluation: no byte is read before the size check. *)
Definition prefix_ok (d : list Z) : Res bool :=
  if decide (kPrefix ≤ length d) then
    b1 ← rd d 1;
    if negb (b1 =? 0)%Z then Ok false else
    b2 ← rd d 2;
    if negb (b2 =? 0)%Z then Ok false else
    b3 ← rd d 3;
    Ok (b3 =? 0)%Z
  else Ok false.

Record MacOffsets : Type := mkMacOffsets { mo_mac1 : nat; mo_mac2 : nat }.

Definition mac_offsets (message : list Z) : Res (option MacOffsets) :=
  ok ← prefix_ok message;
  if negb ok then Ok None else
  t ← rd message 0;
  if (t =? type_code handshake_initiation)%Z && (length message =? kInitiationSize)
  then Ok (Some (mkMacOffsets kInitiationMac1Offset kInitiationMac2Offset))
  else if (t =? type_code handshake_response)%Z && (length message =? kResponseSize)
  then Ok (Some (mkMacOffsets kResponseMac1Offset kResponseMac2Offset))
  else Ok None.

(** ** Decoding *)

Definition decode (datagram : list Z) : Res (option Message) :=
  ok ← prefix_ok datagram;
  if negb ok then Ok None else
  t ← rd datagram 0;
  if (t =? type_code handshake_initiation)%Z then
    if negb (length datagram =? kInitiationSize) then Ok None else
    si ← subspan datagram kInitiationSenderOffset kIndexSize;
    sender ← read_u32_le si;
    eph ← subspan datagram kInitiationEphemeralOffset kPublicKeySize;
    est ← subspan datagram kInitiationStaticOffset kEncryptedStaticSize;
    ets ← subspan datagram kInitiationTimestampOffset kEncryptedTimestampSize;
    m1 ← subspan datagram kInitiationMac1Offset kMacSize;
    m2 ← subspan datagram kInitiationMac2Offset kMacSize;
    Ok (Some (MInitiation (mkInitiation sender eph est ets m1 m2)))
  else if (t =? type_code handshake_response)%Z then
    if negb (length datagram =? kResponseSize) then Ok None else
    si ← subspan datagram kResponseSenderOffset kIndexSize;
    sender ← read_u32_le si;
    ri ← subspan datagram kResponseReceiverOffset kIndexSize;
    receiver ← read_u32_le ri;
    eph ← subspan datagram kResponseEphemeralOffset kPublicKeySize;
    eno ← subspan datagram kResponseNothingOffset kEncryptedNothingSize;
    m1 ← subspan datagram kResponseMac1Offset kMacSize;
    m2 ← subspan datagram kResponseMac2Offset kMacSize;
    Ok (Some (MResponse (mkResponse sender receiver eph eno m1 m2)))
  else if (t =? type_code cookie_reply)%Z then
    if negb (length datagram =? kCookieReplySize) then Ok None else
    ri ← subspan datagram kCookieReceiverOffset kIndexSize;
    receiver ← read_u32_le ri;
    nonce ← subspan datagram kCookieNonceOffset kCookieNonceSize;
    cookie ← subspan datagram kCookieEncryptedOffset kEncryptedCookieSize;
    Ok (Some (MCookie (mkCookieReply receiver nonce cookie)))
  else if (t =? type_code transport_data)%Z then
    if length datagram <? kTransportMinSize then Ok None else
    ri ← subspan datagram kTransportReceiverOffset kIndexSize;
    receiver ← read_u32_le ri;
    ci ← subspan datagram kTransportCounterOffset kCounterSize;
    counter ← read_u64_le ci;
    sealed ← subspan_from datagram kTransportHeaderSize;
    Ok (Some (MTransport (mkTransport receiver counter sealed)))
  else Ok None.

(** ** Encoding

    The result is the buffer after the call together with what the call
    returns: the length of the prefix of the buffer the returned span covers,
    or [None] for [nullopt]. *)

Definition encode_transport_header (out : list Z) (receiver_index counter : Z)
    : Res (list Z * option nat) :=
  if length out <? kTransportHeaderSize then Ok (out, None) else
  out ← write_prefix out transport_data;
  out ← write_u32_le out kTransportReceiverOffset receiver_index;
  out ← write_u64_le out kTransportCounterOffset counter;
  Ok (out, Some kTransportHeaderSize).

Definition encode_initiation (out : list Z) (msg : HandshakeInitiation)
    : Res (list Z * option nat) :=
  if length out <? kInitiationSize then Ok (out, None) else
  out ← write_prefix out handshake_initiation;
  out ← write_u32_le out kInitiationSenderOffset (hi_sender_index msg);
  out ← copy_to out kInitiationEphemeralOffset (hi_ephemeral msg);
  out ← copy_to out kInitiationStaticOffset (hi_encrypted_static msg);
  out ← copy_to out kInitiationTimestampOffset (hi_encrypted_timestamp msg);
  out ← copy_to out kInitiationMac1Offset (hi_mac1 msg);
  out ← copy_to out kInitiationMac2Offset (hi_mac2 msg);
  Ok (out, Some kInitiationSize).

Definition encode_response (out : list Z) (msg : HandshakeResponse)
    : Res (list Z * option nat) :=
  if length out <? kResponseSize then Ok (out, None) else
  out ← write_prefix out handshake_response;
  out ← write_u32_le out kResponseSenderOffset (hr_sender_index msg);
  out ← write_u32_le out kResponseReceiverOffset (hr_receiver_index msg);
  out ← copy_to out kResponseEphemeralOffset (hr_ephemeral msg);
  out ← copy_to out kResponseNothingOffset (hr_encrypted_nothing msg);
  out ← copy_to out kResponseMac1Offset (hr_mac1 msg);
  out ← copy_to out kResponseMac2Offset (hr_mac2 msg);
  Ok (out, Some kResponseSize).

Definition encode_cookie (out : list Z) (msg : CookieReply) : Res (list Z * option nat) :=
  if length out <? kCookieReplySize then Ok (out, None) else
  out ← write_prefix out cookie_reply;
  out ← write_u32_le out kCookieReceiverOffset (cr_receiver_index msg);
  out ← copy_to out kCookieNonceOffset (cr_nonce msg);
  out ← copy_to out kCookieEncryptedOffset (cr_encrypted_cookie msg);
  Ok (out, Some kCookieReplySize).

(** The header's own result is discarded, as in the source. *)
Definition encode_transport (out : list Z) (msg : TransportData) : Res (list Z * option nat) :=
  if length (td_sealed msg) <? kTagSize then Ok (out, None) else
  let total := kTransportHeaderSize + length (td_sealed msg) in
  if length out <? total then Ok (out, None) else
  r ← encode_transport_header out (td_receiver_index msg) (td_counter msg);
  out ← copy_to r.1 kTransportHeaderSize (td_sealed msg);
  Ok (out, Some total).

Definition encode (out : list Z) (msg : Message) : Res (list Z * option nat) :=
  match msg with
  | MInitiation m => encode_initiation out m
  | MResponse m => encode_response out m
  | MCookie m => encode_cookie out m
  | MTransport m => encode_transport out m
  end.

(** ** mac1 and mac2 *)

Definition mac1_input (message : list Z) : Res (option (list Z)) :=
  o ← mac_offsets message;
  match o with
  | None => Ok None
  | Some offsets => s ← first message (mo_mac1 offsets); Ok (Some s)
  end.

Definition mac2_input (message : list Z) : Res (option (list Z)) :=
  o ← mac_offsets message;
  match o with
  | None => Ok None
  | Some offsets => s ← first message (mo_mac2 offsets); Ok (Some s)
  end.

(** A mutable 16-byte view: the offset it starts at. *)
Definition mac1_field (message : list Z) : Res (option nat) :=
  o ← mac_offsets message;
  match o with
  | None => Ok None
  | Some offsets =>
      s ← subspan_from message (mo_mac1 offsets);
      _ ← first s kMacSize;
      Ok (Some (mo_mac1 offsets))
  end.

Definition mac2_field (message : list Z) : Res (option nat) :=
  o ← mac_offsets message;
  match o with
  | None => Ok None
  | Some offsets =>
      s ← subspan_from message (mo_mac2 offsets);
      _ ← first s kMacSize;
      Ok (Some (mo_mac2 offsets))
  end.

(** ** The inner IPv4 packet *)

Definition kMinIpv4Header : nat := 20.

Definition inner_packet_length (plaintext : list Z) : Res (option nat) :=
  if length plaintext <? kMinIpv4Header then Ok None else
  b0 ← rd plaintext 0;
  let version := u8 (Z.shiftr b0 4) in
  if negb (version =? 4)%Z then Ok None else
  let header_length := (Z.to_nat (Z.land b0 15) * 4)%nat in
  if (header_length <? kMinIpv4Header) || (length plaintext <? header_length) then Ok None else
  b2 ← rd plaintext 2;
  b3 ← rd plaintext 3;
  let total_length := Z.to_nat (Z.lor (Z.shiftl b2 8) b3) in
  if (total_length <? header_length) || (length plaintext <? total_length) then Ok None else
  Ok (Some total_length).

(** ** Reference: a message is its fields, one after the other *)

Definition prefix_of (t : Type_) : list Z := [type_code t; 0; 0; 0]%Z.

Definition transport_header (receiver counter : Z) : list Z :=
  prefix_of transport_data ++ le_bytes 4 receiver ++ le_bytes 8 counter.

Definition serialize (msg : Message) : list Z :=
  match msg with
  | MInitiation m =>
      prefix_of handshake_initiation ++ le_bytes 4 (hi_sender_index m) ++ hi_ephemeral m ++
      hi_encrypted_static m ++ hi_encrypted_timestamp m ++ hi_mac1 m ++ hi_mac2 m
  | MResponse m =>
      prefix_of handshake_response ++ le_bytes 4 (hr_sender_index m) ++
      le_bytes 4 (hr_receiver_index m) ++ hr_ephemeral m ++ hr_encrypted_nothing m ++
      hr_mac1 m ++ hr_mac2 m
  | MCookie m =>
      prefix_of cookie_reply ++ le_bytes 4 (cr_receiver_index m) ++ cr_nonce m ++
      cr_encrypted_cookie m
  | MTransport m =>
      prefix_of transport_data ++ le_bytes 4 (td_receiver_index m) ++
      le_bytes 8 (td_counter m) ++ td_sealed m
  end.

Definition field_ok (n : nat) (l : list Z) : Prop := length l = n /\ bytes_ok l.

(** What the C++ types of the fields guarantee: fixed extents and widths. *)
Definition wf_message (msg : Message) : Prop :=
  match msg with
  | MInitiation m =>
      is_u32 (hi_sender_index m) /\ field_ok 32 (hi_ephemeral m) /\
      field_ok 48 (hi_encrypted_static m) /\ field_ok 28 (hi_encrypted_timestamp m) /\
      field_ok 16 (hi_mac1 m) /\ field_ok 16 (hi_mac2 m)
  | MResponse m =>
      is_u32 (hr_sender_index m) /\ is_u32 (hr_receiver_index m) /\
      field_ok 32 (hr_ephemeral m) /\ field_ok 16 (hr_encrypted_nothing m) /\
      field_ok 16 (hr_mac1 m) /\ field_ok 16 (hr_mac2 m)
  | MCookie m =>
      is_u32 (cr_receiver_index m) /\ field_ok 24 (cr_nonce m) /\
      field_ok 32 (cr_encrypted_cookie m)
  | MTransport m =>
      is_u32 (td_receiver_index m) /\ is_u64 (td_counter m) /\
      bytes_ok (td_sealed m) /\ kTagSize ≤ length (td_sealed m)
  end.

#[export] Instance wf_message_dec msg : Decision (wf_message msg).
Proof. destruct msg; unfold wf_message, field_ok; apply _. Defined.

Create HintDb wire_consts.
#[export] Hint Unfold
  kPrefix kIndexSize kCounterSize kPublicKeySize kTagSize kMacSize kTimestampSize kCookieSize
  kCookieNonceSize kEncryptedStaticSize kEncryptedTimestampSize kEncryptedNothingSize kEncryptedCookieSize kInitiationSenderOffset
  kInitiationEphemeralOffset kInitiationStaticOffset kInitiationTimestampOffset kInitiationMac1Offset kInitiationMac2Offset
  kInitiationSize kResponseSenderOffset kResponseReceiverOffset kResponseEphemeralOffset kResponseNothingOffset
  kResponseMac1Offset kResponseMac2Offset kResponseSize kCookieReceiverOffset kCookieNonceOffset
  kCookieEncryptedOffset kCookieReplySize kTransportReceiverOffset kTransportCounterOffset kTransportHeaderSize
  kTransportMinSize kMinIpv4Header : wire_consts.

(** Side conditions on offsets and sizes. *)
Ltac wire_lia := autounfold with wire_consts in *; try len; lia.

(** Reduce the projections of a message's fields. *)
Ltac msg_fields :=
  cbn [wf_message serialize hi_sender_index hi_ephemeral hi_encrypted_static
       hi_encrypted_timestamp hi_mac1 hi_mac2 hr_sender_index hr_receiver_index hr_ephemeral
       hr_encrypted_nothing hr_mac1 hr_mac2 cr_receiver_index cr_nonce cr_encrypted_cookie
       td_receiver_index td_counter td_sealed].

(** ** Field lemmas *)

Lemma read_u32_le_ok b : field_ok 4 b -> read_u32_le b = Ok (le_val b).
Proof.
  intros [Hlen Hb]. destruct b as [|b0 [|b1 [|b2 [|b3 [|]]]]]; try done.
  unfold bytes_ok, is_u8 in Hb. decompose_Forall_hyps.
  unfold read_u32_le, rd. cbn [lookup list_lookup]. rewrite !bind_Ok. f_equal.
  unfold u32. rewrite !Z.mod_small by (rewrite Z.shiftl_mul_pow2 by lia; lia).
  rewrite (lor_disjoint_add b0) by lia. rewrite (lor_disjoint_add _ b2) by lia.
  rewrite lor_disjoint_add by lia. cbn [le_val]. lia.
Qed.

Lemma read_u64_le_ok b : field_ok 8 b -> read_u64_le b = Ok (le_val b).
Proof.
  intros [Hlen Hb]. unfold read_u64_le.
  destruct (for_loop_inv (fun i v => v = le_val (take i b)) 8 0
              (fun i value => x ← rd b i; Ok (Z.lor value (u64 (Z.shiftl x (8 * Z.of_nat i)))))
              0%Z) as (v & -> & ->).
  - intros j t Hj ->. destruct (lookup_lt_is_Some_2 b j ltac:(lia)) as [x Hx].
    rewrite (rd_lookup _ _ x), bind_Ok by done. eexists; split; [done|].
    rewrite (take_S_r _ _ _ Hx), le_val_app. cbn [le_val].
    pose proof (Forall_lookup_1 _ _ _ _ Hb Hx) as Hxb. unfold is_u8 in Hxb.
    pose proof (le_val_bound (take j b) (bytes_ok_take _ _ Hb)) as Hv.
    rewrite length_take, Nat.min_l in * by lia.
    replace (256 ^ Z.of_nat j)%Z with (2 ^ (8 * Z.of_nat j))%Z in *
      by (rewrite Z.pow_mul_r; [done | lia..]).
    unfold u64. rewrite Z.mod_small.
    + rewrite lor_disjoint_add by lia. lia.
    + rewrite Z.shiftl_mul_pow2 by lia.
      assert (2 ^ (8 * Z.of_nat j) <= 2 ^ 56)%Z by (apply Z.pow_le_mono_r; lia). nia.
  - done.
  - rewrite Nat.add_0_l, take_ge by lia. done.
Qed.

Lemma write_u32_le_app pre rest off v :
  length pre = off -> 4 ≤ length rest ->
  write_u32_le (pre ++ rest) off v = Ok ((pre ++ le_bytes 4 v) ++ drop 4 rest).
Proof.
  intros <- H. unfold write_u32_le. rewrite decide_True by len.
  rewrite for_loop_st by len. rewrite Nat.add_0_r, take_app_length, <- le_bytes_shift.
  by rewrite drop_app_add, <- app_assoc.
Qed.

Lemma write_u64_le_app pre rest off v :
  length pre = off -> 8 ≤ length rest ->
  write_u64_le (pre ++ rest) off v = Ok ((pre ++ le_bytes 8 v) ++ drop 8 rest).
Proof.
  intros <- H. unfold write_u64_le. rewrite decide_True by len.
  rewrite for_loop_st by len. rewrite Nat.add_0_r, take_app_length, <- le_bytes_shift.
  by rewrite drop_app_add, <- app_assoc.
Qed.

Lemma write_prefix_ok out t :
  4 ≤ length out -> write_prefix out t = Ok (prefix_of t ++ drop 4 out).
Proof. intros. destruct out as [|? [|? [|? [|? out]]]]; simpl in *; try lia. done. Qed.

Lemma length_prefix_of t : length (prefix_of t) = 4.
Proof. done. Qed.
Lemma bytes_ok_prefix_of t : bytes_ok (prefix_of t).
Proof. destruct t; repeat constructor; unfold is_u8; simpl; lia. Qed.
#[export] Hint Resolve bytes_ok_prefix_of : vpn.

Lemma prefix_ok_spec d :
  exists b, prefix_ok d = Ok b /\
    (b = true <-> exists t rest, d = t :: 0%Z :: 0%Z :: 0%Z :: rest).
Proof.
  unfold prefix_ok, kPrefix. case_decide as Hlen.
  - destruct d as [|t [|b1 [|b2 [|b3 rest]]]]; simpl in Hlen; try lia.
    unfold rd; cbn [lookup list_lookup]; rewrite !bind_Ok.
    destruct (Z.eqb_spec b1 0) as [->|]; cbn [negb].
    + destruct (Z.eqb_spec b2 0) as [->|]; cbn [negb].
      * exists (b3 =? 0)%Z. split; [done|]. rewrite Z.eqb_eq. split; [intros ->; eauto | by intros (?&?&[= -> -> ->])].
      * exists false. split; [done|]. split; [done | by intros (?&?&[= ])].
    + exists false. split; [done|]. split; [done | by intros (?&?&[= ])].
  - exists false. split; [done|]. split; [done|]. intros (t & rest & ->). simpl in Hlen. lia.
Qed.

(** ** Decoding is the inverse of [serialize] *)

Definition sub (l : list Z) (off n : nat) : list Z := take n (drop off l).

Lemma field_ok_sub l off n : bytes_ok l -> off + n ≤ length l -> field_ok n (sub l off n).
Proof.
  intros Hl Hlen. split; [unfold sub; len|]. unfold sub. auto with vpn.
Qed.

Lemma sub_chain l off n : sub l off n ++ drop (off + n) l = drop off l.
Proof. unfold sub. by rewrite <- drop_drop, take_drop. Qed.

Lemma le_bytes_read l n : field_ok n l -> le_bytes n (le_val l) = l.
Proof. intros [<- Hl]. by apply le_bytes_le_val. Qed.

Lemma le_val_u32 l : field_ok 4 l -> is_u32 (le_val l).
Proof. intros [Hl Hb]. pose proof (le_val_bound _ Hb) as H. rewrite Hl in H. exact H. Qed.
Lemma le_val_u64 l : field_ok 8 l -> is_u64 (le_val l).
Proof. intros [Hl Hb]. pose proof (le_val_bound _ Hb) as H. rewrite Hl in H. exact H. Qed.

Lemma le_val_le_bytes4 v : is_u32 v -> le_val (le_bytes 4 v) = v.
Proof. intros H. rewrite le_val_le_bytes. by apply Z.mod_small. Qed.
Lemma le_val_le_bytes8 v : is_u64 v -> le_val (le_bytes 8 v) = v.
Proof. intros H. rewrite le_val_le_bytes. by apply Z.mod_small. Qed.

(** What [decode] computes, without the outcomes that cannot happen. *)
Definition decode_fields (d : list Z) (t : Z) : option Message :=
  if (t =? 1)%Z then
    if length d =? 148 then
      Some (MInitiation (mkInitiation (le_val (sub d 4 4)) (sub d 8 32) (sub d 40 48)
              (sub d 88 28) (sub d 116 16) (sub d 132 16)))
    else None
  else if (t =? 2)%Z then
    if length d =? 92 then
      Some (MResponse (mkResponse (le_val (sub d 4 4)) (le_val (sub d 8 4)) (sub d 12 32)
              (sub d 44 16) (sub d 60 16) (sub d 76 16)))
    else None
  else if (t =? 3)%Z then
    if length d =? 64 then
      Some (MCookie (mkCookieReply (le_val (sub d 4 4)) (sub d 8 24) (sub d 32 32)))
    else None
  else if (t =? 4)%Z then
    if length d <? 32 then None
    else Some (MTransport (mkTransport (le_val (sub d 4 4)) (le_val (sub d 8 8)) (drop 16 d)))
  else None.

Ltac decode_field :=
  match goal with
  | |- context [subspan ?d ?o ?n ≫= _] =>
      rewrite (subspan_ok d o n) by wire_lia; rewrite bind_Ok; fold (sub d o n)
  | |- context [read_u32_le ?b ≫= _] =>
      rewrite (read_u32_le_ok b), bind_Ok by (apply field_ok_sub; [done | wire_lia])
  | |- context [read_u64_le ?b ≫= _] =>
      rewrite (read_u64_le_ok b), bind_Ok by (apply field_ok_sub; [done | wire_lia])
  end.

Ltac size_test :=
  match goal with
  | |- context [length ?d =? ?k] => destruct (Nat.eqb_spec (length d) k); cbn [negb]
  | |- context [length ?d <? ?k] => destruct (Nat.ltb_spec (length d) k); cbn [negb]
  end.

Lemma decode_eq d :
  bytes_ok d ->
  (exists t rest, d = t :: 0%Z :: 0%Z :: 0%Z :: rest /\ decode d = Ok (decode_fields d t)) \/
  (~ (exists t rest, d = t :: 0%Z :: 0%Z :: 0%Z :: rest)) /\ decode d = Ok None.
Proof.
  intros Hd. destruct (prefix_ok_spec d) as ([] & Hp & Hiff).
  - left. destruct (proj1 Hiff eq_refl) as (t & rest & Heq). exists t, rest. split; [done|].
    unfold decode. rewrite Hp, bind_Ok. cbn [negb].
    rewrite (rd_lookup _ _ t), bind_Ok by by subst.
    unfold decode_fields, type_code.
    repeat match goal with |- context [(t =? ?k)%Z] => destruct (t =? k)%Z end; try done.
    all: autounfold with wire_consts; repeat size_test; try done; try lia.
    all: repeat decode_field; try done.
    all: unfold subspan_from; rewrite decide_True by wire_lia; done.
  - right. split; [|unfold decode; by rewrite Hp]. intros H. by apply Hiff in H.
Qed.

Lemma prefix_split d t rest ty :
  d = t :: 0%Z :: 0%Z :: 0%Z :: rest -> t = type_code ty -> d = prefix_of ty ++ drop 4 d.
Proof. by intros -> ->. Qed.

(** Rewrite [drop o d] into the next field followed by the rest. *)
Ltac unchain :=
  repeat match goal with
  | |- drop ?o ?d = sub ?d ?o ?n ++ _ =>
      transitivity (sub d o n ++ drop (o + n) d); [symmetry; apply sub_chain | f_equal; cbn [Nat.add]]
  | |- drop ?o ?d = sub ?d ?o ?n => unfold sub; rewrite take_ge; [done | len]
  end.

Lemma decode_sound d m :
  bytes_ok d -> decode d = Ok (Some m) -> wf_message m /\ d = serialize m.
Proof.
  intros Hd Hm. destruct (decode_eq d Hd) as [(t & rest & Heq & Hdec)|[_ Hdec]];
    rewrite Hdec in Hm; [|done].
  injection Hm as Hm. clear Hdec. unfold decode_fields in Hm.
  assert (forall o n, o + n ≤ length d -> field_ok n (sub d o n)) as Hsub
    by (intros; by apply field_ok_sub).
  repeat case_match; simplify_eq Hm; intros <-; bool_hyps; msg_fields.
  all: rewrite !le_bytes_read by (apply Hsub; lia).
  all: split; [repeat split_and; try apply le_val_u32; try apply le_val_u64; try apply Hsub;
               try wire_lia; by auto with vpn|].
  all: match goal with |- _ = prefix_of ?ty ++ _ =>
         transitivity (prefix_of ty ++ drop 4 d); [by eapply prefix_split | f_equal] end.
  all: unchain; done.
Qed.

Lemma sub_head mid post n : length mid = n -> sub (mid ++ post) 0 n = mid.
Proof. intros <-. unfold sub. by rewrite drop_0, take_app_length. Qed.
Lemma sub_all mid n : length mid = n -> sub mid 0 n = mid.
Proof. intros <-. unfold sub. by rewrite drop_0, firstn_all. Qed.
Lemma sub_skip pre rest off n :
  length pre ≤ off -> sub (pre ++ rest) off n = sub rest (off - length pre) n.
Proof. intros. unfold sub. by rewrite drop_app_ge. Qed.

(** Rewrite the lengths of fields with their known sizes. *)
Ltac known_lengths :=
  rewrite ?length_app, ?length_le_bytes, ?length_prefix_of;
  repeat match goal with H : length ?x = _ |- context [length ?x] => rewrite H end.

(** Walk [sub (f1 ++ f2 ++ ...) off n] to the field it selects. *)
Ltac sub_walk :=
  repeat match goal with
  | |- context [sub (?pre ++ ?rest) ?off ?n] =>
      first [ rewrite (sub_head pre rest n) by (known_lengths; reflexivity)
            | rewrite (sub_skip pre rest off n) by (known_lengths; lia);
              known_lengths; cbn [Nat.sub] ]
  | |- context [sub ?mid 0 ?n] => rewrite (sub_all mid n) by assumption
  end.

Lemma bytes_ok_serialize m : wf_message m -> bytes_ok (serialize m).
Proof.
  destruct m; cbn [wf_message serialize]; unfold field_ok; intros; destruct_and?;
    rewrite ?bytes_ok_app; repeat split_and; auto with vpn.
Qed.

Definition serialized_length (m : Message) : nat :=
  match m with
  | MInitiation _ => 148
  | MResponse _ => 92
  | MCookie _ => 64
  | MTransport m => 16 + length (td_sealed m)
  end.

Lemma length_serialize m : wf_message m -> length (serialize m) = serialized_length m.
Proof.
  destruct m; cbn [wf_message serialize serialized_length]; unfold field_ok;
    intros; destruct_and?; unfold transport_header; known_lengths; lia.
Qed.

Lemma decode_complete m : wf_message m -> decode (serialize m) = Ok (Some m).
Proof.
  intros Hwf. pose proof (bytes_ok_serialize m Hwf) as Hb.
  destruct (decode_eq _ Hb) as [(t & rest & Heq & ->)|[Hno _]].
  - f_equal. clear Hb.
    destruct m as [[]|[]|[]|[]]; cbn in Heq; injection Heq as <- _; cbn in Hwf;
      unfold field_ok in Hwf; destruct_and!; unfold decode_fields; cbn [Z.eqb Pos.eqb].
    all: msg_fields.
    all: known_lengths; cbn [Nat.add Nat.eqb].
    all: sub_walk; rewrite ?le_val_le_bytes4, ?le_val_le_bytes8 by done; try done.
    case_match eqn:Hlt; [|done]. bool_hyps. wire_lia.
  - exfalso. apply Hno. destruct m; eexists _, _; reflexivity.
Qed.

(** ** Encoding writes [serialize] *)

(** One write of an encoder, at the end of what was written so far. *)
Ltac write_step :=
  match goal with
  | |- context [write_prefix ?o ?t ≫= _] =>
      rewrite (write_prefix_ok o t), bind_Ok by wire_lia
  | |- context [write_u32_le (?pre ++ ?rest) ?off ?v ≫= _] =>
      rewrite (write_u32_le_app pre rest off v), bind_Ok by (known_lengths; wire_lia)
  | |- context [write_u64_le (?pre ++ ?rest) ?off ?v ≫= _] =>
      rewrite (write_u64_le_app pre rest off v), bind_Ok by (known_lengths; wire_lia)
  | |- context [copy_to (?pre ++ ?rest) ?off ?s ≫= _] =>
      rewrite (copy_to_app pre rest s off), bind_Ok by (known_lengths; wire_lia)
  end; rewrite ?drop_drop.

Ltac write_steps :=
  repeat write_step; known_lengths; cbn [Nat.add]; rewrite <- ?app_assoc.

Lemma encode_transport_header_ok out r c :
  16 ≤ length out ->
  encode_transport_header out r c = Ok (transport_header r c ++ drop 16 out, Some 16).
Proof.
  intros H. unfold encode_transport_header.
  destruct (Nat.ltb_spec (length out) kTransportHeaderSize); [wire_lia|].
  write_steps. done.
Qed.

Lemma length_transport_header r c : length (transport_header r c) = 16.
Proof. unfold transport_header. by known_lengths. Qed.

Lemma encode_ok out m :
  wf_message m -> length (serialize m) ≤ length out ->
  encode out m = Ok (serialize m ++ drop (length (serialize m)) out, Some (length (serialize m))).
Proof.
  intros Hwf. destruct m as [m|m|m|m]; cbn [wf_message] in Hwf; unfold field_ok in Hwf;
    destruct_and!; cbn [encode serialize]; known_lengths; intros Hlen.
  - unfold encode_initiation. destruct (Nat.ltb_spec (length out) kInitiationSize); [wire_lia|].
    by write_steps.
  - unfold encode_response. destruct (Nat.ltb_spec (length out) kResponseSize); [wire_lia|].
    by write_steps.
  - unfold encode_cookie. destruct (Nat.ltb_spec (length out) kCookieReplySize); [wire_lia|].
    by write_steps.
  - unfold encode_transport. destruct (Nat.ltb_spec (length (td_sealed m)) kTagSize); [wire_lia|].
    destruct (Nat.ltb_spec (length out) (kTransportHeaderSize + length (td_sealed m))); [wire_lia|].
    rewrite encode_transport_header_ok, bind_Ok by wire_lia. cbn [fst].
    rewrite copy_to_app, bind_Ok by (rewrite ?length_transport_header; wire_lia).
    unfold transport_header. rewrite drop_drop, <- !app_assoc. do 3 f_equal.
Qed.

Lemma encode_short out m :
  wf_message m -> length out < length (serialize m) -> encode out m = Ok (out, None).
Proof.
  intros Hwf. destruct m as [m|m|m|m]; cbn [wf_message] in Hwf; unfold field_ok in Hwf;
    destruct_and!; cbn [encode serialize]; known_lengths; intros Hlen.
  - unfold encode_initiation. by rewrite (proj2 (Nat.ltb_lt _ _)) by wire_lia.
  - unfold encode_response. by rewrite (proj2 (Nat.ltb_lt _ _)) by wire_lia.
  - unfold encode_cookie. by rewrite (proj2 (Nat.ltb_lt _ _)) by wire_lia.
  - unfold encode_transport. rewrite (proj2 (Nat.ltb_ge _ kTagSize)) by wire_lia.
    by rewrite (proj2 (Nat.ltb_lt _ _)) by wire_lia.
Qed.

(** ** MAC offsets *)

Lemma prefix_ok_prefix ty r : prefix_ok (prefix_of ty ++ r) = Ok true.
Proof.
  destruct (prefix_ok_spec (prefix_of ty ++ r)) as (b & -> & Hb). f_equal. apply Hb.
  by eexists _, _.
Qed.

Lemma rd_prefix ty r : rd (prefix_of ty ++ r) 0 = Ok (type_code ty).
Proof. done. Qed.

Lemma mac_offsets_handshake ty r :
  mac_offsets (prefix_of ty ++ r) =
  Ok match ty with
     | handshake_initiation =>
         if length r =? 144 then Some (mkMacOffsets 116 132) else None
     | handshake_response =>
         if length r =? 88 then Some (mkMacOffsets 60 76) else None
     | _ => None
     end.
Proof.
  unfold mac_offsets. rewrite prefix_ok_prefix, rd_prefix, !bind_Ok. cbn [negb].
  destruct ty; cbn; by try case_match.
Qed.

Lemma first_app pre r n : length pre = n -> first (pre ++ r) n = Ok pre.
Proof.
  intros <-. unfold first. rewrite subspan_ok by len. by rewrite drop_0, take_app_length.
Qed.

(** A handshake message that starts with [ty] and ends in its two MAC fields. *)
Lemma mac_fields_handshake ty body mac1 mac2 :
  (ty = handshake_initiation /\ length body = 112 \/ ty = handshake_response /\ length body = 56) ->
  length mac1 = 16 -> length mac2 = 16 ->
  let pre := prefix_of ty ++ body in
  let d := pre ++ mac1 ++ mac2 in
  mac1_input d = Ok (Some pre) /\ mac2_input d = Ok (Some (pre ++ mac1)) /\
  mac1_field d = Ok (Some (length pre)) /\ mac2_field d = Ok (Some (length pre + 16)).
Proof.
  intros Hty H1 H2 pre d.
  assert (mac_offsets d = Ok (Some (mkMacOffsets (length pre) (length pre + 16)))) as Ho.
  { unfold d, pre. rewrite <- app_assoc, mac_offsets_handshake. known_lengths.
    by destruct Hty as [[-> Hb]|[-> Hb]]; rewrite Hb. }
  unfold mac1_input, mac2_input, mac1_field, mac2_field, subspan_from. rewrite Ho, !bind_Ok.
  cbn [mo_mac1 mo_mac2].
  unfold d. rewrite (first_app pre) by done. rewrite app_assoc, first_app by (rewrite length_app; lia).
  rewrite !decide_True by len. rewrite !bind_Ok. unfold first.
  rewrite !subspan_ok by (unfold kMacSize; len). done.
Qed.

(** ** Padding arithmetic *)

Lemma land_not_15 x : is_u64 x -> Z.land x (u64 (Z.lnot 15)) = (x - x mod 16)%Z.
Proof.
  intros Hx. apply (land_lnot_ones x 4 64); [lia | lia | exact Hx].
Qed.

Lemma padded_length_eq n :
  (0 <= n)%Z -> (n + 15 < 2 ^ 64)%Z -> padded_length n = (16 * ((n + 15) / 16))%Z.
Proof.
  intros H0 H1. unfold padded_length. rewrite land_not_15; unfold u64, is_u64.
  - rewrite Z.mod_small by lia. pose proof (Z.div_mod (n + 15) 16). lia.
  - apply Z.mod_pos_bound. lia.
Qed.

Lemma padded_length_facts n :
  (0 <= n)%Z -> (n + 15 < 2 ^ 64)%Z ->
  (padded_length n mod 16 = 0 /\ n <= padded_length n < n + 16)%Z.
Proof.
  intros. rewrite padded_length_eq by done. split.
  - rewrite Z.mul_comm. by apply Z.mod_mul.
  - pose proof (Z.div_mod (n + 15) 16). pose proof (Z.mod_pos_bound (n + 15) 16). lia.
Qed.

Lemma padded_length_wrap n :
  (2 ^ 64 - 15 <= n < 2 ^ 64)%Z -> padded_length n = 0%Z.
Proof.
  intros. unfold padded_length. rewrite land_not_15; unfold u64, is_u64.
  - replace ((n + 15) mod 2 ^ 64)%Z with (n + 15 - 2 ^ 64)%Z
      by (rewrite <- (Z.mod_add _ (-1)), Z.mod_small; lia).
    rewrite Z.mod_small by lia. lia.
  - apply Z.mod_pos_bound. lia.
Qed.

(** ** The inner packet *)

Lemma inner_packet_length_eq p b0 b1 b2 b3 r :
  bytes_ok p -> p = b0 :: b1 :: b2 :: b3 :: r ->
  inner_packet_length p = Ok
    (let hl := Z.to_nat (b0 mod 16 * 4) in let n := Z.to_nat (256 * b2 + b3) in
     if decide (20 ≤ length p /\ (b0 / 16 = 4)%Z /\ 20 ≤ hl /\ hl ≤ n /\ n ≤ length p)
     then Some n else None).
Proof.
  intros Hok Hp. assert (is_u8 b0 /\ is_u8 b2 /\ is_u8 b3) as (H0 & H2 & H3)
    by (subst; unfold bytes_ok in Hok; decompose_Forall_hyps; done).
  unfold is_u8 in *. unfold inner_packet_length, kMinIpv4Header. cbv zeta.
  rewrite (rd_lookup p 0 b0), (rd_lookup p 2 b2), (rd_lookup p 3 b3) by by subst.
  rewrite !bind_Ok. change 15%Z with (Z.ones 4). rewrite Z.land_ones by lia.
  rewrite Z.shiftr_div_pow2 by lia. change (2 ^ 4)%Z with 16%Z. unfold u8.
  pose proof (Z.mod_pos_bound b0 16). pose proof (Z.div_mod b0 16).
  rewrite (Z.mod_small (b0 / 16)) by lia.
  rewrite Z.lor_comm, lor_disjoint_add by lia. change (2 ^ 8)%Z with 256%Z.
  replace (Z.to_nat (b0 mod 16 * 4)) with (Z.to_nat (b0 mod 16) * 4) by lia.
  replace (b3 + b2 * 256)%Z with (256 * b2 + b3)%Z by lia.
  repeat match goal with
  | |- context [if ?b then Ok None else _] => destruct b eqn:?
  end; bool_hyps; first [rewrite decide_True by lia; done | rewrite decide_False; [done|]].
  all: repeat match goal with H : _ || _ = true |- _ => apply orb_true_iff in H as [H|H] end.
  all: bool_hyps; lia.
Qed.

(** ** Theorems *)

Definition demo_transport : Message :=
  MTransport (mkTransport 7 (2 ^ 33 + 5)%Z (replicate 16 9%Z)).
Definition demo_response : Message :=
  MResponse (mkResponse 258 77 (replicate 32 1%Z) (replicate 16 2%Z) (replicate 16 3%Z)
               (replicate 16 0%Z)).

Lemma demo_transport_wf : wf_message demo_transport.
Proof. apply (bool_decide_unpack _). by vm_compute. Defined.
Lemma demo_response_wf : wf_message demo_response.
Proof. apply (bool_decide_unpack _). by vm_compute. Defined.

(** [C31] [decode] never reads outside the datagram, never throws, and accepts
    exactly the serialised forms of well-formed messages: it returns [m] if
    and only if the datagram is, byte for byte, the fields of [m]. *)
Theorem wire_decode_exact d :
  bytes_ok d ->
  (exists r, decode d = Ok r) /\
  (forall m, decode d = Ok (Some m) <-> wf_message m /\ d = serialize m).
Proof.
  intros Hd. split.
  - destruct (decode_eq d Hd) as [(?&?&_&->)|[_ ->]]; eauto.
  - intros m. split; [by apply decode_sound|]. intros [Hwf ->]. by apply decode_complete.
Qed.

Lemma wire_decode_exact_witness :
  decode (serialize demo_transport) = Ok (Some demo_transport).
Proof.
  apply (proj2 (wire_decode_exact (serialize demo_transport)
                  (bytes_ok_serialize _ demo_transport_wf)) demo_transport).
  split; [exact demo_transport_wf | reflexivity].
Defined.

(** Every [encode] overload writes exactly the serialised message into the
    front of the buffer and leaves the rest alone; when the buffer is too
    small it returns [nullopt] and writes nothing. *)
Lemma wire_encode_exact out m :
  wf_message m ->
  encode out m =
  if decide (length (serialize m) ≤ length out)
  then Ok (serialize m ++ drop (length (serialize m)) out, Some (length (serialize m)))
  else Ok (out, None).
Proof.
  intros Hwf. case_decide; [by apply encode_ok|]. apply encode_short; [done|lia].
Qed.

(** [C32] Encoding then decoding the span [encode] returns gives the message
    back, in any buffer large enough to hold it. *)
Theorem wire_encode_decode out m :
  wf_message m -> length (serialize m) ≤ length out ->
  exists out' n, encode out m = Ok (out', Some n) /\ length out' = length out /\
    decode (take n out') = Ok (Some m).
Proof.
  intros Hwf Hlen. rewrite encode_ok by done. eexists _, _; split; [done|].
  split; [len|]. rewrite take_app_length. by apply decode_complete.
Qed.

Lemma wire_encode_decode_witness :
  exists out' n, encode (replicate 100 255%Z) demo_response = Ok (out', Some n) /\
    length out' = length (replicate 100 255%Z) /\ decode (take n out') = Ok (Some demo_response).
Proof. apply wire_encode_decode; [exact demo_response_wf | vm_compute; lia]. Defined.

(** The MAC views of a handshake message: mac1 covers every byte before the
    mac1 field and mac2 every byte before the mac2 field, the two fields are
    the last 32 bytes, and no other message has MAC fields. *)
Lemma wire_mac_layout m :
  wf_message m ->
  let d := serialize m in
  match m with
  | MInitiation _ | MResponse _ =>
      exists body mac1 mac2, d = body ++ mac1 ++ mac2 /\ length mac1 = 16 /\ length mac2 = 16 /\
        (match m with
         | MInitiation i => hi_mac1 i = mac1 /\ hi_mac2 i = mac2
         | MResponse r => hr_mac1 r = mac1 /\ hr_mac2 r = mac2
         | _ => False
         end) /\
        mac1_input d = Ok (Some body) /\ mac2_input d = Ok (Some (body ++ mac1)) /\
        mac1_field d = Ok (Some (length body)) /\ mac2_field d = Ok (Some (length body + 16))
  | _ => mac1_input d = Ok None /\ mac2_input d = Ok None /\
         mac1_field d = Ok None /\ mac2_field d = Ok None
  end.
Proof.
  intros Hwf d. destruct m as [m|m|m|m]; cbn [wf_message] in Hwf; unfold field_ok in Hwf;
    destruct_and!.
  - set (body := le_bytes 4 (hi_sender_index m) ++ hi_ephemeral m ++ hi_encrypted_static m ++
                 hi_encrypted_timestamp m).
    assert (d = (prefix_of handshake_initiation ++ body) ++ hi_mac1 m ++ hi_mac2 m) as ->
      by (unfold d, body; cbn [serialize]; by rewrite <- !app_assoc).
    eexists _, _, _. split; [done|]. do 3 (split; [done|]).
    apply mac_fields_handshake; [left; split; [done|] | done..]. unfold body. by known_lengths.
  - set (body := le_bytes 4 (hr_sender_index m) ++ le_bytes 4 (hr_receiver_index m) ++
                 hr_ephemeral m ++ hr_encrypted_nothing m).
    assert (d = (prefix_of handshake_response ++ body) ++ hr_mac1 m ++ hr_mac2 m) as ->
      by (unfold d, body; cbn [serialize]; by rewrite <- !app_assoc).
    eexists _, _, _. split; [done|]. do 3 (split; [done|]).
    apply mac_fields_handshake; [right; split; [done|] | done..]. unfold body. by known_lengths.
  - unfold mac1_input, mac2_input, mac1_field, mac2_field, d. cbn [serialize].
    by rewrite mac_offsets_handshake.
  - unfold mac1_input, mac2_input, mac1_field, mac2_field, d. cbn [serialize].
    by rewrite mac_offsets_handshake.
Qed.

(** The padded length is the least multiple of 16 that holds the plaintext,
    for every length below the 64-bit wrap; in the last 15 values of
    [size_t] the addition wraps and the result is 0. *)
Lemma wire_padded_length n :
  is_u64 n ->
  if decide (n + 15 < 2 ^ 64)%Z
  then (padded_length n mod 16 = 0)%Z /\ (n <= padded_length n < n + 16)%Z
  else padded_length n = 0%Z.
Proof.
  unfold is_u64. intros Hn. case_decide.
  - apply padded_length_facts; lia.
  - apply padded_length_wrap. lia.
Qed.

(** [C33] [inner_packet_length] never reads outside the plaintext, and returns
    [n] exactly when the plaintext starts with a 20-byte-or-longer IPv4
    header whose own length and total length [n] both fit in it. *)
Theorem wire_inner_packet_length p :
  bytes_ok p ->
  (exists r, inner_packet_length p = Ok r) /\
  (forall n, inner_packet_length p = Ok (Some n) <->
     exists b0 b1 b2 b3 r, p = b0 :: b1 :: b2 :: b3 :: r /\ 20 ≤ length p /\ (b0 / 16 = 4)%Z /\
       (20 <= b0 mod 16 * 4 <= 256 * b2 + b3)%Z /\ n = Z.to_nat (256 * b2 + b3) /\ n ≤ length p).
Proof.
  intros Hok. destruct (decide (20 ≤ length p)) as [Hlen|Hlen].
  - destruct p as [|b0 [|b1 [|b2 [|b3 r]]]] eqn:Hp; try (simpl in Hlen; lia). rewrite <- Hp in *.
    pose proof (inner_packet_length_eq p b0 b1 b2 b3 r Hok Hp) as He. cbv zeta in He.
    split; [eauto|]. intros n. rewrite He. split.
    + intros Hn. case_decide; [|done]. injection Hn as <-.
      exists b0, b1, b2, b3, r. repeat split_and; (done || lia).
    + intros (? & ? & ? & ? & ? & Hp' & ? & ? & ? & -> & ?).
      rewrite Hp in Hp'. injection Hp' as <- <- <- <- <-.
      rewrite decide_True; [done|]. repeat split_and; (done || lia).
  - unfold inner_packet_length. rewrite (proj2 (Nat.ltb_lt _ _)) by (unfold kMinIpv4Header; lia).
    split; [eauto|]. intros n. split; [done|]. intros (?&?&?&?&?&?&?&?). lia.
Qed.

Definition demo_ipv4 : list Z := (69 :: 0 :: 0 :: 24 :: replicate 28 1)%Z.

Lemma wire_inner_packet_length_witness : inner_packet_length demo_ipv4 = Ok (Some 24).
Proof.
  apply (proj2 (wire_inner_packet_length demo_ipv4 ltac:(apply (bool_decide_unpack _); by vm_compute))).
  eexists _, _, _, _, _. split; [reflexivity|]. vm_compute. repeat split; try lia; intros; discriminate.
Defined.
