(* ===== verification/Crypto.v ===== *)
(** * Crypto: the wrappers of [src/crypto.h], [src/crypto.cpp], [src/secure_buf.h]

    BLAKE2s comes from libb2 and X25519, the AEADs, the constant-time compare
    and base64 from libsodium: neither is part of this repository, so they are
    the fields of the class [Primitives].  What the wrappers rely on is the
    class [PrimitivesOk], one documented fact per field.  The wrappers
    themselves (nonce layout, HMAC, the KDF chain with its aliasing, clamping,
    TAI64N timestamps and their order, size checks and exceptions) are
    translated from the source. *)

From Stdlib Require Import ZArith Lia.
From stdpp Require Import base tactics numbers list option strings gmap.
From S2P Require Import Prelude.

(** ** The third-party interface *)

(** A return code is the C [int] the function returns; an output buffer is
    given as its contents after the call, whatever the return code. *)
Class Primitives : Type := {
  b2s_state : Type;
  blake2s : nat -> list Z -> list Z -> Z * list Z;            (* outlen, in, key *)
  blake2s_init : nat -> Z * b2s_state;
  blake2s_update : b2s_state -> list Z -> b2s_state;
  blake2s_final : b2s_state -> nat -> list Z;
  scalarmult_base : list Z -> Z * list Z;                     (* scalar *)
  scalarmult : list Z -> list Z -> Z * list Z;                (* scalar, point *)
  aead_encrypt : list Z -> list Z -> list Z -> list Z -> list Z;      (* key, nonce, msg, ad *)
  aead_decrypt : list Z -> list Z -> list Z -> list Z -> Z * list Z;  (* key, nonce, ct, ad *)
  xaead_encrypt : list Z -> list Z -> list Z -> list Z -> list Z;
  xaead_decrypt : list Z -> list Z -> list Z -> list Z -> Z * list Z;
  sodium_memcmp : list Z -> list Z -> Z;
  sodium_init : Z;
  sodium_malloc : nat -> bool;             (* of that many bytes: not the null pointer *)
  sodium_bin2base64 : list Z -> string;
  (* rc, decoded bytes, characters consumed *)
  sodium_base642bin : string -> Z * list Z * nat
}.

(** ** Sizes *)

Definition kKeySize : nat := 32.
Definition kTagSize : nat := 16.
Definition kTimestampSize : nat := 12.
Definition kCookieNonceSize : nat := 24.
Definition kHashSize : nat := 32.
Definition kMacSize : nat := 16.
Definition kBlockSize : nat := 64.
Definition kNonceSize : nat := 12.

Definition key_ok (k : list Z) : Prop := length k = kKeySize /\ bytes_ok k.

(** ** What the wrappers rely on *)

Class PrimitivesOk `{P : Primitives} : Prop := {
  (* libb2: the one-shot and streaming interfaces accept digests of 1 to 32
     bytes and keys of at most 32, produce that many bytes, and agree. *)
  blake2s_ok n m k : 1 ≤ n ≤ 32 -> length k ≤ 32 ->
    (blake2s n m k).1 = 0%Z /\ length (blake2s n m k).2 = n /\ bytes_ok (blake2s n m k).2;
  blake2s_streams n chunks : 1 ≤ n ≤ 32 ->
    (blake2s_init n).1 = 0%Z /\
    blake2s_final (fold_left blake2s_update chunks (blake2s_init n).2) n
    = (blake2s n (mjoin chunks) []).2;
  (* libsodium: X25519 *)
  scalarmult_base_ok k : key_ok k -> (scalarmult_base k).1 = 0%Z /\ key_ok (scalarmult_base k).2;
  scalarmult_ok k p : key_ok k -> key_ok p -> key_ok (scalarmult k p).2;
  scalarmult_comm a b : key_ok a -> key_ok b ->
    scalarmult a (scalarmult_base b).2 = scalarmult b (scalarmult_base a).2;
  (* libsodium: ChaCha20-Poly1305 *)
  aead_encrypt_ok k n m ad : key_ok k -> bytes_ok m ->
    length (aead_encrypt k n m ad) = length m + 16 /\ bytes_ok (aead_encrypt k n m ad);
  aead_decrypt_ok k n c ad : key_ok k -> bytes_ok c -> 16 ≤ length c ->
    length (aead_decrypt k n c ad).2 = length c - 16 /\ bytes_ok (aead_decrypt k n c ad).2;
  aead_roundtrip k n m ad : key_ok k -> bytes_ok m ->
    aead_decrypt k n (aead_encrypt k n m ad) ad = (0%Z, m);
  aead_deterministic k n c ad m : key_ok k -> bytes_ok c -> 16 ≤ length c ->
    aead_decrypt k n c ad = (0%Z, m) -> c = aead_encrypt k n m ad;
  (* libsodium: constant-time comparison *)
  sodium_memcmp_ok a b : length a = length b -> sodium_memcmp a b = 0%Z <-> a = b
}.

(** libsodium's base64, the original variant: its alphabet, that decoding inverts
    encoding and consumes the whole text, and that it yields bytes. *)
Definition base64_char (c : Ascii.ascii) : bool :=
  let n := Ascii.nat_of_ascii c in
  ((65 <=? n) && (n <=? 90)) || ((97 <=? n) && (n <=? 122)) || ((48 <=? n) && (n <=? 57)) ||
  (n =? 43) || (n =? 47) || (n =? 61).

Class Base64Ok `{P : Primitives} : Prop := {
  base64_roundtrip b : bytes_ok b ->
    sodium_base642bin (sodium_bin2base64 b) = (0%Z, b, String.length (sodium_bin2base64 b));
  base64_bytes text b n : sodium_base642bin text = (0%Z, b, n) -> bytes_ok b;
  base64_alphabet b : Forall (fun c => base64_char c = true)
                        (String.list_ascii_of_string (sodium_bin2base64 b));
  base64_nonempty b : b <> [] -> sodium_bin2base64 b <> ""
}.

(** ** Zeroizing storage ([src/secure_buf.h]) *)

Definition SecureBuf_new (n : nat) : list Z := replicate n 0%Z.
Definition SecureBuf_wipe (b : list Z) : list Z := replicate (length b) 0%Z.

Definition LockedKey_size : nat := 32.

(** [LockedKey()]: what the new object holds. *)
Definition LockedKey_new `{P : Primitives} : Res (list Z) :=
  if sodium_malloc LockedKey_size then Ok (replicate LockedKey_size 0%Z) else Throw bad_alloc.

(** ** Wall-clock input *)

Record timespec : Type := mkTimespec { tv_sec : Z; tv_nsec : Z }.

(** ** A store of buffers, for the calls whose arguments may alias *)

Definition load (h : gmap nat (list Z)) (r : nat) : Res (list Z) :=
  match h !! r with Some b => Ok b | None => Ub end.

Section Wrappers.
Context `{P : Primitives}.

(** ** X25519 *)

Definition init : Res unit :=
  if (sodium_init <? 0)%Z
  then Throw (runtime_error "sodium_init failed; the crypto library is unusable")
  else Ok tt.

Definition derive_public (private_key : list Z) : Res (list Z) :=
  let '(rc, pub) := scalarmult_base private_key in
  if negb (rc =? 0)%Z then Throw (runtime_error "deriving a public key failed") else Ok pub.

(** [random] is what [randombytes_buf] put into [private_key]. *)
Definition generate_keypair (random : list Z) : Res (list Z * list Z) :=
  k0 ← rd random 0;
  private_key ← st random 0 (u8 (Z.land k0 248));
  k31 ← rd private_key 31;
  private_key ← st private_key 31 (u8 (Z.lor (Z.land k31 127) 64));
  public_key ← derive_public private_key;
  Ok (private_key, public_key).

(** What [out] holds after [randombytes_buf] has drawn [random]; an empty span is left alone. *)
Definition random_bytes (out random : list Z) : list Z :=
  match out with [] => [] | _ => random end.

(** The four bytes of [value], as a number of the little-endian machine. *)
Definition random_index (random : list Z) : Z := le_val random.

(** The boolean result, and what [out] holds afterwards. *)
Definition dh (private_key peer_public : list Z) : bool * list Z :=
  let '(rc, out) := scalarmult private_key peer_public in ((rc =? 0)%Z, out).

(** ** AEAD *)

Definition Nonce (counter : Z) : Res (list Z) :=
  for_loop 8 0 (fun i b =>
    st b (4 + i) (u8 (Z.land (Z.shiftr counter (8 * Z.of_nat i)) 255)))
    (replicate kNonceSize 0%Z).

(** The result is what [out], a span of [out_size] bytes, holds afterwards. *)
Definition seal (out_size : nat) (key : list Z) (counter : Z) (plaintext aad : list Z)
    : Res (list Z) :=
  if negb (out_size =? length plaintext + kTagSize)
  then Throw (logic_error "seal: output span is the wrong size")
  else
    nonce ← Nonce counter;
    Ok (aead_encrypt key nonce plaintext aad).

(** The boolean result, and what was written to [out], if anything. *)
Definition open (out_size : nat) (key : list Z) (counter : Z) (ciphertext aad : list Z)
    : Res (bool * option (list Z)) :=
  if (length ciphertext <? kTagSize) || negb (out_size =? length ciphertext - kTagSize)
  then Ok (false, None)
  else
    nonce ← Nonce counter;
    let '(rc, out) := aead_decrypt key nonce ciphertext aad in
    Ok ((rc =? 0)%Z, Some out).

Definition seal_cookie (out_size : nat) (key nonce plaintext aad : list Z) : Res (list Z) :=
  if negb (out_size =? length plaintext + kTagSize)
  then Throw (logic_error "seal_cookie: output span is the wrong size")
  else Ok (xaead_encrypt key nonce plaintext aad).

Definition open_cookie (out_size : nat) (key nonce ciphertext aad : list Z)
    : Res (bool * option (list Z)) :=
  if (length ciphertext <? kTagSize) || negb (out_size =? length ciphertext - kTagSize)
  then Ok (false, None)
  else
    let '(rc, out) := xaead_decrypt key nonce ciphertext aad in
    Ok ((rc =? 0)%Z, Some out).

(** ** BLAKE2s *)

Definition blake2s_call (outlen : nat) (input key : list Z) : Res (list Z) :=
  let '(rc, out) := blake2s outlen input key in
  if negb (rc =? 0)%Z then Throw (runtime_error "blake2s failed") else Ok out.

Definition update (state : b2s_state) (input : list Z) : b2s_state :=
  match input with
  | [] => state
  | _ => blake2s_update state input
  end.

Definition hash (input : list Z) : Res (list Z) := blake2s_call kHashSize input [].

Definition hash2 (a b : list Z) : Res (list Z) :=
  let '(rc, state) := blake2s_init kHashSize in
  if negb (rc =? 0)%Z then Throw (runtime_error "blake2s_init failed")
  else Ok (blake2s_final (update (update state a) b) kHashSize).

Definition mac (key input : list Z) : Res (list Z) := blake2s_call kMacSize input key.

(** [pad\[i\] = padded_key\[i\] ^ x], over one block. *)
Definition xor_pad (padded_key pad : list Z) (x : Z) : Res (list Z) :=
  for_loop kBlockSize 0 (fun i p =>
    k ← rd padded_key i; st p i (u8 (Z.lxor k x))) pad.

Definition hmac (key input : list Z) : Res (list Z) :=
  let padded_key := SecureBuf_new kBlockSize in
  padded_key ←
    (if kBlockSize <? length key then
       d ← hash key;
       _ ← first padded_key kHashSize;
       copy_to padded_key 0 d
     else copy_to padded_key 0 key);
  let pad := SecureBuf_new kBlockSize in
  pad ← xor_pad padded_key pad 54%Z;
  let inner :=
    blake2s_final (update (update (blake2s_init kHashSize).2 pad) input) kHashSize in
  pad ← xor_pad padded_key pad 92%Z;
  Ok (blake2s_final (update (update (blake2s_init kHashSize).2 pad) inner) kHashSize).

(** The outputs and the chaining key are buffers of a store: [out1] may be the
    very buffer [chaining_key] is. *)
Definition kdf (h : gmap nat (list Z)) (out1 : nat) (out2 out3 : option nat)
    (chaining_key : nat) (input : list Z) : Res (gmap nat (list Z)) :=
  ck ← load h chaining_key;
  t0 ← hmac ck input;
  let chained := SecureBuf_new (kHashSize + 1) in
  chained ← st chained 0 1%Z;
  one ← first chained 1;
  o1 ← hmac t0 one;
  let h := <[out1 := o1]> h in
  match out2 with
  | None => Ok h
  | Some out2 =>
      v1 ← load h out1;
      chained ← copy_to chained 0 v1;
      chained ← st chained kHashSize 2%Z;
      o2 ← hmac t0 chained;
      let h := <[out2 := o2]> h in
      match out3 with
      | None => Ok h
      | Some out3 =>
          v2 ← load h out2;
          chained ← copy_to chained 0 v2;
          chained ← st chained kHashSize 3%Z;
          o3 ← hmac t0 chained;
          Ok (<[out3 := o3]> h)
      end
  end.

Definition kdf1 (h : gmap nat (list Z)) (out1 chaining_key : nat) (input : list Z) :=
  kdf h out1 None None chaining_key input.
Definition kdf2 (h : gmap nat (list Z)) (out1 out2 chaining_key : nat) (input : list Z) :=
  kdf h out1 (Some out2) None chaining_key input.
Definition kdf3 (h : gmap nat (list Z)) (out1 out2 out3 chaining_key : nat) (input : list Z) :=
  kdf h out1 (Some out2) (Some out3) chaining_key input.

(** ** Comparison *)

Definition equal (a b : list Z) : bool :=
  if negb (length a =? length b) then false
  else match a with
       | [] => true
       | _ => (sodium_memcmp a b =? 0)%Z
       end.

(** ** Base64 *)

Definition to_base64 (bytes : list Z) : string := sodium_bin2base64 bytes.

Definition from_base64 (text : string) : option (list Z) :=
  if decide (text = "") then Some []
  else
    let '(rc, bytes, consumed) := sodium_base642bin text in
    if negb (rc =? 0)%Z then None
    else if negb (consumed =? String.length text) then None
    else Some bytes.

End Wrappers.

(** ** Timestamps *)

Definition timestamp (now : timespec) : Res (list Z) :=
  let seconds := u64 (4611686018427387914 + u64 (tv_sec now)) in
  let nanoseconds := Z.land (u32 (tv_nsec now)) (u32 (Z.lnot 16777215)) in
  out ← for_loop 8 0 (fun i b =>
          st b i (u8 (Z.land (Z.shiftr seconds (56 - 8 * Z.of_nat i)) 255)))
          (replicate kTimestampSize 0%Z);
  for_loop 4 0 (fun i b =>
    st b (8 + i) (u8 (Z.land (Z.shiftr nanoseconds (24 - 8 * Z.of_nat i)) 255))) out.

(** The loop with its early return, from index [i] on. *)
Fixpoint timestamp_after_from (n i : nat) (a b : list Z) : Res bool :=
  match n with
  | O => Ok false
  | S n' =>
      x ← rd a i; y ← rd b i;
      if negb (x =? y)%Z then Ok (y <? x)%Z
      else timestamp_after_from n' (S i) a b
  end.

Definition timestamp_after (a b : list Z) : Res bool :=
  timestamp_after_from kTimestampSize 0 a b.

(** ** References: RFC 2104 HMAC and the whitepaper's KDF *)

Section Reference.
Context `{P : Primitives}.

Definition HASH (m : list Z) : list Z := (blake2s 32 m []).2.

Definition hmac_key (key : list Z) : list Z :=
  let k := if decide (64 < length key) then HASH key else key in
  k ++ replicate (64 - length k) 0%Z.

Definition HMAC (key m : list Z) : list Z :=
  let k := hmac_key key in
  HASH (((fun b => Z.lxor b 92) <$> k) ++ HASH (((fun b => Z.lxor b 54) <$> k) ++ m)).

Definition KDF1 (ck x : list Z) : list Z := HMAC (HMAC ck x) [1%Z].
Definition KDF2 (ck x : list Z) : list Z := HMAC (HMAC ck x) (KDF1 ck x ++ [2%Z]).
Definition KDF3 (ck x : list Z) : list Z := HMAC (HMAC ck x) (KDF2 ck x ++ [3%Z]).

Definition MAC (key m : list Z) : list Z := (blake2s 16 m key).2.

Definition nonce_bytes (counter : Z) : list Z := replicate 4 0%Z ++ le_bytes 8 counter.

End Reference.

(** ** Lemmas *)

Section Lemmas.
Context `{P : Primitives} `{PO : !PrimitivesOk}.

Lemma field_HASH m : length (HASH m) = 32 /\ bytes_ok (HASH m).
Proof. unfold HASH. destruct (blake2s_ok 32 m []) as (_ & Hl & Hb); simpl; auto with lia. Qed.

Lemma hash_ok m : hash m = Ok (HASH m).
Proof.
  unfold hash, blake2s_call, HASH, kHashSize.
  destruct (blake2s_ok 32 m []) as (Hrc & _); [lia|simpl; lia|].
  destruct (blake2s 32 m []) as [rc out]. simpl in *. by subst.
Qed.

Lemma mac_ok k m : key_ok k -> mac k m = Ok (MAC k m).
Proof.
  intros [Hk _]. unfold mac, blake2s_call, MAC, kMacSize, kKeySize in *.
  destruct (blake2s_ok 16 m k) as (Hrc & _); [lia|lia|].
  destruct (blake2s 16 m k) as [rc out]. simpl in *. by subst.
Qed.

Lemma length_MAC k m : key_ok k -> length (MAC k m) = 16 /\ bytes_ok (MAC k m).
Proof.
  intros [Hk _]. unfold MAC, kKeySize in *. destruct (blake2s_ok 16 m k) as (_ & ? & ?); auto with lia.
Qed.

(** Two [update]s absorb the concatenation, empty spans included. *)
Lemma absorb2 a b :
  blake2s_final (update (update (blake2s_init 32).2 a) b) 32 = HASH (a ++ b).
Proof.
  unfold HASH. pose (ch (l : list Z) := match l with [] => [] | _ => [l] end).
  assert (forall s l, update s l = fold_left blake2s_update (ch l) s) as Hu by (by intros s []).
  assert (forall l, mjoin (ch l) = l) as Hj by (intros []; cbn; by rewrite ?app_nil_r).
  rewrite !Hu, <- fold_left_app. destruct (blake2s_streams 32 (ch a ++ ch b)) as [_ ->]; [lia|].
  by rewrite join_app, !Hj.
Qed.

Lemma hash2_ok a b : hash2 a b = Ok (HASH (a ++ b)).
Proof.
  unfold hash2, kHashSize. rewrite <- absorb2.
  destruct (blake2s_streams 32 []) as [Hrc _]; [lia|].
  destruct (blake2s_init 32) as [rc s]. simpl in *. by subst.
Qed.

Lemma xor_pad_ok k p x :
  length k = 64 -> bytes_ok k -> length p = 64 -> is_u8 x ->
  xor_pad k p x = Ok ((fun b => Z.lxor b x) <$> k).
Proof.
  intros Hk Hb Hp Hx. unfold xor_pad, kBlockSize.
  rewrite (for_loop_ext _ _ _ (fun i p => st p (0 + i) (u8 (Z.lxor (k !!! i) x)))).
  2:{ intros j t Hj. by rewrite (rd_lookup _ _ (k !!! j)), bind_Ok
        by (apply list_lookup_lookup_total_lt; lia). }
  rewrite for_loop_st by lia. rewrite take_0, app_nil_l, drop_ge, app_nil_r by lia.
  rewrite <- Hk, (fmap_seq_lookup_total (fun b => u8 (Z.lxor b x))). f_equal.
  apply list_fmap_ext. intros i b Hi. apply u8_small, lxor_u8; [|done].
  by apply (Forall_lookup_1 _ _ _ _ Hb Hi).
Qed.

Lemma hmac_key_ok key : bytes_ok key -> length (hmac_key key) = 64 /\ bytes_ok (hmac_key key).
Proof.
  intros Hk. unfold hmac_key. destruct (field_HASH key) as [HHl HHb]. cbv zeta. split.
  - case_decide; len.
  - apply bytes_ok_app. split; [by case_decide | apply bytes_ok_replicate].
Qed.

Lemma copy_to_zero_buf n (s : list Z) :
  length s ≤ n -> copy_to (replicate n 0%Z) 0 s = Ok (s ++ replicate (n - length s) 0%Z).
Proof.
  intros Hs. etransitivity; [apply (copy_to_app [] (replicate n 0%Z)); [done | len]|].
  by rewrite app_nil_l, drop_replicate.
Qed.

Lemma hmac_ok key m : bytes_ok key -> hmac key m = Ok (HMAC key m).
Proof.
  intros Hk. destruct (hmac_key_ok key Hk) as [Hl Hb]. destruct (field_HASH key) as [HHl HHb].
  unfold hmac, HMAC. fold (hmac_key key).
  assert ((if kBlockSize <? length key
           then d ← hash key; _ ← first (SecureBuf_new kBlockSize) kHashSize;
                copy_to (SecureBuf_new kBlockSize) 0 d
           else copy_to (SecureBuf_new kBlockSize) 0 key) = Ok (hmac_key key)) as ->.
  { unfold hmac_key, SecureBuf_new, kBlockSize. destruct (Nat.ltb_spec 64 (length key)).
    - rewrite hash_ok, bind_Ok. unfold first. rewrite subspan_ok, bind_Ok by (unfold kHashSize; len).
      rewrite copy_to_zero_buf, decide_True by lia. done.
    - rewrite copy_to_zero_buf, decide_False by lia. done. }
  rewrite bind_Ok, (xor_pad_ok _ _ 54), bind_Ok by (done || unfold is_u8; lia).
  rewrite (xor_pad_ok _ _ 92), bind_Ok by (done || (unfold is_u8; lia) || by rewrite length_fmap).
  unfold kHashSize. by rewrite !absorb2.
Qed.

Lemma field_HMAC k m : length (HMAC k m) = 32 /\ bytes_ok (HMAC k m).
Proof. apply field_HASH. Qed.
Lemma key_ok_HMAC k m : key_ok (HMAC k m).
Proof. apply field_HASH. Qed.
Lemma key_ok_HASH m : key_ok (HASH m).
Proof. apply field_HASH. Qed.

Lemma load_ok h r (c : list Z) : h !! r = Some c -> load h r = Ok c.
Proof. unfold load. by intros ->. Qed.

(** The [chained] buffer: 33 bytes, the first set to 1. *)
Lemma chained_init :
  st (SecureBuf_new (kHashSize + 1)) 0 1%Z = Ok (1%Z :: replicate 32 0%Z).
Proof. reflexivity. Qed.
Lemma chained_first : first (1%Z :: replicate 32 0%Z) 1 = Ok [1%Z].
Proof. reflexivity. Qed.

(** One later round: copy the previous output in, append the round number. *)
Lemma chained_copy (prev c : list Z) :
  key_ok prev -> length c = 33 -> copy_to c 0 prev = Ok (prev ++ drop 32 c).
Proof.
  intros [Hp _] Hc. unfold kKeySize in Hp.
  etransitivity; [apply (copy_to_app [] c); [done | lia]|]. by rewrite Hp.
Qed.

Lemma chained_st (prev r : list Z) b :
  key_ok prev -> length r = 1 -> st (prev ++ r) kHashSize b = Ok (prev ++ [b]).
Proof.
  intros [Hp _] Hr. unfold kKeySize, kHashSize in *. rewrite st_ok by len.
  f_equal. rewrite insert_app_r_alt by lia. rewrite Hp.
  destruct r as [|? [|]]; done.
Qed.

Ltac hmac_len :=
  apply key_ok_HMAC || done ||
  (repeat rewrite length_app; repeat rewrite length_drop; repeat rewrite length_app;
   repeat rewrite (proj1 (field_HMAC _ _)); simpl; lia).

Ltac kdf_start Hr Hc :=
  unfold kdf; rewrite (load_ok _ _ _ Hr), bind_Ok, hmac_ok, bind_Ok by exact Hc;
  rewrite chained_init, bind_Ok, chained_first, bind_Ok;
  rewrite hmac_ok, bind_Ok by apply field_HMAC; cbv zeta.

Ltac kdf_round :=
  rewrite (load_ok _ _ _ (lookup_insert_eq _ _ _)), bind_Ok;
  rewrite chained_copy, bind_Ok by hmac_len;
  rewrite chained_st, bind_Ok by hmac_len;
  rewrite hmac_ok, bind_Ok by apply field_HMAC; cbv zeta.

(** The store after a KDF: whatever the outputs alias, they are computed from
    the chaining key as it was on entry. *)
Lemma kdf1_ok h o r c x :
  h !! r = Some c -> bytes_ok c -> kdf1 h o r x = Ok (<[o := KDF1 c x]> h).
Proof. intros Hr Hc. unfold kdf1. by kdf_start Hr Hc. Qed.

Lemma kdf2_ok h o1 o2 r c x :
  h !! r = Some c -> bytes_ok c ->
  kdf2 h o1 o2 r x = Ok (<[o2 := KDF2 c x]> (<[o1 := KDF1 c x]> h)).
Proof. intros Hr Hc. unfold kdf2. kdf_start Hr Hc. by kdf_round. Qed.

Lemma kdf3_ok h o1 o2 o3 r c x :
  h !! r = Some c -> bytes_ok c ->
  kdf3 h o1 o2 o3 r x = Ok (<[o3 := KDF3 c x]> (<[o2 := KDF2 c x]> (<[o1 := KDF1 c x]> h))).
Proof.
  intros Hr Hc. unfold kdf3. kdf_start Hr Hc. kdf_round. by kdf_round.
Qed.

(** ** AEAD *)

Lemma Nonce_ok c : Nonce c = Ok (nonce_bytes c).
Proof.
  unfold Nonce, nonce_bytes, kNonceSize. rewrite for_loop_st by (vm_compute; lia).
  by rewrite <- le_bytes_shift.
Qed.

Lemma seal_ok n k c m ad :
  n = length m + 16 -> seal n k c m ad = Ok (aead_encrypt k (nonce_bytes c) m ad).
Proof.
  intros ->. unfold seal, kTagSize. by rewrite Nat.eqb_refl, Nonce_ok.
Qed.

Lemma open_ok n k c ct ad :
  16 ≤ length ct -> n = length ct - 16 ->
  open n k c ct ad = Ok (((aead_decrypt k (nonce_bytes c) ct ad).1 =? 0)%Z,
                         Some (aead_decrypt k (nonce_bytes c) ct ad).2).
Proof.
  intros Hl ->. unfold open, kTagSize. rewrite (proj2 (Nat.ltb_ge _ _)) by lia.
  rewrite Nat.eqb_refl, Nonce_ok. cbn [orb negb]. rewrite bind_Ok.
  by destruct (aead_decrypt _ _ _ _).
Qed.

Lemma open_seal k c m ad :
  key_ok k -> bytes_ok m ->
  open (length m) k c (aead_encrypt k (nonce_bytes c) m ad) ad = Ok (true, Some m).
Proof.
  intros Hk Hm. destruct (aead_encrypt_ok k (nonce_bytes c) m ad Hk Hm) as [Hl _].
  rewrite open_ok by lia. by rewrite aead_roundtrip.
Qed.

Lemma equal_spec a b : equal a b = true <-> a = b.
Proof.
  unfold equal. destruct (Nat.eqb_spec (length a) (length b)) as [Hl|Hl]; cbn [negb].
  - destruct a as [|x a]; [by destruct b|]. rewrite Z.eqb_eq. by apply sodium_memcmp_ok.
  - split; [done|]. by intros ->.
Qed.

(** ** Keys *)

(** The clamped form of 32 random bytes. *)
Definition clamp (r : list Z) : list Z :=
  <[31 := u8 (Z.lor (Z.land (r !!! 31) 127) 64)]> (<[0 := u8 (Z.land (r !!! 0) 248)]> r).

Lemma key_ok_clamp r : key_ok r -> key_ok (clamp r).
Proof.
  intros [Hl Hb]. split; [unfold clamp, kKeySize in *; len|]. unfold clamp, u8.
  do 2 (apply Forall_insert; [|unfold is_u8; apply Z.mod_pos_bound; lia]). done.
Qed.

Lemma derive_public_ok k : key_ok k -> derive_public k = Ok (scalarmult_base k).2.
Proof.
  intros Hk. unfold derive_public. destruct (scalarmult_base_ok k Hk) as [Hrc _].
  destruct (scalarmult_base k) as [rc pub]. simpl in *. by subst.
Qed.

Lemma generate_keypair_ok r :
  key_ok r ->
  generate_keypair r = Ok (clamp r, (scalarmult_base (clamp r)).2) /\ key_ok (clamp r).
Proof.
  intros Hr. split; [|by apply key_ok_clamp]. pose proof Hr as [Hl Hb]. unfold kKeySize in Hl.
  pose proof (list_lookup_lookup_total_lt r 0 ltac:(lia)) as H0.
  pose proof (list_lookup_lookup_total_lt r 31 ltac:(lia)) as H31.
  unfold generate_keypair. rewrite (rd_lookup _ _ _ H0), bind_Ok, st_ok, bind_Ok by lia.
  rewrite (rd_lookup _ _ (r !!! 31)), bind_Ok by by rewrite list_lookup_insert_ne.
  rewrite st_ok, bind_Ok by len. fold (clamp r).
  by rewrite derive_public_ok by by apply key_ok_clamp.
Qed.

End Lemmas.

(** ** Timestamps: TAI64N is big-endian seconds, then big-endian nanoseconds *)

(** Clock readings a Unix host produces before the year 2^61. *)
Definition clock_ok (t : timespec) : Prop :=
  (0 <= tv_sec t < 2 ^ 61)%Z /\ (0 <= tv_nsec t < 1000000000)%Z.

#[export] Instance clock_ok_dec t : Decision (clock_ok t).
Proof. unfold clock_ok. apply _. Defined.

Definition tai_seconds (t : timespec) : Z := (2 ^ 62 + 10 + tv_sec t)%Z.
Definition tai_nanos (t : timespec) : Z := (tv_nsec t - tv_nsec t mod 2 ^ 24)%Z.
Definition nanos_since_epoch (t : timespec) : Z := (tv_sec t * 1000000000 + tv_nsec t)%Z.

Lemma be_bytes8 v :
  (fun i => u8 (Z.land (Z.shiftr v (56 - 8 * Z.of_nat i)) 255)) <$> seq 0 8 = rev (le_bytes 8 v).
Proof. rewrite le_bytes_shift. reflexivity. Qed.
Lemma be_bytes4 v :
  (fun i => u8 (Z.land (Z.shiftr v (24 - 8 * Z.of_nat i)) 255)) <$> seq 0 4 = rev (le_bytes 4 v).
Proof. rewrite le_bytes_shift. reflexivity. Qed.

Lemma timestamp_eq t :
  clock_ok t ->
  timestamp t = Ok (rev (le_bytes 8 (tai_seconds t)) ++ rev (le_bytes 4 (tai_nanos t))).
Proof.
  intros [Hs Hn]. unfold timestamp.
  replace (u64 (4611686018427387914 + u64 (tv_sec t))) with (tai_seconds t)
    by (unfold tai_seconds; rewrite (u64_small (tv_sec t)), u64_small; unfold is_u64; lia).
  replace (Z.land (u32 (tv_nsec t)) (u32 (Z.lnot 16777215))) with (tai_nanos t)
    by (symmetry; rewrite u32_small by (unfold is_u32; lia);
        apply (land_lnot_ones (tv_nsec t) 24 32); lia).
  pose proof (for_loop_st (fun i => u8 (Z.land (Z.shiftr (tai_seconds t) (56 - 8 * Z.of_nat i)) 255))
                0 8 0 (replicate kTimestampSize 0%Z) ltac:(vm_compute; lia)) as Hl.
  rewrite be_bytes8 in Hl. cbn [Nat.add] in Hl. rewrite Hl, bind_Ok.
  change (take 0 (replicate kTimestampSize 0%Z)) with (@nil Z). rewrite app_nil_l.
  change (drop 8 (replicate kTimestampSize 0%Z)) with (replicate 4 0%Z).
  assert (length (rev (le_bytes 8 (tai_seconds t))) = 8) as H8
    by by rewrite length_rev, length_le_bytes.
  rewrite for_loop_st by (rewrite length_app, H8; simpl; lia).
  rewrite be_bytes4, take_app_length' by done.
  rewrite drop_ge by (rewrite length_app, H8; simpl; lia). by rewrite app_nil_r.
Qed.

Lemma timestamp_val t :
  clock_ok t -> exists ts, timestamp t = Ok ts /\ length ts = 12 /\ bytes_ok ts /\
    be_val ts = (tai_seconds t * 2 ^ 32 + tai_nanos t)%Z.
Proof.
  intros Hc. eexists; split; [by apply timestamp_eq|]. destruct Hc as [Hs Hn].
  rewrite length_app, !length_rev, !length_le_bytes. split; [done|]. split.
  - apply bytes_ok_app. auto with vpn.
  - rewrite be_val_app, !be_val_rev, !rev_involutive, !le_val_le_bytes, length_rev, length_le_bytes.
    unfold tai_seconds, tai_nanos. pose proof (Z.mod_pos_bound (tv_nsec t) (2 ^ 24)).
    pose proof (Z.mod_le (tv_nsec t) (2 ^ 24)).
    change (256 ^ Z.of_nat 8)%Z with (2 ^ 64)%Z. change (256 ^ Z.of_nat 4)%Z with (2 ^ 32)%Z.
    rewrite !Z.mod_small by lia. done.
Qed.

Lemma timestamp_after_from_val n i a b :
  bytes_ok a -> bytes_ok b -> length a = i + n -> length b = i + n ->
  timestamp_after_from n i a b = Ok (be_val (drop i b) <? be_val (drop i a))%Z.
Proof.
  intros Ha Hb. revert i. induction n as [|n IH]; intros i Hla Hlb; cbn [timestamp_after_from].
  - by rewrite !drop_ge by lia.
  - destruct (lookup_lt_is_Some_2 a i ltac:(lia)) as [x Hx].
    destruct (lookup_lt_is_Some_2 b i ltac:(lia)) as [y Hy].
    rewrite (rd_lookup _ _ _ Hx), (rd_lookup _ _ _ Hy), !bind_Ok.
    rewrite (drop_S a x i Hx), (drop_S b y i Hy). cbn [be_val].
    pose proof (be_val_bound (drop (S i) a) (bytes_ok_drop _ _ Ha)) as Ba.
    pose proof (be_val_bound (drop (S i) b) (bytes_ok_drop _ _ Hb)) as Bb.
    rewrite !length_drop in *. replace (length b - S i) with (length a - S i) in * by lia.
    destruct (Z.eqb_spec x y) as [->|Hne]; cbn [negb].
    + rewrite IH by lia. f_equal. apply eq_true_iff_eq. rewrite !Z.ltb_lt. lia.
    + f_equal. apply eq_true_iff_eq. rewrite !Z.ltb_lt. nia.
Qed.

Lemma timestamp_after_val a b :
  bytes_ok a -> bytes_ok b -> length a = 12 -> length b = 12 ->
  timestamp_after a b = Ok (be_val b <? be_val a)%Z.
Proof. intros. unfold timestamp_after. by rewrite timestamp_after_from_val. Qed.

Lemma clamp_low b : is_u8 b -> (u8 (Z.land b 248) mod 8 = 0)%Z.
Proof.
  intros Hb. pose proof (land_lnot_ones b 3 8 ltac:(lia) ltac:(lia) Hb) as Hl.
  change (Z.lnot (Z.ones 3) mod 2 ^ 8)%Z with 248%Z in Hl. change (2 ^ 3)%Z with 8%Z in Hl.
  rewrite Hl. unfold is_u8 in Hb. pose proof (Z.mod_pos_bound b 8). pose proof (Z.mod_le b 8).
  unfold u8. rewrite (Z.mod_small _ (2 ^ 8)) by lia. rewrite Zminus_mod_idemp_r, Z.sub_diag. done.
Qed.

Lemma lor_64_bound y : (0 <= y < 128)%Z -> (64 <= Z.lor y 64 < 128)%Z.
Proof.
  intros Hy.
  assert (forallb (fun n => (64 <=? Z.lor (Z.of_nat n) 64)%Z && (Z.lor (Z.of_nat n) 64 <? 128)%Z)
            (seq 0 128) = true) as Hall by by vm_compute.
  rewrite forallb_forall in Hall. specialize (Hall (Z.to_nat y)).
  rewrite Z2Nat.id in Hall by lia. rewrite in_seq in Hall.
  specialize (Hall ltac:(lia)). bool_hyps. done.
Qed.

Lemma clamp_high b : (64 <= u8 (Z.lor (Z.land b 127) 64) < 128)%Z.
Proof.
  change 127%Z with (Z.ones 7). rewrite Z.land_ones by lia.
  pose proof (lor_64_bound (b mod 2 ^ 7) (Z.mod_pos_bound b (2 ^ 7) ltac:(lia))).
  unfold u8. rewrite Z.mod_small by lia. done.
Qed.

Section Theorems.
Context `{P : Primitives} `{PO : !PrimitivesOk}.

(** ** Theorems *)

(** [C34] [hmac] is RFC 2104's HMAC over BLAKE2s for every key length, the
    hashed-key case included; it neither throws nor leaves its buffers. *)
Theorem crypto_hmac_rfc2104 key m : bytes_ok key -> hmac key m = Ok (HMAC key m).
Proof. apply hmac_ok. Qed.

(** [C35] The KDF chain with aliased buffers: [kdf3] with its first output being
    the chaining key's own buffer leaves there, and in the two other outputs,
    the whitepaper's t1, t2 and t3 of the chaining key as it was on entry. *)
Theorem crypto_kdf_aliased h r o2 o3 ck x :
  h !! r = Some ck -> bytes_ok ck -> r <> o2 -> r <> o3 -> o2 <> o3 ->
  exists h', kdf3 h r o2 o3 r x = Ok h' /\
    h' !! r = Some (HMAC (HMAC ck x) [1%Z]) /\
    h' !! o2 = Some (HMAC (HMAC ck x) (HMAC (HMAC ck x) [1%Z] ++ [2%Z])) /\
    h' !! o3 = Some (HMAC (HMAC ck x)
                 (HMAC (HMAC ck x) (HMAC (HMAC ck x) [1%Z] ++ [2%Z]) ++ [3%Z])) /\
    (forall j, j <> r -> j <> o2 -> j <> o3 -> h' !! j = h !! j).
Proof.
  intros Hr Hc H2 H3 H23. rewrite (kdf3_ok h r o2 o3 r ck x Hr Hc). eexists; split; [done|].
  repeat split_and; intros; simplify_map_eq; done.
Qed.

(** The AEAD nonce of a 64-bit counter is 12 bytes and no two counters
    share one. *)
Lemma crypto_nonce_injective c1 c2 n :
  is_u64 c1 -> is_u64 c2 -> Nonce c1 = Ok n -> Nonce c2 = Ok n -> c1 = c2 /\ length n = 12.
Proof.
  rewrite !Nonce_ok. intros H1 H2 E1 E2.
  assert (nonce_bytes c1 = n) as <- by congruence.
  assert (nonce_bytes c2 = nonce_bytes c1) as He by congruence. unfold nonce_bytes in *.
  apply (f_equal le_val) in He. rewrite !le_val_app, !le_val_le_bytes in He.
  rewrite !Z.mod_small in He by (unfold is_u64 in *; lia).
  split; [|by rewrite length_app, length_le_bytes].
  revert He. cbn [replicate length le_val]. lia.
Qed.

(** What [seal] writes, [open] accepts under the same key, counter and
    associated data, and gives the plaintext back; a [seal] into a span of
    any other size throws, and an [open] with mismatched sizes returns false
    having written nothing. *)
Lemma crypto_seal_open key counter m ad n :
  key_ok key -> bytes_ok m ->
  (n <> length m + 16 ->
     seal n key counter m ad = Throw (logic_error "seal: output span is the wrong size")) /\
  exists ct, seal (length m + 16) key counter m ad = Ok ct /\ length ct = length m + 16 /\
    open (length m) key counter ct ad = Ok (true, Some m) /\
    (n <> length m -> open n key counter ct ad = Ok (false, None)).
Proof.
  intros Hk Hm. split.
  - intros Hn. unfold seal, kTagSize. by rewrite (proj2 (Nat.eqb_neq _ _) Hn).
  - destruct (aead_encrypt_ok key (nonce_bytes counter) m ad Hk Hm) as [Hl _].
    eexists; split; [by apply seal_ok|]. split; [done|]. split; [by apply open_seal|].
    intros Hn. unfold open, kTagSize. rewrite (proj2 (Nat.ltb_ge _ _)) by lia.
    by rewrite (proj2 (Nat.eqb_neq _ _)) by lia.
Qed.

(** A generated private key is clamped as X25519 requires, differs from the
    random bytes in nothing else, and comes with its own public key. *)
Lemma crypto_keypair_clamped r :
  key_ok r ->
  exists k pub, generate_keypair r = Ok (k, pub) /\ key_ok k /\ key_ok pub /\
    pub = (scalarmult_base k).2 /\
    (exists b0 b31, k !! 0 = Some b0 /\ k !! 31 = Some b31 /\
       (b0 mod 8 = 0)%Z /\ (64 <= b31 < 128)%Z) /\
    (forall i, i <> 0 -> i <> 31 -> k !! i = r !! i).
Proof.
  intros Hr. destruct (generate_keypair_ok r Hr) as [-> Hk].
  exists (clamp r), (scalarmult_base (clamp r)).2. split; [done|]. split; [done|].
  split; [by apply scalarmult_base_ok|]. split; [done|]. destruct Hr as [Hl Hb]. unfold kKeySize in Hl.
  unfold clamp. split.
  - eexists _, _. rewrite list_lookup_insert_ne by done.
    rewrite !list_lookup_insert_eq by len. split; [done|]. split; [done|].
    split; [|apply clamp_high]. apply clamp_low.
    apply (Forall_lookup_1 _ _ 0 _ Hb), list_lookup_lookup_total_lt. lia.
  - intros i Hi0 Hi31. by rewrite !list_lookup_insert_ne by done.
Qed.

(** [C36] Comparing TAI64N stamps byte by byte is comparing the clock readings:
    a stamp taken at least 2^24 ns (16.8 ms) later is strictly after, and one
    taken no later never is. *)
Theorem crypto_timestamp_order t1 t2 :
  clock_ok t1 -> clock_ok t2 ->
  exists s1 s2 r, timestamp t1 = Ok s1 /\ timestamp t2 = Ok s2 /\ timestamp_after s2 s1 = Ok r /\
    ((nanos_since_epoch t1 + 2 ^ 24 <= nanos_since_epoch t2)%Z -> r = true) /\
    ((nanos_since_epoch t2 <= nanos_since_epoch t1)%Z -> r = false).
Proof.
  intros H1 H2. destruct (timestamp_val t1 H1) as (s1 & -> & L1 & B1 & V1).
  destruct (timestamp_val t2 H2) as (s2 & -> & L2 & B2 & V2).
  eexists _, _, _. split; [done|]. split; [done|]. split; [by apply timestamp_after_val|].
  rewrite V1, V2. unfold tai_seconds, tai_nanos, nanos_since_epoch.
  destruct H1 as [? ?], H2 as [? ?].
  pose proof (Z.div_mod (tv_nsec t1) (2 ^ 24)). pose proof (Z.mod_pos_bound (tv_nsec t1) (2 ^ 24)).
  pose proof (Z.div_mod (tv_nsec t2) (2 ^ 24)). pose proof (Z.mod_pos_bound (tv_nsec t2) (2 ^ 24)).
  split; intros Ht; [apply Z.ltb_lt | apply Z.ltb_ge]; lia.
Qed.

(** [equal] decides equality of byte strings, of different lengths and
    empty ones included. *)
Lemma crypto_equal_decides a b : equal a b = true <-> a = b.
Proof. apply equal_spec. Qed.

End Theorems.
