(* ===== verification/Toy.v ===== *)
(** * Toy: a concrete instance of the third-party interface

    Small functions that have every property of [PrimitivesOk], so that the
    hypotheses of the theorems can hold together and the witnesses evaluate.
    They have no cryptographic strength and model no particular library: a
    rolling checksum of 40 bits, in 32 bytes, for BLAKE2s, byte-wise multiplication modulo 256
    for X25519, and a plaintext followed by a checksum for the AEADs. *)

From Stdlib Require Import ZArith Lia.
From stdpp Require Import base tactics numbers list option strings gmap.
From S2P Require Import Prelude Crypto.

Definition toy_digest (l : list Z) : Z :=
  fold_left (fun acc b => Z.land (acc * 257 + b + 1) 1099511627775)%Z l 5%Z.

Definition toy_blake2s (n : nat) (m k : list Z) : Z * list Z :=
  (0%Z, le_bytes n (toy_digest (k ++ Z.of_nat (length k) :: m))).

Definition toy_mul (k p : list Z) : list Z := zip_with (fun a b => (a * b) mod 256)%Z k p.
Definition toy_base (k : list Z) : list Z := (fun a => (a * 9) mod 256)%Z <$> k.

Definition toy_scalarmult (k p : list Z) : Z * list Z :=
  let r := toy_mul k p in
  (if bool_decide (r = replicate (length r) 0%Z) then (-1)%Z else 0%Z, r).

Definition toy_tag (k n m ad : list Z) : list Z :=
  le_bytes 16 (toy_digest (k ++ n ++ ad ++ m)).

Definition toy_encrypt (k n m ad : list Z) : list Z := m ++ toy_tag k n m ad.

Definition toy_decrypt (k n c ad : list Z) : Z * list Z :=
  let m := take (length c - 16) c in
  if bool_decide (drop (length c - 16) c = toy_tag k n m ad)
  then (0%Z, m) else ((-1)%Z, replicate (length c - 16) 0%Z).

(** Two letters of [a..p] per byte, most significant first. *)
Definition toy_letter (n : Z) : Ascii.ascii := Ascii.ascii_of_nat (97 + Z.to_nat n).
Definition toy_nibble (c : Ascii.ascii) : Z := (Z.of_nat (Ascii.nat_of_ascii c) - 97)%Z.
Definition toy_to_text (l : list Z) : string :=
  foldr (fun b s => String (toy_letter (b / 16 mod 16)) (String (toy_letter (b mod 16)) s)) "" l.
Fixpoint toy_decode (s : string) : option (list Z) :=
  match s with
  | EmptyString => Some []
  | String c (String d s) =>
      let b := (16 * toy_nibble c + toy_nibble d)%Z in
      if decide (is_u8 b) then cons b <$> toy_decode s else None
  | _ => None
  end.
Definition toy_of_text (s : string) : Z * list Z * nat :=
  match toy_decode s with
  | Some l => (0%Z, l, String.length s)
  | None => ((-1)%Z, [], 0)
  end.

#[export] Instance toy : Primitives := {|
  b2s_state := list Z;
  blake2s := toy_blake2s;
  blake2s_init _ := (0%Z, []);
  blake2s_update s m := s ++ m;
  blake2s_final s n := (toy_blake2s n s []).2;
  scalarmult_base k := (0%Z, toy_base k);
  scalarmult := toy_scalarmult;
  aead_encrypt := toy_encrypt;
  aead_decrypt := toy_decrypt;
  xaead_encrypt := toy_encrypt;
  xaead_decrypt := toy_decrypt;
  sodium_memcmp a b := if bool_decide (a = b) then 0%Z else (-1)%Z;
  sodium_init := 0%Z;
  sodium_malloc _ := true;
  sodium_bin2base64 := toy_to_text;
  sodium_base642bin := toy_of_text
|}.

Lemma toy_fold_update chunks s :
  fold_left (fun s m : list Z => s ++ m) chunks s = s ++ mjoin chunks.
Proof.
  revert s. induction chunks as [|c chunks IH]; intros s; simpl; [by rewrite app_nil_r|].
  by rewrite IH, <- app_assoc.
Qed.

Lemma bytes_ok_mod (f : Z -> Z) l : bytes_ok ((fun a => f a mod 256)%Z <$> l).
Proof. apply Forall_fmap, Forall_true. intros x. apply Z.mod_pos_bound. lia. Qed.

Lemma toy_mul_comm a b :
  length a = length b -> toy_mul a (toy_base b) = toy_mul b (toy_base a).
Proof.
  revert b. induction a as [|x a IH]; intros [|y b] Hl; try done. simpl in Hl.
  cbn. f_equal; [|apply IH; lia].
  rewrite !Z.mul_mod_idemp_r by lia. f_equal. lia.
Qed.

Lemma length_toy_tag k n m ad : length (toy_tag k n m ad) = 16.
Proof. apply length_le_bytes. Qed.

#[export] Instance toy_ok : PrimitivesOk (P := toy).
Proof.
  constructor; cbn.
  - intros. rewrite length_le_bytes. auto with vpn.
  - intros n chunks _. split; [done|]. unfold toy_blake2s. cbn. by rewrite toy_fold_update.
  - intros k [Hl Hb]. split; [done|]. split; [by unfold toy_base; rewrite length_fmap|].
    apply (bytes_ok_mod (fun a => a * 9)%Z).
  - intros k p [Hk _] [Hp _]. split.
    + unfold toy_mul. rewrite length_zip_with. lia.
    + unfold toy_mul. apply Forall_zip_with_fst with (P := fun _ => True); [by apply Forall_true|].
      apply Forall_true. intros x y _. apply Z.mod_pos_bound. lia.
  - intros a b [Ha _] [Hb _]. unfold toy_scalarmult. by rewrite toy_mul_comm by lia.
  - intros k n m ad _ Hm. unfold toy_encrypt. rewrite length_app, length_toy_tag.
    split; [done|]. apply bytes_ok_app. split; [done|]. apply bytes_ok_le_bytes.
  - intros k n c ad _ Hc Hl. unfold toy_decrypt. case_bool_decide; cbn.
    + split; [len|]. auto with vpn.
    + split; [len|]. auto with vpn.
  - intros k n m ad _ Hm. unfold toy_decrypt, toy_encrypt.
    rewrite length_app, length_toy_tag, Nat.add_sub.
    rewrite take_app_length, drop_app_length. by rewrite bool_decide_true.
  - intros k n c ad m _ Hc Hl. unfold toy_decrypt, toy_encrypt. case_bool_decide as Ht; [|done].
    intros [= <-]. rewrite <- Ht. by rewrite take_drop.
  - intros a b _. case_bool_decide; split; done.
Qed.

Lemma toy_letter_ok n : (0 <= n < 16)%Z ->
  toy_nibble (toy_letter n) = n /\ base64_char (toy_letter n) = true.
Proof.
  intros Hn. unfold toy_nibble, toy_letter, base64_char.
  rewrite Ascii.nat_ascii_embedding by lia. split; [lia|].
  rewrite (proj2 (Nat.leb_le 97 _)), (proj2 (Nat.leb_le _ 122)) by lia.
  cbn [andb]. by rewrite orb_true_r.
Qed.

Lemma toy_decode_encode l : bytes_ok l -> toy_decode (toy_to_text l) = Some l.
Proof.
  induction 1 as [|b l Hb _ IH]; [done|]. unfold is_u8 in Hb. cbn [toy_to_text foldr toy_decode].
  assert (0 <= b / 16 < 16)%Z by (split; [apply Z.div_pos | apply Z.div_lt_upper_bound]; lia).
  pose proof (Z.mod_pos_bound b 16). rewrite (Z.mod_small (b / 16)) by lia.
  rewrite (proj1 (toy_letter_ok (b / 16) ltac:(lia))), (proj1 (toy_letter_ok (b mod 16) ltac:(lia))).
  cbv zeta. rewrite <- Z.div_mod by lia. rewrite decide_True by done.
  fold (toy_to_text l). by rewrite IH.
Qed.

Lemma toy_decode_bytes n s l : String.length s ≤ n -> toy_decode s = Some l -> bytes_ok l.
Proof.
  revert s l. induction n as [|n IH]; intros [|c [|d s]] l Hn; cbn in *; try lia; try done;
    try by intros [= <-]; constructor.
  destruct (decide _) as [Hb|]; [|done]. destruct (toy_decode s) as [l'|] eqn:E; [|done].
  intros [= <-]. constructor; [done|]. apply (IH s); [lia | done].
Qed.

Lemma toy_letter_any n : base64_char (toy_letter (n mod 16)) = true.
Proof. apply toy_letter_ok. apply Z.mod_pos_bound. lia. Qed.

#[export] Instance toy_base64_ok : Base64Ok (P := toy).
Proof.
  constructor; cbn.
  - intros b Hb. unfold toy_of_text. by rewrite toy_decode_encode.
  - intros text b n. unfold toy_of_text. destruct (toy_decode text) eqn:E; [|done].
    intros [= -> _]. by apply (toy_decode_bytes (String.length text) text).
  - intros b. induction b as [|x b IH]; cbn; [constructor|].
    constructor; [|constructor; [apply toy_letter_any | exact IH]]. apply toy_letter_any.
  - by intros [|x b].
Qed.

(** ** Witnesses of the theorems of [Crypto] *)

Definition demo_key (seed : Z) : list Z :=
  (fun i => (seed + 2 * Z.of_nat i) mod 256)%Z <$> seq 0 32.

Ltac by_dec := apply (bool_decide_unpack _); vm_compute; exact I.

#[export] Instance key_ok_dec k : Decision (key_ok k).
Proof. unfold key_ok. apply _. Defined.

Lemma crypto_hmac_rfc2104_witness :
  bytes_ok (replicate 70 7%Z) /\ hmac (replicate 70 7%Z) [1%Z] = Ok (HMAC (replicate 70 7%Z) [1%Z]).
Proof. split; [by_dec|]. apply crypto_hmac_rfc2104. by_dec. Defined.

Lemma crypto_kdf_aliased_witness :
  exists h', kdf3 {[0 := demo_key 1]} 0 1 2 0 [9%Z] = Ok h' /\
    h' !! 0 = Some (HMAC (HMAC (demo_key 1) [9%Z]) [1%Z]).
Proof.
  destruct (crypto_kdf_aliased {[0 := demo_key 1]} 0 1 2 (demo_key 1) [9%Z])
    as (h' & Hh & H1 & _); [apply lookup_singleton_eq | by_dec | done..|].
  exists h'. by split.
Defined.

Lemma crypto_timestamp_order_witness :
  exists s1 s2, timestamp (mkTimespec 1700000000 5) = Ok s1 /\
    timestamp (mkTimespec 1700000001 3) = Ok s2 /\ timestamp_after s2 s1 = Ok true.
Proof.
  destruct (crypto_timestamp_order (mkTimespec 1700000000 5) (mkTimespec 1700000001 3))
    as (s1 & s2 & r & H1 & H2 & H3 & H4 & _); [by_dec | by_dec |].
  exists s1, s2. rewrite H4 in H3 by (vm_compute; discriminate). auto.
Defined.
