(* ===== verification/Noise.v ===== *)
(** * Noise: the IKpsk2 handshake ([src/noise.h], [src/noise.cpp])

    [Identity], [TimestampGuard] and [Handshake] with their four message
    functions, and [load_identity].  The handshake object is a record that
    each function takes and returns; a buffer a function writes into is
    returned as it is afterwards, on the failing paths too.  Random draws and
    the wall clock are the inputs gathered in [Entropy]. *)

From Stdlib Require Import ZArith Lia.
From stdpp Require Import base tactics numbers list option strings gmap.
From S2P Require Import Prelude Wire Crypto.

(** ** Data *)

Record TransportKeys : Type := mkKeys {
  tk_send : list Z;
  tk_receive : list Z;
  tk_local_index : Z;
  tk_peer_index : Z
}.

Definition TransportKeys_new : TransportKeys :=
  mkKeys (SecureBuf_new kKeySize) (SecureBuf_new kKeySize) 0 0.

Record Identity : Type := mkIdentity {
  id_private : list Z;
  id_public : list Z;
  id_peer_public : list Z;
  id_own_mac1_key : list Z;
  id_peer_mac1_key : list Z
}.

Definition sending_mac1_key (i : Identity) : list Z := id_peer_mac1_key i.
Definition receiving_mac1_key (i : Identity) : list Z := id_own_mac1_key i.

Record TimestampGuard : Type := mkGuard { tg_greatest : list Z; tg_seen : bool }.

Definition TimestampGuard_new : TimestampGuard :=
  mkGuard (replicate Crypto.kTimestampSize 0%Z) false.

Record Handshake : Type := mkHandshake {
  hs_identity : Identity;
  hs_chaining_key : list Z;
  hs_hash : list Z;
  hs_ephemeral_private : list Z;
  hs_ephemeral_public : list Z;
  hs_peer_ephemeral : list Z;
  hs_local_index : Z;
  hs_peer_index : Z
}.

Definition Handshake_new (identity : Identity) : Handshake :=
  mkHandshake identity (SecureBuf_new kHashSize) (SecureBuf_new kHashSize)
    (SecureBuf_new kKeySize) (replicate kKeySize 0%Z) (replicate kKeySize 0%Z) 0 0.

(** What one message-writing call draws from its environment. *)
Record Entropy : Type := mkEntropy {
  ent_word : list Z;      (* randombytes_buf for the index *)
  ent_key : list Z;       (* randombytes_buf for the ephemeral key *)
  ent_now : timespec      (* clock_gettime(CLOCK_REALTIME) *)
}.

(** [crypto::random_index()] *)
Definition ent_index (e : Entropy) : Z := random_index (ent_word e).

(** ** Constants *)

Definition bytes_of (text : string) : list Z :=
  (fun a => Z.of_nat (Ascii.nat_of_ascii a)) <$> String.list_ascii_of_string text.

Definition kConstruction : string := "Noise_IKpsk2_25519_ChaChaPoly_BLAKE2s".
Definition kIdentifier : string := "WireGuard v1 zx2c4 Jason@zx2c4.com".
Definition kLabelMac1 : string := "mac1----".
Definition kPresharedKeySize : nat := 32.
Definition zero_psk : list Z := replicate kPresharedKeySize 0%Z.

(** ** TimestampGuard *)

Definition guard_accept (g : TimestampGuard) (ts : list Z) : Res (bool * TimestampGuard) :=
  stale ← (if tg_seen g then
             a ← timestamp_after ts (tg_greatest g); Ok (negb a)
           else Ok false);
  if (stale : bool) then Ok (false, g) else Ok (true, mkGuard ts true).

Section Noise.
Context `{P : Primitives}.

(** ** Mixing *)

Definition write_macs (message mac1_key : list Z) : Res (list Z) :=
  input ← mac1_input message;
  mac1 ← mac1_field message;
  mac2 ← mac2_field message;
  match input, mac1, mac2 with
  | Some input, Some mac1, Some mac2 =>
      m ← mac mac1_key input;
      message ← copy_to message mac1 m;
      copy_to message mac2 (replicate Wire.kMacSize 0%Z)
  | _, _, _ => Ok message
  end.

(** This file has its own copies of the two writers of [src/wire.cpp]. *)
Definition write_u32_le (buf : list Z) (off : nat) (value : Z) : Res (list Z) :=
  if decide (off + 4 ≤ length buf) then
    for_loop 4 0 (fun i b =>
      st b (off + i) (u8 (Z.land (Z.shiftr value (8 * Z.of_nat i)) 255))) buf
  else Ub.

Definition write_prefix (out : list Z) (t : Type_) : Res (list Z) :=
  out ← st out 0 (type_code t);
  out ← st out 1 0%Z;
  out ← st out 2 0%Z;
  st out 3 0%Z.

Definition begin (responder_static : list Z) : Res (list Z * list Z) :=
  chaining_key ← hash (bytes_of kConstruction);
  h ← hash2 chaining_key (bytes_of kIdentifier);
  h ← hash2 h responder_static;
  Ok (chaining_key, h).

Definition mix_hash (h data : list Z) : Res (list Z) := hash2 h data.

(** [kdf1(chaining_key.mut(), chaining_key.get(), x)]: one buffer is both. *)
Definition kdf1_in_place (chaining_key x : list Z) : Res (list Z) :=
  h ← kdf1 {[0 := chaining_key]} 0 0 x;
  load h 0.

Definition mix_dh (chaining_key private_key peer_public : list Z) : Res (option (list Z)) :=
  let '(ok, shared) := dh private_key peer_public in
  if negb ok then Ok None else
  chaining_key ← kdf1_in_place chaining_key shared;
  Ok (Some chaining_key).

Definition mix_dh_key (chaining_key private_key peer_public : list Z)
    : Res (option (list Z * list Z)) :=
  let '(ok, shared) := dh private_key peer_public in
  if negb ok then Ok None else
  h ← kdf2 {[0 := chaining_key; 1 := SecureBuf_new kKeySize]} 0 1 0 shared;
  chaining_key ← load h 0;
  key_out ← load h 1;
  Ok (Some (chaining_key, key_out)).

(** [kdf3(chaining_key.mut(), tau.mut(), key.mut(), chaining_key.get(), zero_psk())]. *)
Definition mix_psk (chaining_key : list Z) : Res (list Z * list Z * list Z) :=
  h ← kdf3 {[0 := chaining_key; 1 := SecureBuf_new kHashSize; 2 := SecureBuf_new kKeySize]}
        0 1 2 0 zero_psk;
  chaining_key ← load h 0;
  tau ← load h 1;
  key ← load h 2;
  Ok (chaining_key, tau, key).

(** [kdf2(a, b, chaining_key.get(), {})] into two separate buffers. *)
Definition derive_transport (chaining_key a b : list Z) : Res (list Z * list Z) :=
  h ← kdf2 {[0 := chaining_key; 1 := a; 2 := b]} 1 2 0 [];
  a ← load h 1;
  b ← load h 2;
  Ok (a, b).

Definition mac1_ok (message mac1_key claimed : list Z) : Res bool :=
  input ← mac1_input message;
  match input with
  | None => Ok false
  | Some input =>
      expected ← mac mac1_key input;
      Ok (equal expected claimed)
  end.

(** ** Identity *)

Definition Identity_new (private_key peer_public : list Z) : Res Identity :=
  locked ← LockedKey_new;
  private_key ← copy_to locked 0 private_key;
  public_key ← derive_public private_key;
  own ← hash2 (bytes_of kLabelMac1) public_key;
  peer ← hash2 (bytes_of kLabelMac1) peer_public;
  Ok (mkIdentity private_key public_key peer_public own peer).

Definition Identity_from_base64 (private_key peer_public : string) : Res (option Identity) :=
  match from_base64 private_key, from_base64 peer_public with
  | Some priv, Some pub =>
      if negb (length priv =? kKeySize) || negb (length pub =? kKeySize) then Ok None
      else identity ← Identity_new priv pub; Ok (Some identity)
  | _, _ => Ok None
  end.

(** ** Handshake, initiator side *)

Definition write_initiation (hs : Handshake) (out : list Z) (ent : Entropy)
    : Res (Handshake * list Z * option nat) :=
  if length out <? kInitiationSize then Ok (hs, out, None) else
  message ← first out kInitiationSize;
  let whole (message : list Z) := message ++ drop kInitiationSize out in
  let identity := hs_identity hs in
  '(chaining_key, h) ← begin (id_peer_public identity);
  let index := ent_index ent in
  message ← write_prefix message handshake_initiation;
  message ← write_u32_le message kInitiationSenderOffset index;
  '(ephemeral_private, ephemeral_public) ← generate_keypair (ent_key ent);
  chaining_key ← kdf1_in_place chaining_key ephemeral_public;
  message ← copy_to message kInitiationEphemeralOffset ephemeral_public;
  h ← mix_hash h ephemeral_public;
  r ← mix_dh_key chaining_key ephemeral_private (id_peer_public identity);
  match r with
  | None => Ok (hs, whole message, None)
  | Some (chaining_key, key) =>
      sealed ← Crypto.seal kEncryptedStaticSize key 0 (id_public identity) h;
      message ← copy_to message kInitiationStaticOffset sealed;
      field ← subspan message kInitiationStaticOffset kEncryptedStaticSize;
      h ← mix_hash h field;
      r ← mix_dh_key chaining_key (id_private identity) (id_peer_public identity);
      match r with
      | None => Ok (hs, whole message, None)
      | Some (chaining_key, key) =>
          now ← timestamp (ent_now ent);
          sealed ← Crypto.seal kEncryptedTimestampSize key 0 now h;
          message ← copy_to message kInitiationTimestampOffset sealed;
          field ← subspan message kInitiationTimestampOffset kEncryptedTimestampSize;
          h ← mix_hash h field;
          message ← write_macs message (sending_mac1_key identity);
          Ok (mkHandshake identity chaining_key h ephemeral_private ephemeral_public
                (hs_peer_ephemeral hs) index (hs_peer_index hs),
              whole message, Some kInitiationSize)
      end
  end.

(** The keys are written, and the object changes, on success only. *)
Definition read_response (hs : Handshake) (message : list Z) (keys : TransportKeys)
    : Res (bool * Handshake * TransportKeys) :=
  let no := Ok (false, hs, keys) in
  decoded ← decode message;
  match decoded with
  | Some (MResponse response) =>
      let identity := hs_identity hs in
      if negb (hr_receiver_index response =? hs_local_index hs)%Z then no else
      ok ← mac1_ok message (receiving_mac1_key identity) (hr_mac1 response);
      if negb ok then no else
      chaining_key ← kdf1_in_place (hs_chaining_key hs) (hr_ephemeral response);
      h ← mix_hash (hs_hash hs) (hr_ephemeral response);
      r ← mix_dh chaining_key (hs_ephemeral_private hs) (hr_ephemeral response);
      match r with
      | None => no
      | Some chaining_key =>
          r ← mix_dh chaining_key (id_private identity) (hr_ephemeral response);
          match r with
          | None => no
          | Some chaining_key =>
              '(chaining_key, tau, key) ← mix_psk chaining_key;
              h ← mix_hash h tau;
              '(ok, _) ← Crypto.open 0 key 0 (hr_encrypted_nothing response) h;
              if negb ok then no else
              _ ← mix_hash h (hr_encrypted_nothing response);
              '(snd, rcv) ← derive_transport chaining_key (tk_send keys) (tk_receive keys);
              Ok (true,
                  mkHandshake identity (SecureBuf_wipe (hs_chaining_key hs))
                    (SecureBuf_wipe (hs_hash hs)) (SecureBuf_wipe (hs_ephemeral_private hs))
                    (hs_ephemeral_public hs) (hr_ephemeral response)
                    (hs_local_index hs) (hr_sender_index response),
                  mkKeys snd rcv (hs_local_index hs) (hr_sender_index response))
          end
      end
  | _ => no
  end.

(** ** Handshake, responder side *)

Definition read_initiation (hs : Handshake) (message : list Z) (guard : TimestampGuard)
    : Res (bool * Handshake * TimestampGuard) :=
  let no := Ok (false, hs, guard) in
  decoded ← decode message;
  match decoded with
  | Some (MInitiation initiation) =>
      let identity := hs_identity hs in
      ok ← mac1_ok message (receiving_mac1_key identity) (hi_mac1 initiation);
      if negb ok then no else
      '(chaining_key, h) ← begin (id_public identity);
      chaining_key ← kdf1_in_place chaining_key (hi_ephemeral initiation);
      h ← mix_hash h (hi_ephemeral initiation);
      r ← mix_dh_key chaining_key (id_private identity) (hi_ephemeral initiation);
      match r with
      | None => no
      | Some (chaining_key, key) =>
          '(ok, w) ← Crypto.open kKeySize key 0 (hi_encrypted_static initiation) h;
          let claimed_static := default (replicate kKeySize 0%Z) w in
          if negb ok then no else
          h ← mix_hash h (hi_encrypted_static initiation);
          if negb (equal claimed_static (id_peer_public identity)) then no else
          r ← mix_dh_key chaining_key (id_private identity) claimed_static;
          match r with
          | None => no
          | Some (chaining_key, key) =>
              '(ok, w) ← Crypto.open Crypto.kTimestampSize key 0
                           (hi_encrypted_timestamp initiation) h;
              let ts := default (replicate Crypto.kTimestampSize 0%Z) w in
              if negb ok then no else
              h ← mix_hash h (hi_encrypted_timestamp initiation);
              '(ok, guard') ← guard_accept guard ts;
              if negb ok then Ok (false, hs, guard') else
              Ok (true,
                  mkHandshake identity chaining_key h (hs_ephemeral_private hs)
                    (hs_ephemeral_public hs) (hi_ephemeral initiation)
                    (hs_local_index hs) (hi_sender_index initiation),
                  guard')
          end
      end
  | _ => no
  end.

Definition write_response (hs : Handshake) (out : list Z) (keys : TransportKeys) (ent : Entropy)
    : Res (Handshake * list Z * TransportKeys * option nat) :=
  if length out <? kResponseSize then Ok (hs, out, keys, None) else
  message ← first out kResponseSize;
  let whole (message : list Z) := message ++ drop kResponseSize out in
  let identity := hs_identity hs in
  let index := ent_index ent in
  message ← write_prefix message handshake_response;
  message ← write_u32_le message kResponseSenderOffset index;
  message ← write_u32_le message kResponseReceiverOffset (hs_peer_index hs);
  '(ephemeral_private, ephemeral_public) ← generate_keypair (ent_key ent);
  chaining_key ← kdf1_in_place (hs_chaining_key hs) ephemeral_public;
  message ← copy_to message kResponseEphemeralOffset ephemeral_public;
  h ← mix_hash (hs_hash hs) ephemeral_public;
  r ← mix_dh chaining_key ephemeral_private (hs_peer_ephemeral hs);
  match r with
  | None => Ok (hs, whole message, keys, None)
  | Some chaining_key =>
      r ← mix_dh chaining_key ephemeral_private (id_peer_public identity);
      match r with
      | None => Ok (hs, whole message, keys, None)
      | Some chaining_key =>
          '(chaining_key, tau, key) ← mix_psk chaining_key;
          h ← mix_hash h tau;
          sealed ← Crypto.seal kEncryptedNothingSize key 0 [] h;
          message ← copy_to message kResponseNothingOffset sealed;
          field ← subspan message kResponseNothingOffset kEncryptedNothingSize;
          _ ← mix_hash h field;
          '(rcv, snd) ← derive_transport chaining_key (tk_receive keys) (tk_send keys);
          let keys' := mkKeys snd rcv index (hs_peer_index hs) in
          let hs' := mkHandshake identity (SecureBuf_wipe (hs_chaining_key hs))
                       (SecureBuf_wipe (hs_hash hs)) (SecureBuf_wipe (hs_ephemeral_private hs))
                       (hs_ephemeral_public hs) (hs_peer_ephemeral hs)
                       index (hs_peer_index hs) in
          message ← write_macs message (sending_mac1_key identity);
          Ok (hs', whole message, keys', Some kResponseSize)
      end
  end.

End Noise.

(** ** What each mixing step computes *)

Section Steps.
Context `{P : Primitives} `{PO : !PrimitivesOk}.

(** The shared secret, unless the peer's point is low-order. *)
Definition dh_val (a B : list Z) : option (list Z) :=
  if ((scalarmult a B).1 =? 0)%Z then Some (scalarmult a B).2 else None.

Definition Cinit : list Z := HASH (bytes_of kConstruction).
Definition Hinit (Sr : list Z) : list Z := HASH (HASH (Cinit ++ bytes_of kIdentifier) ++ Sr).

Lemma dh_val_comm a b :
  key_ok a -> key_ok b -> dh_val a (scalarmult_base b).2 = dh_val b (scalarmult_base a).2.
Proof. intros. unfold dh_val. by rewrite scalarmult_comm. Qed.

Lemma dh_val_key a B s : key_ok a -> key_ok B -> dh_val a B = Some s -> key_ok s.
Proof.
  intros Ha HB. unfold dh_val. case_match; [|done]. intros [= <-]. by apply scalarmult_ok.
Qed.

Lemma begin_ok Sr : begin Sr = Ok (Cinit, Hinit Sr).
Proof. unfold begin. by rewrite hash_ok, bind_Ok, hash2_ok, bind_Ok, hash2_ok. Qed.

Lemma key_ok_bytes k : key_ok k -> bytes_ok k.
Proof. by intros []. Qed.

Lemma key_ok_KDF1 c x : key_ok (KDF1 c x).
Proof. apply key_ok_HMAC. Qed.
Lemma key_ok_KDF2 c x : key_ok (KDF2 c x).
Proof. apply key_ok_HMAC. Qed.
Lemma key_ok_KDF3 c x : key_ok (KDF3 c x).
Proof. apply key_ok_HMAC. Qed.
Lemma key_ok_Cinit : key_ok Cinit.
Proof. apply key_ok_HASH. Qed.
Lemma key_ok_Hinit Sr : key_ok (Hinit Sr).
Proof. apply key_ok_HASH. Qed.

Lemma kdf1_in_place_ok c x : key_ok c -> kdf1_in_place c x = Ok (KDF1 c x).
Proof.
  intros [_ Hc]. unfold kdf1_in_place.
  rewrite (kdf1_ok _ _ _ c) by (done || apply lookup_singleton_eq).
  rewrite bind_Ok. unfold load. by rewrite lookup_insert_eq.
Qed.

Lemma mix_dh_ok c a B :
  key_ok c -> mix_dh c a B = Ok (KDF1 c <$> dh_val a B).
Proof.
  intros Hc. unfold mix_dh, dh, dh_val. destruct (scalarmult a B) as [rc s]. cbn [fst snd].
  destruct (rc =? 0)%Z; [|done]. cbn [negb]. by rewrite kdf1_in_place_ok.
Qed.

Lemma mix_dh_key_ok c a B :
  key_ok c -> mix_dh_key c a B = Ok ((fun s => (KDF1 c s, KDF2 c s)) <$> dh_val a B).
Proof.
  intros [_ Hc]. unfold mix_dh_key, dh, dh_val. destruct (scalarmult a B) as [rc s]. cbn [fst snd].
  destruct (rc =? 0)%Z; [|done]. cbn [negb].
  rewrite (kdf2_ok _ _ _ _ c) by (done || apply lookup_insert_eq).
  rewrite bind_Ok. unfold load. by simplify_map_eq.
Qed.

Lemma mix_psk_ok c :
  key_ok c -> mix_psk c = Ok (KDF1 c zero_psk, KDF2 c zero_psk, KDF3 c zero_psk).
Proof.
  intros [_ Hc]. unfold mix_psk.
  rewrite (kdf3_ok _ _ _ _ _ c) by (done || apply lookup_insert_eq).
  rewrite bind_Ok. unfold load. by simplify_map_eq.
Qed.

Lemma derive_transport_ok c a b :
  key_ok c -> derive_transport c a b = Ok (KDF1 c [], KDF2 c []).
Proof.
  intros [_ Hc]. unfold derive_transport.
  rewrite (kdf2_ok _ _ _ _ c) by (done || apply lookup_insert_eq).
  rewrite bind_Ok. unfold load. by simplify_map_eq.
Qed.

Lemma mix_hash_ok h x : mix_hash h x = Ok (HASH (h ++ x)).
Proof. apply hash2_ok. Qed.

(** The MACs of a handshake message whose last 32 bytes are the MAC fields. *)
Lemma write_macs_ok ty body x y k :
  (ty = handshake_initiation /\ length body = 112 \/ ty = handshake_response /\ length body = 56) ->
  length x = 16 -> length y = 16 -> key_ok k ->
  write_macs ((prefix_of ty ++ body) ++ x ++ y) k
  = Ok ((prefix_of ty ++ body) ++ MAC k (prefix_of ty ++ body) ++ replicate 16 0%Z).
Proof.
  intros Hty Hx Hy Hk. set (pre := prefix_of ty ++ body).
  destruct (mac_fields_handshake ty body x y Hty Hx Hy) as (H1 & _ & H3 & H4).
  fold pre in H1, H3, H4. clearbody pre. unfold write_macs. rewrite H1, H3, H4, !bind_Ok, mac_ok, bind_Ok by done.
  destruct (length_MAC k pre Hk) as [Hm _].
  rewrite copy_to_app, bind_Ok by len. rewrite Hm.
  rewrite copy_to_app by (rewrite ?length_drop, ?length_app, ?Hm; simpl; lia).
  rewrite (drop_app_length' x) by done. rewrite (drop_ge y) by (rewrite Hy; done).
  by rewrite app_nil_r, <- app_assoc.
Qed.

Lemma write_macs_tail ty body pre rest k :
  pre = prefix_of ty ++ body ->
  (ty = handshake_initiation /\ length body = 112 \/ ty = handshake_response /\ length body = 56) ->
  length rest = 32 -> key_ok k ->
  write_macs (pre ++ rest) k = Ok (pre ++ MAC k pre ++ replicate 16 0%Z).
Proof.
  intros -> Hty Hr Hk. rewrite <- (take_drop 16 rest). apply write_macs_ok; try done; len.
Qed.

Lemma mac1_ok_ok ty body mac1 mac2 k c :
  (ty = handshake_initiation /\ length body = 112 \/ ty = handshake_response /\ length body = 56) ->
  length mac1 = 16 -> length mac2 = 16 -> key_ok k ->
  mac1_ok ((prefix_of ty ++ body) ++ mac1 ++ mac2) k c
  = Ok (equal (MAC k (prefix_of ty ++ body)) c).
Proof.
  intros Hty H1 H2 Hk. unfold mac1_ok.
  destruct (mac_fields_handshake ty body mac1 mac2 Hty H1 H2) as (-> & _).
  rewrite bind_Ok. by rewrite mac_ok.
Qed.

(** ** Identities *)

(** What the constructor establishes. *)
Definition identity_ok (i : Identity) : Prop :=
  key_ok (id_private i) /\ id_public i = (scalarmult_base (id_private i)).2 /\
  key_ok (id_peer_public i) /\
  id_own_mac1_key i = HASH (bytes_of kLabelMac1 ++ id_public i) /\
  id_peer_mac1_key i = HASH (bytes_of kLabelMac1 ++ id_peer_public i).

Lemma identity_keys i : identity_ok i ->
  key_ok (id_private i) /\ key_ok (id_public i) /\ key_ok (id_peer_public i) /\
  key_ok (sending_mac1_key i) /\ key_ok (receiving_mac1_key i).
Proof.
  intros (Hp & Hpub & Hpeer & Hown & Hpm). unfold sending_mac1_key, receiving_mac1_key.
  rewrite Hown, Hpm. split; [done|].
  split; [rewrite Hpub; by apply scalarmult_base_ok|]. split; [done|].
  split; apply key_ok_HASH.
Qed.

(** Everything after the allocation. *)
Lemma Identity_new_eq a B :
  key_ok a ->
  Identity_new a B =
    if sodium_malloc LockedKey_size then
      public_key ← derive_public a;
      own ← hash2 (bytes_of kLabelMac1) public_key;
      peer ← hash2 (bytes_of kLabelMac1) B;
      Ok (mkIdentity a public_key B own peer)
    else Throw bad_alloc.
Proof.
  intros [Hl _]. unfold Identity_new, LockedKey_new. destruct (sodium_malloc _); [|done].
  rewrite bind_Ok, copy_to_start by (rewrite Hl, length_replicate; done).
  by rewrite bind_Ok, drop_ge, app_nil_r by (rewrite length_replicate, Hl; done).
Qed.

Lemma Identity_new_ok a B :
  sodium_malloc LockedKey_size = true -> key_ok a -> key_ok B ->
  exists i, Identity_new a B = Ok i /\ identity_ok i /\ id_private i = a /\ id_peer_public i = B.
Proof.
  intros Hm Ha HB. rewrite Identity_new_eq, Hm, derive_public_ok, bind_Ok, !hash2_ok by done.
  eexists; split; [done|]. done.
Qed.

End Steps.

#[export] Hint Resolve key_ok_Cinit key_ok_Hinit key_ok_KDF1 key_ok_KDF2 key_ok_KDF3 key_ok_HASH
  key_ok_HMAC key_ok_bytes dh_val_key key_ok_clamp : vpn.
