(* ===== verification/HandshakeProofs.v ===== *)
(** * HandshakeProofs: what the handshake establishes

    [transcript1] and [transcript2] are the whitepaper's computation of the
    two messages as functions of the keys and shared secrets.  The lemmas
    relate each function of [Noise] to them; the theorems are agreement of
    the two sides, authentication of the peer, rejection of replays and the
    preservation of state on failure. *)

From Stdlib Require Import ZArith Lia.
From stdpp Require Import base tactics numbers list option strings gmap.
From S2P Require Import Prelude Wire Crypto Noise Toy.

(** The two writers of the handshake are those of the wire format. *)
Ltac as_wire := change Noise.write_prefix with Wire.write_prefix; change Noise.write_u32_le with Wire.write_u32_le.

Section Transcripts.
Context `{P : Primitives}.

Record Transcript1 : Type := mkT1 {
  t1_static : list Z;
  t1_timestamp : list Z;
  t1_ck : list Z;
  t1_hash : list Z
}.

(** Everything the initiation fixes: [Sr], [Si] static public keys, [Ei] the
    initiator's ephemeral, [ss1] = DH(Ei, Sr), [ss2] = DH(Si, Sr). *)
Definition transcript1 (Sr Ei Si ss1 ss2 ts : list Z) : Transcript1 :=
  let c1 := KDF1 Cinit Ei in
  let h1 := HASH (Hinit Sr ++ Ei) in
  let c2 := KDF1 c1 ss1 in
  let est := aead_encrypt (KDF2 c1 ss1) (nonce_bytes 0) Si h1 in
  let h2 := HASH (h1 ++ est) in
  let ets := aead_encrypt (KDF2 c2 ss2) (nonce_bytes 0) ts h2 in
  mkT1 est ets (KDF1 c2 ss2) (HASH (h2 ++ ets)).

Definition initiation_of (mac_key : list Z) (sender : Z) (Ei : list Z) (t : Transcript1)
    (mac2 : list Z) : HandshakeInitiation :=
  mkInitiation sender Ei (t1_static t) (t1_timestamp t)
    (MAC mac_key (prefix_of handshake_initiation ++
                  le_bytes 4 sender ++ Ei ++ t1_static t ++ t1_timestamp t))
    mac2.

Record Transcript2 : Type := mkT2 {
  t2_nothing : list Z;
  t2_initiator_key : list Z;   (* initiator to responder *)
  t2_responder_key : list Z    (* responder to initiator *)
}.

(** [ck] and [h] from the first message, [ss3] = DH(Er, Ei), [ss4] = DH(Er, Si). *)
Definition transcript2 (ck h Er ss3 ss4 : list Z) : Transcript2 :=
  let c3 := KDF1 (KDF1 (KDF1 ck Er) ss3) ss4 in
  let h' := HASH (HASH (h ++ Er) ++ KDF2 c3 zero_psk) in
  let c4 := KDF1 c3 zero_psk in
  mkT2 (aead_encrypt (KDF3 c3 zero_psk) (nonce_bytes 0) [] h') (KDF1 c4 []) (KDF2 c4 []).

Definition response_of (mac_key : list Z) (sender receiver : Z) (Er : list Z) (t : Transcript2)
    (mac2 : list Z) : HandshakeResponse :=
  mkResponse sender receiver Er (t2_nothing t)
    (MAC mac_key (prefix_of handshake_response ++
                  le_bytes 4 sender ++ le_bytes 4 receiver ++ Er ++ t2_nothing t))
    mac2.

Definition entropy_ok (e : Entropy) : Prop :=
  (length (ent_word e) = 4 /\ bytes_ok (ent_word e)) /\ key_ok (ent_key e) /\ clock_ok (ent_now e).

Lemma ent_index_ok e : entropy_ok e -> is_u32 (ent_index e).
Proof. intros ((Hl & Hb) & _). apply le_val_bound in Hb. by rewrite Hl in Hb. Qed.

(** Object invariant: the buffers have their fixed sizes. *)
Definition handshake_ok `{!PrimitivesOk} (hs : Handshake) : Prop :=
  identity_ok (hs_identity hs) /\ key_ok (hs_chaining_key hs) /\ key_ok (hs_hash hs) /\
  key_ok (hs_ephemeral_private hs) /\ key_ok (hs_peer_ephemeral hs) /\
  is_u32 (hs_local_index hs) /\ is_u32 (hs_peer_index hs).

End Transcripts.

Ltac step := rewrite bind_Ok; cbv beta iota.

(** Execute the next call of a handshake function. *)
Ltac hs_call m :=
  lazymatch m with
  | begin ?S => rewrite (begin_ok S)
  | kdf1_in_place ?c ?x => rewrite (kdf1_in_place_ok c x) by eauto with vpn
  | mix_hash ?h ?x => rewrite (mix_hash_ok h x)
  | mix_dh_key ?c ?a ?B => rewrite (mix_dh_key_ok c a B) by eauto with vpn
  | mix_dh ?c ?a ?B => rewrite (mix_dh_ok c a B) by eauto with vpn
  | mix_psk ?c => rewrite (mix_psk_ok c) by eauto with vpn
  | derive_transport ?c ?a ?b => rewrite (derive_transport_ok c a b) by eauto with vpn
  end.

Ltac hs_step :=
  first
  [ write_step; cbv beta iota
  | lazymatch goal with |- context [?m ≫= _] => hs_call m; step end ].

Section Correct.
Context `{P : Primitives} `{PO : !PrimitivesOk}.

(** Sealing into a field of the message and hashing the field. *)
Lemma seal_field {A} (f : list Z -> list Z -> Res A) pre rest off n k m ad :
  length pre = off -> n = length m + 16 -> n ≤ length rest -> key_ok k -> bytes_ok m ->
  (sealed ← Crypto.seal n k 0 m ad;
   message ← copy_to (pre ++ rest) off sealed;
   field ← subspan message off n;
   f message field)
  = f ((pre ++ aead_encrypt k (nonce_bytes 0) m ad) ++ drop n rest)
      (aead_encrypt k (nonce_bytes 0) m ad).
Proof.
  intros Hoff Hn Hr Hk Hm. rewrite seal_ok by done. step.
  destruct (aead_encrypt_ok k (nonce_bytes 0) m ad Hk Hm) as [Hl _].
  rewrite copy_to_app by lia. step. rewrite Hl, <- Hn, <- app_assoc.
  rewrite subspan_app by lia. done.
Qed.

Lemma length_sealed k n m ad :
  key_ok k -> bytes_ok m -> length (aead_encrypt k n m ad) = length m + 16.
Proof. intros Hk Hm. by destruct (aead_encrypt_ok k n m ad Hk Hm). Qed.

Lemma write_initiation_ok hs out ent ss1 ss2 ts :
  let i := hs_identity hs in
  let e := clamp (ent_key ent) in
  let E := (scalarmult_base e).2 in
  let t := transcript1 (id_peer_public i) E (id_public i) ss1 ss2 ts in
  identity_ok i -> entropy_ok ent -> 148 ≤ length out ->
  dh_val e (id_peer_public i) = Some ss1 ->
  dh_val (id_private i) (id_peer_public i) = Some ss2 ->
  timestamp (ent_now ent) = Ok ts ->
  write_initiation hs out ent =
    Ok (mkHandshake i (t1_ck t) (t1_hash t) e E (hs_peer_ephemeral hs) (ent_index ent)
          (hs_peer_index hs),
        serialize (MInitiation (initiation_of (sending_mac1_key i) (ent_index ent) E t
                                  (replicate 16 0%Z)))
          ++ drop 148 out,
        Some 148).
Proof.
  intros i e E t Hi (Hidx & Hkey & Hclock) Hlen Hss1 Hss2 Hts.
  destruct (identity_keys i Hi) as (Hpriv & Hpub & Hpeer & Hsm & _).
  destruct (timestamp_val _ Hclock) as (ts' & Hts' & Lts & Bts & _).
  rewrite Hts in Hts'. injection Hts' as <-.
  unfold write_initiation. as_wire. destruct (Nat.ltb_spec (length out) kInitiationSize); [wire_lia|].
  unfold first. rewrite subspan_ok by wire_lia. step. rewrite drop_0.
  set (M := take kInitiationSize out). assert (length M = 148) as HM by (unfold M; wire_lia).
  clearbody M. cbv zeta. fold i.
  repeat hs_step.
  destruct (generate_keypair_ok (ent_key ent) Hkey) as [-> He]. fold e in He |- *. fold E.
  assert (key_ok E) as HE by (by apply scalarmult_base_ok). pose proof (proj1 HE) as LE.
  unfold kKeySize in LE. step. do 4 hs_step.
  rewrite Hss1. cbn [fmap option_fmap option_map].
  pose proof (proj1 Hpub) as Lpub. unfold kKeySize in Lpub.
  rewrite seal_field by (eauto with vpn; known_lengths; wire_lia). cbv beta.
  do 2 hs_step. rewrite Hss2. cbn [fmap option_fmap option_map]. rewrite Hts. step.
  set (est := aead_encrypt (KDF2 (KDF1 Cinit E) ss1) _ _ _).
  assert (length est = 48) as Lest by (unfold est; rewrite length_sealed by eauto with vpn; lia).
  rewrite seal_field by (eauto with vpn; known_lengths; wire_lia). cbv beta.
  set (ets := aead_encrypt _ _ ts _).
  assert (length ets = 28) as Lets by (unfold ets; rewrite length_sealed by eauto with vpn; lia).
  hs_step.
  erewrite write_macs_tail; [step | rewrite <- !app_assoc; reflexivity | left; split; [done|]
    | | done]; [| known_lengths; lia | wire_lia].
  unfold t, transcript1, initiation_of. cbv zeta. cbn [t1_ck t1_hash t1_static t1_timestamp].
  msg_fields. fold est ets. rewrite <- !app_assoc. done.
Qed.

(** Either Diffie-Hellman failing: nothing is returned and the object is as it
    was; only the caller's 148 bytes have been scribbled on. *)
Lemma write_initiation_fail hs out ent :
  let i := hs_identity hs in
  identity_ok i -> entropy_ok ent -> 148 ≤ length out ->
  dh_val (clamp (ent_key ent)) (id_peer_public i) = None \/
  dh_val (id_private i) (id_peer_public i) = None ->
  exists out', write_initiation hs out ent = Ok (hs, out', None) /\
    length out' = length out /\ drop 148 out' = drop 148 out.
Proof.
  intros i Hi (Hidx & Hkey & Hclock) Hlen Hdh.
  destruct (identity_keys i Hi) as (Hpriv & Hpub & Hpeer & Hsm & _).
  unfold write_initiation. as_wire. destruct (Nat.ltb_spec (length out) kInitiationSize); [wire_lia|].
  unfold first. rewrite subspan_ok by wire_lia. step. rewrite drop_0.
  set (M := take kInitiationSize out). assert (length M = 148) as HM by (unfold M; wire_lia).
  clearbody M. cbv zeta. fold i. repeat hs_step.
  destruct (generate_keypair_ok (ent_key ent) Hkey) as [-> He].
  set (E := (scalarmult_base _).2).
  assert (key_ok E) as HE by (by apply scalarmult_base_ok). pose proof (proj1 HE) as LE.
  unfold kKeySize in LE. step. do 4 hs_step.
  pose proof (proj1 Hpub) as Lpub. unfold kKeySize in Lpub.
  destruct (dh_val (clamp (ent_key ent)) _) as [ss1|] eqn:Hss1; cbn [fmap option_fmap option_map].
  - destruct Hdh as [|Hdh]; [done|].
    rewrite seal_field by (eauto with vpn; known_lengths; wire_lia). cbv beta.
    do 2 hs_step. rewrite Hdh. cbn [fmap option_fmap option_map].
    eexists; split; [done|].
    assert (forall k, length (aead_encrypt (KDF2 (KDF1 Cinit E) ss1) (nonce_bytes 0) (id_public i) k) = 48)
      as Hest by (intros; rewrite length_sealed by eauto with vpn; lia).
    split; [|rewrite drop_app_length'; [done|]]; known_lengths; rewrite Hest; wire_lia.
  - eexists; split; [done|].
    split; [|rewrite drop_app_length'; [done|]]; known_lengths; wire_lia.
Qed.
(** ** The timestamp guard *)

Definition guard_ok (g : TimestampGuard) : Prop :=
  length (tg_greatest g) = 12 /\ bytes_ok (tg_greatest g).

Lemma guard_accept_val g ts :
  guard_ok g -> length ts = 12 -> bytes_ok ts ->
  guard_accept g ts =
  Ok (if tg_seen g && (be_val ts <=? be_val (tg_greatest g))%Z
      then (false, g) else (true, mkGuard ts true)).
Proof.
  intros [Hl Hb] Hts Bts. unfold guard_accept. destruct (tg_seen g); [|done]. cbn [andb].
  rewrite timestamp_after_val by done. step. step. rewrite Z.leb_antisym. by case_match.
Qed.

(** ** Reading an initiation *)

Lemma initiation_split m :
  serialize (MInitiation m) =
  (prefix_of handshake_initiation ++ (le_bytes 4 (hi_sender_index m) ++ hi_ephemeral m ++
     hi_encrypted_static m ++ hi_encrypted_timestamp m)) ++ hi_mac1 m ++ hi_mac2 m.
Proof. cbn [serialize]. by rewrite <- !app_assoc. Qed.

Lemma mac1_ok_initiation m k c :
  wf_message (MInitiation m) -> key_ok k ->
  mac1_ok (serialize (MInitiation m)) k c =
  Ok (equal (MAC k (prefix_of handshake_initiation ++ (le_bytes 4 (hi_sender_index m) ++
        hi_ephemeral m ++ hi_encrypted_static m ++ hi_encrypted_timestamp m))) c).
Proof.
  intros Hwf Hk. cbn [wf_message] in Hwf. unfold field_ok in Hwf. destruct_and!.
  rewrite initiation_split. rewrite mac1_ok_ok; [done | left; split; [done|] | done..].
  known_lengths. lia.
Qed.

Lemma open_field n k ct ad :
  length ct = n + 16 -> key_ok k -> bytes_ok ct ->
  (exists m, Crypto.open n k 0 ct ad = Ok (true, Some m) /\
     ct = aead_encrypt k (nonce_bytes 0) m ad /\ length m = n /\ bytes_ok m) \/
  (exists w, Crypto.open n k 0 ct ad = Ok (false, w)).
Proof.
  intros Hl Hk Hb. rewrite open_ok by lia.
  destruct (aead_decrypt_ok k (nonce_bytes 0) ct ad Hk Hb ltac:(lia)) as [Hm Bm].
  destruct (aead_decrypt k (nonce_bytes 0) ct ad) as [rc m] eqn:Hd. cbn [fst snd] in *.
  destruct (Z.eqb_spec rc 0) as [->|Hrc]; [|right; eauto].
  left. exists m. split; [done|]. split; [|split; [lia|done]].
  by eapply aead_deterministic; eauto; lia.
Qed.

(** The two outcomes of [read_initiation] on any datagram whatsoever. *)
Lemma read_initiation_cases hs msg g :
  let i := hs_identity hs in
  bytes_ok msg -> identity_ok i -> guard_ok g ->
  read_initiation hs msg g = Ok (false, hs, g) \/
  exists sender E mac2 ss1 ss2 ts,
    let t := transcript1 (id_public i) E (id_peer_public i) ss1 ss2 ts in
    msg = serialize (MInitiation (initiation_of (receiving_mac1_key i) sender E t mac2)) /\
    is_u32 sender /\ key_ok E /\ field_ok 16 mac2 /\ field_ok 12 ts /\
    dh_val (id_private i) E = Some ss1 /\ dh_val (id_private i) (id_peer_public i) = Some ss2 /\
    (tg_seen g && (be_val ts <=? be_val (tg_greatest g))%Z = false) /\
    read_initiation hs msg g =
      Ok (true, mkHandshake i (t1_ck t) (t1_hash t) (hs_ephemeral_private hs)
                  (hs_ephemeral_public hs) E (hs_local_index hs) sender, mkGuard ts true).
Proof.
  intros i Hmsg Hi Hg. destruct (identity_keys i Hi) as (Hpriv & Hpub & Hpeer & _ & Hrm).
  destruct (decode_eq msg Hmsg) as [(?&?&_&Hdec)|[_ Hdec]];
    [|left; unfold read_initiation; by rewrite Hdec].
  destruct (decode_fields msg x) as [[m|m|m|m]|] eqn:Hf;
    try (left; unfold read_initiation; by rewrite Hdec).
  destruct (decode_sound msg (MInitiation m) Hmsg Hdec) as [Hwf ->]. clear Hf.
  pose proof Hwf as Hwf'. cbn [wf_message] in Hwf'. unfold field_ok in Hwf'. destruct_and!.
  unfold read_initiation. rewrite Hdec. step. fold i. clear Hdec Hmsg.
  rewrite mac1_ok_initiation by done. step.
  set (pre := prefix_of handshake_initiation ++ _).
  destruct (equal (MAC _ pre) (hi_mac1 m)) eqn:Hmac; cbn [negb]; [|by left].
  apply equal_spec in Hmac. assert (key_ok (hi_ephemeral m)) as HE by done.
  do 4 hs_step. destruct (dh_val _ (hi_ephemeral m)) as [ss1|] eqn:Hss1;
    cbn [fmap option_fmap option_map]; [|by left].
  destruct (open_field kKeySize (KDF2 (KDF1 Cinit (hi_ephemeral m)) ss1) (hi_encrypted_static m)
     (HASH (Hinit (id_public i) ++ hi_ephemeral m)) ltac:(done) ltac:(auto with vpn) ltac:(done))
     as [(st & -> & Hest & Lst & Bst)|[w ->]]; step; cbn [from_option id negb]; [|by left].
  hs_step. destruct (equal st (id_peer_public i)) eqn:Hst; cbn [negb]; [|by left].
  apply equal_spec in Hst as ->. hs_step.
  destruct (dh_val _ (id_peer_public i)) as [ss2|] eqn:Hss2; cbn [fmap option_fmap option_map];
    [|by left].
  destruct (open_field Crypto.kTimestampSize (KDF2 (KDF1 (KDF1 Cinit (hi_ephemeral m)) ss1) ss2)
     (hi_encrypted_timestamp m)
     (HASH (HASH (Hinit (id_public i) ++ hi_ephemeral m) ++ hi_encrypted_static m))
     ltac:(done) ltac:(auto with vpn) ltac:(done))
     as [(ts & -> & Hets & Lts & Bts)|[w ->]]; step; cbn [from_option id negb]; [|by left].
  hs_step. rewrite guard_accept_val by done. step.
  destruct (tg_seen g && _) eqn:Hold; cbn [negb]; [by left|]. right.
  exists (hi_sender_index m), (hi_ephemeral m), (hi_mac2 m), ss1, ss2, ts. cbv zeta.
  unfold transcript1, initiation_of. cbv zeta. cbn [t1_ck t1_hash t1_static t1_timestamp].
  rewrite <- Hest, <- Hets. fold pre. rewrite Hmac.
  repeat split_and; try done.
Qed.
Lemma field_sealed n k c m ad :
  key_ok k -> field_ok n m -> field_ok (n + 16) (aead_encrypt k c m ad).
Proof.
  intros Hk [Hl Hb]. destruct (aead_encrypt_ok k c m ad Hk Hb) as [H1 H2]. split; [lia|done].
Qed.

Lemma transcript1_sizes Sr Ei Si ss1 ss2 ts :
  key_ok Si -> field_ok 12 ts ->
  field_ok 48 (t1_static (transcript1 Sr Ei Si ss1 ss2 ts)) /\
  field_ok 28 (t1_timestamp (transcript1 Sr Ei Si ss1 ss2 ts)) /\
  key_ok (t1_ck (transcript1 Sr Ei Si ss1 ss2 ts)) /\
  key_ok (t1_hash (transcript1 Sr Ei Si ss1 ss2 ts)).
Proof.
  intros HS Ht. cbn [t1_static t1_timestamp t1_ck t1_hash transcript1].
  split; [apply (field_sealed 32); auto with vpn|].
  split; [apply (field_sealed 12); auto with vpn|]. auto with vpn.
Qed.

Lemma initiation_of_wf k sender E t mac2 :
  key_ok k -> is_u32 sender -> key_ok E -> field_ok 48 (t1_static t) ->
  field_ok 28 (t1_timestamp t) -> field_ok 16 mac2 ->
  wf_message (MInitiation (initiation_of k sender E t mac2)).
Proof.
  intros Hk Hs HE H1 H2 Hm. unfold initiation_of. msg_fields.
  repeat split_and; try done; by apply length_MAC.
Qed.

(** An initiation computed for this responder by the configured peer, fresh by
    its timestamp, is accepted. *)
Lemma read_initiation_ok hs g sender E mac2 ss1 ss2 ts :
  let i := hs_identity hs in
  let t := transcript1 (id_public i) E (id_peer_public i) ss1 ss2 ts in
  identity_ok i -> guard_ok g -> is_u32 sender -> key_ok E -> field_ok 16 mac2 -> field_ok 12 ts ->
  dh_val (id_private i) E = Some ss1 -> dh_val (id_private i) (id_peer_public i) = Some ss2 ->
  (tg_seen g && (be_val ts <=? be_val (tg_greatest g))%Z = false) ->
  read_initiation hs
    (serialize (MInitiation (initiation_of (receiving_mac1_key i) sender E t mac2))) g =
  Ok (true, mkHandshake i (t1_ck t) (t1_hash t) (hs_ephemeral_private hs)
              (hs_ephemeral_public hs) E (hs_local_index hs) sender, mkGuard ts true).
Proof.
  intros i t Hi Hg Hs HE Hm2 Hts Hss1 Hss2 Hnew.
  destruct (identity_keys i Hi) as (Hpriv & Hpub & Hpeer & _ & Hrm).
  destruct (transcript1_sizes (id_public i) E (id_peer_public i) ss1 ss2 ts Hpeer Hts)
    as (Hest & Hets & _).
  assert (wf_message (MInitiation (initiation_of (receiving_mac1_key i) sender E t mac2))) as Hwf
    by by apply initiation_of_wf.
  unfold read_initiation. rewrite decode_complete by done. step. fold i.
  rewrite mac1_ok_initiation by done. step. unfold initiation_of. msg_fields.
  rewrite (proj2 (equal_spec _ _) eq_refl). cbn [negb]. do 4 hs_step.
  rewrite Hss1. cbn [fmap option_fmap option_map t1_static t1_timestamp transcript1 t].
  rewrite <- (proj1 Hpeer) at 1. rewrite open_seal by auto with vpn. step.
  cbn [from_option id negb]. hs_step. rewrite (proj2 (equal_spec _ _) eq_refl). cbn [negb]. hs_step.
  rewrite Hss2. cbn [fmap option_fmap option_map].
  assert (Crypto.kTimestampSize = length ts) as -> by (symmetry; apply Hts).
  rewrite open_seal by (auto with vpn; apply Hts). step. cbn [from_option id negb]. hs_step.
  rewrite guard_accept_val by (apply Hts || done). rewrite Hnew. step. cbn [negb].
  unfold t, transcript1. cbv zeta. cbn [t1_ck t1_hash]. done.
Qed.
(** ** Writing a response *)

(** The object after its key material has been used and wiped. *)
Definition spent (hs : Handshake) (peer_eph : list Z) (local peer : Z) : Handshake :=
  mkHandshake (hs_identity hs) (SecureBuf_wipe (hs_chaining_key hs)) (SecureBuf_wipe (hs_hash hs))
    (SecureBuf_wipe (hs_ephemeral_private hs)) (hs_ephemeral_public hs) peer_eph local peer.

Lemma write_response_ok hs out keys ent ss3 ss4 :
  let i := hs_identity hs in
  let e := clamp (ent_key ent) in
  let E := (scalarmult_base e).2 in
  let t := transcript2 (hs_chaining_key hs) (hs_hash hs) E ss3 ss4 in
  handshake_ok hs -> entropy_ok ent -> 92 ≤ length out ->
  dh_val e (hs_peer_ephemeral hs) = Some ss3 -> dh_val e (id_peer_public i) = Some ss4 ->
  write_response hs out keys ent =
    Ok (spent hs (hs_peer_ephemeral hs) (ent_index ent) (hs_peer_index hs),
        serialize (MResponse (response_of (sending_mac1_key i) (ent_index ent) (hs_peer_index hs) E t
                                (replicate 16 0%Z))) ++ drop 92 out,
        mkKeys (t2_responder_key t) (t2_initiator_key t) (ent_index ent) (hs_peer_index hs),
        Some 92).
Proof.
  intros i e E t (Hi & Hck & _ & _ & Hpe & _ & Hpi) (Hidx & Hkey & _) Hlen Hss3 Hss4.
  destruct (identity_keys i Hi) as (Hpriv & Hpub & Hpeer & Hsm & _).
  unfold write_response. as_wire. destruct (Nat.ltb_spec (length out) kResponseSize); [wire_lia|].
  unfold first. rewrite subspan_ok by wire_lia. step. rewrite drop_0.
  set (M := take kResponseSize out). assert (length M = 92) as HM by (unfold M; wire_lia).
  clearbody M. cbv zeta. fold i. repeat hs_step.
  destruct (generate_keypair_ok (ent_key ent) Hkey) as [-> He]. fold e in He |- *. fold E.
  assert (key_ok E) as HE by (by apply scalarmult_base_ok). pose proof (proj1 HE) as LE.
  unfold kKeySize in LE. step. do 4 hs_step.
  rewrite Hss3. cbn [fmap option_fmap option_map]. hs_step.
  rewrite Hss4. cbn [fmap option_fmap option_map]. do 2 hs_step.
  rewrite seal_field by (eauto with vpn; known_lengths; wire_lia). cbv beta. do 2 hs_step.
  set (eno := aead_encrypt _ _ [] _).
  assert (length eno = 16) as Leno
    by (unfold eno; by rewrite length_sealed by auto with vpn).
  erewrite write_macs_tail; [step | rewrite <- !app_assoc; reflexivity | right; split; [done|]
    | | done]; [| known_lengths; lia | wire_lia].
  unfold t, transcript2, response_of. cbv zeta. cbn [t2_nothing t2_initiator_key t2_responder_key].
  msg_fields. fold eno. rewrite <- !app_assoc. done.
Qed.

Lemma write_response_fail hs out keys ent :
  let e := clamp (ent_key ent) in
  handshake_ok hs -> entropy_ok ent -> 92 ≤ length out ->
  dh_val e (hs_peer_ephemeral hs) = None \/ dh_val e (id_peer_public (hs_identity hs)) = None ->
  exists out', write_response hs out keys ent = Ok (hs, out', keys, None) /\
    length out' = length out /\ drop 92 out' = drop 92 out.
Proof.
  intros e (Hi & Hck & _ & _ & Hpe & _ & Hpi) (Hidx & Hkey & _) Hlen Hdh.
  destruct (identity_keys _ Hi) as (Hpriv & Hpub & Hpeer & Hsm & _).
  unfold write_response. as_wire. destruct (Nat.ltb_spec (length out) kResponseSize); [wire_lia|].
  unfold first. rewrite subspan_ok by wire_lia. step. rewrite drop_0.
  set (M := take kResponseSize out). assert (length M = 92) as HM by (unfold M; wire_lia).
  clearbody M. cbv zeta. repeat hs_step.
  destruct (generate_keypair_ok (ent_key ent) Hkey) as [-> He]. fold e in He |- *.
  set (E := (scalarmult_base e).2).
  assert (key_ok E) as HE by (by apply scalarmult_base_ok). pose proof (proj1 HE) as LE.
  unfold kKeySize in LE. step. do 4 hs_step.
  destruct (dh_val e (hs_peer_ephemeral hs)) as [ss3|]; cbn [fmap option_fmap option_map].
  - destruct Hdh as [|Hdh]; [done|]. hs_step. rewrite Hdh. cbn [fmap option_fmap option_map].
    eexists; split; [done|].
    split; [|rewrite drop_app_length'; [done|]]; known_lengths; wire_lia.
  - eexists; split; [done|].
    split; [|rewrite drop_app_length'; [done|]]; known_lengths; wire_lia.
Qed.

(** ** Reading a response *)

Lemma response_split m :
  serialize (MResponse m) =
  (prefix_of handshake_response ++ (le_bytes 4 (hr_sender_index m) ++
     le_bytes 4 (hr_receiver_index m) ++ hr_ephemeral m ++ hr_encrypted_nothing m)) ++
  hr_mac1 m ++ hr_mac2 m.
Proof. cbn [serialize]. by rewrite <- !app_assoc. Qed.

Lemma mac1_ok_response m k c :
  wf_message (MResponse m) -> key_ok k ->
  mac1_ok (serialize (MResponse m)) k c =
  Ok (equal (MAC k (prefix_of handshake_response ++ (le_bytes 4 (hr_sender_index m) ++
        le_bytes 4 (hr_receiver_index m) ++ hr_ephemeral m ++ hr_encrypted_nothing m))) c).
Proof.
  intros Hwf Hk. cbn [wf_message] in Hwf. unfold field_ok in Hwf. destruct_and!.
  rewrite response_split. rewrite mac1_ok_ok; [done | right; split; [done|] | done..].
  known_lengths. lia.
Qed.

(** The two outcomes of [read_response] on any datagram whatsoever. *)
Lemma read_response_cases hs msg keys :
  let i := hs_identity hs in
  bytes_ok msg -> handshake_ok hs ->
  read_response hs msg keys = Ok (false, hs, keys) \/
  exists sender E mac2 ss3 ss4,
    let t := transcript2 (hs_chaining_key hs) (hs_hash hs) E ss3 ss4 in
    msg = serialize (MResponse (response_of (receiving_mac1_key i) sender (hs_local_index hs) E t
                                  mac2)) /\
    is_u32 sender /\ key_ok E /\ field_ok 16 mac2 /\
    dh_val (hs_ephemeral_private hs) E = Some ss3 /\ dh_val (id_private i) E = Some ss4 /\
    read_response hs msg keys =
      Ok (true, spent hs E (hs_local_index hs) sender,
          mkKeys (t2_initiator_key t) (t2_responder_key t) (hs_local_index hs) sender).
Proof.
  intros i Hmsg (Hi & Hck & _ & Hep & _).
  destruct (identity_keys i Hi) as (Hpriv & Hpub & Hpeer & _ & Hrm).
  destruct (decode_eq msg Hmsg) as [(?&?&_&Hdec)|[_ Hdec]];
    [|left; unfold read_response; by rewrite Hdec].
  destruct (decode_fields msg x) as [[m|m|m|m]|] eqn:Hf;
    try (left; unfold read_response; by rewrite Hdec).
  destruct (decode_sound msg (MResponse m) Hmsg Hdec) as [Hwf ->]. clear Hf.
  pose proof Hwf as Hwf'. cbn [wf_message] in Hwf'. unfold field_ok in Hwf'. destruct_and!.
  unfold read_response. rewrite Hdec. step. fold i. clear Hdec Hmsg.
  destruct (Z.eqb_spec (hr_receiver_index m) (hs_local_index hs)) as [Hri|]; cbn [negb]; [|by left].
  rewrite mac1_ok_response by done. step.
  set (pre := prefix_of handshake_response ++ _).
  destruct (equal (MAC _ pre) (hr_mac1 m)) eqn:Hmac; cbn [negb]; [|by left].
  apply equal_spec in Hmac. assert (key_ok (hr_ephemeral m)) as HE by done.
  do 3 hs_step. destruct (dh_val (hs_ephemeral_private hs) _) as [ss3|] eqn:Hss3;
    cbn [fmap option_fmap option_map]; [|by left].
  hs_step. destruct (dh_val (id_private i) _) as [ss4|] eqn:Hss4;
    cbn [fmap option_fmap option_map]; [|by left].
  do 2 hs_step. set (c3 := KDF1 (KDF1 (KDF1 _ _) ss3) ss4). set (h' := HASH _).
  destruct (open_field 0 (KDF3 c3 zero_psk) (hr_encrypted_nothing m) h' ltac:(done)
    ltac:(auto with vpn) ltac:(done)) as [(e & -> & Heno & Le & _)|[w ->]]; step; cbn [negb];
    [|by left].
  destruct e; [|done]. do 2 hs_step. right.
  exists (hr_sender_index m), (hr_ephemeral m), (hr_mac2 m), ss3, ss4. cbv zeta.
  unfold transcript2, response_of. cbv zeta. cbn [t2_nothing t2_initiator_key t2_responder_key].
  fold c3 h'. rewrite <- Heno, <- Hri. fold pre. rewrite Hmac.
  repeat split_and; try done.
Qed.

Lemma response_of_wf k sender receiver E t mac2 :
  key_ok k -> is_u32 sender -> is_u32 receiver -> key_ok E -> field_ok 16 (t2_nothing t) ->
  field_ok 16 mac2 -> wf_message (MResponse (response_of k sender receiver E t mac2)).
Proof.
  intros Hk Hs Hr HE H1 Hm. unfold response_of. msg_fields.
  repeat split_and; try done; by apply length_MAC.
Qed.

Lemma read_response_ok hs keys sender E mac2 ss3 ss4 :
  let i := hs_identity hs in
  let t := transcript2 (hs_chaining_key hs) (hs_hash hs) E ss3 ss4 in
  handshake_ok hs -> is_u32 sender -> key_ok E -> field_ok 16 mac2 ->
  dh_val (hs_ephemeral_private hs) E = Some ss3 -> dh_val (id_private i) E = Some ss4 ->
  read_response hs
    (serialize (MResponse (response_of (receiving_mac1_key i) sender (hs_local_index hs) E t mac2)))
    keys =
  Ok (true, spent hs E (hs_local_index hs) sender,
      mkKeys (t2_initiator_key t) (t2_responder_key t) (hs_local_index hs) sender).
Proof.
  intros i t (Hi & Hck & _ & Hep & _ & Hli & _) Hs HE Hm2 Hss3 Hss4.
  destruct (identity_keys i Hi) as (Hpriv & Hpub & Hpeer & _ & Hrm).
  assert (field_ok 16 (t2_nothing t)) as Heno
    by (apply (field_sealed 0); [auto with vpn | by split; auto with vpn]).
  assert (wf_message (MResponse (response_of (receiving_mac1_key i) sender (hs_local_index hs) E t
    mac2))) as Hwf by by apply response_of_wf.
  unfold read_response. rewrite decode_complete by done. step. fold i.
  rewrite mac1_ok_response by done. unfold response_of. msg_fields.
  rewrite Z.eqb_refl. cbn [negb]. step. rewrite (proj2 (equal_spec _ _) eq_refl). cbn [negb].
  do 3 hs_step. rewrite Hss3. cbn [fmap option_fmap option_map]. hs_step.
  rewrite Hss4. cbn [fmap option_fmap option_map]. do 2 hs_step.
  cbn [t t2_nothing transcript2]. rewrite (open_seal _ 0 []) by auto with vpn. step. cbn [negb].
  by do 2 hs_step.
Qed.

(** ** Replays *)

Lemma serialize_inj m1 m2 :
  wf_message m1 -> wf_message m2 -> serialize m1 = serialize m2 -> m1 = m2.
Proof.
  intros H1 H2 He. pose proof (decode_complete m1 H1) as D1. rewrite He in D1.
  rewrite decode_complete in D1 by done. by injection D1.
Qed.

(** The timestamp an initiation carries is a function of the datagram. *)
Lemma initiation_timestamp_inj i sender E mac2 ss1 ss2 ts sender' E' mac2' ss1' ss2' ts' :
  let t := transcript1 (id_public i) E (id_peer_public i) ss1 ss2 ts in
  let t' := transcript1 (id_public i) E' (id_peer_public i) ss1' ss2' ts' in
  identity_ok i -> is_u32 sender -> is_u32 sender' -> key_ok E -> key_ok E' ->
  field_ok 16 mac2 -> field_ok 16 mac2' -> field_ok 12 ts -> field_ok 12 ts' ->
  dh_val (id_private i) E = Some ss1 -> dh_val (id_private i) (id_peer_public i) = Some ss2 ->
  dh_val (id_private i) E' = Some ss1' -> dh_val (id_private i) (id_peer_public i) = Some ss2' ->
  serialize (MInitiation (initiation_of (receiving_mac1_key i) sender E t mac2)) =
  serialize (MInitiation (initiation_of (receiving_mac1_key i) sender' E' t' mac2')) ->
  ts = ts'.
Proof.
  intros t t' Hi Hs Hs' HE HE' Hm Hm' Ht Ht' D1 D2 D1' D2' Hser.
  destruct (identity_keys i Hi) as (_ & _ & Hpeer & _ & Hrm).
  destruct (transcript1_sizes (id_public i) E (id_peer_public i) ss1 ss2 ts) as (? & ? & _); [done..|].
  destruct (transcript1_sizes (id_public i) E' (id_peer_public i) ss1' ss2' ts') as (? & ? & _);
    [done..|].
  apply serialize_inj in Hser; [|by apply initiation_of_wf..].
  injection Hser as _ <- Hst Hets _ _. rewrite D1 in D1'. injection D1' as <-.
  rewrite D2 in D2'. injection D2' as <-.
  apply (f_equal (fun c => (aead_decrypt (KDF2 (KDF1 (KDF1 Cinit E) ss1) ss2) (nonce_bytes 0) c
    (HASH (HASH (Hinit (id_public i) ++ E) ++ t1_static t))).2)) in Hets.
  cbn [t t' transcript1 t1_static t1_timestamp] in Hets.
  rewrite !aead_roundtrip in Hets by (auto with vpn; (apply Ht || apply Ht')). done.
Qed.

(** The responder's side of a run: every datagram meets a fresh handshake
    object and the one guard. *)
Fixpoint serve (i : Identity) (g : TimestampGuard) (msgs : list (list Z)) : Res TimestampGuard :=
  match msgs with
  | [] => Ok g
  | msg :: msgs =>
      '(_, _, g) ← read_initiation (Handshake_new i) msg g;
      serve i g msgs
  end.

(** [g'] has seen everything [g] had, and nothing older is accepted any more. *)
Definition guard_le (g g' : TimestampGuard) : Prop :=
  guard_ok g' /\ (tg_seen g = true -> tg_seen g' = true /\
                  (be_val (tg_greatest g) <= be_val (tg_greatest g'))%Z).

Lemma read_initiation_guard hs msg g b hs' g' :
  bytes_ok msg -> identity_ok (hs_identity hs) -> guard_ok g ->
  read_initiation hs msg g = Ok (b, hs', g') -> guard_le g g'.
Proof.
  intros Hm Hi Hg Hr. destruct (read_initiation_cases hs msg g Hm Hi Hg)
    as [Hno|(sender & E & mac2 & ss1 & ss2 & ts & _ & _ & _ & _ & [Lt Bt] & _ & _ & Hnew & Hyes)].
  - rewrite Hno in Hr. injection Hr as <- <- <-. split; [done|]. intros; split; [done|lia].
  - rewrite Hyes in Hr. injection Hr as <- <- <-. split; [done|]. intros Hseen.
    rewrite Hseen in Hnew. cbn in *. split; [done|]. bool_hyps. lia.
Qed.

Lemma serve_guard i g msgs g' :
  Forall bytes_ok msgs -> identity_ok i -> guard_ok g -> serve i g msgs = Ok g' -> guard_le g g'.
Proof.
  intros Hm Hi. revert g. induction Hm as [|msg msgs Hmsg _ IH]; intros g Hg; cbn [serve].
  - intros [= <-]. split; [done|]. intros; split; [done|lia].
  - intros Hs. apply bind_Ok_inv in Hs as ([[b hs'] g1] & Hr & Hs).
    apply read_initiation_guard in Hr as [Hg1 Hle]; [|done..].
    destruct (IH g1 Hg1 Hs) as [Hg' Hle']. split; [done|]. intros Hseen.
    destruct (Hle Hseen) as [Hs1 ?]. destruct (Hle' Hs1) as [? ?]. split; [done|lia].
Qed.

(** ** Two configured peers *)

Lemma field_ok_serialize m : wf_message m -> field_ok (serialized_length m) (serialize m).
Proof. intros. split; [by apply length_serialize | by apply bytes_ok_serialize]. Qed.

(** Each side's configuration names the other's public key. *)
Definition paired (i r : Identity) : Prop :=
  identity_ok i /\ identity_ok r /\
  id_peer_public i = id_public r /\ id_peer_public r = id_public i.

Lemma paired_sym i r : paired i r -> paired r i.
Proof. by intros (?&?&?&?). Qed.

Lemma paired_mac1 i r : paired i r -> sending_mac1_key i = receiving_mac1_key r.
Proof.
  intros ((_&_&_&_&Hi)&(_&_&_&Hr&_)&Hp&_). unfold sending_mac1_key, receiving_mac1_key.
  by rewrite Hi, Hr, Hp.
Qed.

Lemma paired_dh i r k :
  paired i r -> key_ok k ->
  dh_val (id_private r) (scalarmult_base k).2 = dh_val k (id_peer_public i).
Proof.
  intros (_&(Hr&Hpub&_)&Hp&_) Hk. rewrite Hp, Hpub. by apply dh_val_comm.
Qed.

Lemma paired_static_dh i r :
  paired i r ->
  dh_val (id_private r) (id_peer_public r) = dh_val (id_private i) (id_peer_public i).
Proof.
  intros Hp. pose proof Hp as ((Hi&Hpi&_)&_&_&Hpp). rewrite Hpp, Hpi. by apply paired_dh.
Qed.

Lemma paired_new a b :
  sodium_malloc LockedKey_size = true -> key_ok a -> key_ok b ->
  exists i r, Identity_new a (scalarmult_base b).2 = Ok i /\
    Identity_new b (scalarmult_base a).2 = Ok r /\ paired i r /\ id_private i = a /\
    id_peer_public i = (scalarmult_base b).2 /\ id_peer_public r = (scalarmult_base a).2.
Proof.
  intros Hm Ha Hb.
  destruct (Identity_new_ok a (scalarmult_base b).2) as (i & Ei & Oi & Pi & Qi);
    [done | done | by apply scalarmult_base_ok |].
  destruct (Identity_new_ok b (scalarmult_base a).2) as (r & Er & Or & Pr & Qr);
    [done | done | by apply scalarmult_base_ok |].
  exists i, r. split; [done|]. split; [done|]. split; [|done].
  pose proof Oi as (_ & Hi & _). pose proof Or as (_ & Hr & _). unfold paired.
  by rewrite Hi, Hr, Pi, Pr, Qi, Qr.
Qed.

Lemma handshake_ok_new i : identity_ok i -> handshake_ok (Handshake_new i).
Proof. intros Hi. split; [done|]. repeat split_and; try done; by_dec. Qed.

(** What the two objects share between the two messages. *)
Definition in_step (hi hr : Handshake) : Prop :=
  handshake_ok hi /\ handshake_ok hr /\ paired (hs_identity hi) (hs_identity hr) /\
  hs_chaining_key hr = hs_chaining_key hi /\ hs_hash hr = hs_hash hi /\
  hs_peer_ephemeral hr = (scalarmult_base (hs_ephemeral_private hi)).2 /\
  hs_peer_index hr = hs_local_index hi.

Definition fresh_for (g : TimestampGuard) (ts : list Z) : Prop :=
  tg_seen g && (be_val ts <=? be_val (tg_greatest g))%Z = false.

(** The first message, written by one peer and read by the other. *)
Lemma initiation_delivered hi hr out ent g ts :
  let i := hs_identity hi in
  handshake_ok hi -> handshake_ok hr -> paired i (hs_identity hr) -> entropy_ok ent ->
  guard_ok g -> 148 ≤ length out ->
  is_Some (dh_val (clamp (ent_key ent)) (id_peer_public i)) ->
  is_Some (dh_val (id_private i) (id_peer_public i)) ->
  timestamp (ent_now ent) = Ok ts -> fresh_for g ts ->
  exists hi' m hr',
    write_initiation hi out ent = Ok (hi', m ++ drop 148 out, Some 148) /\
    field_ok 148 m /\ read_initiation hr m g = Ok (true, hr', mkGuard ts true) /\
    in_step hi' hr' /\ hs_identity hi' = i /\ hs_identity hr' = hs_identity hr /\
    hs_ephemeral_private hi' = clamp (ent_key ent) /\ hs_local_index hi' = ent_index ent.
Proof.
  intros i Ohi Ohr Hp Hent Hg Hlen [ss1 D1] [ss2 D2] Hts Hfresh.
  pose proof (ent_index_ok _ Hent) as Hidx. pose proof Hent as (_ & Hkey & Hclk). assert (key_ok (clamp (ent_key ent))) as Ke
    by by apply key_ok_clamp.
  assert (key_ok (scalarmult_base (clamp (ent_key ent))).2) as KE by by apply scalarmult_base_ok.
  pose proof Hp as (Oi & Or & Pi & Pr). destruct (identity_keys i Oi) as (_ & Kpub & _).
  destruct (timestamp_val _ Hclk) as (ts' & Hts' & Lts & Bts & _).
  rewrite Hts in Hts'. injection Hts' as <-. assert (field_ok 12 ts) as Fts by done.
  destruct (transcript1_sizes (id_peer_public i) (scalarmult_base (clamp (ent_key ent))).2
    (id_public i) ss1 ss2 ts) as (Hst & Hst' & Kck & Kh); [done..|].
  rewrite (write_initiation_ok hi out ent ss1 ss2 ts) by done. fold i.
  set (t := transcript1 _ _ _ _ _ _) in *.
  eexists _, _, _. split; [done|].
  split; [apply (field_ok_serialize (MInitiation _)), initiation_of_wf; try done; [|by_dec];
          by apply (identity_keys i Oi)|].
  split.
  - rewrite (paired_mac1 _ _ Hp). unfold t. rewrite Pi, <- Pr.
    apply (read_initiation_ok hr g); try done; [by_dec|..].
    + by rewrite (paired_dh _ _ _ Hp).
    + by rewrite (paired_static_dh _ _ Hp).
  - rewrite Pr, <- Pi. fold t. destruct Ohi as (_ & _ & _ & _ & ? & _ & ?).
    destruct Ohr as (_ & _ & _ & ? & _ & ? & _). unfold in_step. cbn.
    repeat split_and; done.
Qed.

(** The second message; both sides then hold each other's keys. *)
Lemma response_delivered hi hr out ent kr ki :
  in_step hi hr -> entropy_ok ent -> 92 ≤ length out ->
  is_Some (dh_val (clamp (ent_key ent)) (hs_peer_ephemeral hr)) ->
  is_Some (dh_val (clamp (ent_key ent)) (id_peer_public (hs_identity hr))) ->
  exists hr' m kr' hi' ki',
    write_response hr out kr ent = Ok (hr', m ++ drop 92 out, kr', Some 92) /\
    field_ok 92 m /\ read_response hi m ki = Ok (true, hi', ki') /\
    tk_send ki' = tk_receive kr' /\ tk_receive ki' = tk_send kr' /\
    tk_local_index ki' = hs_local_index hi /\ tk_peer_index kr' = hs_local_index hi /\
    tk_local_index kr' = ent_index ent /\ tk_peer_index ki' = ent_index ent /\
    key_ok (tk_send ki') /\ key_ok (tk_receive ki').
Proof.
  intros (Ohi & Ohr & Hp & Hck & Hh & Hpe & Hpi) Hent Hlen [ss3 D3] [ss4 D4].
  pose proof (ent_index_ok _ Hent) as Hidx. pose proof Hent as (_ & Hkey & _).
  assert (key_ok (clamp (ent_key ent))) as Ke by by apply key_ok_clamp.
  assert (key_ok (scalarmult_base (clamp (ent_key ent))).2) as KE by by apply scalarmult_base_ok.
  pose proof Ohi as (Oi & _ & _ & Kpriv & _ & Hli & _). apply paired_sym in Hp.
  rewrite (write_response_ok hr out kr ent ss3 ss4) by done.
  set (E := (scalarmult_base (clamp (ent_key ent))).2) in *. set (t := transcript2 _ _ _ _ _).
  assert (field_ok 16 (t2_nothing t)) as Heno
    by (apply (field_sealed 0); [auto with vpn | by split; auto with vpn]).
  eexists _, _, _, _, _. split; [done|].
  split; [apply (field_ok_serialize (MResponse _)), response_of_wf; try done; [| by rewrite Hpi | by_dec];
          by apply (identity_keys _ (proj1 Ohr))|].
  split.
  - rewrite (paired_mac1 _ _ Hp), Hpi. unfold t. rewrite Hck, Hh.
    apply read_response_ok; try done; [by_dec|..].
    + unfold E. rewrite dh_val_comm by done. by rewrite <- Hpe.
    + unfold E. by rewrite (paired_dh _ _ _ Hp).
  - unfold t. rewrite Hck, Hh. cbn. repeat split_and; auto with vpn.
Qed.

Lemma write_initiation_total hs out ent :
  let i := hs_identity hs in
  identity_ok i -> entropy_ok ent ->
  exists hs' out' r, write_initiation hs out ent = Ok (hs', out', r) /\
    length out' = length out /\ drop 148 out' = drop 148 out /\
    (r = Some 148 \/ r = None /\ hs' = hs) /\
    (r = Some 148 <-> 148 ≤ length out /\ is_Some (dh_val (clamp (ent_key ent)) (id_peer_public i)) /\
                      is_Some (dh_val (id_private i) (id_peer_public i))) /\
    (r = Some 148 -> handshake_ok hs -> handshake_ok hs' /\ hs_identity hs' = i).
Proof.
  intros i Hi Hent. destruct (Nat.ltb_spec (length out) 148) as [Hs|Hl].
  { exists hs, out, None. split; [|repeat split_and; auto; try done; split; [done|lia]].
    unfold write_initiation. destruct (Nat.ltb_spec (length out) kInitiationSize); [done|wire_lia]. }
  destruct (dh_val (clamp (ent_key ent)) (id_peer_public i)) as [ss1|] eqn:D1;
    [destruct (dh_val (id_private i) (id_peer_public i)) as [ss2|] eqn:D2|].
  2-3: destruct (write_initiation_fail hs out ent) as (out' & -> & ? & ?); [auto..|];
    exists hs, out', None; repeat split_and; auto; try done; split; [done|]; by intros (_ & [] & []).
  destruct (timestamp_val (ent_now ent)) as (ts & Hts & Lts & Bts & _); [apply Hent|].
  rewrite (write_initiation_ok hs out ent ss1 ss2 ts) by done. pose proof (ent_index_ok _ Hent). destruct Hent as (_ & ? & _).
  destruct (identity_keys i Hi) as (_ & Kpub & _ & Ks & _).
  destruct (transcript1_sizes (id_peer_public i) (scalarmult_base (clamp (ent_key ent))).2
    (id_public i) ss1 ss2 ts) as (Hst & Hst' & Kck & Kh); [done..|].
  fold i. set (m := serialize _).
  assert (length m = 148) as Lm
    by (unfold m; rewrite length_serialize; [done|]; apply initiation_of_wf; try done; [|by_dec];
        by apply scalarmult_base_ok, key_ok_clamp).
  clearbody m. eexists _, _, _. split; [done|].
  split; [rewrite length_app, length_drop; lia|]. split; [by rewrite drop_app_length'|].
  split; [by left|]. split; [split; [|done]; intros _; repeat split_and; eauto|].
  intros _ (_ & _ & _ & _ & ? & _ & ?). split; [|done].
  unfold handshake_ok; repeat split_and; try done; by apply key_ok_clamp.
Qed.

Lemma write_response_total hs out keys ent :
  handshake_ok hs -> entropy_ok ent -> 92 ≤ length out ->
  exists hs' out' keys' r, write_response hs out keys ent = Ok (hs', out', keys', r) /\
    length out' = length out /\ (r = Some 92 \/ r = None /\ keys' = keys) /\
    (r = Some 92 -> key_ok (tk_send keys') /\ key_ok (tk_receive keys') /\
       tk_local_index keys' = ent_index ent /\ tk_peer_index keys' = hs_peer_index hs).
Proof.
  intros Hh Hent Hl. set (e := clamp (ent_key ent)).
  destruct (dh_val e (hs_peer_ephemeral hs)) as [ss3|] eqn:D3;
    [destruct (dh_val e (id_peer_public (hs_identity hs))) as [ss4|] eqn:D4|].
  2-3: destruct (write_response_fail hs out keys ent) as (out' & -> & ? & _); [auto..|];
    exists hs, out', keys, None; repeat split_and; auto; done.
  rewrite (write_response_ok hs out keys ent ss3 ss4) by done.
  pose proof Hh as (Hi & _ & _ & _ & _ & _ & Hpi). pose proof (ent_index_ok _ Hent) as Hidx. pose proof Hent as (_ & Hkey & _).
  set (m := serialize _).
  assert (length m = 92) as Lm.
  { unfold m. rewrite length_serialize; [done|]. apply response_of_wf; try done.
    - by apply (identity_keys _ Hi).
    - by apply scalarmult_base_ok, key_ok_clamp.
    - apply (field_sealed 0); [auto with vpn | by split; auto with vpn].
    - by_dec. }
  clearbody m. eexists _, _, _, _. split; [done|].
  split; [rewrite length_app, length_drop; lia|]. split; [by left|]. intros _. cbn.
  repeat split_and; auto with vpn.
Qed.

(** ** Theorems *)

(** [C4] Agreement: when two configured peers exchange the two messages, the
    responder accepts the initiation, the initiator accepts the response, and
    each side's sending key and index are the other's receiving key and index.
    The only conditions are those the code tests: guarded memory for the two
    private keys, buffers large enough, a fresh timestamp, and no low-order point in the four Diffie-Hellmans. *)
Theorem noise_handshake_agreement a b out1 out2 g keysI keysR ent1 ent2 :
  let pa := (scalarmult_base a).2 in
  let pb := (scalarmult_base b).2 in
  let e1 := clamp (ent_key ent1) in
  let e2 := clamp (ent_key ent2) in
  sodium_malloc LockedKey_size = true -> key_ok a -> key_ok b -> entropy_ok ent1 -> entropy_ok ent2 -> guard_ok g -> tg_seen g = false ->
  148 ≤ length out1 -> 92 ≤ length out2 ->
  is_Some (dh_val e1 pb) -> is_Some (dh_val a pb) ->
  is_Some (dh_val e2 (scalarmult_base e1).2) -> is_Some (dh_val e2 pa) ->
  exists iI iR hs1 m1 hs2 g' hs3 m2 rk hs4 ik,
    Identity_new a pb = Ok iI /\ Identity_new b pa = Ok iR /\
    write_initiation (Handshake_new iI) out1 ent1 = Ok (hs1, m1, Some 148) /\
    read_initiation (Handshake_new iR) (take 148 m1) g = Ok (true, hs2, g') /\
    write_response hs2 out2 keysR ent2 = Ok (hs3, m2, rk, Some 92) /\
    read_response hs1 (take 92 m2) keysI = Ok (true, hs4, ik) /\
    tk_send ik = tk_receive rk /\ tk_receive ik = tk_send rk /\
    tk_local_index ik = tk_peer_index rk /\ tk_peer_index ik = tk_local_index rk.
Proof.
  intros pa pb e1 e2 Hm Ha Hb He1 He2 Hg Hseen Hl1 Hl2 D1 D2 D3 D4.
  destruct (paired_new a b Hm Ha Hb) as (iI & iR & EI & ER & Hp & Pa & EpI & EpR).
  pose proof Hp as (OI & OR & _ & _).
  destruct (timestamp_val (ent_now ent1)) as (ts & Hts & _ & _ & _); [apply He1|].
  destruct (initiation_delivered (Handshake_new iI) (Handshake_new iR) out1 ent1 g ts)
    as (hs1 & m1 & hs2 & W1 & L1 & R1 & Hstep & I1 & I2 & X1 & Y1); cbn [hs_identity Handshake_new];
    rewrite ?EpI, ?Pa; try done; [by apply handshake_ok_new.. | by unfold fresh_for; rewrite Hseen |].
  pose proof Hstep as (_ & _ & _ & _ & _ & Z1 & _).
  destruct (response_delivered hs1 hs2 out2 ent2 keysR keysI)
    as (hs3 & m2 & rk & hs4 & ik & W2 & L2 & R2 & K); try done.
  { by rewrite Z1, X1. }
  { rewrite I2. cbn. by rewrite EpR. }
  exists iI, iR, hs1, (m1 ++ drop 148 out1), hs2, (mkGuard ts true), hs3, (m2 ++ drop 92 out2), rk, hs4, ik.
  destruct L1 as [L1 _], L2 as [L2 _]. rewrite !take_app_length' by done. destruct K as (? & ? & -> & -> & -> & -> & _).
  repeat split_and; done.
Qed.

(** [C14] Exactly the datagrams the configured peer can have built are
    accepted: [read_initiation] always returns; it returns true if and only if
    the datagram is the serialization of an initiation whose MAC, sealed static
    key and sealed timestamp were computed from this responder's public key,
    the configured peer's public key and the two Diffie-Hellman secrets, with a
    timestamp newer than every accepted one; and on false neither the object
    nor the guard changes. *)
Theorem noise_initiation_authenticated hs msg g :
  let i := hs_identity hs in
  bytes_ok msg -> identity_ok i -> guard_ok g ->
  exists b hs' g', read_initiation hs msg g = Ok (b, hs', g') /\
    (b = false -> hs' = hs /\ g' = g) /\
    (b = true <-> exists sender E mac2 ss1 ss2 ts,
       let t := transcript1 (id_public i) E (id_peer_public i) ss1 ss2 ts in
       is_u32 sender /\ key_ok E /\ field_ok 16 mac2 /\ field_ok 12 ts /\
       dh_val (id_private i) E = Some ss1 /\ dh_val (id_private i) (id_peer_public i) = Some ss2 /\
       fresh_for g ts /\
       msg = serialize (MInitiation (initiation_of (receiving_mac1_key i) sender E t mac2))).
Proof.
  intros i Hm Hi Hg. destruct (read_initiation_cases hs msg g Hm Hi Hg)
    as [Hno|(sender & E & mac2 & ss1 & ss2 & ts & Hmsg & ? & ? & ? & ? & ? & ? & Hnew & Hyes)].
  - exists false, hs, g. split; [done|]. split; [done|]. split; [done|].
    intros (sender & E & mac2 & ss1 & ss2 & ts & ? & ? & ? & ? & ? & ? & Hf & ->).
    rewrite (read_initiation_ok hs g) in Hno by done. done.
  - rewrite Hyes. eexists _, _, _. split; [done|]. split; [done|]. split; [|done].
    intros _. exists sender, E, mac2, ss1, ss2, ts. repeat split_and; done.
Qed.

(** [C22] The same for the response: it is accepted if and only if it answers
    this very initiation (its receiver index is ours, its MAC and its empty
    sealed field come from our chaining key, transcript hash and the two
    secrets with the responder's ephemeral); on false neither the object nor
    the keys change; on true the chaining key, the transcript hash and the
    ephemeral private key have been wiped. *)
Theorem noise_response_authenticated hs msg keys :
  let i := hs_identity hs in
  bytes_ok msg -> handshake_ok hs ->
  exists b hs' keys', read_response hs msg keys = Ok (b, hs', keys') /\
    (b = false -> hs' = hs /\ keys' = keys) /\
    (b = true -> hs_chaining_key hs' = replicate 32 0%Z /\ hs_hash hs' = replicate 32 0%Z /\
                 hs_ephemeral_private hs' = replicate 32 0%Z /\ tk_local_index keys' = hs_local_index hs) /\
    (b = true <-> exists sender E mac2 ss3 ss4,
       let t := transcript2 (hs_chaining_key hs) (hs_hash hs) E ss3 ss4 in
       is_u32 sender /\ key_ok E /\ field_ok 16 mac2 /\
       dh_val (hs_ephemeral_private hs) E = Some ss3 /\ dh_val (id_private i) E = Some ss4 /\
       msg = serialize (MResponse (response_of (receiving_mac1_key i) sender (hs_local_index hs) E t
                                     mac2))).
Proof.
  intros i Hm Hh. destruct (read_response_cases hs msg keys Hm Hh)
    as [Hno|(sender & E & mac2 & ss3 & ss4 & Hmsg & ? & ? & ? & ? & ? & Hyes)].
  - exists false, hs, keys. split; [done|]. split; [done|]. split; [done|]. split; [done|].
    intros (sender & E & mac2 & ss3 & ss4 & ? & ? & ? & ? & ? & ->).
    rewrite (read_response_ok hs) in Hno by done. done.
  - rewrite Hyes. eexists _, _, _. split; [done|]. split; [done|]. split; [|split; [|done]].
    + intros _. destruct Hh as (_ & [L1 _] & [L2 _] & [L3 _] & _).
      unfold spent, SecureBuf_wipe. cbn. by rewrite L1, L2, L3.
    + intros _. exists sender, E, mac2, ss3, ss4. repeat split_and; done.
Qed.

(** [C16] An initiation is accepted at most once: once a datagram has been
    accepted, then whatever other datagrams the responder reads, the same bytes
    are rejected for as long as the guard lives. *)
Theorem noise_initiation_replay i g msg hs' g1 between g2 :
  identity_ok i -> guard_ok g -> bytes_ok msg -> Forall bytes_ok between ->
  read_initiation (Handshake_new i) msg g = Ok (true, hs', g1) ->
  serve i g1 between = Ok g2 ->
  read_initiation (Handshake_new i) msg g2 = Ok (false, Handshake_new i, g2).
Proof.
  intros Hi Hg Hm Hb Hacc Hserve.
  destruct (read_initiation_cases (Handshake_new i) msg g Hm Hi Hg)
    as [Hno|(sn & E & m2 & ss1 & ss2 & ts & Hser & ? & ? & ? & Fts & ? & ? & _ & Hyes)].
  { by rewrite Hno in Hacc. }
  rewrite Hyes in Hacc. injection Hacc as _ <-. destruct Fts as [Lts Bts].
  destruct (serve_guard i (mkGuard ts true) between g2 Hb Hi) as [Hg2 Hle]; [done..|].
  destruct (Hle eq_refl) as [Hseen Hts]. cbn in Hts.
  destruct (read_initiation_cases (Handshake_new i) msg g2 Hm Hi Hg2)
    as [Hno|(sn' & E' & m2' & ss1' & ss2' & ts' & Hser' & ? & ? & ? & Fts' & ? & ? & Hnew & _)].
  { exact Hno. }
  assert (ts = ts') as <-.
  { rewrite Hser in Hser'. by apply (initiation_timestamp_inj i) in Hser'. }
  rewrite Hseen in Hnew. cbn in Hnew. bool_hyps. lia.
Qed.

End Correct.

(** ** Witnesses, with the concrete instance [toy] *)

#[export] Instance field_ok_dec n l : Decision (field_ok n l).
Proof. unfold field_ok. apply _. Defined.
#[export] Instance entropy_ok_dec e : Decision (entropy_ok e).
Proof. unfold entropy_ok. apply _. Defined.
#[export] Instance guard_ok_dec g : Decision (guard_ok g).
Proof. unfold guard_ok. apply _. Defined.
#[export] Instance identity_ok_dec i : Decision (identity_ok i).
Proof. unfold identity_ok. apply _. Defined.
#[export] Instance handshake_ok_dec hs : Decision (handshake_ok hs).
Proof. unfold handshake_ok. apply _. Defined.

(** Two peers, by the seeds of their private keys. *)
Definition demo_identity (own peer : Z) : Identity :=
  match Identity_new (demo_key own) (scalarmult_base (demo_key peer)).2 with
  | Ok i => i
  | _ => mkIdentity [] [] [] [] []
  end.

Definition demo_entropy (index seed seconds : Z) : Entropy :=
  mkEntropy (le_bytes 4 index) (demo_key seed) (mkTimespec seconds 0).

Definition demo_initiation : Handshake * list Z :=
  match write_initiation (Handshake_new (demo_identity 3 5)) (replicate 148 0%Z)
          (demo_entropy 7 11 1700000000) with
  | Ok (hs, m, _) => (hs, m)
  | _ => (Handshake_new (demo_identity 3 5), [])
  end.

Definition flag {A B} (r : Res (bool * A * B)) : bool :=
  match r with
  | Ok (b, _, _) => b
  | _ => false
  end.

Definition demo_accepted : bool * Handshake * TimestampGuard :=
  match read_initiation (Handshake_new (demo_identity 5 3)) demo_initiation.2 TimestampGuard_new with
  | Ok r => r
  | _ => (false, Handshake_new (demo_identity 5 3), TimestampGuard_new)
  end.

Lemma noise_handshake_agreement_witness :
  exists iI iR hs1 m1 hs2 g' hs3 m2 rk hs4 ik,
    Identity_new (demo_key 3) (scalarmult_base (demo_key 5)).2 = Ok iI /\
    Identity_new (demo_key 5) (scalarmult_base (demo_key 3)).2 = Ok iR /\
    write_initiation (Handshake_new iI) (replicate 148 0%Z) (demo_entropy 7 11 1700000000)
      = Ok (hs1, m1, Some 148) /\
    read_initiation (Handshake_new iR) (take 148 m1) TimestampGuard_new = Ok (true, hs2, g') /\
    write_response hs2 (replicate 92 0%Z) TransportKeys_new (demo_entropy 9 13 1700000000)
      = Ok (hs3, m2, rk, Some 92) /\
    read_response hs1 (take 92 m2) TransportKeys_new = Ok (true, hs4, ik) /\
    tk_send ik = tk_receive rk /\ tk_receive ik = tk_send rk /\
    tk_local_index ik = tk_peer_index rk /\ tk_peer_index ik = tk_local_index rk.
Proof.
  apply (noise_handshake_agreement (P := toy)); [reflexivity | by_dec | by_dec | by_dec | by_dec | by_dec | reflexivity
    | vm_compute; lia | vm_compute; lia | by_dec | by_dec | by_dec | by_dec].
Defined.

Lemma noise_initiation_authenticated_witness :
  exists b hs' g', read_initiation (Handshake_new (demo_identity 5 3)) demo_initiation.2
                     TimestampGuard_new = Ok (b, hs', g') /\ b = true.
Proof.
  destruct (noise_initiation_authenticated (P := toy) (Handshake_new (demo_identity 5 3))
    demo_initiation.2 TimestampGuard_new) as (b & hs' & g' & Hr & _); [by_dec | by_dec | by_dec |].
  exists b, hs', g'. split; [exact Hr|].
  change b with (flag (Ok (b, hs', g'))). rewrite <- Hr. vm_compute. reflexivity.
Defined.

(** The answer to [demo_initiation]. *)
Definition demo_response : list Z :=
  match write_response demo_accepted.1.2 (replicate 92 0%Z) TransportKeys_new
          (demo_entropy 9 13 1700000000) with
  | Ok (_, m, _, _) => m
  | _ => []
  end.

Lemma noise_response_authenticated_witness :
  exists b hs' keys', read_response demo_initiation.1 demo_response TransportKeys_new
                        = Ok (b, hs', keys') /\ b = true.
Proof.
  destruct (noise_response_authenticated (P := toy) demo_initiation.1 demo_response
    TransportKeys_new) as (b & hs' & keys' & Hr & _); [by_dec | by_dec |].
  exists b, hs', keys'. split; [exact Hr|].
  change b with (flag (Ok (b, hs', keys'))). rewrite <- Hr. vm_compute. reflexivity.
Defined.

Lemma noise_initiation_replay_witness :
  read_initiation (Handshake_new (demo_identity 5 3)) demo_initiation.2 demo_accepted.2
  = Ok (false, Handshake_new (demo_identity 5 3), demo_accepted.2).
Proof.
  apply (noise_initiation_replay (P := toy) (demo_identity 5 3) TimestampGuard_new
    demo_initiation.2 demo_accepted.1.2 demo_accepted.2 [[]; [4%Z; 0%Z]]);
    [by_dec | by_dec | by_dec | by_dec | vm_compute; reflexivity | vm_compute; reflexivity].
Defined.
