(* ===== verification/HandshakeTypes.v ===== *)
(** * HandshakeTypes: every sequence of handshake calls is well typed

    The objects of [src/noise.h] hold fixed-size buffers ([SecureBuf<32>],
    [std::array<uint8_t, 12>]) and 32-bit indices.  The C++ types say so; in the
    model it is an invariant, and here it is shown for every sequence of calls
    on one object, in any order, on arbitrary datagrams and buffers, together
    with the absence of exceptions and of undefined behaviour. *)

From Stdlib Require Import ZArith Lia.
From stdpp Require Import base tactics numbers list option gmap.
From S2P Require Import Prelude Wire Crypto Toy Noise HandshakeProofs.

(** A call of one of the four operations, with what it is given. *)
Inductive hs_op : Type :=
| WriteInitiation (out : list Z) (ent : Entropy)
| ReadInitiation (message : list Z)
| WriteResponse (out : list Z) (ent : Entropy)
| ReadResponse (message : list Z).

Section Types.
Context `{P : Primitives} `{PO : !PrimitivesOk}.

(** The handshake, the guard of its listener and the keys the caller keeps. *)
Record hs_objects : Type := mkObjects {
  ho_handshake : Handshake;
  ho_guard : TimestampGuard;
  ho_keys : TransportKeys
}.

Definition hs_exec (s : hs_objects) (op : hs_op) : Res hs_objects :=
  let '(mkObjects hs g keys) := s in
  match op with
  | WriteInitiation out ent =>
      '(hs, _, _) ← write_initiation hs out ent; Ok (mkObjects hs g keys)
  | ReadInitiation message =>
      '(_, hs, g) ← read_initiation hs message g; Ok (mkObjects hs g keys)
  | WriteResponse out ent =>
      '(hs, _, keys, _) ← write_response hs out keys ent; Ok (mkObjects hs g keys)
  | ReadResponse message =>
      '(_, hs, keys) ← read_response hs message keys; Ok (mkObjects hs g keys)
  end.

Fixpoint hs_run (ops : list hs_op) (s : hs_objects) : Res hs_objects :=
  match ops with
  | [] => Ok s
  | op :: ops => s ← hs_exec s op; hs_run ops s
  end.

(** ** Types *)

Definition keys_ok (k : TransportKeys) : Prop :=
  key_ok (tk_send k) /\ key_ok (tk_receive k) /\ is_u32 (tk_local_index k) /\ is_u32 (tk_peer_index k).

(** Datagrams are bytes; what the random generator and the clock return has its size. *)
Definition op_ok (op : hs_op) : Prop :=
  match op with
  | WriteInitiation _ ent | WriteResponse _ ent => entropy_ok ent
  | ReadInitiation message | ReadResponse message => bytes_ok message
  end.

Definition objects_ok (s : hs_objects) : Prop :=
  handshake_ok (ho_handshake s) /\ guard_ok (ho_guard s) /\ keys_ok (ho_keys s).

Lemma wipe_key k : key_ok k -> key_ok (SecureBuf_wipe k).
Proof.
  intros [Hl _]. unfold SecureBuf_wipe. rewrite Hl. split; [apply length_replicate|].
  apply Forall_replicate. by unfold is_u8.
Qed.

Lemma spent_typed hs E local peer :
  handshake_ok hs -> key_ok E -> is_u32 local -> is_u32 peer -> handshake_ok (spent hs E local peer).
Proof.
  intros (? & ? & ? & ? & _) ? ? ?. unfold handshake_ok. cbn. repeat split_and; auto using wipe_key.
Qed.

Lemma t2_keys ck h E ss3 ss4 :
  key_ok (t2_initiator_key (transcript2 ck h E ss3 ss4)) /\
  key_ok (t2_responder_key (transcript2 ck h E ss3 ss4)).
Proof. unfold transcript2. cbn. auto with vpn. Qed.

Lemma t1_keys Sr E Si ss1 ss2 ts :
  key_ok (t1_ck (transcript1 Sr E Si ss1 ss2 ts)) /\ key_ok (t1_hash (transcript1 Sr E Si ss1 ss2 ts)).
Proof. unfold transcript1. cbn. auto with vpn. Qed.

(** ** One call *)

Lemma write_initiation_typed hs out ent :
  handshake_ok hs -> entropy_ok ent ->
  exists hs' out' r, write_initiation hs out ent = Ok (hs', out', r) /\
    handshake_ok hs' /\ hs_identity hs' = hs_identity hs.
Proof.
  intros Hh Hent. destruct (write_initiation_total hs out ent (proj1 Hh) Hent)
    as (hs' & out' & r & Hw & _ & _ & Hr & _ & Hok).
  exists hs', out', r. split; [done|]. destruct Hr as [Hr|[_ ->]]; auto.
Qed.

Lemma read_initiation_typed hs msg g :
  handshake_ok hs -> bytes_ok msg -> guard_ok g ->
  exists b hs' g', read_initiation hs msg g = Ok (b, hs', g') /\
    handshake_ok hs' /\ guard_ok g' /\ hs_identity hs' = hs_identity hs.
Proof.
  intros Hh Hm Hg. pose proof Hh as (Hi & _ & _ & Hep & _ & Hl & _).
  destruct (read_initiation_cases hs msg g Hm Hi Hg)
    as [Hr|(s & E & m2 & ss1 & ss2 & ts & _ & Hs & HE & _ & [Lts Bts] & _ & _ & _ & Hr)];
    rewrite Hr; eexists _, _, _; (split; [reflexivity|]); [done|].
  destruct (t1_keys (id_public (hs_identity hs)) E (id_peer_public (hs_identity hs)) ss1 ss2 ts).
  unfold handshake_ok, guard_ok. cbn. repeat split_and; done.
Qed.

Lemma write_response_typed hs out keys ent :
  handshake_ok hs -> entropy_ok ent -> keys_ok keys ->
  exists hs' out' keys' r, write_response hs out keys ent = Ok (hs', out', keys', r) /\
    handshake_ok hs' /\ keys_ok keys' /\ hs_identity hs' = hs_identity hs.
Proof.
  intros Hh Hent Hk. destruct (Nat.ltb_spec (length out) kResponseSize) as [Hs|Hl].
  { eexists hs, out, keys, None. unfold write_response. rewrite (proj2 (Nat.ltb_lt _ _) Hs). done. }
  destruct (dh_val (clamp (ent_key ent)) (hs_peer_ephemeral hs)) as [ss3|] eqn:D3;
    [destruct (dh_val (clamp (ent_key ent)) (id_peer_public (hs_identity hs))) as [ss4|] eqn:D4|].
  2-3: destruct (write_response_fail hs out keys ent) as (out' & -> & _); [auto..|];
    by exists hs, out', keys, None.
  rewrite (write_response_ok hs out keys ent ss3 ss4) by done.
  pose proof Hh as (_ & _ & _ & _ & Hpe & _ & Hpi). pose proof (ent_index_ok _ Hent) as Hidx.
  eexists _, _, _, _. split; [reflexivity|]. split; [by apply spent_typed|]. split; [|done].
  destruct (t2_keys (hs_chaining_key hs) (hs_hash hs) (scalarmult_base (clamp (ent_key ent))).2 ss3 ss4).
  done.
Qed.

Lemma read_response_typed hs msg keys :
  handshake_ok hs -> bytes_ok msg -> keys_ok keys ->
  exists b hs' keys', read_response hs msg keys = Ok (b, hs', keys') /\
    handshake_ok hs' /\ keys_ok keys' /\ hs_identity hs' = hs_identity hs.
Proof.
  intros Hh Hm Hk. pose proof Hh as (_ & _ & _ & _ & _ & Hl & _).
  destruct (read_response_cases hs msg keys Hm Hh)
    as [Hr|(s & E & m2 & ss3 & ss4 & _ & Hs & HE & _ & _ & _ & Hr)];
    rewrite Hr; eexists _, _, _; (split; [reflexivity|]); [done|].
  split; [by apply spent_typed|]. split; [|done].
  destruct (t2_keys (hs_chaining_key hs) (hs_hash hs) E ss3 ss4). done.
Qed.

Lemma hs_exec_typed s op :
  objects_ok s -> op_ok op ->
  exists s', hs_exec s op = Ok s' /\ objects_ok s' /\
    hs_identity (ho_handshake s') = hs_identity (ho_handshake s).
Proof.
  destruct s as [hs g keys]. intros (Hh & Hg & Hk) Ho. cbn in Hh, Hg, Hk.
  destruct op as [out ent|msg|out ent|msg]; cbn [op_ok hs_exec] in *.
  - destruct (write_initiation_typed hs out ent Hh Ho) as (hs' & o & r & -> & ? & ?).
    by eexists.
  - destruct (read_initiation_typed hs msg g Hh Ho Hg) as (b & hs' & g' & -> & ? & ? & ?).
    by eexists.
  - destruct (write_response_typed hs out keys ent Hh Ho Hk) as (hs' & o & k' & r & -> & ? & ? & ?).
    by eexists.
  - destruct (read_response_typed hs msg keys Hh Ho Hk) as (b & hs' & k' & -> & ? & ? & ?).
    by eexists.
Qed.

(** [C19] Types are kept: whatever sequence of the four handshake operations is
    called on one object, in whatever order, on whatever datagrams and output
    buffers (too short ones included), every call returns: none throws and
    none reads or writes outside a span; and afterwards the chaining key, the
    hash, the ephemeral keys and both transport keys are still 32 bytes, the
    guard's timestamp 12, the indices 32-bit, and the identity is the same. *)
Theorem noise_calls_typed ops s :
  objects_ok s -> Forall op_ok ops ->
  exists s', hs_run ops s = Ok s' /\ objects_ok s' /\
    hs_identity (ho_handshake s') = hs_identity (ho_handshake s).
Proof.
  intros Hs Hops. revert s Hs. induction Hops as [|op ops Ho _ IH]; intros s Hs; [by exists s|].
  destruct (hs_exec_typed s op Hs Ho) as (s1 & He & H1 & Hi1). cbn [hs_run]. rewrite He, bind_Ok.
  destruct (IH s1 H1) as (s2 & -> & H2 & Hi2). exists s2. by rewrite Hi2.
Qed.

End Types.

#[export] Instance objects_ok_dec `{P : Primitives} `{PO : !PrimitivesOk} s : Decision (objects_ok s).
Proof. unfold objects_ok, keys_ok. apply _. Defined.
#[export] Instance op_ok_dec `{P : Primitives} op : Decision (op_ok op).
Proof. destruct op; cbn; apply _. Defined.

(** Calls in an order no protocol run has. *)
Definition demo_calls : list hs_op :=
  [WriteResponse (replicate 100 0%Z) (demo_entropy 9 13 1700000000);
   ReadInitiation demo_initiation.2;
   ReadResponse [2%Z; 0%Z];
   WriteInitiation (replicate 3 0%Z) (demo_entropy 1 2 5);
   WriteResponse (replicate 92 0%Z) (demo_entropy 9 13 1700000000)].

Lemma noise_calls_typed_witness :
  exists s', hs_run demo_calls (mkObjects (Handshake_new (demo_identity 5 3)) TimestampGuard_new TransportKeys_new)
      = Ok s' /\ objects_ok s' /\ hs_identity (ho_handshake s') = demo_identity 5 3.
Proof.
  apply (noise_calls_typed (P := toy) demo_calls
    (mkObjects (Handshake_new (demo_identity 5 3)) TimestampGuard_new TransportKeys_new)); by_dec.
Defined.
