(* ===== verification/Replay.v ===== *)
(** * Replay: sliding-window replay protection ([ReplayWindow] of [src/session.h]/[.cpp])

    The bitmap is the source's array of 128 words of 64 bits, indexed and
    masked as the source does.  The specification is the set of counters
    accepted so far; [window_rep] relates the two. *)

From Stdlib Require Import ZArith Lia.
From stdpp Require Import base tactics numbers list option gmap.
From S2P Require Import Prelude Toy.

(** ** The code *)

Definition kRejectAfterMessages : Z := (u64 (Z.lnot 0) - Z.shiftl 1 13)%Z.
Definition kRekeyAfterMessages : Z := Z.shiftl 1 60.

Definition kBits : Z := 8192.
Definition kWords : nat := Z.to_nat (kBits / 64).

Record ReplayWindow : Type := mkWindow {
  rw_bitmap : list Z;
  rw_highest : Z;
  rw_seen : bool
}.

Definition ReplayWindow_new : ReplayWindow := mkWindow (replicate kWords 0%Z) 0 false.

Definition bit (bitmap : list Z) (counter : Z) : Res bool :=
  let index := (counter mod kBits)%Z in
  word ← rd bitmap (Z.to_nat (index / 64));
  Ok (negb (Z.land (Z.shiftr word (index mod 64)) 1 =? 0)%Z).

Definition set_bit (bitmap : list Z) (counter : Z) : Res (list Z) :=
  let index := (counter mod kBits)%Z in
  word ← rd bitmap (Z.to_nat (index / 64));
  st bitmap (Z.to_nat (index / 64)) (Z.lor word (u64 (Z.shiftl 1 (index mod 64)))).

Definition clear_bit (bitmap : list Z) (counter : Z) : Res (list Z) :=
  let index := (counter mod kBits)%Z in
  word ← rd bitmap (Z.to_nat (index / 64));
  st bitmap (Z.to_nat (index / 64)) (Z.land word (u64 (Z.lnot (u64 (Z.shiftl 1 (index mod 64)))))).

Definition acceptable (w : ReplayWindow) (counter : Z) : Res bool :=
  if (kRejectAfterMessages <=? counter)%Z then Ok false else
  if negb (rw_seen w) then Ok true else
  if (rw_highest w <? counter)%Z then Ok true else
  if (kBits <=? u64 (rw_highest w - counter))%Z then Ok false else
  b ← bit (rw_bitmap w) counter;
  Ok (negb b).

(** [for (uint64_t c = from; c <= counter; ++c) clear_bit(c)].  A loop without
    side effects that never ends is undefined behaviour, so running out of
    fuel is [Ub]; [clear_loop_ok] and [clear_loop_diverges] show that [kBits]
    rounds of fuel decide the matter exactly. *)
Fixpoint clear_loop (fuel : nat) (c counter : Z) (bitmap : list Z) : Res (list Z) :=
  if (c <=? counter)%Z then
    match fuel with
    | O => Ub
    | S fuel => bitmap ← clear_bit bitmap c; clear_loop fuel (u64 (c + 1)) counter bitmap
    end
  else Ok bitmap.

Definition accept (w : ReplayWindow) (counter : Z) : Res ReplayWindow :=
  if negb (rw_seen w) then
    bitmap ← set_bit (replicate kWords 0%Z) counter;
    Ok (mkWindow bitmap counter true)
  else
    '(bitmap, highest) ←
      (if (rw_highest w <? counter)%Z then
         let advance := u64 (counter - rw_highest w) in
         bitmap ← (if (kBits <=? advance)%Z then Ok (replicate kWords 0%Z)
                   else clear_loop (Z.to_nat kBits) (u64 (rw_highest w + 1)) counter (rw_bitmap w));
         Ok (bitmap, counter)
       else Ok (rw_bitmap w, rw_highest w));
    bitmap ← set_bit bitmap counter;
    Ok (mkWindow bitmap highest true).

(** ** The bitmap as 8192 slots *)

Definition bitmap_ok (bitmap : list Z) : Prop := length bitmap = 128 /\ Forall is_u64 bitmap.

Definition slot (bitmap : list Z) (j : Z) : bool :=
  Z.testbit (bitmap !!! Z.to_nat (j / 64)) (j mod 64).

Lemma kRejectAfterMessages_val : kRejectAfterMessages = (2 ^ 64 - 1 - 2 ^ 13)%Z.
Proof. reflexivity. Qed.

Lemma bitmap_ok_zero : bitmap_ok (replicate kWords 0%Z).
Proof. by_dec. Qed.

Lemma slot_zero j : (0 <= j < 8192)%Z -> slot (replicate kWords 0%Z) j = false.
Proof.
  intros Hj. unfold slot. rewrite lookup_total_replicate_2; [by rewrite Z.bits_0|].
  change kWords with 128. pose proof (Z.div_lt_upper_bound j 64 128). lia.
Qed.

(** The word and the bit a counter selects. *)
Lemma slot_index c :
  let j := (c mod 8192)%Z in
  (0 <= j < 8192)%Z /\ Z.to_nat (j / 64) < 128 /\ (0 <= j mod 64 < 64)%Z.
Proof.
  intros j. pose proof (Z.mod_pos_bound c 8192). pose proof (Z.mod_pos_bound j 64).
  pose proof (Z.div_lt_upper_bound j 64 128). pose proof (Z.div_pos j 64). unfold j in *. lia.
Qed.

Lemma testbit_u64_ge x n : is_u64 x -> (64 <= n)%Z -> Z.testbit x n = false.
Proof.
  intros Hx Hn. rewrite <- (Z.mod_small x (2 ^ 64)) by exact Hx.
  by rewrite Z.mod_pow2_bits_high by lia.
Qed.

Lemma is_u64_bits x : (0 <= x)%Z -> (forall n, (64 <= n)%Z -> Z.testbit x n = false) -> is_u64 x.
Proof.
  intros H0 Hb. unfold is_u64. split; [done|].
  destruct (decide (x = 0)%Z) as [->|]; [lia|]. apply Z.log2_lt_pow2; [lia|].
  destruct (decide (Z.log2 x < 64)%Z); [done|]. exfalso.
  assert (Z.testbit x (Z.log2 x) = true) as Ht by (apply Z.bit_log2; lia).
  rewrite Hb in Ht by lia. done.
Qed.

Lemma rd_word bitmap i :
  bitmap_ok bitmap -> i < 128 -> rd bitmap i = Ok (bitmap !!! i) /\ is_u64 (bitmap !!! i).
Proof.
  intros [Hl Hu] Hi. assert (bitmap !! i = Some (bitmap !!! i)) as Hlk
    by (apply list_lookup_lookup_total_lt; lia).
  split; [by apply rd_lookup|]. by eapply Forall_lookup_1.
Qed.

Lemma bit_ok bitmap c :
  bitmap_ok bitmap -> bit bitmap c = Ok (slot bitmap (c mod 8192)).
Proof.
  intros Hb. destruct (slot_index c) as (_ & Hi & _).
  unfold bit, kBits, slot. destruct (rd_word bitmap _ Hb Hi) as [-> _]. rewrite bind_Ok. f_equal.
  change 1%Z with (Z.ones 1). rewrite Z.land_ones by lia. rewrite <- Z.bit0_mod.
  rewrite Z.shiftr_spec, Z.add_0_l by lia. by destruct (Z.testbit _ _).
Qed.

(** Replacing one word changes one slot, if it changes one bit. *)
Lemma store_slot bitmap c word v :
  let j := (c mod 8192)%Z in
  bitmap_ok bitmap -> is_u64 word ->
  (forall n, (0 <= n < 64)%Z -> Z.testbit word n =
     if (n =? j mod 64)%Z then v else Z.testbit (bitmap !!! Z.to_nat (j / 64)) n) ->
  exists bitmap', st bitmap (Z.to_nat (j / 64)) word = Ok bitmap' /\ bitmap_ok bitmap' /\
    forall k, (0 <= k < 8192)%Z -> slot bitmap' k = if (k =? j)%Z then v else slot bitmap k.
Proof.
  intros j [Hl Hu] Hw Hbits. destruct (slot_index c) as (Hj & Hi & Hm). fold j in Hj, Hi, Hm.
  rewrite st_ok by lia. eexists; split; [done|]. split.
  { split; [by rewrite length_insert|]. by apply Forall_insert. }
  intros k Hk. unfold slot. pose proof (Z.div_mod k 64). pose proof (Z.div_mod j 64).
  pose proof (Z.div_pos k 64). pose proof (Z.div_pos j 64). pose proof (Z.mod_pos_bound k 64).
  destruct (decide (k / 64 = j / 64)%Z) as [Hd|Hd].
  - rewrite Hd, list_lookup_total_insert_eq by lia. rewrite Hbits by lia.
    by destruct (Z.eqb_spec (k mod 64) (j mod 64)), (Z.eqb_spec k j); try done; exfalso; lia.
  - rewrite list_lookup_total_insert_ne by lia.
    destruct (Z.eqb_spec k j); [congruence|done].
Qed.

Lemma mask_bits m n : (0 <= m < 64)%Z -> (0 <= n)%Z ->
  Z.testbit (u64 (Z.shiftl 1 m)) n = (n =? m)%Z.
Proof.
  intros Hm Hn. rewrite Z.shiftl_1_l. unfold u64. rewrite Z.mod_small.
  - rewrite Z.pow2_bits_eqb by lia. apply Z.eqb_sym.
  - split; [lia|]. apply Z.pow_lt_mono_r; lia.
Qed.

Lemma set_bit_ok bitmap c :
  bitmap_ok bitmap ->
  exists bitmap', set_bit bitmap c = Ok bitmap' /\ bitmap_ok bitmap' /\
    forall k, (0 <= k < 8192)%Z ->
      slot bitmap' k = if (k =? c mod 8192)%Z then true else slot bitmap k.
Proof.
  intros Hb. destruct (slot_index c) as (_ & Hi & Hm). unfold set_bit, kBits.
  destruct (rd_word bitmap _ Hb Hi) as [-> Hw]. rewrite bind_Ok. apply store_slot; [done|..].
  - apply is_u64_bits; [apply Z.lor_nonneg; split; [apply Hw | apply Z.mod_pos_bound; lia]|].
    intros n Hn. rewrite Z.lor_spec, mask_bits, testbit_u64_ge by (done || lia).
    destruct (Z.eqb_spec n (c mod 8192 mod 64)); [lia|done].
  - intros n Hn. rewrite Z.lor_spec, mask_bits by lia. case_match; [apply orb_true_r|apply orb_false_r].
Qed.

Lemma clear_bit_ok bitmap c :
  bitmap_ok bitmap ->
  exists bitmap', clear_bit bitmap c = Ok bitmap' /\ bitmap_ok bitmap' /\
    forall k, (0 <= k < 8192)%Z ->
      slot bitmap' k = if (k =? c mod 8192)%Z then false else slot bitmap k.
Proof.
  intros Hb. destruct (slot_index c) as (_ & Hi & Hm). unfold clear_bit, kBits.
  destruct (rd_word bitmap _ Hb Hi) as [-> Hw]. rewrite bind_Ok. apply store_slot; [done|..].
  - apply is_u64_bits; [apply Z.land_nonneg; left; apply Hw|].
    intros n Hn. by rewrite Z.land_spec, testbit_u64_ge by (done || lia).
  - intros n Hn. rewrite Z.land_spec. unfold u64 at 1. rewrite Z.mod_pow2_bits_low by lia.
    rewrite Z.lnot_spec, mask_bits by lia. case_match; [apply andb_false_r|apply andb_true_r].
Qed.

(** ** The clearing loop *)

Definition cleared (lo hi k : Z) : Prop := exists c, (lo <= c <= hi)%Z /\ (c mod 8192 = k)%Z.

Lemma cleared_step c hi k :
  (c <= hi)%Z -> (cleared c hi k <-> (c mod 8192 = k)%Z \/ cleared (c + 1) hi k).
Proof.
  intros Hle. split.
  - intros (x & Hx & Hk). destruct (decide (x = c)) as [->|]; [by left|]. right. exists x. lia.
  - intros [Hk|(x & Hx & Hk)]; [exists c; lia | exists x; lia].
Qed.

Lemma clear_loop_ok fuel c counter bitmap :
  bitmap_ok bitmap -> (0 <= c)%Z -> (counter < 2 ^ 64 - 1)%Z -> (counter - c < Z.of_nat fuel)%Z ->
  exists bitmap', clear_loop fuel c counter bitmap = Ok bitmap' /\ bitmap_ok bitmap' /\
    forall k, (0 <= k < 8192)%Z ->
      slot bitmap' k = true <-> slot bitmap k = true /\ ~ cleared c counter k.
Proof.
  assert (forall c bitmap k, (counter < c)%Z ->
    slot bitmap k = true <-> slot bitmap k = true /\ ~ cleared c counter k) as Hdone.
  { intros c' b k Hlt. split; [|by intros []]. intros; split; [done|]. intros (x & Hx & _). lia. }
  revert c bitmap. induction fuel as [|fuel IH]; intros c bitmap Hb H0 Hc Hf; cbn [clear_loop];
    destruct (Z.leb_spec c counter) as [Hle|Hgt]; try lia.
  1, 3: by exists bitmap; repeat split_and; auto.
  destruct (clear_bit_ok bitmap c Hb) as (b1 & -> & Hb1 & Hs1). rewrite bind_Ok.
  rewrite u64_small by (unfold is_u64; lia).
  destruct (IH (c + 1)%Z b1) as (b2 & -> & Hb2 & Hs2); [done | lia..|].
  exists b2. repeat split_and; try done. intros k Hk. rewrite Hs2, Hs1 by done.
  rewrite (cleared_step c) by done.
  destruct (Z.eqb_spec k (c mod 8192)); [split; [by intros [] | intros [_ []]; auto]|].
  split; (intros [? Hn]; split; [done|]); [intros [|] | intros ?; apply Hn]; auto.
Qed.

(** With [UINT64_MAX] as the counter the loop would not end, whatever the fuel. *)
Lemma clear_loop_diverges fuel c bitmap :
  bitmap_ok bitmap -> is_u64 c -> clear_loop fuel c (2 ^ 64 - 1) bitmap = Ub.
Proof.
  revert c bitmap. induction fuel as [|fuel IH]; intros c bitmap Hb Hc; cbn [clear_loop];
    rewrite (proj2 (Z.leb_le _ _)) by (unfold is_u64 in Hc; lia); [done|].
  destruct (clear_bit_ok bitmap c Hb) as (b1 & -> & Hb1 & _). rewrite bind_Ok.
  apply IH; [done|]. apply Z.mod_pos_bound. lia.
Qed.

(** ** Specification: the set of counters accepted so far *)

(** What the documentation promises: below the limit, not seen before, and
    within [kBits] of the greatest counter accepted. *)
Definition spec_acceptable (A : gset Z) (c : Z) : Prop :=
  (c < kRejectAfterMessages)%Z /\ (c ∉ A) /\ forall a, a ∈ A -> (a - c < kBits)%Z.

Definition window_rep (w : ReplayWindow) (A : gset Z) : Prop :=
  bitmap_ok (rw_bitmap w) /\
  if rw_seen w then
    rw_highest w ∈ A /\ (rw_highest w < kRejectAfterMessages)%Z /\
    (forall a, a ∈ A -> (0 <= a <= rw_highest w)%Z) /\
    (forall c, (0 <= c <= rw_highest w)%Z -> (rw_highest w - c < 8192)%Z ->
       slot (rw_bitmap w) (c mod 8192) = true <-> c ∈ A)
  else A = ∅.

Lemma window_rep_new : window_rep ReplayWindow_new ∅.
Proof. split; [apply bitmap_ok_zero|done]. Qed.

Lemma acceptable_spec w A c :
  window_rep w A -> is_u64 c ->
  exists b, acceptable w c = Ok b /\ (b = true <-> spec_acceptable A c).
Proof.
  intros [Hb Hw] Hc. unfold acceptable, spec_acceptable. unfold is_u64 in Hc.
  destruct (Z.leb_spec kRejectAfterMessages c) as [Hr|Hr]; [exists false; split; [done|]; split; [done|lia]|].
  destruct (rw_seen w); cbn [negb]; [|exists true; split; [done|]; rewrite Hw; split; [|done];
    intros _; repeat split_and; [done | set_solver..]].
  destruct Hw as (Hin & Hlim & Hall & Hbits). rewrite kRejectAfterMessages_val in *.
  destruct (Z.ltb_spec (rw_highest w) c) as [Hgt|Hle].
  { exists true. split; [done|]. split; [|done]. intros _. split; [lia|]. split.
    - intros Hbad%Hall. lia.
    - intros a Ha%Hall. unfold kBits. lia. }
  unfold u64. rewrite Z.mod_small by lia.
  destruct (Z.leb_spec kBits (rw_highest w - c)) as [Hold|Hnew].
  { exists false. split; [done|]. split; [done|]. intros (_ & _ & Hd). specialize (Hd _ Hin). lia. }
  rewrite bit_ok by done. rewrite bind_Ok. eexists; split; [done|].
  unfold kBits in Hnew. rewrite negb_true_iff, <- not_true_iff_false, Hbits by lia.
  split; [|by intros (_ & ? & _)]. intros Hnot. split; [lia|]. split; [done|].
  intros a Ha%Hall. unfold kBits. lia.
Qed.

(** Two counters within one window never share a slot. *)
Lemma slots_disjoint a b : (0 < b - a < 8192)%Z -> (a mod 8192 <> b mod 8192)%Z.
Proof.
  intros H Heq. pose proof (Z.div_mod a 8192). pose proof (Z.div_mod b 8192). lia.
Qed.

(** Setting the bit of [c] in a bitmap that represents [A] around [h]. *)
Lemma set_bit_rep bitmap h A c :
  bitmap_ok bitmap -> (0 <= c <= h)%Z -> (h - c < 8192)%Z -> (h < kRejectAfterMessages)%Z ->
  h ∈ ({[c]} ∪ A : gset Z) -> (forall a, a ∈ A -> (0 <= a <= h)%Z) ->
  (forall x, (0 <= x <= h)%Z -> (h - x < 8192)%Z -> x <> c ->
     slot bitmap (x mod 8192) = true <-> x ∈ A) ->
  exists bitmap', set_bit bitmap c = Ok bitmap' /\
    window_rep (mkWindow bitmap' h true) ({[c]} ∪ A).
Proof.
  intros Hb Hc Hd Hlim Hin Hall Hbits.
  destruct (set_bit_ok bitmap c Hb) as (b1 & -> & Hb1 & Hs1).
  exists b1. split; [done|]. split; [done|]. cbn [rw_seen rw_bitmap rw_highest].
  split; [done|]. split; [done|]. split.
  { intros a [->%elem_of_singleton|?%Hall]%elem_of_union; lia. }
  intros x Hx Hxd. destruct (slot_index x) as (Hj & _). rewrite Hs1 by done.
  rewrite elem_of_union, elem_of_singleton. destruct (decide (x = c)) as [->|Hne].
  - rewrite Z.eqb_refl. split; auto.
  - rewrite (proj2 (Z.eqb_neq _ _)).
    + rewrite Hbits by done. split; [by right|by intros [|]].
    + destruct (decide (x < c)%Z); [|intros Heq; symmetry in Heq; revert Heq];
        apply slots_disjoint; lia.
Qed.

Lemma accept_spec w A c :
  window_rep w A -> is_u64 c -> spec_acceptable A c ->
  exists w', accept w c = Ok w' /\ window_rep w' ({[c]} ∪ A).
Proof.
  intros [Hb Hw] Hc (Hlim & Hnot & Hnear). unfold is_u64 in Hc. unfold accept.
  destruct (rw_seen w); cbn [negb].
  2: { subst A. destruct (set_bit_rep (replicate kWords 0%Z) c ∅ c) as (b1 & -> & Hrep);
         [apply bitmap_ok_zero | lia | lia | done | set_solver | set_solver | | by eexists].
       intros x Hx Hd Hne. rewrite slot_zero by apply slot_index. set_solver. }
  destruct Hw as (Hin & Hh & Hall & Hbits). pose proof (Hall _ Hin) as Hpos.
  pose proof (Hnear _ Hin) as Hn. unfold kBits in Hn.
  destruct (Z.ltb_spec (rw_highest w) c) as [Hgt|Hle].
  2: { rewrite bind_Ok. destruct (set_bit_rep (rw_bitmap w) (rw_highest w) A c) as (b1 & -> & Hrep);
         [done | lia | lia | done | set_solver | done | auto | by eexists]. }
  rewrite kRejectAfterMessages_val in Hlim.
  unfold u64 at 1. rewrite Z.mod_small, u64_small by (unfold is_u64; lia).
  destruct (Z.leb_spec kBits (c - rw_highest w)) as [Hfar|Hclose]; unfold kBits in *.
  - rewrite !bind_Ok. destruct (set_bit_rep (replicate kWords 0%Z) c A c) as (b1 & -> & Hrep);
      [apply bitmap_ok_zero | lia | lia | by rewrite kRejectAfterMessages_val | set_solver
      | intros a ?%Hall; lia | | by eexists].
    intros x Hx Hd Hne. rewrite slot_zero by apply slot_index. split; [done|]. intros ?%Hall. lia.
  - destruct (clear_loop_ok (Z.to_nat 8192) (rw_highest w + 1) c (rw_bitmap w))
      as (b0 & -> & Hb0 & Hs0); [done | lia..|]. rewrite !bind_Ok.
    destruct (set_bit_rep b0 c A c) as (b1 & -> & Hrep);
      [done | lia | lia | by rewrite kRejectAfterMessages_val | set_solver
      | intros a ?%Hall; lia | | by eexists].
    intros x Hx Hd Hne. rewrite Hs0 by apply slot_index.
    destruct (decide (x <= rw_highest w)%Z) as [Hold|Hnew].
    + rewrite Hbits by lia. split; [by intros []|]. intros Hx'. split; [done|].
      intros (y & Hy & Heq). symmetry in Heq. revert Heq. apply slots_disjoint. lia.
    + split; [intros [_ Hc']; exfalso; apply Hc'; exists x; lia|]. intros ?%Hall. lia.
Qed.

(** ** Runs *)

(** What [Session::open] does with the counter of a packet whose tag verifies. *)
Definition offer (w : ReplayWindow) (c : Z) : Res (ReplayWindow * bool) :=
  ok ← acceptable w c;
  if (ok : bool) then w ← accept w c; Ok (w, true) else Ok (w, false).

Fixpoint offers (w : ReplayWindow) (cs : list Z) : Res (ReplayWindow * list bool) :=
  match cs with
  | [] => Ok (w, [])
  | c :: cs =>
      '(w, v) ← offer w c;
      '(w, vs) ← offers w cs;
      Ok (w, v :: vs)
  end.

#[export] Instance spec_acceptable_dec A c : Decision (spec_acceptable A c).
Proof.
  refine (cast_if (decide ((c < kRejectAfterMessages)%Z /\ (c ∉ A) /\
            set_Forall (fun a => (a - c < kBits)%Z) A))); done.
Defined.

Fixpoint spec_offers (A : gset Z) (cs : list Z) : gset Z * list bool :=
  match cs with
  | [] => (A, [])
  | c :: cs =>
      if decide (spec_acceptable A c)
      then let '(A, vs) := spec_offers ({[c]} ∪ A) cs in (A, true :: vs)
      else let '(A, vs) := spec_offers A cs in (A, false :: vs)
  end.

Lemma offer_spec w A c :
  window_rep w A -> is_u64 c ->
  exists w', offer w c = Ok (w', bool_decide (spec_acceptable A c)) /\
    window_rep w' (if decide (spec_acceptable A c) then {[c]} ∪ A else A).
Proof.
  intros Hw Hc. unfold offer. destruct (acceptable_spec w A c Hw Hc) as (b & -> & Hb).
  rewrite bind_Ok. destruct (decide (spec_acceptable A c)) as [Hs|Hs].
  - rewrite bool_decide_true by done. rewrite (proj2 Hb Hs).
    destruct (accept_spec w A c Hw Hc Hs) as (w' & -> & Hw'). by exists w'.
  - rewrite bool_decide_false by done. destruct b; [by destruct Hs; apply Hb|]. by exists w.
Qed.

(** ** Theorems *)

(** [C5] Refinement: over any sequence of counters the bitmap gives, from a
    fresh window, exactly the verdicts of the set-based specification: accept
    iff the counter is below the limit, was not accepted before, and is within
    8192 of the greatest accepted one.  Every call returns (no read outside
    the bitmap, no endless loop). *)
Theorem replay_window_refines cs :
  Forall is_u64 cs ->
  exists w, offers ReplayWindow_new cs = Ok (w, (spec_offers ∅ cs).2) /\
    window_rep w (spec_offers ∅ cs).1.
Proof.
  assert (forall w A, Forall is_u64 cs -> window_rep w A -> exists w',
    offers w cs = Ok (w', (spec_offers A cs).2) /\ window_rep w' (spec_offers A cs).1) as Hgen.
  { intros w A Hcs. revert w A. induction Hcs as [|c cs Hc _ IH]; intros w A Hw; cbn [offers spec_offers].
    - by exists w.
    - destruct (offer_spec w A c Hw Hc) as (w1 & -> & Hw1). rewrite bind_Ok.
      case_decide as Hs; [rewrite bool_decide_true by done | rewrite bool_decide_false by done];
        destruct (IH w1 _ Hw1) as (w2 & -> & Hw2); exists w2; by destruct (spec_offers _ cs). }
  intros Hcs. apply Hgen; [done|]. apply window_rep_new.
Qed.

Lemma replay_window_refines_witness :
  exists w, offers ReplayWindow_new [5; 3; 5; 9000; 3; 809; 810; 18446744073709543423]%Z =
    Ok (w, [true; true; false; true; false; true; true; false]).
Proof.
  destruct (replay_window_refines [5; 3; 5; 9000; 3; 809; 810; 18446744073709543423]%Z) as (w & Hw & _);
    [by_dec|]. exists w. rewrite Hw. vm_compute. reflexivity.
Defined.

(** [C30] [accept] on its own terminates for every counter but the all-ones
    word, and never touches memory outside the bitmap; for the all-ones word,
    within a window of the greatest counter, its loop never ends at any fuel.
    [acceptable] refuses that word, so [Session::open] never gets there. *)
Theorem replay_accept_terminates w c :
  bitmap_ok (rw_bitmap w) -> is_u64 (rw_highest w) -> is_u64 c ->
  ((c < 2 ^ 64 - 1)%Z -> exists w', accept w c = Ok w' /\ bitmap_ok (rw_bitmap w') /\
     rw_seen w' = true /\ rw_highest w' = (if rw_seen w then Z.max (rw_highest w) c else c)) /\
  (c = (2 ^ 64 - 1)%Z -> acceptable w c = Ok false /\
     forall fuel, clear_loop fuel (u64 (rw_highest w + 1)) c (rw_bitmap w) = Ub).
Proof.
  intros Hb Hh Hc. unfold is_u64 in Hh, Hc. split.
  2: { intros ->. split; [done|]. intros fuel. apply clear_loop_diverges; [done|].
       apply Z.mod_pos_bound. lia. }
  intros Hlt. unfold accept. destruct (rw_seen w); cbn [negb].
  2: { destruct (set_bit_ok (replicate kWords 0%Z) c bitmap_ok_zero) as (b1 & -> & Hb1 & _).
       by eexists. }
  destruct (Z.ltb_spec (rw_highest w) c) as [Hgt|Hle].
  2: { rewrite bind_Ok. destruct (set_bit_ok (rw_bitmap w) c Hb) as (b1 & -> & Hb1 & _). eexists.
       split; [done|]. cbn. split; [done|]. split; [done|lia]. }
  unfold u64 at 1. rewrite Z.mod_small, u64_small by (unfold is_u64; lia).
  assert (exists b0, (if (kBits <=? c - rw_highest w)%Z then Ok (replicate kWords 0%Z)
    else clear_loop (Z.to_nat kBits) (rw_highest w + 1) c (rw_bitmap w)) = Ok b0 /\ bitmap_ok b0)
    as (b0 & -> & Hb0).
  { destruct (Z.leb_spec kBits (c - rw_highest w)); [eexists; split; [done|apply bitmap_ok_zero]|].
    destruct (clear_loop_ok (Z.to_nat kBits) (rw_highest w + 1) c (rw_bitmap w))
      as (b0 & -> & Hb0 & _); [done | unfold kBits in *; lia..|]. by eexists. }
  rewrite !bind_Ok. destruct (set_bit_ok b0 c Hb0) as (b1 & -> & Hb1 & _). eexists.
  split; [done|]. cbn. split; [done|]. split; [done|lia].
Qed.

Lemma replay_accept_terminates_witness :
  exists w', accept (mkWindow (replicate kWords 0%Z) 7 true) 4000 = Ok w' /\ rw_highest w' = 4000%Z.
Proof.
  destruct (replay_accept_terminates (mkWindow (replicate kWords 0%Z) 7 true) 4000) as [H _];
    [by_dec | by_dec | by_dec |].
  destruct H as (w' & Ha & _ & _ & Hh); [lia|]. exists w'. by split.
Defined.
