(* ===== verification/Session.v ===== *)
(** * Session: one pair of transport keys with its counters ([Session] of [src/session.h]/[.cpp])

    [seal] and [open] work in place in a buffer: each returns the session, the
    buffer as it is afterwards, and the length of the span it returns.  The
    theorems: what [seal] puts on the wire, that no nonce is used twice, that
    [open] undoes [seal], and that the window moves for authenticated packets
    only, each at most once. *)

From Stdlib Require Import ZArith Lia.
From stdpp Require Import base tactics numbers list option gmap.
From S2P Require Import Prelude Wire Crypto Toy Noise HandshakeProofs Replay.

Record Session : Type := mkSession {
  ss_keys : TransportKeys;
  ss_window : ReplayWindow;
  ss_send_counter : Z;
  ss_active : bool
}.

Definition Session_new : Session := mkSession TransportKeys_new ReplayWindow_new 0 false.

Definition set_keys (s : Session) (keys : TransportKeys) : Session :=
  mkSession keys (ss_window s) (ss_send_counter s) (ss_active s).

Definition activate (s : Session) : Session := mkSession (ss_keys s) ReplayWindow_new 0 true.

Definition local_index (s : Session) : Z := tk_local_index (ss_keys s).
Definition peer_index (s : Session) : Z := tk_peer_index (ss_keys s).
Definition sent (s : Session) : Z := ss_send_counter s.
Definition counter_usable (counter : Z) : bool := (counter <? kRejectAfterMessages)%Z.
Definition replay_acceptable (s : Session) (counter : Z) : Res bool :=
  acceptable (ss_window s) counter.
Definition wants_rekey (s : Session) : bool := (kRekeyAfterMessages <=? ss_send_counter s)%Z.

(** [std::fill(l.begin() + lo, l.begin() + hi, 0)]. *)
Definition fill_zero (l : list Z) (lo hi : Z) : Res (list Z) :=
  if ((0 <=? lo) && (lo <=? hi) && (hi <=? Z.of_nat (length l)))%Z
  then Ok (take (Z.to_nat lo) l ++ replicate (Z.to_nat (hi - lo)) 0%Z ++ drop (Z.to_nat hi) l)
  else Ub.

Section Transport.
Context `{P : Primitives}.

Definition seal (s : Session) (buffer : list Z) (plaintext_len : Z)
    : Res (Session * list Z * option nat) :=
  if negb (ss_active s) then Ok (s, buffer, None) else
  if negb (counter_usable (ss_send_counter s)) then Ok (s, buffer, None) else
  let padded := padded_length plaintext_len in
  if (Z.of_nat (length buffer) <?
      u64 (u64 (Z.of_nat kTransportHeaderSize + padded) + Z.of_nat Wire.kTagSize))%Z
  then Ok (s, buffer, None) else
  payload ← subspan_from buffer kTransportHeaderSize;
  payload ← fill_zero payload plaintext_len padded;
  let counter := ss_send_counter s in
  let s := mkSession (ss_keys s) (ss_window s) (u64 (counter + 1)) (ss_active s) in
  let padded := Z.to_nat padded in
  _ ← first payload (padded + Wire.kTagSize);
  plaintext ← first payload padded;
  sealed ← Crypto.seal (padded + Wire.kTagSize) (tk_send (ss_keys s)) counter plaintext [];
  payload ← copy_to payload 0 sealed;
  let buffer := take kTransportHeaderSize buffer ++ payload in
  '(buffer, _) ← encode_transport_header buffer (peer_index s) counter;
  _ ← first buffer (kTransportHeaderSize + padded + Wire.kTagSize);
  Ok (s, buffer, Some (kTransportHeaderSize + padded + Wire.kTagSize)).

Definition open (s : Session) (counter : Z) (sealed : list Z)
    : Res (Session * list Z * option nat) :=
  if negb (ss_active s) || (length sealed <? Wire.kTagSize) then Ok (s, sealed, None) else
  ok ← acceptable (ss_window s) counter;
  if negb ok then Ok (s, sealed, None) else
  let plaintext_len := length sealed - Wire.kTagSize in
  if negb (plaintext_len mod 16 =? 0) then Ok (s, sealed, None) else
  _ ← first sealed plaintext_len;
  '(ok, w) ← Crypto.open plaintext_len (tk_receive (ss_keys s)) counter sealed [];
  sealed ← (match w with Some out => copy_to sealed 0 out | None => Ok sealed end);
  if negb ok then Ok (s, sealed, None) else
  window ← accept (ss_window s) counter;
  let s := mkSession (ss_keys s) window (ss_send_counter s) (ss_active s) in
  plaintext ← first sealed plaintext_len;
  if length plaintext =? 0 then Ok (s, sealed, Some 0) else
  length ← inner_packet_length plaintext;
  match length with
  | None => Ok (s, sealed, None)
  | Some n => _ ← first plaintext n; Ok (s, sealed, Some n)
  end.

End Transport.

(** ** Invariant *)

Definition session_ok (s : Session) : Prop :=
  key_ok (tk_send (ss_keys s)) /\ key_ok (tk_receive (ss_keys s)) /\
  is_u32 (local_index s) /\ is_u32 (peer_index s) /\
  (0 <= ss_send_counter s <= kRejectAfterMessages)%Z.

(** The plaintext as it is sealed: the packet and zeros up to a multiple of 16. *)
Definition pad16 (p : list Z) : list Z :=
  p ++ replicate (Z.to_nat (padded_length (Z.of_nat (length p))) - length p) 0%Z.

Section Seal.
Context `{P : Primitives} `{PO : !PrimitivesOk}.

Lemma fill_zero_app p rest hi :
  (Z.of_nat (length p) <= hi)%Z -> Z.to_nat hi - length p ≤ length rest ->
  fill_zero (p ++ rest) (Z.of_nat (length p)) hi =
  Ok (p ++ replicate (Z.to_nat hi - length p) 0%Z ++ drop (Z.to_nat hi - length p) rest).
Proof.
  intros Hlo Hhi. unfold fill_zero. rewrite length_app.
  rewrite !(proj2 (Z.leb_le _ _)) by lia. cbn [andb]. rewrite Nat2Z.id, take_app_length.
  rewrite drop_app_ge by lia. do 4 f_equal. lia.
Qed.

(** The datagram for packet [p] under counter [c]. *)
Definition datagram (s : Session) (c : Z) (p : list Z) : list Z :=
  transport_header (peer_index s) c ++
  aead_encrypt (tk_send (ss_keys s)) (nonce_bytes c) (pad16 p) [].

Lemma length_pad16 p :
  (Z.of_nat (length p) < 2 ^ 63)%Z ->
  length (pad16 p) = Z.to_nat (padded_length (Z.of_nat (length p))) /\ length (pad16 p) mod 16 = 0 /\
  length p ≤ length (pad16 p) < length p + 16.
Proof.
  intros Hp. destruct (padded_length_facts (Z.of_nat (length p))) as [Hm Hb]; [lia..|].
  unfold pad16. rewrite length_app, length_replicate. repeat split_and; try lia.
  replace (length p + _) with (Z.to_nat (padded_length (Z.of_nat (length p)))) by lia.
  apply Nat2Z.inj. rewrite Nat2Z.inj_mod, Z2Nat.id by lia. done.
Qed.

Lemma bytes_ok_pad16 p : bytes_ok p -> bytes_ok (pad16 p).
Proof. intros Hp. apply bytes_ok_app. auto with vpn. Qed.

Lemma seal_exact s hdr p rest :
  session_ok s -> ss_active s = true -> (ss_send_counter s < kRejectAfterMessages)%Z ->
  length hdr = 16 -> bytes_ok p -> (Z.of_nat (length p) < 2 ^ 63)%Z ->
  length (pad16 p) + 16 ≤ length p + length rest ->
  seal s (hdr ++ p ++ rest) (Z.of_nat (length p)) =
  Ok (mkSession (ss_keys s) (ss_window s) (ss_send_counter s + 1) true,
      datagram s (ss_send_counter s) p ++ drop (length (pad16 p) + 16 - length p) rest,
      Some (length (pad16 p) + 32)).
Proof.
  intros (Hk & _ & _ & Hpi & Hsc) Ha Hlt Hh Hp Hsz Hroom.
  destruct (length_pad16 p Hsz) as (Hpl & _ & Hpb). pose proof (bytes_ok_pad16 p Hp) as Bp.
  destruct (padded_length_facts (Z.of_nat (length p))) as [_ Hpf]; [lia..|].
  rewrite kRejectAfterMessages_val in *. unfold seal. rewrite Ha. cbn [negb]. unfold counter_usable.
  rewrite (proj2 (Z.ltb_lt _ _)) by (rewrite kRejectAfterMessages_val; lia). cbn [negb].
  autounfold with wire_consts. rewrite (u64_small (_ + padded_length _)), !u64_small by (unfold is_u64; lia).
  rewrite (proj2 (Z.ltb_ge _ _)) by (rewrite !length_app; lia).
  unfold subspan_from. rewrite decide_True by len. rewrite bind_Ok.
  rewrite drop_app_length' by done. rewrite fill_zero_app by lia. rewrite bind_Ok. cbv zeta.
  rewrite (app_assoc p (replicate _ _)). fold (pad16 p). rewrite <- Hpl. set (r := drop _ rest).
  assert (16 ≤ length r) as Hr by (unfold r; rewrite length_drop; lia).
  unfold first. rewrite !subspan_ok by len. rewrite !bind_Ok, !drop_0, take_app_length.
  rewrite seal_ok by done. rewrite bind_Ok. cbn [tk_send ss_keys].
  destruct (aead_encrypt_ok (tk_send (ss_keys s)) (nonce_bytes (ss_send_counter s)) (pad16 p) []
    Hk Bp) as [Lc _]. set (ct := aead_encrypt _ _ _ _) in *.
  rewrite copy_to_start by len. rewrite bind_Ok, take_app_length' by done.
  rewrite encode_transport_header_ok by len. rewrite bind_Ok, drop_app_length' by done.
  rewrite subspan_ok by (rewrite !length_app, length_drop, length_transport_header, length_app; lia).
  rewrite bind_Ok. do 2 f_equal; [|f_equal; lia]. f_equal. unfold datagram. fold ct. rewrite <- app_assoc.
  f_equal. unfold peer_index. cbn. f_equal. rewrite Lc, drop_app_ge by lia. unfold r.
  rewrite drop_drop. f_equal. lia.
Qed.

(** ** Opening *)

Lemma inner_packet_length_total p :
  bytes_ok p -> exists r, inner_packet_length p = Ok r /\ forall n, r = Some n -> n ≤ length p.
Proof.
  intros Hp. destruct (decide (20 ≤ length p)) as [Hl|Hl].
  - destruct p as [|b0 [|b1 [|b2 [|b3 r]]]] eqn:E; try (simpl in Hl; lia). rewrite <- E in *.
    rewrite (inner_packet_length_eq p b0 b1 b2 b3 r Hp E). eexists; split; [done|].
    cbv zeta. intros n. case_decide; [|done]. intros [= <-]. lia.
  - exists None. split; [|done]. unfold inner_packet_length.
    by rewrite (proj2 (Nat.ltb_lt _ _)) by wire_lia.
Qed.

(** What [open] returns of an authentic plaintext: nothing of a keepalive, the
    packet without its padding, or no packet at all. *)
Definition delivered (m : list Z) : option nat :=
  if length m =? 0 then Some 0 else
  match inner_packet_length m with
  | Ok r => r
  | _ => None
  end.

Definition opened (s : Session) (w : ReplayWindow) : Session :=
  mkSession (ss_keys s) w (ss_send_counter s) (ss_active s).

(** Authentic under this session: the peer sealed [m] with this counter. *)
Definition authentic (s : Session) (c : Z) (sealed m : list Z) : Prop :=
  bytes_ok m /\ length m mod 16 = 0 /\
  sealed = aead_encrypt (tk_receive (ss_keys s)) (nonce_bytes c) m [].

Lemma open_authentic s A c sealed m :
  session_ok s -> ss_active s = true -> window_rep (ss_window s) A -> is_u64 c ->
  spec_acceptable A c -> authentic s c sealed m ->
  exists w, window_rep w ({[c]} ∪ A) /\
    open s c sealed = Ok (opened s w, m ++ drop (length m) sealed, delivered m).
Proof.
  intros (_ & Hk & _) Ha Hw Hc Hs (Bm & Hm & ->).
  destruct (aead_encrypt_ok (tk_receive (ss_keys s)) (nonce_bytes c) m [] Hk Bm) as [Lct Bct].
  set (ct := aead_encrypt _ _ _ _) in *.
  destruct (acceptable_spec _ _ _ Hw Hc) as (b & Hacc & Hb). rewrite (proj2 Hb Hs) in Hacc.
  destruct (accept_spec _ _ _ Hw Hc Hs) as (w & Haccept & Hw').
  exists w. split; [done|]. unfold open, opened. rewrite Ha, Hacc. autounfold with wire_consts.
  rewrite (proj2 (Nat.ltb_ge _ _)) by lia. cbn [negb orb]. rewrite bind_Ok, Lct, Nat.add_sub, Hm.
  cbn [Nat.eqb negb]. unfold first. rewrite subspan_ok by lia. rewrite bind_Ok.
  unfold ct. rewrite open_seal by done. fold ct. rewrite bind_Ok, copy_to_start by lia.
  rewrite bind_Ok. cbn [negb]. rewrite Haccept, bind_Ok.
  rewrite subspan_ok by len. rewrite bind_Ok, drop_0, take_app_length. cbn [ss_keys ss_send_counter ss_active].
  unfold delivered. destruct (length m =? 0); [done|].
  destruct (inner_packet_length_total m Bm) as (r & -> & Hr). rewrite bind_Ok.
  destruct r as [n|]; [|done]. rewrite subspan_ok by (specialize (Hr n eq_refl); lia).
  by rewrite bind_Ok.
Qed.

(** Every other packet leaves the session as it was. *)
Lemma open_cases s A c sealed :
  session_ok s -> window_rep (ss_window s) A -> is_u64 c -> bytes_ok sealed ->
  (ss_active s = true /\ spec_acceptable A c /\ exists m, authentic s c sealed m) \/
  ((ss_active s = true -> spec_acceptable A c -> forall m, ~ authentic s c sealed m) /\
   exists sealed', open s c sealed = Ok (s, sealed', None) /\ length sealed' = length sealed).
Proof.
  intros Hs Hw Hc Hb. pose proof Hs as (_ & Hk & _).
  assert (forall m, authentic s c sealed m ->
    length sealed = length m + 16 /\ length m mod 16 = 0) as Hlen.
  { intros m (Bm & Hm & ->). by rewrite length_sealed. }
  destruct (acceptable_spec _ _ _ Hw Hc) as (b & Hacc & Hspec).
  unfold open. autounfold with wire_consts. destruct (ss_active s); cbn [negb orb];
    [|right; split; [done|]; eauto].
  destruct (Nat.ltb_spec (length sealed) 16) as [Hsh|Hlg].
  { right. split; [intros _ _ m Hm; apply Hlen in Hm; lia|]. eauto. }
  rewrite Hacc, bind_Ok. destruct b; cbn [negb];
    [|right; split; [intros _ Hsp; apply Hspec in Hsp; done | eauto]].
  destruct (Nat.eqb_spec ((length sealed - 16) mod 16) 0) as [Hmod|Hmod]; cbn [negb].
  2: { right. split; [|eauto]. intros _ _ m [Hl Hm]%Hlen. by rewrite Hl, Nat.add_sub in Hmod. }
  unfold first. rewrite (subspan_ok sealed) by lia. rewrite bind_Ok, open_ok by lia.
  destruct (aead_decrypt_ok (tk_receive (ss_keys s)) (nonce_bytes c) sealed [] Hk Hb Hlg) as [Lm Bm].
  destruct (aead_decrypt _ _ _ _) as [rc m] eqn:Hd. cbn [fst snd] in *. rewrite bind_Ok.
  destruct (Z.eqb_spec rc 0) as [->|Hrc].
  { left. split; [done|]. split; [by apply Hspec|]. exists m. split; [done|]. split; [by rewrite Lm|].
    by apply aead_deterministic. }
  right. split.
  - intros _ _ m' (Bm' & _ & Heq). rewrite Heq, aead_roundtrip in Hd by done. by injection Hd.
  - rewrite copy_to_start by lia. rewrite bind_Ok. cbn [negb]. eexists; split; [done|].
    rewrite length_app, length_drop. lia.
Qed.

(** ** The two outcomes of sealing *)

Definition can_seal (s : Session) (buffer : list Z) (len : Z) : Prop :=
  ss_active s = true /\ (ss_send_counter s < kRejectAfterMessages)%Z /\
  (padded_length len + 32 <= Z.of_nat (length buffer))%Z.

Lemma seal_refused s buffer len :
  (0 <= len < 2 ^ 63)%Z -> ~ can_seal s buffer len -> seal s buffer len = Ok (s, buffer, None).
Proof.
  intros Hl Hn. destruct (padded_length_facts len) as [_ Hp]; [lia..|].
  unfold seal, counter_usable. destruct (ss_active s) eqn:Ha; [|done]. cbn [negb].
  destruct (Z.ltb_spec (ss_send_counter s) kRejectAfterMessages); [|done]. cbn [negb].
  autounfold with wire_consts. rewrite (u64_small (_ + padded_length _)), u64_small
    by (unfold is_u64; lia).
  destruct (Z.ltb_spec (Z.of_nat (length buffer)) (Z.of_nat 16 + padded_length len + Z.of_nat 16));
    [done|]. destruct Hn. split; [done|]. split; [done|lia].
Qed.

Lemma seal_split buffer len :
  (0 <= len < 2 ^ 63)%Z -> (padded_length len + 32 <= Z.of_nat (length buffer))%Z ->
  exists hdr p rest, buffer = hdr ++ p ++ rest /\ length hdr = 16 /\ Z.of_nat (length p) = len /\
    p = take (Z.to_nat len) (drop 16 buffer) /\ length (pad16 p) + 16 ≤ length p + length rest.
Proof.
  intros Hl Hb. destruct (padded_length_facts len) as [_ Hp]; [lia..|].
  exists (take 16 buffer), (take (Z.to_nat len) (drop 16 buffer)), (drop (Z.to_nat len) (drop 16 buffer)).
  rewrite !take_drop. assert (Z.of_nat (length (take (Z.to_nat len) (drop 16 buffer))) = len) as Hlen
    by (rewrite length_take, length_drop; lia).
  repeat split_and; try done; [len|].
  destruct (length_pad16 (take (Z.to_nat len) (drop 16 buffer))) as (-> & _); [lia|].
  rewrite Hlen, !length_drop. lia.
Qed.

Lemma seal_done s buffer len :
  session_ok s -> bytes_ok buffer -> (0 <= len < 2 ^ 63)%Z -> can_seal s buffer len ->
  let p := take (Z.to_nat len) (drop 16 buffer) in
  let s' := mkSession (ss_keys s) (ss_window s) (ss_send_counter s + 1) true in
  exists buffer', seal s buffer len = Ok (s', buffer', Some (length (pad16 p) + 32)) /\
    session_ok s' /\ length buffer' = length buffer /\ bytes_ok p /\
    take (length (pad16 p) + 32) buffer' = datagram s (ss_send_counter s) p.
Proof.
  intros Hs Hb Hl (Ha & Hc & Hroom) p s'.
  destruct (seal_split buffer len Hl Hroom) as (hdr & p' & rest & Hbuf & Hh & Hlen & Hp & Hsp).
  assert (bytes_ok p') as Bp by (rewrite Hp; auto with vpn). fold p in Hp. rewrite <- Hp. clear Hp p.
  rewrite Hbuf, <- Hlen, seal_exact by (done || lia). pose proof Hs as (Hk & Hrest).
  assert (length (datagram s (ss_send_counter s) p') = length (pad16 p') + 32) as Ld.
  { unfold datagram. rewrite length_app, length_transport_header, length_sealed by
      (done || by apply bytes_ok_pad16). lia. }
  eexists. split; [done|]. split.
  { split; [done|]. destruct Hrest as (? & ? & ? & ?). unfold s', local_index, peer_index. cbn.
    repeat split_and; (done || lia). }
  rewrite take_app_length' by done. repeat split_and; try done.
  rewrite !length_app, Ld, length_drop. destruct (length_pad16 p') as (_ & _ & ?); lia.
Qed.

Lemma can_seal_dec s buffer len : can_seal s buffer len \/ ~ can_seal s buffer len.
Proof. unfold can_seal. destruct (decide (ss_active s = true /\ (ss_send_counter s < kRejectAfterMessages)%Z /\
  (padded_length len + 32 <= Z.of_nat (length buffer))%Z)); auto. Qed.

(** A datagram [seal] produced is a transport message with its counter. *)
Lemma decode_datagram s c p :
  session_ok s -> bytes_ok p -> is_u64 c ->
  decode (datagram s c p) = Ok (Some (MTransport (mkTransport (peer_index s) c
    (aead_encrypt (tk_send (ss_keys s)) (nonce_bytes c) (pad16 p) [])))).
Proof.
  intros (Hk & _ & _ & Hpi & _) Bp Hc. destruct (aead_encrypt_ok (tk_send (ss_keys s)) (nonce_bytes c)
    (pad16 p) [] Hk (bytes_ok_pad16 p Bp)) as [Lc Bc].
  unfold datagram. set (ct := aead_encrypt _ _ _ _) in *. clearbody ct.
  apply (decode_complete (MTransport (mkTransport (peer_index s) c ct))).
  msg_fields. repeat split_and; try done. unfold Wire.kTagSize. lia.
Qed.

(** ** Runs of [seal] and of [open] *)

(** The datagrams a sequence of calls puts on the wire. *)
Fixpoint seals (s : Session) (reqs : list (list Z * Z)) : Res (Session * list (list Z)) :=
  match reqs with
  | [] => Ok (s, [])
  | (buffer, len) :: reqs =>
      '(s, buffer, n) ← seal s buffer len;
      '(s, ds) ← seals s reqs;
      Ok (s, match n with Some n => take n buffer :: ds | None => ds end)
  end.

(** The counters of the packets a sequence of calls delivers. *)
Fixpoint opens (s : Session) (pkts : list (Z * list Z)) : Res (Session * list Z) :=
  match pkts with
  | [] => Ok (s, [])
  | (c, sealed) :: pkts =>
      '(s, _, r) ← open s c sealed;
      '(s, cs) ← opens s pkts;
      Ok (s, match r with Some _ => c :: cs | None => cs end)
  end.

Definition request_ok (r : list Z * Z) : Prop := bytes_ok r.1 /\ (0 <= r.2 < 2 ^ 63)%Z.
Definition packet_ok (p : Z * list Z) : Prop := is_u64 p.1 /\ bytes_ok p.2.

Definition counter_of (d : list Z) : option Z :=
  match decode d with
  | Ok (Some (MTransport m)) => Some (td_counter m)
  | _ => None
  end.

(** The packets of the requests. *)
Definition payloads (reqs : list (list Z * Z)) : list (list Z) :=
  (fun r => take (Z.to_nat r.2) (drop kTransportHeaderSize r.1)) <$> reqs.

(** What is on the wire: the packets of some of the requests, each sealed under
    the counter its header carries, the counters counting up from the session's. *)
Lemma seals_datagrams s reqs :
  session_ok s -> Forall request_ok reqs ->
  exists s' ps, seals s reqs =
      Ok (s', zip_with (datagram s) (seqZ (ss_send_counter s) (Z.of_nat (length ps))) ps) /\
    session_ok s' /\ ss_send_counter s' = (ss_send_counter s + Z.of_nat (length ps))%Z /\
    ps `sublist_of` payloads reqs /\ Forall bytes_ok ps.
Proof.
  intros Hs Hr. revert s Hs. induction Hr as [|[buffer len] reqs [Hb Hl] _ IH]; intros s Hs; cbn [seals].
  { exists s, []. split; [done|]. split; [done|]. split; [cbn; lia|]. by repeat constructor. }
  destruct (can_seal_dec s buffer len) as [Hcan|Hcan].
  - destruct (seal_done s buffer len Hs Hb Hl Hcan) as (b' & -> & Hs' & _ & Bp & Hd). rewrite bind_Ok.
    destruct (IH _ Hs') as (s2 & ps & -> & Hs2 & Hc2 & Hsub & Bps). rewrite bind_Ok, Hd.
    exists s2, (take (Z.to_nat len) (drop 16 buffer) :: ps). cbn [ss_send_counter length] in *.
    rewrite (seqZ_cons _ (Z.of_nat (S (length ps)))) by lia. cbn [zip_with]. rewrite <- Z.add_1_r.
    replace (Z.pred (Z.of_nat (S (length ps)))) with (Z.of_nat (length ps)) by lia.
    split; [done|]. split; [done|]. split; [lia|]. split; [by apply sublist_skip | by constructor].
  - rewrite seal_refused, bind_Ok by done. destruct (IH s Hs) as (s2 & ps & -> & Hs2 & Hc & Hsub & Bps).
    exists s2, ps. split; [done|]. split; [done|]. split; [done|]. split; [by apply sublist_cons | done].
Qed.

Lemma opens_counters s A pkts :
  session_ok s -> window_rep (ss_window s) A -> Forall packet_ok pkts ->
  exists s' cs, opens s pkts = Ok (s', cs) /\ session_ok s' /\ NoDup cs /\
    (forall c, c ∈ cs -> c ∉ A).
Proof.
  intros Hs Hw Hp. revert s A Hs Hw. induction Hp as [|[c sealed] pkts [Hc Hb] _ IH];
    intros s A Hs Hw; cbn [opens].
  { exists s, []. repeat split_and; try done; [constructor|]. intros c Hc. by apply elem_of_nil in Hc. }
  cbn [fst snd] in *. destruct (open_cases s A c sealed Hs Hw Hc Hb) as [(Ha & Hsp & m & Hm)|[_ (x & Ho & _)]].
  - destruct (open_authentic s A c sealed m Hs Ha Hw Hc Hsp Hm) as (w & Hw' & ->). rewrite bind_Ok.
    destruct (IH (opened s w) ({[c]} ∪ A)) as (s2 & cs & -> & Hs2 & Hnd & Hnot); [done..|].
    rewrite bind_Ok. destruct Hsp as (_ & HcA & _). destruct (delivered m).
    + exists s2, (c :: cs). split; [done|]. split; [done|]. split.
      * constructor; [|done]. intros Hin%Hnot. set_solver.
      * intros x [->|Hx]%elem_of_cons; [done|]. apply Hnot in Hx. set_solver.
    + exists s2, cs. repeat split_and; try done. intros x Hx%Hnot. set_solver.
  - rewrite Ho, bind_Ok. destruct (IH s A Hs Hw) as (s2 & cs & -> & Hrest). exists s2, cs. by split.
Qed.

(** An IPv4 packet whose header and total length describe exactly its bytes. *)
Definition ipv4_packet (p : list Z) : Prop :=
  exists b0 b1 b2 b3 r, p = b0 :: b1 :: b2 :: b3 :: r /\ (b0 / 16 = 4)%Z /\
    (20 <= b0 mod 16 * 4 <= Z.of_nat (length p))%Z /\ (256 * b2 + b3 = Z.of_nat (length p))%Z.

Lemma delivered_ipv4 p :
  bytes_ok p -> ipv4_packet p -> (Z.of_nat (length p) < 2 ^ 63)%Z ->
  delivered (pad16 p) = Some (length p).
Proof.
  intros Bp (b0 & b1 & b2 & b3 & r & Hp & Hv & Hh & Ht) Hl.
  destruct (length_pad16 p Hl) as (_ & _ & Hlen). pose proof (bytes_ok_pad16 p Bp) as Bpad.
  unfold delivered. rewrite (proj2 (Nat.eqb_neq _ _)) by lia.
  rewrite (inner_packet_length_eq (pad16 p) b0 b1 b2 b3 (r ++ drop (length p) (pad16 p)) Bpad).
  - cbv zeta. rewrite decide_True by lia. f_equal. lia.
  - unfold pad16. rewrite drop_app_length, Hp. done.
Qed.

(** ** Theorems *)

(** [C20] Round trip: a packet sealed by one side of a key pair is a transport
    message addressed to the other side's index, and opening it there gives
    back exactly the packet, without its padding, provided the receiver has
    not seen the counter and it is within the window; the counter is then in
    the receiver's set of accepted ones. *)
Theorem session_seal_open s r A hdr p rest :
  session_ok s -> session_ok r -> ss_active s = true -> ss_active r = true ->
  tk_receive (ss_keys r) = tk_send (ss_keys s) -> local_index r = peer_index s ->
  bytes_ok hdr -> length hdr = 16 -> bytes_ok p -> ipv4_packet p -> bytes_ok rest ->
  (Z.of_nat (length p) < 2 ^ 63)%Z -> length (pad16 p) + 16 ≤ length p + length rest ->
  window_rep (ss_window r) A -> spec_acceptable A (ss_send_counter s) ->
  exists s' buffer n sealed r' sealed' w,
    seal s (hdr ++ p ++ rest) (Z.of_nat (length p)) = Ok (s', buffer, Some n) /\
    decode (take n buffer) =
      Ok (Some (MTransport (mkTransport (local_index r) (ss_send_counter s) sealed))) /\
    open r (ss_send_counter s) sealed = Ok (r', sealed', Some (length p)) /\
    take (length p) sealed' = p /\ r' = opened r w /\ window_rep w ({[ss_send_counter s]} ∪ A).
Proof.
  intros Hs Hr Has Har Hkey Hidx Bh Hh Bp Hip Brest Hl Hroom Hw Hacc.
  pose proof Hs as (Hk & _ & _ & Hpi & Hsc). pose proof Hacc as (Hlim & _).
  rewrite seal_exact by done. set (c := ss_send_counter s) in *.
  assert (is_u64 c) as Hc by (unfold is_u64; rewrite kRejectAfterMessages_val in *; lia).
  pose proof (bytes_ok_pad16 p Bp) as Bpad. destruct (length_pad16 p Hl) as (_ & Hmod & Hpl).
  set (ct := aead_encrypt (tk_send (ss_keys s)) (nonce_bytes c) (pad16 p) []).
  assert (length ct = length (pad16 p) + 16) as Lct by by apply length_sealed.
  destruct (open_authentic r A c ct (pad16 p)) as (w & Hw' & Ho); [done..| |].
  { split; [done|]. split; [done|]. by rewrite Hkey. }
  rewrite delivered_ipv4 in Ho by done.
  eexists _, _, _, ct, _, _, w. split; [done|].
  split; [|split; [done|split; [|done]]].
  - rewrite take_app_length' by (unfold datagram; rewrite length_app, length_transport_header; fold ct; lia).
    rewrite Hidx. by apply decode_datagram.
  - unfold pad16. by rewrite <- app_assoc, take_app_length.
Qed.

(** The nonces of a run are pairwise different. *)
Lemma nonces_distinct c n :
  (0 <= c)%Z -> (c + Z.of_nat n <= kRejectAfterMessages)%Z -> NoDup (nonce_bytes <$> seqZ c (Z.of_nat n)).
Proof.
  rewrite kRejectAfterMessages_val. intros Hc Hn. apply NoDup_fmap_2_strong; [|apply NoDup_seqZ].
  intros x y Hx%elem_of_seqZ Hy%elem_of_seqZ Heq. unfold nonce_bytes in Heq. apply app_inv_head in Heq.
  apply (f_equal le_val) in Heq. rewrite !le_val_le_bytes8 in Heq by (unfold is_u64; lia). done.
Qed.

(** [C6] No nonce is ever used twice under one key: whatever sequence of
    packets is sealed, every call returns; the datagrams that leave are, in
    order, the AEAD under the session's sending key of some of those packets
    (padded), each encrypted with the nonce of its own counter and carrying that
    counter in its header; and the counters are consecutive from the session's
    own on, all below the reject limit, so the nonces given to the AEAD are
    pairwise different. *)
Theorem session_nonces_distinct s reqs :
  session_ok s -> Forall request_ok reqs ->
  exists s' ds cs ps, seals s reqs = Ok (s', ds) /\
    ds = zip_with (fun c p => transport_header (peer_index s) c ++
                              aead_encrypt (tk_send (ss_keys s)) (nonce_bytes c) (pad16 p) []) cs ps /\
    length cs = length ps /\ ps `sublist_of` payloads reqs /\
    cs = seqZ (ss_send_counter s) (Z.of_nat (length ds)) /\
    Forall (fun c => (c < kRejectAfterMessages)%Z) cs /\ NoDup (nonce_bytes <$> cs) /\
    counter_of <$> ds = Some <$> cs.
Proof.
  intros Hs Hr. destruct (seals_datagrams s reqs Hs Hr) as (s' & ps & He & Hs' & Hc & Hsub & Bps).
  pose proof Hs as (_ & _ & _ & _ & Hpos). destruct Hs' as (_ & _ & _ & _ & Hend).
  set (cs := seqZ (ss_send_counter s) (Z.of_nat (length ps))) in *.
  assert (length cs = length ps) as Hlen by (unfold cs; rewrite length_seqZ; lia).
  assert (forall c, c ∈ cs -> (0 <= c < kRejectAfterMessages)%Z) as Hbound
    by (unfold cs; intros c Hin%elem_of_seqZ; lia).
  exists s', (zip_with (datagram s) cs ps), cs, ps. split; [exact He|]. split; [done|]. split; [done|].
  split; [done|]. split; [by rewrite length_zip_with, Hlen, Nat.min_id|].
  split; [apply Forall_forall; intros c Hin%Hbound; lia|].
  split; [apply nonces_distinct; lia|]. clearbody cs. clear -Hs Hlen Hbound Bps PO.
  revert ps Hlen Bps. induction cs as [|c cs IH]; intros [|p ps] Hlen Bps; try done.
  apply Forall_cons in Bps as [Bp Bps]. cbn [zip_with fmap list_fmap]. f_equal.
  - unfold counter_of. rewrite decode_datagram; [done..|]. specialize (Hbound c ltac:(left)).
    rewrite kRejectAfterMessages_val in Hbound. unfold is_u64. lia.
  - apply IH; [intros x Hx; apply Hbound; by right | by injection Hlen | done].
Qed.

(** [C21] [open] delivers a packet, or moves the window, if and only if the
    session is active, the counter is acceptable and the bytes are what the
    holder of the key sealed under that counter; in every other case it
    returns nothing and the session is untouched.  Either way it returns. *)
Theorem session_open_authenticates s A c sealed :
  session_ok s -> window_rep (ss_window s) A -> is_u64 c -> bytes_ok sealed ->
  exists s' sealed' r, open s c sealed = Ok (s', sealed', r) /\
    length sealed' = length sealed /\
    (ss_active s = true -> spec_acceptable A c -> forall m, authentic s c sealed m ->
       r = delivered m /\ take (length m) sealed' = m /\
       exists w, s' = opened s w /\ window_rep w ({[c]} ∪ A)) /\
    (~ (ss_active s = true /\ spec_acceptable A c /\ exists m, authentic s c sealed m) ->
       s' = s /\ r = None).
Proof.
  intros Hs Hw Hc Hb.
  destruct (open_cases s A c sealed Hs Hw Hc Hb) as [(Ha & Hsp & m & Hm)|[Hno (x & Ho & Hx)]].
  - destruct (open_authentic s A c sealed m Hs Ha Hw Hc Hsp Hm) as (w & Hw' & ->).
    pose proof Hm as (Bm & _ & Heq). pose proof Hs as (_ & Hk & _).
    assert (length sealed = length m + 16) as Hlen by by rewrite Heq, length_sealed.
    eexists _, _, _. split; [done|]. split; [rewrite length_app, length_drop; lia|].
    split; [|intros Hn; exfalso; apply Hn; eauto].
    intros _ _ m' (Bm' & _ & Heq'). rewrite Heq in Heq'.
    apply (f_equal (fun ct => (aead_decrypt (tk_receive (ss_keys s)) (nonce_bytes c) ct []).2)) in Heq'.
    rewrite !aead_roundtrip in Heq' by done. cbn in Heq'. subst m'.
    split; [done|]. split; [by rewrite take_app_length|]. by exists w.
  - exists s, x, None. split; [done|]. split; [done|]. split; [|done].
    intros Ha Hsp m Hm. by destruct (Hno Ha Hsp m).
Qed.

(** At most once: over any sequence of incoming packets, forged or
    genuine, the counters of the packets a session delivers are pairwise
    different, from its activation on. *)
Lemma session_delivers_at_most_once s pkts :
  session_ok s -> Forall packet_ok pkts ->
  exists s' cs, opens (activate s) pkts = Ok (s', cs) /\ NoDup cs.
Proof.
  intros Hs Hp. destruct (opens_counters (activate s) ∅ pkts) as (s' & cs & He & _ & Hnd & _).
  - destruct Hs as (? & ? & ? & ? & ?). repeat split_and; done.
  - apply window_rep_new.
  - done.
  - by exists s', cs.
Qed.

(** [C29] [seal] returns a datagram if and only if the session is active, the
    counter is below the limit and the buffer has room for header, padding and
    tag; otherwise nothing has changed, in the session or in the buffer.  It
    never reads or writes outside the buffer. *)
Theorem session_seal_total s buffer len :
  session_ok s -> bytes_ok buffer -> (0 <= len < 2 ^ 63)%Z ->
  exists s' buffer' r, seal s buffer len = Ok (s', buffer', r) /\ session_ok s' /\
    length buffer' = length buffer /\
    (is_Some r <-> can_seal s buffer len) /\ (r = None -> s' = s /\ buffer' = buffer) /\
    (is_Some r -> ss_send_counter s' = (ss_send_counter s + 1)%Z).
Proof.
  intros Hs Hb Hl. destruct (can_seal_dec s buffer len) as [Hcan|Hcan].
  - destruct (seal_done s buffer len Hs Hb Hl Hcan) as (b' & -> & Hs' & Hlen & _).
    eexists _, _, _. repeat split_and; try done.
  - rewrite seal_refused by done. eexists _, _, _. repeat split_and; try done.
Qed.

End Seal.

(** ** Witnesses *)

Definition demo_session : Session :=
  mkSession (mkKeys (demo_key 1) (demo_key 1) 5 5) ReplayWindow_new 0 true.

#[export] Instance session_ok_dec s : Decision (session_ok s).
Proof. unfold session_ok. apply _. Defined.

Definition demo_packet : list Z := (69 :: 0 :: 0 :: 24 :: replicate 20 7)%Z.

Lemma session_seal_open_witness :
  exists s' buffer n sealed r' sealed' w,
    seal demo_session (replicate 16 0%Z ++ demo_packet ++ replicate 40 0%Z) 24
      = Ok (s', buffer, Some n) /\
    decode (take n buffer) = Ok (Some (MTransport (mkTransport 5 0 sealed))) /\
    open demo_session 0 sealed = Ok (r', sealed', Some 24) /\
    take 24 sealed' = demo_packet /\ r' = opened demo_session w /\ window_rep w ({[0%Z]} ∪ ∅).
Proof.
  apply (session_seal_open (P := toy) demo_session demo_session ∅ (replicate 16 0%Z) demo_packet
    (replicate 40 0%Z)); [by_dec | by_dec | reflexivity | reflexivity | reflexivity | reflexivity
    | by_dec | reflexivity | by_dec | | by_dec | vm_compute; reflexivity | vm_compute; lia
    | exact window_rep_new | by_dec].
  exists 69%Z, 0%Z, 0%Z, 24%Z, (replicate 20 7%Z).
  split; [reflexivity|]. split; [reflexivity|]. vm_compute. split; [split; intros H; discriminate H | reflexivity].
Defined.

Lemma session_nonces_distinct_witness :
  exists s' ds cs ps, seals demo_session [(replicate 64 0%Z, 20%Z); (replicate 20 0%Z, 20%Z);
                                          (replicate 64 1%Z, 20%Z)] = Ok (s', ds) /\
    length ds = 2 /\ cs = [0%Z; 1%Z] /\ NoDup (nonce_bytes <$> cs) /\
    ds = zip_with (fun c p => transport_header 5 c ++
                              aead_encrypt (demo_key 1) (nonce_bytes c) (pad16 p) []) cs ps.
Proof.
  destruct (session_nonces_distinct (P := toy) demo_session [(replicate 64 0%Z, 20%Z);
    (replicate 20 0%Z, 20%Z); (replicate 64 1%Z, 20%Z)]) as (s' & ds & cs & ps & H1 & H2 & _ & _ & H3 & _ & H4 & _);
    [by_dec | |].
  - repeat constructor; try (split; [by_dec | lia]); simpl; try lia; by_dec.
  - assert (length ds = 2) as Hlen.
    { change (length ds) with (match Ok (s', ds) with Ok (_, ds) => length ds | _ => 0 end).
      rewrite <- H1. vm_compute. reflexivity. }
    exists s', ds, cs, ps. split; [exact H1|]. split; [exact Hlen|]. rewrite Hlen in H3.
    split; [exact H3|]. split; [exact H4 | exact H2].
Defined.

Lemma session_open_authenticates_witness :
  exists s' sealed' r, open demo_session 3 (replicate 32 0%Z) = Ok (s', sealed', r) /\
    length sealed' = 32.
Proof.
  destruct (session_open_authenticates (P := toy) demo_session ∅ 3 (replicate 32 0%Z))
    as (s' & x & r & Ho & Hl & _); [by_dec | exact window_rep_new | by_dec | by_dec |].
  exists s', x, r. split; [exact Ho | exact Hl].
Defined.

Lemma session_seal_total_witness :
  exists s' buffer' r, seal demo_session (replicate 64 0%Z) 20 = Ok (s', buffer', r) /\
    ss_send_counter s' = 1%Z.
Proof.
  destruct (session_seal_total (P := toy) demo_session (replicate 64 0%Z) 20)
    as (s' & b & r & H1 & _ & _ & H2 & _ & H3); [by_dec | by_dec | lia |].
  exists s', b, r. split; [exact H1|]. apply H3, H2. split; [reflexivity|].
  split; [reflexivity|]. vm_compute. discriminate.
Defined.
