(* ===== verification/Net.v ===== *)
(** * Net: sockets, the TUN device, endpoints and numbers in text
      ([src/udp.h]/[.cpp], [src/tun.h]/[.cpp], [src/args.h])

    A system call is modelled by what the kernel answers.  Each function that
    calls the kernel takes a script, the answers to the calls it will make in
    order; past the end of a script the kernel answers EAGAIN (the descriptors
    are non-blocking), so the retry loops recurse on the script.

    [inet_pton] and [inet_ntop] are the C library's, the class [Inet]. *)

From Stdlib Require Import ZArith Lia Ascii String.
From stdpp Require Import base tactics numbers list option strings.
From S2P Require Import Prelude.

(** ** Kernel answers *)

Inductive sysres (A : Type) : Type :=
| SysOk (a : A)
| SysErr (errno : Z).
Arguments SysOk {A} a.
Arguments SysErr {A} errno.

(** Linux values. *)
Definition EPERM : Z := 1.
Definition EINTR : Z := 4.
Definition EAGAIN : Z := 11.
Definition EMSGSIZE : Z := 90.
Definition ENETUNREACH : Z := 101.
Definition ENOBUFS : Z := 105.
Definition ECONNREFUSED : Z := 111.
Definition EHOSTUNREACH : Z := 113.

Definition one_of (e : Z) (l : list Z) : bool := existsb (Z.eqb e) l.

(** ** Endpoints *)

(** [sin_addr] and [sin_port] as the socket calls take them, in network byte
    order, read as integers of a little-endian host. *)
Record sockaddr_in : Type := mkAddr { sin_addr : Z; sin_port : Z }.

#[export] Instance sockaddr_in_eq_dec : EqDecision sockaddr_in.
Proof. solve_decision. Defined.

Definition same_endpoint (a b : sockaddr_in) : bool :=
  (sin_addr a =? sin_addr b)%Z && (sin_port a =? sin_port b)%Z.

Definition htons (x : Z) : Z := u16 (Z.lor (Z.shiftl x 8) (Z.shiftr x 8)).
Definition ntohs (x : Z) : Z := htons x.

(** ** UdpSocket *)

(** The kernel fills at most [size] bytes of the buffer, cutting the datagram. *)
Fixpoint recv_from (size : nat) (script : list (sysres (list Z * sockaddr_in)))
    : Res (option (list Z * sockaddr_in)) :=
  match script with
  | [] => Ok None
  | SysOk (data, from) :: _ => Ok (Some (take size data, from))
  | SysErr e :: script =>
      if (e =? EINTR)%Z then recv_from size script
      else if (e =? EAGAIN)%Z then Ok None
      else if one_of e [ECONNREFUSED; ENETUNREACH; EHOSTUNREACH] then Ok None
      else Throw (system_error e "recvfrom")
  end.

Fixpoint send_to (packet : list Z) (script : list (sysres Z)) : Res bool :=
  match script with
  | [] => Ok false
  | SysOk n :: _ => Ok (n =? Z.of_nat (length packet))%Z
  | SysErr e :: script =>
      if (e =? EINTR)%Z then send_to packet script
      else if one_of e [EAGAIN; ENOBUFS; EMSGSIZE; ENETUNREACH; EHOSTUNREACH; ECONNREFUSED; EPERM]
      then Ok false
      else Throw (system_error e "sendto")
  end.

(** ** Text *)

Definition is_digit (c : ascii) : bool :=
  let n := nat_of_ascii c in (48 <=? n) && (n <=? 57).
Definition digit_val (c : ascii) : Z := Z.of_nat (nat_of_ascii c - 48).

(** The longest run of digits at the front, and what follows it. *)
Fixpoint digits (s : string) : string * string :=
  match s with
  | String c s' => if is_digit c then let '(d, r) := digits s' in (String c d, r) else (EmptyString, s)
  | EmptyString => (EmptyString, EmptyString)
  end.

Fixpoint decimal_from (acc : Z) (s : string) : Z :=
  match s with
  | EmptyString => acc
  | String c s => decimal_from (acc * 10 + digit_val c) s
  end.

(** [std::from_chars(first, last, value)] in base 10 for an integer type with
    the given bounds: no leading blanks or '+', a '-' for signed types only;
    fails when there is no digit or the value does not fit.  On success the
    value and the text not consumed. *)
Definition from_chars (signed : bool) (tmin tmax : Z) (s : string) : option (Z * string) :=
  let '(neg, body) :=
    match s with
    | String c s' => if signed && Ascii.eqb c "-" then (true, s') else (false, s)
    | EmptyString => (false, s)
    end in
  let '(d, rest) := digits body in
  if String.eqb d "" then None else
  let v := decimal_from 0 d in
  let v := if neg then (- v)%Z else v in
  if (v <? tmin)%Z || (tmax <? v)%Z then None else Some (v, rest).

(** [std::to_string] of a number with at most [fuel] digits. *)
Fixpoint to_string_loop (fuel : nat) (n : Z) (acc : string) : string :=
  match fuel with
  | O => acc
  | S fuel =>
      let acc := String (ascii_of_nat (48 + Z.to_nat (n mod 10))) acc in
      if (n / 10 =? 0)%Z then acc else to_string_loop fuel (n / 10) acc
  end.
Definition to_string (n : Z) : string := to_string_loop 20 n "".

(** [text.rfind(':')]. *)
Fixpoint rfind_colon (s : string) : option nat :=
  match s with
  | EmptyString => None
  | String c s =>
      match rfind_colon s with
      | Some i => Some (S i)
      | None => if Ascii.eqb c ":" then Some 0 else None
      end
  end.

(** [text.find(c)]. *)
Fixpoint find_char (c : ascii) (s : string) : option nat :=
  match s with
  | EmptyString => None
  | String d s => if Ascii.eqb d c then Some 0 else S <$> find_char c s
  end.

Fixpoint str_take (n : nat) (s : string) : string :=
  match n, s with
  | S n, String c s => String c (str_take n s)
  | _, _ => EmptyString
  end.
Fixpoint str_drop (n : nat) (s : string) : string :=
  match n, s with
  | S n, String _ s => str_drop n s
  | _, _ => s
  end.

(** ** Command-line numbers ([src/args.h]) *)

Definition parse_number (signed : bool) (tmin tmax : Z) (text : string) (low high : Z) : option Z :=
  match from_chars signed tmin tmax text with
  | None => None
  | Some (value, rest) =>
      if negb (String.eqb rest "") || (value <? low)%Z || (high <? value)%Z then None
      else Some value
  end.

Definition parse_mtu (text : string) : option Z :=
  parse_number true (- 2 ^ 31) (2 ^ 31 - 1) text 576 1500.
Definition parse_port (text : string) : option Z :=
  parse_number false 0 (2 ^ 16 - 1) text 1 65535.

(** ** TunDevice *)

Fixpoint read_packet (name : string) (size : nat) (script : list (sysres (list Z)))
    : Res (option (list Z)) :=
  match script with
  | [] => Ok None
  | SysOk data :: _ => Ok (Some (take size data))
  | SysErr e :: script =>
      if (e =? EINTR)%Z then read_packet name size script
      else if (e =? EAGAIN)%Z then Ok None
      else Throw (system_error e ("read from " +:+ name))
  end.

(** The boolean says whether the device took the packet. *)
Fixpoint write_packet (name : string) (packet : list Z) (script : list (sysres Z)) : Res bool :=
  match script with
  | [] => Ok false
  | SysErr e :: script =>
      if (e =? EINTR)%Z then write_packet name packet script
      else if (e =? EAGAIN)%Z then Ok false
      else Throw (system_error e ("write to " +:+ name))
  | SysOk n :: _ =>
      if negb (n =? Z.of_nat (length packet))%Z
      then Throw (runtime_error ("short write to " +:+ name +:+ ": " +:+ to_string n +:+ " of " +:+
                                 to_string (Z.of_nat (length packet)) +:+ " bytes"))
      else Ok true
  end.

(** ** Endpoints in text *)

Class Inet : Type := {
  inet_pton : string -> option Z;   (* dotted quad to network-order word *)
  inet_ntop : Z -> option string    (* None: the null pointer *)
}.

(** POSIX: [inet_ntop] writes what [inet_pton] reads; no address is empty or
    has a slash in it. *)
Class InetOk `{I : Inet} : Prop := {
  inet_roundtrip a : is_u32 a -> exists s, inet_ntop a = Some s /\ inet_pton s = Some a;
  inet_pton_u32 s a : inet_pton s = Some a -> is_u32 a;
  inet_pton_empty : inet_pton "" = None;
  inet_pton_slash s a : inet_pton s = Some a -> find_char "/" s = None
}.

Section Endpoints.
Context `{I : Inet}.

Definition parse_endpoint (text : string) : option sockaddr_in :=
  match rfind_colon text with
  | None => None
  | Some colon =>
      if (colon =? 0) || (colon + 1 =? String.length text) then None else
      let host := str_take colon text in
      let port_text := str_drop (colon + 1) text in
      match from_chars false 0 (2 ^ 32 - 1) port_text with
      | None => None
      | Some (port, rest) =>
          if negb (String.eqb rest "") || (port =? 0)%Z || (65535 <? port)%Z then None else
          match inet_pton host with
          | None => None
          | Some a => Some (mkAddr a (htons (u16 port)))
          end
      end
  end.

Definition format_address (addr : sockaddr_in) : string :=
  match inet_ntop (sin_addr addr) with
  | None => "<invalid>"
  | Some text => text
  end.

Definition format_endpoint (addr : sockaddr_in) : string :=
  format_address addr +:+ ":" +:+ to_string (ntohs (sin_port addr)).

End Endpoints.

(** ** Decimal text *)

Fixpoint all_digits (s : string) : bool :=
  match s with
  | EmptyString => true
  | String c s => is_digit c && all_digits s
  end.

Lemma digits_all s : all_digits s = true -> digits s = (s, "").
Proof.
  induction s as [|c s IH]; cbn; [done|]. intros [-> Hs]%andb_true_iff. by rewrite IH.
Qed.

Lemma digits_rest s d : digits s = (d, "") -> d = s /\ all_digits s = true.
Proof.
  revert d. induction s as [|c s IH]; intros d; cbn; [by intros [= <-]|].
  destruct (is_digit c) eqn:Hc; [|by intros [=]]. destruct (digits s) as [d' r].
  intros [= <- ->]. destruct (IH d' eq_refl) as [-> ->]. done.
Qed.

Lemma digit_char n : (0 <= n < 10)%Z ->
  is_digit (ascii_of_nat (48 + Z.to_nat n)) = true /\
  digit_val (ascii_of_nat (48 + Z.to_nat n)) = n.
Proof.
  intros Hn. unfold is_digit, digit_val. rewrite nat_ascii_embedding by lia. split; [|lia].
  apply andb_true_iff. split; apply Nat.leb_le; lia.
Qed.

Lemma to_string_loop_ok fuel n acc :
  (0 <= n < 10 ^ Z.of_nat fuel)%Z -> fuel <> 0 -> all_digits acc = true ->
  all_digits (to_string_loop fuel n acc) = true /\ to_string_loop fuel n acc <> "" /\
  forall a, decimal_from a (to_string_loop fuel n acc)
            = decimal_from (a * 10 ^ Z.of_nat (String.length (to_string_loop fuel n acc)
                                               - String.length acc) + n) acc /\
            String.length acc ≤ String.length (to_string_loop fuel n acc).
Proof.
  revert n acc. induction fuel as [|fuel IH]; intros n acc Hn Hf Ha; [done|]. cbn [to_string_loop].
  pose proof (Z.mod_pos_bound n 10). pose proof (Z.div_mod n 10).
  destruct (digit_char (n mod 10)) as [Hd Hv]; [lia|].
  set (c := ascii_of_nat _) in *. clearbody c.
  assert (all_digits (String c acc) = true) as Hca by (cbn; by rewrite Hd).
  destruct (Z.eqb_spec (n / 10) 0) as [Hz|Hz].
  - split; [done|]. split; [done|]. intros a. cbn [String.length decimal_from].
    replace (S (String.length acc) - String.length acc) with 1 by lia. rewrite Hv.
    split; [|lia]. f_equal. change (10 ^ Z.of_nat 1)%Z with 10%Z. lia.
  - assert (fuel <> 0) as Hf'.
    { intros ->. cbn in Hn. assert (n / 10 = 0)%Z by (apply Z.div_small; lia). done. }
    rewrite Nat2Z.inj_succ, Z.pow_succ_r in Hn by lia.
    destruct (IH (n / 10)%Z (String c acc)) as (H1 & H2 & H3);
      [split; [apply Z.div_pos; lia | apply Z.div_lt_upper_bound; lia] | done..|].
    split; [done|]. split; [done|]. intros a. destruct (H3 a) as [-> Hlen]. cbn [String.length] in Hlen.
    split; [|lia]. cbn [decimal_from String.length]. f_equal. rewrite Hv.
    set (k := String.length (to_string_loop _ _ _)) in *.
    replace (k - String.length acc) with (S (k - S (String.length acc))) by lia.
    rewrite Nat2Z.inj_succ, Z.pow_succ_r by lia. lia.
Qed.

Lemma to_string_ok n :
  (0 <= n < 10 ^ 20)%Z ->
  all_digits (to_string n) = true /\ to_string n <> "" /\ decimal_from 0 (to_string n) = n.
Proof.
  intros Hn. destruct (to_string_loop_ok 20 n "") as (H1 & H2 & H3); [exact Hn | discriminate | reflexivity |].
  split; [exact H1|]. split; [exact H2|]. unfold to_string. by rewrite (proj1 (H3 0%Z)).
Qed.

Lemma all_digits_head c s : all_digits (String c s) = true -> Ascii.eqb c "-" = false.
Proof.
  cbn. intros [Hc _]%andb_true_iff. destruct (Ascii.eqb_spec c "-") as [->|]; [|done]. done.
Qed.

Lemma from_chars_digits signed tmin tmax s :
  all_digits s = true -> s <> "" ->
  from_chars signed tmin tmax s =
  (let v := decimal_from 0 s in
   if (v <? tmin)%Z || (tmax <? v)%Z then None else Some (v, "")).
Proof.
  intros Hd Hne. destruct s as [|c s]; [done|]. pose proof (all_digits_head c s Hd) as Hm.
  unfold from_chars. rewrite Hm, andb_false_r, digits_all by done. done.
Qed.

(** What a successful conversion of the whole text means. *)
Lemma from_chars_whole signed tmin tmax s v :
  from_chars signed tmin tmax s = Some (v, "") ->
  (tmin <= v <= tmax)%Z /\
  ((all_digits s = true /\ s <> "" /\ v = decimal_from 0 s) \/
   signed = true /\ exists s', s = String "-" s' /\ all_digits s' = true /\ v = (- decimal_from 0 s')%Z).
Proof.
  unfold from_chars.
  assert (exists neg body, match s with
    | String c s' => if signed && Ascii.eqb c "-" then (true, s') else (false, s)
    | EmptyString => (false, s) end = (neg, body) /\
    (neg = true /\ signed = true /\ s = String "-" body \/ neg = false /\ s = body))
    as (neg & body & -> & Hcase).
  { destruct s as [|c s']; [eauto 10|]. destruct signed; cbn [andb]; [|eauto 10].
    destruct (Ascii.eqb_spec c "-") as [->|]; eauto 10. }
  destruct (digits body) as [d rest] eqn:Hd. destruct (String.eqb_spec d ""); [done|].
  destruct (_ || _) eqn:Hb; [done|]. intros [= <- ->]. apply digits_rest in Hd as [-> Hd].
  bool_hyps. destruct Hcase as [(-> & -> & ->)|(-> & ->)]; (split; [lia|]).
  - right. split; [done|]. by exists body.
  - left. done.
Qed.

Lemma decimal_nonneg acc s : (0 <= acc)%Z -> (0 <= decimal_from acc s)%Z.
Proof.
  revert acc. induction s as [|c s IH]; intros acc Ha; cbn; [done|]. apply IH.
  unfold digit_val. lia.
Qed.

(** ** Splitting at the last colon *)

Lemma rfind_colon_digits d : all_digits d = true -> rfind_colon d = None.
Proof.
  induction d as [|c d IH]; cbn; [done|]. intros [Hc Hd]%andb_true_iff. rewrite IH by done.
  destruct (Ascii.eqb_spec c ":") as [->|]; done.
Qed.

Lemma str_app_nil d : "" +:+ d = d.
Proof. reflexivity. Qed.
Lemma str_app_cons c h d : String c h +:+ d = String c (h +:+ d).
Proof. reflexivity. Qed.

Lemma rfind_colon_split h d :
  rfind_colon d = None -> rfind_colon (h +:+ String ":" d) = Some (String.length h).
Proof.
  intros Hd. induction h as [|c h IH]; [rewrite str_app_nil; cbn; by rewrite Hd|].
  rewrite str_app_cons. cbn. by rewrite IH.
Qed.

Lemma rfind_colon_inv s i :
  rfind_colon s = Some i ->
  s = str_take i s +:+ String ":" (str_drop (i + 1) s) /\ i < String.length s.
Proof.
  revert i. induction s as [|c s IH]; intros i; cbn; [done|].
  destruct (rfind_colon s) as [j|].
  - intros [= <-]. destruct (IH j eq_refl) as [Heq Hlt]. cbn.
    rewrite str_app_cons. split; [by rewrite <- Heq | lia].
  - destruct (Ascii.eqb_spec c ":") as [->|]; [|done]. intros [= <-]. cbn. split; [done | lia].
Qed.

Lemma str_take_app h d : str_take (String.length h) (h +:+ d) = h.
Proof. induction h as [|c h IH]; [by destruct d|]. rewrite str_app_cons. cbn. by rewrite IH. Qed.
Lemma str_drop_app h c d : str_drop (String.length h + 1) (h +:+ String c d) = d.
Proof. induction h as [|x h IH]; [done|]. rewrite str_app_cons. exact IH. Qed.
Lemma str_length_app h d : String.length (h +:+ d) = String.length h + String.length d.
Proof. induction h as [|c h IH]; [done|]. rewrite str_app_cons. cbn. lia. Qed.
Lemma str_length_pos s : s <> "" -> 0 < String.length s.
Proof. destruct s; cbn; [done|lia]. Qed.

Lemma htons_invol x : is_u16 x -> htons (htons x) = x /\ is_u16 (htons x).
Proof.
  unfold is_u16. intros Hx.
  assert (forall y, (0 <= y < 2 ^ 16)%Z -> htons y = (y mod 256 * 256 + y / 256)%Z) as Hswap.
  { intros y Hy. unfold htons, u16. rewrite Z.shiftr_div_pow2 by lia.
    pose proof (Z.div_mod y 256). pose proof (Z.mod_pos_bound y 256).
    change (2 ^ 8)%Z with 256%Z. assert (y / 256 < 256)%Z by (apply Z.div_lt_upper_bound; lia).
    pose proof (Z.div_pos y 256).
    rewrite Z.lor_comm, (lor_disjoint_add (y / 256) y 8) by lia. change (2 ^ 8)%Z with 256%Z.
    change (2 ^ 16)%Z with (256 * 256)%Z.
    replace (y / 256 + y * 256)%Z with (y mod 256 * 256 + y / 256 + (y / 256) * (256 * 256))%Z by lia.
    rewrite Z.mod_add by lia. apply Z.mod_small. lia. }
  rewrite (Hswap x) by done.
  pose proof (Z.div_mod x 256). pose proof (Z.mod_pos_bound x 256).
  assert (0 <= x mod 256 * 256 + x / 256 < 2 ^ 16)%Z as Hr by lia. split; [|done].
  rewrite Hswap by done.
  replace ((x mod 256 * 256 + x / 256) mod 256)%Z with (x / 256)%Z
    by (rewrite Z.add_comm, Z.mod_add, Z.mod_small by lia; lia).
  rewrite Z.div_add_l, (Z.div_small (x / 256)) by lia. lia.
Qed.

(** ** Theorems *)

(** An address that can be printed and read back: a port of 1 to 65535. *)
Definition endpoint_ok (a : sockaddr_in) : Prop :=
  is_u32 (sin_addr a) /\ is_u16 (sin_port a) /\ sin_port a <> 0%Z.

Section EndpointProofs.
Context `{I : Inet} `{IO : !InetOk}.

(** A host, a colon and a port in range are accepted. *)
Lemma parse_endpoint_text host d a :
  inet_pton host = Some (sin_addr a) -> all_digits d = true -> (1 <= decimal_from 0 d <= 65535)%Z ->
  ntohs (sin_port a) = decimal_from 0 d -> is_u16 (sin_port a) ->
  parse_endpoint (host +:+ ":" +:+ d) = Some a.
Proof.
  intros Hh Hd Hv Hp Hu. assert (d <> "") as Hne by (intros ->; cbn in Hv; lia).
  assert (host <> "") as Hhne by (intros ->; by rewrite inet_pton_empty in Hh).
  unfold parse_endpoint. change (":" +:+ d) with (String ":" d).
  rewrite rfind_colon_split by by apply rfind_colon_digits.
  apply str_length_pos in Hhne. pose proof (str_length_pos d Hne).
  assert (String.length (host +:+ String ":" d) = String.length host + S (String.length d)) as Hlen
    by (by rewrite str_length_app).
  rewrite Hlen, (proj2 (Nat.eqb_neq (String.length host) 0)), (proj2 (Nat.eqb_neq (_ + 1) _)) by lia.
  cbn [orb]. rewrite str_take_app, str_drop_app, from_chars_digits by done. cbv zeta.
  rewrite (proj2 (Z.ltb_ge _ _)), (proj2 (Z.ltb_ge (2 ^ 32 - 1) _)) by lia.
  cbn [orb negb String.eqb]. rewrite (proj2 (Z.eqb_neq _ _)), (proj2 (Z.ltb_ge 65535 _)) by lia.
  cbn [orb]. rewrite Hh. unfold u16. rewrite Z.mod_small by lia. rewrite <- Hp.
  destruct (htons_invol _ Hu) as [Hinv _]. unfold ntohs. rewrite Hinv. by destruct a.
Qed.

(** And nothing else is. *)
Lemma parse_endpoint_inv text a :
  parse_endpoint text = Some a ->
  exists host d, text = host +:+ ":" +:+ d /\ inet_pton host = Some (sin_addr a) /\
    all_digits d = true /\ (1 <= decimal_from 0 d <= 65535)%Z /\
    ntohs (sin_port a) = decimal_from 0 d /\ is_u16 (sin_port a).
Proof.
  unfold parse_endpoint. destruct (rfind_colon text) as [i|] eqn:Hi; [|done].
  apply rfind_colon_inv in Hi as [Heq _]. destruct (_ || _); [done|].
  destruct (from_chars _ _ _ _) as [[port rest]|] eqn:Hf; [|done].
  destruct (String.eqb_spec rest ""); cbn [negb orb]; [subst|done].
  apply from_chars_whole in Hf as [Hb [(Hd & _ & ->)|[? _]]]; [|done].
  destruct (_ || _) eqn:Hr; [done|]. bool_hyps.
  destruct (inet_pton _) as [w|] eqn:Hw; [|done]. intros [= <-]. cbn [sin_addr sin_port].
  destruct (htons_invol (u16 (decimal_from 0 (str_drop (i + 1) text)))) as [Hinv Hu];
    [unfold is_u16, u16; rewrite Z.mod_small; lia|].
  eexists _, _. split; [exact Heq|]. split; [done|]. split; [done|]. split; [lia|]. split; [|done].
  unfold ntohs. rewrite Hinv. unfold u16. rewrite Z.mod_small; lia.
Qed.

(** An endpoint that is printed is read back. *)
Lemma parse_format_endpoint a : endpoint_ok a -> parse_endpoint (format_endpoint a) = Some a.
Proof.
  intros (Ha & Hp & Hnz). destruct (htons_invol _ Hp) as [Hinv Hport].
  destruct (inet_roundtrip _ Ha) as (h & Hn & Hh). unfold format_endpoint, format_address.
  rewrite Hn. unfold is_u16 in *. destruct (to_string_ok (ntohs (sin_port a))) as (Hd & Hne & Hv);
    [unfold ntohs; lia|].
  assert (htons (sin_port a) <> 0%Z) as Hz by (intros Hz; by rewrite Hz in Hinv).
  apply parse_endpoint_text; rewrite ?Hv; unfold ntohs in *; try done; lia.
Qed.

(** [C37] What [parse_endpoint] accepts, exactly: a host the C library reads as
    an IPv4 address, a colon, and a decimal numeral of 1 to 65535 with nothing
    after it; the result is that address and that port.  So a result always
    has a valid port, and every endpoint with one is given back by parsing its
    printed form. *)
Theorem net_endpoint_roundtrip :
  (forall text a, parse_endpoint text = Some a <->
     exists host d, text = host +:+ ":" +:+ d /\ inet_pton host = Some (sin_addr a) /\
       all_digits d = true /\ (1 <= decimal_from 0 d <= 65535)%Z /\
       ntohs (sin_port a) = decimal_from 0 d /\ is_u16 (sin_port a)) /\
  (forall text a, parse_endpoint text = Some a -> endpoint_ok a) /\
  (forall a, endpoint_ok a -> parse_endpoint (format_endpoint a) = Some a).
Proof.
  assert (forall text a, parse_endpoint text = Some a <->
     exists host d, text = host +:+ ":" +:+ d /\ inet_pton host = Some (sin_addr a) /\
       all_digits d = true /\ (1 <= decimal_from 0 d <= 65535)%Z /\
       ntohs (sin_port a) = decimal_from 0 d /\ is_u16 (sin_port a)) as Hiff.
  { intros text a. split; [apply parse_endpoint_inv|].
    intros (host & d & -> & Hh & Hd & Hv & Hp & Hu). by apply parse_endpoint_text. }
  split; [exact Hiff|]. split; [|apply parse_format_endpoint].
  intros text a (host & d & -> & Hh & Hd & Hv & Hp & Hu)%Hiff.
  split; [by eapply inet_pton_u32|]. split; [done|]. intros Hz. rewrite Hz in Hp. change (ntohs 0) with 0%Z in Hp. lia.
Qed.

End EndpointProofs.

(** [parse_mtu] accepts exactly the decimal numerals of 576 to 1500:
    every number in that range is read back from its text, anything accepted
    is in the range and consists of digits only (a sign, a blank or a trailing
    character is refused, and no long numeral wraps around). *)
Lemma net_parse_mtu_exact text v :
  parse_mtu text = Some v <->
  (576 <= v <= 1500)%Z /\ all_digits text = true /\ decimal_from 0 text = v.
Proof.
  unfold parse_mtu, parse_number. split.
  - destruct (from_chars _ _ _ _) as [[n rest]|] eqn:Hf; [|done].
    destruct (String.eqb_spec rest ""); cbn [negb orb]; [subst|done].
    destruct (_ || _) eqn:Hr; [done|]. intros [= <-]. bool_hyps. split; [lia|].
    apply from_chars_whole in Hf as [_ [(Hd & _ & ->)|(_ & s' & _ & _ & ->)]]; [done|].
    pose proof (decimal_nonneg 0 s'). lia.
  - intros (Hv & Hd & Hval). rewrite from_chars_digits; [|done|].
    + cbv zeta. rewrite Hval, !(proj2 (Z.ltb_ge _ _)) by lia. cbn [orb negb String.eqb]. by rewrite !(proj2 (Z.ltb_ge _ _)) by lia.
    + intros ->. cbn in Hval. lia.
Qed.

(** ** Witness: a stand-in for the C library that writes addresses in unary *)

Definition toy_inet : Inet := {|
  inet_pton s := if String.eqb s "" then None else
                 if find_char "/" s is Some _ then None
                 else if (Z.of_nat (String.length s) <? 2 ^ 32 + 1)%Z
                      then Some (Z.of_nat (String.length s) - 1)%Z else None;
  inet_ntop a := Some (String.string_of_list_ascii (replicate (Z.to_nat a + 1) "x"%char))
|}.

Lemma length_string_of_list l : String.length (String.string_of_list_ascii l) = length l.
Proof. induction l; cbn; auto. Qed.

Lemma find_char_replicate c d n :
  Ascii.eqb d c = false -> find_char c (String.string_of_list_ascii (replicate n d)) = None.
Proof. intros Hd. induction n as [|n IH]; [done|]. cbn. by rewrite Hd, IH. Qed.

Lemma toy_inet_ok : InetOk (I := toy_inet).
Proof.
  constructor; cbn.
  - unfold is_u32. intros a Ha. eexists; split; [done|].
    assert (String.length (String.string_of_list_ascii (replicate (Z.to_nat a + 1) "x"%char))
            = Z.to_nat a + 1) as Hl by by rewrite length_string_of_list, length_replicate.
    destruct (String.eqb_spec (String.string_of_list_ascii (replicate (Z.to_nat a + 1) "x"%char)) "")
      as [He|_]; [rewrite He in Hl; cbn in Hl; lia|].
    rewrite find_char_replicate by done.
    rewrite Hl, (proj2 (Z.ltb_lt _ _)) by lia. f_equal. lia.
  - intros s a. destruct (String.eqb_spec s "") as [|Hne]; [done|]. destruct (find_char "/" s); [done|].
    case_match eqn:Hlt; [|done]. bool_hyps.
    intros [= <-]. pose proof (str_length_pos s Hne). unfold is_u32. lia.
  - done.
  - intros s a. destruct (String.eqb s ""); [done|]. by destruct (find_char "/" s).
Qed.

Lemma net_endpoint_roundtrip_witness :
  parse_endpoint (I := toy_inet) (format_endpoint (I := toy_inet) (mkAddr 2 (htons 51820)))
  = Some (mkAddr 2 (htons 51820)) /\
  parse_endpoint (I := toy_inet) "xxx:51820" = Some (mkAddr 2 (htons 51820)).
Proof.
  destruct (net_endpoint_roundtrip (I := toy_inet) (IO := toy_inet_ok)) as (Hiff & _ & Hround). split.
  - apply Hround. unfold endpoint_ok, is_u32, is_u16. vm_compute. repeat split; try discriminate.
  - apply Hiff. exists "xxx", "51820". unfold is_u16. vm_compute. repeat split; try discriminate.
Defined.
