(* ===== verification/Host.v ===== *)
(** * Host: the machine the programs run on, and how C++ scopes act on it
      ([src/fd.h], and what [src/netcfg.cpp] and the entry points ask of libc)

    The kernel, the file system and the child processes are not part of the
    repository: they are the class [Host], a state and one function per
    question the code asks.  Code that changes the machine runs in [M], which
    threads that state together with the trace of everything done so far.  A
    C++ scope whose object has a destructor is [scoped] (destroyed on every
    exit) or [unless_returned] (destroyed only when an exception passes, because
    the object is handed to the caller).

    [ledger] is the specification: it reads a trace and keeps the stack of what
    an object is still there to undo, and the list of what stayed because its
    undoing was tried and failed.  A trace that ends with an empty stack closed
    every descriptor and tried to reverse every change, each once, last first;
    what remains is exactly that list.  And at no moment was everything routed
    into the tunnel without the host route that keeps the tunnel's own packets
    out of it. *)

From Stdlib Require Import ZArith Lia Ascii String.
From stdpp Require Import base tactics numbers list option strings.
From S2P Require Import Prelude Net.

(** ** The machine *)

Inductive Tool : Set := ip | iptables | ip6tables.

#[export] Instance Tool_eq_dec : EqDecision Tool.
Proof. solve_decision. Defined.

(** What the calls before [posix_spawn] answer. *)
Record spawn_setup : Type := mkSpawnSetup {
  sp_init : Z;                         (* posix_spawn_file_actions_init *)
  sp_pipe : sysres (nat * nat);        (* pipe2: read end, write end *)
  sp_dup2 : Z                          (* posix_spawn_file_actions_adddup2 *)
}.

(** What the parent sees of a child: the answers of [read] on the pipe before
    end of file, the failures of [waitpid] before it succeeds, the status. *)
Record child : Type := mkChild {
  ch_reads : list (sysres string);
  ch_waits : list Z;
  ch_status : Z
}.

Class Host : Type := {
  host : Type;
  h_access : host -> string -> bool -> bool;            (* true: X_OK, false: F_OK *)
  h_stat : host -> string -> option Z;                  (* st_mode *)
  h_read : host -> string -> option string;             (* the file's text, if it opens *)
  h_write : host -> string -> string -> bool * host;    (* open, write and flush *)
  h_spawn_setup : host -> spawn_setup;
  (* path, argv, envp, stdout on the pipe; a nonzero error number or the child *)
  h_spawn : host -> string -> list string -> list string -> bool -> (Z + child) * host;
  h_open : host -> string -> sysres nat * host;
  h_tunsetiff : host -> nat -> string -> sysres string * host;
  h_socket : host -> sysres nat * host;
  h_signalfd : host -> sysres nat * host;
  h_epoll_create1 : host -> sysres nat * host;
  h_bind : host -> nat -> sockaddr_in -> sysres unit * host;
  h_getsockname : host -> nat -> sysres sockaddr_in;
  h_close : host -> nat -> host;
  h_strerror : Z -> string
}.

(** ** What is done to it *)

(** [Ran], [Wrote]: the boolean says whether the call succeeded.  [Asked]: what
    the command printed, when it succeeded. *)
Inductive effect : Type :=
| Opened (fd : nat)
| Closed (fd : nat)
| Spawned (path : string) (argv : list string)
| Reaped (path : string) (r : sysres Z)                (* what [waitpid] said in the end *)
| Ran (tool : Tool) (args : list string) (ok : bool)
| Asked (tool : Tool) (args : list string) (answer : option string)
| ReadLine (path line : string)
| Wrote (path line : string) (ok : bool)
| Stderr (text : string).

(** [error.what()], given [strerror]. *)
Definition exn_what (strerror : Z -> string) (e : exn) : string :=
  match e with
  | logic_error s | invalid_argument s | runtime_error s => s
  | system_error code s => s +:+ ": " +:+ strerror code
  | bad_alloc => "std::bad_alloc"
  end.

Section Monad.
Context `{H : Host}.

Record World : Type := mkWorld { w_host : host; w_trace : list effect }.

(** [Blocked]: waiting for input that never comes. *)
Inductive outcome (A : Type) : Type :=
| Ret (a : A)
| Raise (e : exn)
| Undefined
| Blocked.

Definition M (A : Type) : Type := World -> outcome A * World.

End Monad.

Arguments Ret {A} a.
Arguments Raise {A} e.
Arguments Undefined {A}.
Arguments Blocked {A}.

#[export] Instance M_ret `{H : Host} : MRet M := fun A a w => (Ret a, w).
#[export] Instance M_bind `{H : Host} : MBind M := fun A B f m w =>
  match m w with
  | (Ret a, w) => f a w
  | (Raise e, w) => (Raise e, w)
  | (Undefined, w) => (Undefined, w)
  | (Blocked, w) => (Blocked, w)
  end.

Section Scopes.
Context `{H : Host}.

Definition raise {A} (e : exn) : M A := fun w => (Raise e, w).

Definition lift {A} (r : Res A) : M A := fun w =>
  match r with
  | Ok a => (Ret a, w)
  | Throw e => (Raise e, w)
  | Ub => (Undefined, w)
  end.

Definition emit (e : effect) : M unit := fun w =>
  (Ret tt, mkWorld (w_host w) (w_trace w ++ [e])).

(** A question that changes nothing. *)
Definition ask {A} (f : host -> A) : M A := fun w => (Ret (f (w_host w)), w).

(** A call that may change the machine. *)
Definition call {A} (f : host -> A * host) : M A := fun w =>
  let '(a, h) := f (w_host w) in (Ret a, mkWorld h (w_trace w)).

(** [{ Object x; m }] where [d] is the destructor of [x]; it does not throw. *)
Definition scoped {A} (d : M unit) (m : M A) : M A := fun w =>
  match m w with
  | (Ret a, w) => (Ret a, (d w).2)
  | (Raise e, w) => (Raise e, (d w).2)
  | r => r
  end.

(** The same for an object that [m] returns to the caller. *)
Definition unless_returned {A} (d : M unit) (m : M A) : M A := fun w =>
  match m w with
  | (Raise e, w) => (Raise e, (d w).2)
  | r => r
  end.

(** [try { m } catch (const std::exception& e) { h(e) }] *)
Definition try_catch {A} (m : M A) (h : exn -> M A) : M A := fun w =>
  match m w with
  | (Raise e, w) => h e w
  | r => r
  end.

Definition returned {A} (r : option A) : bool := match r with Some _ => true | None => false end.

(** Records that [m] ran, and what it returned if it did. *)
Definition recorded {A} (e : option A -> effect) (m : M A) : M A := fun w =>
  match m w with
  | (Ret a, w) => (Ret a, mkWorld (w_host w) (w_trace w ++ [e (Some a)]))
  | (Raise x, w) => (Raise x, mkWorld (w_host w) (w_trace w ++ [e None]))
  | r => r
  end.

Definition what (e : exn) : string := exn_what h_strerror e.

(** ** UniqueFd ([src/fd.h]) *)

Definition UniqueFd : Type := Z.
Definition UniqueFd_empty : UniqueFd := (-1)%Z.
Definition UniqueFd_new (fd : Z) : UniqueFd := fd.
Definition UniqueFd_valid (fd : UniqueFd) : bool := (0 <=? fd)%Z.

Definition sys_close (fd : nat) : M unit :=
  _ ← call (fun h => (tt, h_close h fd));
  emit (Closed fd).

(** The object after the call. *)
Definition UniqueFd_reset (fd : UniqueFd) : M UniqueFd :=
  if (0 <=? fd)%Z then _ ← sys_close (Z.to_nat fd); mret (-1)%Z else mret fd.

Definition UniqueFd_destroy (fd : UniqueFd) : M unit := _ ← UniqueFd_reset fd; mret tt.

(** [UniqueFd(UniqueFd&& other)]: the new object, and [other] afterwards. *)
Definition UniqueFd_move (other : UniqueFd) : UniqueFd * UniqueFd := (other, (-1)%Z).

(** [*this = std::move(other)] for two distinct objects. *)
Definition UniqueFd_move_assign (this other : UniqueFd) : M (UniqueFd * UniqueFd) :=
  _ ← UniqueFd_reset this;
  mret (other, (-1)%Z).

(** [UniqueFd fd(call)]: -1 and the error number when the call failed. *)
Definition acquire (f : host -> sysres nat * host) : M (UniqueFd * Z) :=
  r ← call f;
  match r with
  | SysErr e => mret (UniqueFd_new (-1)%Z, e)
  | SysOk fd => _ ← emit (Opened fd); mret (UniqueFd_new (Z.of_nat fd), 0%Z)
  end.

End Scopes.

(** ** The ledger *)

(** What is still to be undone. *)
Inductive debt : Type :=
| Close (fd : nat)
| Command (tool : Tool) (args : list string)
| Restore (path line : string).

#[export] Instance debt_eq_dec : EqDecision debt.
Proof. solve_decision. Defined.

(** The first [-A] or [-D] of an iptables command line, with [-A] turned into [-D]. *)
Fixpoint rule_change (args : list string) : option (bool * list string) :=
  match args with
  | [] => None
  | a :: args =>
      if String.eqb a "-A" then Some (true, "-D" :: args)
      else if String.eqb a "-D" then Some (false, "-D" :: args)
      else match rule_change args with
           | Some (add, rest) => Some (add, a :: rest)
           | None => None
           end
  end.

(** A command that adds something ([true]) or removes it, and the removing form. *)
Definition change (tool : Tool) (args : list string) : option (bool * list string) :=
  match tool, args with
  | ip, a :: b :: r =>
      if String.eqb a "route" && String.eqb b "add" then Some (true, "route" :: "del" :: r)
      else if String.eqb a "route" && String.eqb b "del" then Some (false, args)
      else None
  | ip, _ => None
  | _, _ => rule_change args
  end.

(** Settings under a device disappear with it. *)
Definition device_setting (path : string) : bool :=
  String.prefix "/proc/sys/net/ipv6/conf/" path.

(** The routes that take everything into the tunnel, and a route that keeps one
    host outside it. *)
Definition takes_all (d : debt) : bool :=
  match d with
  | Command ip (_ :: _ :: dst :: _) => String.eqb dst "0.0.0.0/1" || String.eqb dst "128.0.0.0/1"
  | _ => false
  end.

Fixpoint ends_32 (s : string) : bool :=
  String.eqb s "/32" || match s with String _ s => ends_32 s | EmptyString => false end.

Definition keeps_underlay (d : debt) : bool :=
  match d with
  | Command ip (_ :: _ :: dst :: _) => ends_32 dst
  | _ => false
  end.

(** Nothing goes into the tunnel unless its own packets stay out of it. *)
Definition covered (d : debt) (stack : list debt) : bool :=
  negb (takes_all d) || existsb keeps_underlay stack.

(** The last line read from a file with its path, and the changes that stayed
    because undoing them failed. *)
Record notes : Type := mkNotes { seen_line : option (string * string); stuck : list debt }.
Definition fresh : notes := mkNotes None [].

Definition note_line (path line : string) (n : notes) : notes := mkNotes (Some (path, line)) (stuck n).

(** [d] was to be undone: it is, or it stays. *)
Definition settled (d : debt) (ok : bool) (n : notes) : notes :=
  if ok then n else mkNotes (seen_line n) (d :: stuck n).

(** The stack of what an object is there to undo, and the notes. *)
Definition ledger : Type := list debt * notes.

Definition pay (d : debt) (stack : list debt) : option (list debt) :=
  match stack with
  | d' :: rest => if decide (d = d') then Some rest else None
  | [] => None
  end.

Definition book (l : ledger) (e : effect) : option ledger :=
  let '(stack, n) := l in
  match e with
  | Opened fd => Some (Close fd :: stack, n)
  | Closed fd => stack ← pay (Close fd) stack; Some (stack, n)
  | Ran tool args ok =>
      match change tool args with
      | Some (true, undo) =>
          if negb (ok : bool) then Some (stack, n)
          else if covered (Command tool undo) stack then Some (Command tool undo :: stack, n)
          else None
      | Some (false, undo) =>
          stack ← pay (Command tool undo) stack; Some (stack, settled (Command tool undo) ok n)
      | None => Some (stack, n)
      end
  | ReadLine path line => Some (stack, note_line path line n)
  | Wrote path line ok =>
      if device_setting path then Some (stack, n) else
      match pay (Restore path line) stack, seen_line n with
      | Some stack, _ => Some (stack, settled (Restore path line) ok n)
      | None, Some (path', old) =>
          if negb (ok : bool) then Some (stack, n)
          else if decide (path' = path) then Some (Restore path old :: stack, n)
          else None
      | None, None => if negb (ok : bool) then Some (stack, n) else None
      end
  | Spawned _ _ | Reaped _ _ | Asked _ _ _ | Stderr _ => Some (stack, n)
  end.

Fixpoint book_all (l : ledger) (t : list effect) : option ledger :=
  match t with
  | [] => Some l
  | e :: t => l ← book l e; book_all l t
  end.

(** Everything done was undone or tried to be, each once, in reverse order; the
    changes in [left] are those whose undoing failed. *)
Definition unwinds (t : list effect) (left : list debt) : Prop :=
  exists n, book_all ([], fresh) t = Some ([], n) /\ stuck n = left.

(** The line on standard error that says that [d] could not be undone. *)
Definition warns (d : debt) (text : string) : bool :=
  match d with
  | Close _ => false
  | Command _ _ => String.prefix "warning: could not undo a network change: " text
  | Restore path line => String.prefix ("warning: could not restore " +:+ path +:+ " to " +:+ line) text
  end.

Definition stderr_lines (t : list effect) : list string :=
  omap (fun e => match e with Stderr text => Some text | _ => None end) t.

(** Each of the changes, the latest first, has such a line of its own. *)
Definition reported (t : list effect) (left : list debt) : Prop :=
  exists lines, lines `sublist_of` stderr_lines t /\
    Forall2 (fun d line => warns d line = true) (rev left) lines.

Lemma book_all_app l t e :
  book_all l (t ++ [e]) = (l ← book_all l t; book l e).
Proof.
  revert l. induction t as [|e' t IH]; intros l; cbn.
  - by destruct (book l e).
  - destruct (book l e'); [apply IH | done].
Qed.

Lemma book_all_cut l t t' :
  book_all l (t ++ t') = (l ← book_all l t; book_all l t').
Proof.
  revert l. induction t as [|e t IH]; intros l; cbn; [done|].
  destruct (book l e); [apply IH | done].
Qed.

(** Every route into the tunnel lies above a host route. *)
Fixpoint loop_free (stack : list debt) : bool :=
  match stack with
  | [] => true
  | d :: stack => covered d stack && loop_free stack
  end.

Lemma pay_loop_free d stack stack' : pay d stack = Some stack' -> loop_free stack = true -> loop_free stack' = true.
Proof.
  destruct stack as [|d' stack]; [done|]. cbn. case_decide; [|done]. intros [= <-].
  by intros [_ ?]%andb_prop.
Qed.

Lemma book_loop_free l e l' : book l e = Some l' -> loop_free l.1 = true -> loop_free l'.1 = true.
Proof.
  destruct l as [stack n]. intros Hb Hl. cbn [fst] in Hl. destruct e; cbn [book] in Hb; simplify_eq; try done.
  - destruct (pay _ stack) as [s'|] eqn:E; simplify_eq/=. by eapply pay_loop_free.
  - destruct (change tool args) as [[[] undo]|]; [| |by simplify_eq].
    + destruct (negb ok); [by simplify_eq|]. destruct (covered _ stack) eqn:Hc; simplify_eq.
      cbn [fst loop_free]. by rewrite Hc.
    + destruct (pay _ stack) as [s'|] eqn:E; simplify_eq/=. by eapply pay_loop_free.
  - destruct (device_setting path); [by simplify_eq|]. destruct (pay _ stack) as [s'|] eqn:E.
    + simplify_eq. by eapply pay_loop_free.
    + destruct (seen_line n) as [[path' old]|]; destruct (negb ok); simplify_eq; try done.
      case_decide; simplify_eq. done.
Qed.

Lemma book_all_loop_free t l l' :
  book_all l t = Some l' -> loop_free l.1 = true -> loop_free l'.1 = true.
Proof.
  revert l. induction t as [|e t IH]; intros l; cbn; [by intros [= <-]|].
  destruct (book l e) as [l1|] eqn:E; [|done]. intros Ht Hl. eapply IH; [exact Ht|]. by eapply book_loop_free.
Qed.

Lemma loop_free_below above d below :
  loop_free (above ++ d :: below) = true -> takes_all d = true ->
  exists d', d' ∈ below /\ keeps_underlay d' = true.
Proof.
  induction above as [|a above IH]; cbn [app loop_free]; intros [Hc Hl]%andb_prop Hd; [|by apply IH].
  unfold covered in Hc. rewrite Hd in Hc. apply existsb_exists in Hc as (d' & Hin & Hk).
  exists d'. split; [by apply list_elem_of_In | done].
Qed.

(** At every moment of a trace that unwinds. *)
Lemma unwinds_prefix t left p :
  unwinds t left -> p `prefix_of` t ->
  exists stack n, book_all ([], fresh) p = Some (stack, n) /\ loop_free stack = true.
Proof.
  intros (n & Hu & _) [q ->]. rewrite book_all_cut in Hu.
  destruct (book_all ([], fresh) p) as [[stack n']|] eqn:E; [|done]. exists stack, n'.
  split; [done|]. by apply (book_all_loop_free _ _ _ E).
Qed.

(** ** Reasoning about scopes *)

Section Logic.
Context `{H : Host}.

(** The trace so far leaves exactly [stack] to be undone, and what stayed for
    good was reported. *)
Definition owes (stack : list debt) (w : World) : Prop :=
  exists n, book_all ([], fresh) (w_trace w) = Some (stack, n) /\ reported (w_trace w) (stuck n).

(** [e] takes the stack [s] to [s'] and gives up on nothing. *)
Definition books (s : list debt) (e : effect) (s' : list debt) : Prop :=
  forall n, exists n', book (s, n) e = Some (s', n') /\ stuck n' = stuck n.

Lemma reported_grows t t' l : reported t l -> reported (t ++ t') l.
Proof.
  intros (lines & Hs & Hl). exists lines. split; [|done]. unfold stderr_lines. rewrite omap_app.
  etrans; [exact Hs|]. apply sublist_inserts_r. done.
Qed.

Lemma reported_more t text d l : warns d text = true -> reported t l -> reported (t ++ [Stderr text]) (d :: l).
Proof.
  intros Hd (lines & Hs & Hl). exists (lines ++ [text]). unfold stderr_lines. rewrite omap_app. split.
  - by apply sublist_app.
  - cbn [rev]. apply Forall2_app; [done|]. by repeat constructor.
Qed.

Lemma owes_books s e s' w :
  books s e s' -> owes s w -> owes s' (mkWorld (w_host w) (w_trace w ++ [e])).
Proof.
  intros Hb (n & Hw & Ht). destruct (Hb n) as (n' & Hb' & Hs). exists n'. cbn [w_trace].
  rewrite book_all_app, Hw. split; [exact Hb'|]. rewrite Hs. by apply reported_grows.
Qed.

(** A debt that was not paid, and the line that says so. *)
Lemma owes_stuck d s e text w h :
  (forall n, book (d :: s, n) e = Some (s, settled d false n)) -> warns d text = true ->
  owes (d :: s) w -> owes s (mkWorld h ((w_trace w ++ [e]) ++ [Stderr text])).
Proof.
  intros Hb Hd (n & Hw & Ht). exists (settled d false n). cbn [w_trace].
  rewrite !book_all_app, Hw. cbn [mbind option_bind]. rewrite Hb. split; [done|].
  cbn [settled stuck]. apply reported_more; [done|]. by apply reported_grows.
Qed.

(** Started owing [s], [m] returns [a] owing [Q a] or throws owing [E]; it does
    not block and is never undefined. *)
Definition leaves {A} (s : list debt) (m : M A) (Q : A -> list debt) (E : list debt) : Prop :=
  forall w, owes s w ->
    match m w with
    | (Ret a, w') => owes (Q a) w'
    | (Raise _, w') => owes E w'
    | (Undefined, _) => False
    | (Blocked, _) => False
    end.

(** A destructor: it returns, and brings [s] down to [s']. *)
Definition settles (d : M unit) (s s' : list debt) : Prop :=
  forall w, owes s w -> exists w', d w = (Ret tt, w') /\ owes s' w'.

Lemma leaves_ret {A} s (a : A) Q E : Q a = s -> leaves s (mret a) Q E.
Proof. intros <- w Hw. exact Hw. Qed.

Lemma leaves_raise {A} s e (Q : A -> list debt) : leaves s (raise e) Q s.
Proof. intros w Hw. exact Hw. Qed.

Lemma leaves_bind {A B} s (m : M A) (f : A -> M B) Q R E :
  leaves s m Q E -> (forall a, leaves (Q a) (f a) R E) -> leaves s (m ≫= f) R E.
Proof.
  intros Hm Hf w Hw. specialize (Hm w Hw). unfold mbind, M_bind.
  destruct (m w) as [[a|e| |] w']; try done. by apply Hf.
Qed.

Lemma leaves_emit s e s' E : books s e s' -> leaves s (emit e) (fun _ => s') E.
Proof. intros Hb w Hw. by eapply owes_books. Qed.

Lemma leaves_ask {A} s (f : host -> A) E : leaves s (ask f) (fun _ => s) E.
Proof. intros w Hw. exact Hw. Qed.

Lemma leaves_call {A} s (f : host -> A * host) E : leaves s (call f) (fun _ => s) E.
Proof. intros w Hw. unfold call. destruct (f (w_host w)) as [a h]. exact Hw. Qed.

Lemma leaves_lift {A} s (r : Res A) E : r <> Ub -> E = s -> leaves s (lift r) (fun _ => s) E.
Proof. intros Hr -> w Hw. by destruct r. Qed.

Lemma leaves_scoped {A} s (m : M A) d s1 s2 :
  leaves s m (fun _ => s1) s1 -> settles d s1 s2 -> leaves s (scoped d m) (fun _ => s2) s2.
Proof.
  intros Hm Hd w Hw. specialize (Hm w Hw). unfold scoped.
  destruct (m w) as [[a|e| |] w']; try done; destruct (Hd w' Hm) as (w2 & -> & H2); done.
Qed.

Lemma leaves_unless_returned {A} s (m : M A) d Q s1 s2 :
  leaves s m Q s1 -> settles d s1 s2 -> leaves s (unless_returned d m) Q s2.
Proof.
  intros Hm Hd w Hw. specialize (Hm w Hw). unfold unless_returned.
  destruct (m w) as [[a|e| |] w']; try done. by destruct (Hd w' Hm) as (w2 & -> & H2).
Qed.

Lemma leaves_catch {A} s (m : M A) h Q s1 E :
  leaves s m Q s1 -> (forall e, leaves s1 (h e) Q E) -> leaves s (try_catch m h) Q E.
Proof.
  intros Hm Hh w Hw. specialize (Hm w Hw). unfold try_catch.
  destruct (m w) as [[a|e| |] w']; try done. by apply Hh.
Qed.

Lemma settles_ret s : settles (mret tt) s s.
Proof. intros w Hw. by exists w. Qed.

Lemma settles_seq d d' s1 s2 s3 :
  settles d s1 s2 -> settles d' s2 s3 -> settles (_ ← d; d') s1 s3.
Proof.
  intros H1 H2 w Hw. destruct (H1 w Hw) as (w1 & Hd & Hw1). unfold mbind, M_bind.
  rewrite Hd. by apply H2.
Qed.

Lemma books_close fd s : books (Close fd :: s) (Closed fd) s.
Proof. intros n. exists n. cbn. by rewrite decide_True. Qed.
Lemma books_open fd s : books s (Opened fd) (Close fd :: s).
Proof. intros n. by exists n. Qed.

Lemma sys_close_settles fd s : settles (sys_close fd) (Close fd :: s) s.
Proof.
  intros w Hw. eexists. split; [reflexivity|].
  exact (owes_books _ _ _ (mkWorld (h_close (w_host w) fd) (w_trace w)) (books_close fd s) Hw).
Qed.

Lemma settles_leaves d s s' E : settles d s s' -> leaves s d (fun _ => s') E.
Proof. intros Hd w Hw. by destruct (Hd w Hw) as (w' & -> & Hw'). Qed.

(** What an object holding [fd] owes. *)
Definition held (fd : UniqueFd) : list debt :=
  if (0 <=? fd)%Z then [Close (Z.to_nat fd)] else [].

Lemma UniqueFd_destroy_settles fd s : settles (UniqueFd_destroy fd) (held fd ++ s) s.
Proof.
  unfold UniqueFd_destroy, UniqueFd_reset, held. destruct (0 <=? fd)%Z; [|apply settles_ret].
  intros w Hw. destruct (sys_close_settles _ _ _ Hw) as (w' & Hc & Hw').
  exists w'. unfold mbind, M_bind. by rewrite Hc.
Qed.

Lemma acquire_leaves f s E : leaves s (acquire f) (fun '(fd, _) => held fd ++ s) E.
Proof.
  unfold acquire. eapply leaves_bind; [apply leaves_call|]. intros [fd|e]; [|by apply leaves_ret].
  eapply leaves_bind; [apply leaves_emit, books_open|].
  intros []. apply leaves_ret. cbn. unfold held, UniqueFd_new.
  by rewrite (proj2 (Z.leb_le _ _)), Nat2Z.id by lia.
Qed.

Lemma owes_start w : w_trace w = [] -> owes [] w.
Proof. intros Hw. exists fresh. rewrite Hw. split; [done|]. by exists []. Qed.

Lemma owes_unwinds w :
  owes [] w -> exists left, unwinds (w_trace w) left /\ reported (w_trace w) left.
Proof. intros (n & Hw & Ht). exists (stuck n). split; [by exists n | done]. Qed.

End Logic.
