(* ===== verification/Ownership.v ===== *)
(** * Ownership: descriptors and key storage as C++ objects
      ([src/fd.h], [src/secure_buf.h])

    The scopes of [Host.v] destroy each object once by construction.  Here the
    objects live at addresses and are constructed, moved, assigned, reset and
    destroyed in any order, and two facts are invariants of every such history:
    each open descriptor is held by exactly one object and is closed exactly
    once, and a byte of a key is found in memory only inside a live object. *)

From Stdlib Require Import ZArith Lia.
From stdpp Require Import base tactics numbers list option gmap relations.
From S2P Require Import Prelude Crypto Net Host.

(** ** Descriptors *)

Section Descriptors.
Context `{H : Host}.

(** The live [UniqueFd] objects by address, each the number it holds. *)
Abbreviation fd_objects := (gmap nat Z).

(** [*this = std::move(other)], on objects that may be the same. *)
Definition UniqueFd_assign (objs : fd_objects) (this other : nat) : M fd_objects :=
  if decide (this = other) then mret objs else
  match objs !! this, objs !! other with
  | Some t, Some o =>
      '(t', o') ← UniqueFd_move_assign t o;
      mret (<[other := o']> (<[this := t']> objs))
  | _, _ => fun w => (Undefined, w)
  end.

(** The descriptors that are open after a trace; [None] once one was closed that
    was not open, or opened that already was. *)
Definition fd_book (o : option (gset nat)) (e : effect) : option (gset nat) :=
  O ← o;
  match e with
  | Opened fd => if decide (fd ∈ O) then None else Some ({[fd]} ∪ O)
  | Closed fd => if decide (fd ∈ O) then Some (O ∖ {[fd]}) else None
  | _ => Some O
  end.
Definition open_fds (t : list effect) : option (gset nat) := fold_left fd_book t (Some ∅).

(** The kernel hands out a descriptor that is not open. *)
Definition kernel_fresh (f : host -> sysres nat * host) (w : World) : Prop :=
  match (f (w_host w)).1 with
  | SysOk fd => forall O, open_fds (w_trace w) = Some O -> fd ∉ O
  | SysErr _ => True
  end.

Definition opens_or_closes (e : effect) : Prop :=
  match e with Opened _ | Closed _ => True | _ => False end.

(** One operation on the objects, or anything else that opens and closes nothing. *)
Inductive fd_step : fd_objects * World -> fd_objects * World -> Prop :=
| fd_default objs w a :
    objs !! a = None -> fd_step (objs, w) (<[a := UniqueFd_empty]> objs, w)
| fd_acquire objs w a f fd errno w' :
    objs !! a = None -> kernel_fresh f w -> acquire f w = (Ret (fd, errno), w') ->
    fd_step (objs, w) (<[a := fd]> objs, w')
| fd_move objs w a other v :
    objs !! a = None -> objs !! other = Some v ->
    fd_step (objs, w) (<[a := (UniqueFd_move v).1]> (<[other := (UniqueFd_move v).2]> objs), w)
| fd_assign objs w this other objs' w' :
    UniqueFd_assign objs this other w = (Ret objs', w') -> fd_step (objs, w) (objs', w')
| fd_reset objs w a v v' w' :
    objs !! a = Some v -> UniqueFd_reset v w = (Ret v', w') -> fd_step (objs, w) (<[a := v']> objs, w')
| fd_destroy objs w a v w' :
    objs !! a = Some v -> UniqueFd_destroy v w = (Ret tt, w') -> fd_step (objs, w) (delete a objs, w')
| fd_other objs w h e :
    ~ opens_or_closes e -> fd_step (objs, w) (objs, mkWorld h (w_trace w ++ [e])).

(** Objects hold -1 or an open descriptor, no two the same one, and every open
    descriptor is held. *)
Record owned (objs : fd_objects) (O : gset nat) : Prop := {
  ow_value a v : objs !! a = Some v -> v = (-1)%Z \/ exists fd, v = Z.of_nat fd /\ fd ∈ O;
  ow_unique a b fd : objs !! a = Some (Z.of_nat fd) -> objs !! b = Some (Z.of_nat fd) -> a = b;
  ow_held fd : fd ∈ O -> exists a, objs !! a = Some (Z.of_nat fd)
}.

Definition fd_inv (s : fd_objects * World) : Prop :=
  exists O, open_fds (w_trace s.2) = Some O /\ owned s.1 O.

(** *** Objects *)

Lemma owned_empty_object objs O a :
  owned objs O -> objs !! a = None -> owned (<[a := (-1)%Z]> objs) O.
Proof.
  intros [Hv Hu Hh] Ha. constructor.
  - intros b v [[_ <-]|[_ Hb]]%lookup_insert_Some; [by left | by eapply Hv].
  - intros b c fd [[_ ?]|[_ Hb]]%lookup_insert_Some [[_ ?]|[_ Hc]]%lookup_insert_Some; try lia. by eapply Hu.
  - intros fd [b Hb]%Hh. exists b. rewrite lookup_insert_ne; [done|]. intros E; subst; congruence.
Qed.

Lemma owned_new objs O a fd :
  owned objs O -> objs !! a = None -> fd ∉ O -> owned (<[a := Z.of_nat fd]> objs) ({[fd]} ∪ O).
Proof.
  intros [Hv Hu Hh] Ha Hfd. constructor.
  - intros b v [[_ <-]|[_ Hb]]%lookup_insert_Some; [right; exists fd; set_solver|].
    destruct (Hv b v Hb) as [->|(n & -> & Hn)]; [by left|]. right. exists n. set_solver.
  - assert (forall b, objs !! b = Some (Z.of_nat fd) -> False) as Hno.
    { intros b Hb. destruct (Hv b _ Hb) as [?|(n & Hn & ?)]; [lia|]. apply Nat2Z.inj in Hn as ->. done. }
    intros b c n [[<- E]|[_ Hb]]%lookup_insert_Some [[<- E']|[_ Hc]]%lookup_insert_Some; try done.
    + apply Nat2Z.inj in E as ->. by destruct (Hno c).
    + apply Nat2Z.inj in E' as ->. by destruct (Hno b).
    + by eapply Hu.
  - intros n [->%elem_of_singleton|Hn]%elem_of_union; [exists a; apply lookup_insert_eq|].
    destruct (Hh n Hn) as [b Hb]. exists b. rewrite lookup_insert_ne; [done|]. intros E; subst; congruence.
Qed.

(** Whatever [a] held is handed over to nobody: it must be closed. *)
Lemma owned_release objs O a fd :
  owned objs O -> objs !! a = Some (Z.of_nat fd) -> owned (<[a := (-1)%Z]> objs) (O ∖ {[fd]}).
Proof.
  intros [Hv Hu Hh] Ha. constructor.
  - intros b v [[_ <-]|[Hne Hb]]%lookup_insert_Some; [by left|].
    destruct (Hv b v Hb) as [->|(n & -> & Hn)]; [by left|]. right. exists n. split; [done|].
    apply elem_of_difference. split; [done|]. intros ->%elem_of_singleton. by apply Hne, (Hu a b fd).
  - intros b c n [[_ ?]|[_ Hb]]%lookup_insert_Some [[_ ?]|[_ Hc]]%lookup_insert_Some; try lia. by eapply Hu.
  - intros n [Hn Hne]%elem_of_difference. destruct (Hh n Hn) as [b Hb]. exists b.
    rewrite lookup_insert_ne; [done|]. intros E; subst. rewrite Ha in Hb. injection Hb as Hb%Nat2Z.inj. set_solver.
Qed.

Lemma owned_delete_empty objs O a : owned objs O -> objs !! a = Some (-1)%Z -> owned (delete a objs) O.
Proof.
  intros [Hv Hu Hh] Ha. constructor.
  - intros b v [_ Hb]%lookup_delete_Some. by eapply Hv.
  - intros b c fd [_ Hb]%lookup_delete_Some [_ Hc]%lookup_delete_Some. by eapply Hu.
  - intros fd [b Hb]%Hh. exists b. rewrite lookup_delete_ne; [done|]. intros E; subst. rewrite Ha in Hb. injection Hb. lia.
Qed.

(** The value of one object moved to an empty one. *)
Lemma owned_transfer objs O a b v :
  owned objs O -> a <> b -> objs !! a = Some (-1)%Z -> objs !! b = Some v ->
  owned (<[b := (-1)%Z]> (<[a := v]> objs)) O.
Proof.
  intros [Hv Hu Hh] Hne Ha Hb. constructor.
  - intros c x [[_ <-]|[_ [[_ <-]|[_ Hc]]%lookup_insert_Some]]%lookup_insert_Some; [by left | by eapply Hv..].
  - intros c d fd [[_ ?]|[? [[<- ->]|[? Hc]]%lookup_insert_Some]]%lookup_insert_Some
      [[_ ?]|[? [[<- Hd]|[? Hd]]%lookup_insert_Some]]%lookup_insert_Some; try lia; try done.
    + by destruct (Hu b d fd).
    + subst v. by destruct (Hu b c fd).
    + by eapply Hu.
  - intros fd [c Hc]%Hh. destruct (decide (c = b)) as [->|].
    + exists a. rewrite Hb in Hc. injection Hc as ->. rewrite lookup_insert_ne by done. apply lookup_insert_eq.
    + exists c. rewrite !lookup_insert_ne; try done. intros E; subst. rewrite Ha in Hc. injection Hc. lia.
Qed.

(** *** Steps *)

Lemma open_fds_snoc t e : open_fds (t ++ [e]) = fd_book (open_fds t) e.
Proof. unfold open_fds. by rewrite fold_left_app. Qed.

(** What [reset] does to the object at [a]. *)
Lemma reset_owned objs O w a v :
  open_fds (w_trace w) = Some O -> owned objs O -> objs !! a = Some v ->
  exists w' O', UniqueFd_reset v w = (Ret (-1)%Z, w') /\ open_fds (w_trace w') = Some O' /\
    owned (<[a := (-1)%Z]> objs) O'.
Proof.
  intros Ht Ho Ha. unfold UniqueFd_reset. destruct (ow_value _ _ Ho a v Ha) as [->|(fd & -> & Hfd)].
  - exists w, O. cbn. rewrite insert_id by done. done.
  - rewrite (proj2 (Z.leb_le 0 (Z.of_nat fd))) by lia. rewrite Nat2Z.id.
    eexists _, _. split; [reflexivity|]. cbn [w_trace]. rewrite open_fds_snoc, Ht. cbn.
    rewrite decide_True by done. split; [done | by apply owned_release].
Qed.

Lemma assign_owned objs O w this other objs' w' :
  open_fds (w_trace w) = Some O -> owned objs O ->
  UniqueFd_assign objs this other w = (Ret objs', w') -> fd_inv (objs', w').
Proof.
  intros Ht Ho. unfold UniqueFd_assign. case_decide as Hne; [intros [= <- <-]; by exists O|].
  destruct (objs !! this) as [t|] eqn:Ethis; [|done]. destruct (objs !! other) as [o|] eqn:Eother; [|done].
  destruct (reset_owned objs O w this t Ht Ho Ethis) as (w1 & O1 & Hr & H1 & Ho1).
  unfold UniqueFd_move_assign, mbind, M_bind. rewrite Hr. cbn. intros [= <- <-]. exists O1. split; [done|].
  assert (<[this := o]> objs = <[this := o]> (<[this := (-1)%Z]> objs)) as -> by by rewrite insert_insert_eq.
  apply owned_transfer; [done | done | apply lookup_insert_eq | by rewrite lookup_insert_ne].
Qed.

Lemma acquire_owned objs O w a f fd errno w' :
  open_fds (w_trace w) = Some O -> owned objs O -> objs !! a = None -> kernel_fresh f w ->
  acquire f w = (Ret (fd, errno), w') -> fd_inv (<[a := fd]> objs, w').
Proof.
  intros Ht Ho Ha Hf. unfold kernel_fresh, acquire, call, emit, mbind, M_bind in *.
  destruct (f (w_host w)) as [[n|e] h]; cbn in *; intros [= <- <- <-].
  - exists ({[n]} ∪ O). cbn [fst snd w_trace]. rewrite open_fds_snoc, Ht. cbn.
    rewrite decide_False by auto. split; [done | by apply owned_new; auto].
  - exists O. split; [done | by apply owned_empty_object].
Qed.

Lemma move_owned objs O a other v :
  owned objs O -> objs !! a = None -> objs !! other = Some v ->
  owned (<[a := v]> (<[other := (-1)%Z]> objs)) O.
Proof.
  intros Ho Ha Hv. assert (a <> other) as Hne by (intros E; subst; congruence).
  apply (owned_empty_object _ _ a) in Ho; [|done].
  apply (owned_transfer _ _ a other v) in Ho; [|done | apply lookup_insert_eq | by rewrite lookup_insert_ne].
  rewrite insert_insert_eq in Ho. by rewrite insert_insert_ne.
Qed.

Lemma fd_step_inv s s' : fd_step s s' -> fd_inv s -> fd_inv s'.
Proof.
  intros Hs (O & Ht & Ho). destruct Hs as [| |objs w a other v Ha Hv| |objs w a v v' w' Ha Hr|objs w a v w' Ha Hd
    |objs w h e He]; cbn [fst snd] in Ht, Ho.
  - exists O. split; [done | by apply owned_empty_object].
  - by eapply acquire_owned.
  - exists O. split; [done | by apply move_owned].
  - by eapply assign_owned.
  - destruct (reset_owned objs O w a v Ht Ho Ha) as (w1 & O1 & Hr1 & H1 & Ho1).
    rewrite Hr in Hr1. injection Hr1 as -> ->. by exists O1.
  - destruct (reset_owned objs O w a v Ht Ho Ha) as (w1 & O1 & Hr1 & H1 & Ho1).
    unfold UniqueFd_destroy, mbind, M_bind in Hd. rewrite Hr1 in Hd. injection Hd as ->. exists O1.
    split; [done|]. apply (owned_delete_empty _ _ a) in Ho1; [|apply lookup_insert_eq].
    by rewrite delete_insert_eq in Ho1.
  - exists O. cbn [fst snd w_trace]. rewrite open_fds_snoc, Ht. split; [|done]. by destruct e.
Qed.

(** [C23] Descriptors have one owner.  In every history of constructing, moving,
    move-assigning (an object to itself included), resetting and destroying
    [UniqueFd] objects, interleaved with anything else, no descriptor is ever
    closed that is not open, so none is closed twice; a descriptor is open
    exactly when one object, and only one, holds it; and when no object is left
    none is open. *)
Theorem fd_ownership h objs w :
  rtc fd_step (∅, mkWorld h []) (objs, w) ->
  exists O, open_fds (w_trace w) = Some O /\
    (forall fd, fd ∈ O <-> exists a, objs !! a = Some (Z.of_nat fd) /\
                           forall b, objs !! b = Some (Z.of_nat fd) -> b = a) /\
    (objs = ∅ -> O = ∅).
Proof.
  intros Hr. assert (fd_inv (objs, w)) as (O & Ht & [Hv Hu Hh]).
  { eapply (rtc_ind_r fd_inv); [| |exact Hr].
    - exists ∅. split; [done|]. cbn [fst]. constructor; [by intros a v ?%lookup_empty_Some | by intros a b v ?%lookup_empty_Some | set_solver].
    - intros s s' _ Hs Hi. by eapply fd_step_inv. }
  exists O. cbn [fst snd] in *. split; [done|]. split.
  - intros fd. split.
    + intros [a Ha]%Hh. exists a. split; [done|]. intros b Hb. by eapply Hu.
    + intros (a & Ha & _). destruct (Hv a _ Ha) as [?|(n & Hn & ?)]; [lia|]. by apply Nat2Z.inj in Hn as ->.
  - intros ->. apply set_eq. intros fd. split; [|set_solver]. intros [a Ha]%Hh. by rewrite lookup_empty in Ha.
Qed.

End Descriptors.

(** ** Key storage ([src/secure_buf.h])

    Memory byte by byte.  A byte written through the span of a key object is
    marked, and stays marked until something else is written over it: a mark in
    memory is a piece of a key that can still be read there. *)

Record cell : Type := mkCell { c_byte : Z; c_key : bool }.
Abbreviation memory := (gmap nat cell).

(** Where an object keeps its bytes: a [SecureBuf<N>] in place, a [LockedKey]
    behind its pointer, which is null if nothing was allocated. *)
Inductive object : Type :=
| Buffer (N : nat) (data : nat)
| Locked (bytes : option nat).

Definition span_of (o : object) : nat * nat :=
  match o with
  | Buffer N data => (data, N)
  | Locked (Some bytes) => (bytes, LockedKey_size)
  | Locked None => (0, 0)
  end.
Definition within (a : nat) (o : object) : Prop := (span_of o).1 <= a < (span_of o).1 + (span_of o).2.

(** [bytes_{}] *)
Fixpoint zero_bytes (mem : memory) (data N : nat) : memory :=
  match N with
  | O => mem
  | S N => zero_bytes (<[data := mkCell 0 false]> mem) (S data) N
  end.

(** [mut()[i] = v]; a span has no element past its size. *)
Definition span_store (mem : memory) (o : object) (i : nat) (v : Z) : Res memory :=
  let '(data, size) := span_of o in
  if i <? size then Ok (<[data + i := mkCell v true]> mem) else Ub.

(** [get()[i]] *)
Definition span_load (mem : memory) (o : object) (i : nat) : Res Z :=
  let '(data, size) := span_of o in
  if i <? size then match mem !! (data + i) with Some c => Ok (c_byte c) | None => Ub end else Ub.

Section Storage.

(** libsodium's [sodium_memzero] and [sodium_free]: the first writes zeros, and
    nothing outside; the second may unmap the allocation, and nothing outside. *)
Variable sodium_memzero : memory -> nat -> nat -> memory.
Variable sodium_free : memory -> nat -> memory.
Hypothesis memzero_inside : forall mem p n a,
  p <= a < p + n -> sodium_memzero mem p n !! a = Some (mkCell 0 false).
Hypothesis memzero_outside : forall mem p n a,
  ~ p <= a < p + n -> sodium_memzero mem p n !! a = mem !! a.
Hypothesis free_inside : forall mem p a, sodium_free mem p !! a = mem !! a \/ sodium_free mem p !! a = None.
Hypothesis free_outside : forall mem p a,
  ~ p <= a < p + LockedKey_size -> sodium_free mem p !! a = mem !! a.

Definition SecureBuf_construct (mem : memory) (N data : nat) : memory * object :=
  (zero_bytes mem data N, Buffer N data).

(** The destructor, and [wipe()], of the buffer at [data]. *)
Definition SecureBuf_destruct (mem : memory) (N data : nat) : memory := sodium_memzero mem data N.
Definition SecureBuf_wipe_at (mem : memory) (N data : nat) : memory := sodium_memzero mem data N.

(** [allocated] is what [sodium_malloc] returned. *)
Definition LockedKey_construct (mem : memory) (allocated : option nat) : Res (memory * object) :=
  match allocated with
  | None => Throw bad_alloc
  | Some bytes => Ok (sodium_memzero mem bytes LockedKey_size, Locked allocated)
  end.

Definition LockedKey_destruct (mem : memory) (bytes : option nat) : memory :=
  match bytes with
  | Some bytes => sodium_free (sodium_memzero mem bytes LockedKey_size) bytes
  | None => mem
  end.

Definition destruct_object (mem : memory) (o : object) : memory :=
  match o with
  | Buffer N data => SecureBuf_destruct mem N data
  | Locked bytes => LockedKey_destruct mem bytes
  end.

Definition state : Type := memory * gmap nat object.

(** New storage overlaps no live object. *)
Definition unused (objs : gmap nat object) (o : object) : Prop :=
  forall k o' a, objs !! k = Some o' -> within a o' -> ~ within a o.

(** Objects come and go in any order and are written and wiped in between (a
    copy or a move of one does not compile); everything else writes or unmaps
    memory outside them.  A failed construction leaves no object. *)
Inductive storage_step : state -> state -> Prop :=
| st_buffer mem objs k N data mem' o :
    objs !! k = None -> SecureBuf_construct mem N data = (mem', o) -> unused objs o ->
    storage_step (mem, objs) (mem', <[k := o]> objs)
| st_locked mem objs k allocated mem' o :
    objs !! k = None -> LockedKey_construct mem allocated = Ok (mem', o) -> unused objs o ->
    storage_step (mem, objs) (mem', <[k := o]> objs)
| st_store mem objs k o i v mem' :
    objs !! k = Some o -> span_store mem o i v = Ok mem' -> storage_step (mem, objs) (mem', objs)
| st_wipe mem objs k N data :
    objs !! k = Some (Buffer N data) -> storage_step (mem, objs) (SecureBuf_wipe_at mem N data, objs)
| st_destruct mem objs k o :
    objs !! k = Some o -> storage_step (mem, objs) (destruct_object mem o, delete k objs)
| st_other mem objs a v :
    (forall k o, objs !! k = Some o -> ~ within a o) ->
    storage_step (mem, objs) (partial_alter (fun _ => (fun b => mkCell b false) <$> v) a mem, objs).

(** Marked bytes lie in live objects, which are mapped and do not overlap. *)
Record storage_ok (s : state) : Prop := {
  so_marked a c : s.1 !! a = Some c -> c_key c = true -> exists k o, s.2 !! k = Some o /\ within a o;
  so_mapped k o a : s.2 !! k = Some o -> within a o -> is_Some (s.1 !! a);
  so_apart k1 k2 o1 o2 a : s.2 !! k1 = Some o1 -> s.2 !! k2 = Some o2 -> within a o1 -> within a o2 -> k1 = k2
}.

Lemma zero_bytes_lookup mem data N a :
  zero_bytes mem data N !! a = if decide (data <= a < data + N) then Some (mkCell 0 false) else mem !! a.
Proof.
  revert mem data. induction N as [|N IH]; intros mem data; cbn [zero_bytes].
  - by rewrite decide_False by lia.
  - rewrite IH. destruct (decide (a = data)) as [->|Hne].
    + rewrite lookup_insert_eq. by repeat case_decide; try lia.
    + rewrite lookup_insert_ne by done. by repeat case_decide; try lia.
Qed.

(** Zeroing some bytes, of a new object or of one that is there. *)
Definition zeroed (mem mem' : memory) (o : object) : Prop :=
  (forall a, within a o -> mem' !! a = Some (mkCell 0 false)) /\ (forall a, ~ within a o -> mem' !! a = mem !! a).

Lemma memzero_zeroed mem o :
  zeroed mem (sodium_memzero mem (span_of o).1 (span_of o).2) o.
Proof. split; intros a Ha; [by apply memzero_inside | by apply memzero_outside]. Qed.

Lemma zero_bytes_zeroed mem N data : zeroed mem (zero_bytes mem data N) (Buffer N data).
Proof. split; intros a Ha; rewrite zero_bytes_lookup; unfold within in Ha; cbn in Ha; by case_decide. Qed.

Lemma zeroed_new mem mem' objs k o :
  storage_ok (mem, objs) -> objs !! k = None -> unused objs o -> zeroed mem mem' o ->
  storage_ok (mem', <[k := o]> objs).
Proof.
  intros [Hk Hm Ha] Hnew Hu [Hin Hout]. cbn [fst snd] in *.
  assert (forall k' o', objs !! k' = Some o' -> k <> k') as Hne by (intros k' o' Ho ->; congruence).
  assert (forall b, within b o \/ ~ within b o) as Hdec by (intros b; unfold within; lia).
  constructor; cbn [fst snd].
  - intros a c Hc Hkey. destruct (Hdec a) as [Hw|Hw].
    + rewrite (Hin a Hw) in Hc. by injection Hc as <-.
    + rewrite Hout in Hc by done. destruct (Hk a c Hc Hkey) as (k' & o' & Ho & Hw').
      exists k', o'. by rewrite lookup_insert_ne by eauto.
  - intros k' o' a [[<- <-]|[Hn Ho]]%lookup_insert_Some Hw; [by rewrite Hin|].
    rewrite Hout; [by eapply Hm | by eapply Hu].
  - intros k1 k2 o1 o2 a [[<- <-]|[Hn1 Ho1]]%lookup_insert_Some [[<- <-]|[Hn2 Ho2]]%lookup_insert_Some Hw1 Hw2; try done.
    + by destruct (Hu _ _ a Ho2 Hw2).
    + by destruct (Hu _ _ a Ho1 Hw1).
    + by eapply Ha.
Qed.

(** The memory of an object that is gone holds no marked byte. *)
Lemma destruct_storage mem objs k o :
  storage_ok (mem, objs) -> objs !! k = Some o -> storage_ok (destruct_object mem o, delete k objs).
Proof.
  intros [Hk Hm Ha] Ho. cbn [fst snd] in *.
  assert ((forall a c, destruct_object mem o !! a = Some c -> within a o -> c_key c = false) /\
          (forall a, ~ within a o -> destruct_object mem o !! a = mem !! a)) as [Hin Hout].
  { destruct o as [N data|[bytes|]]; cbn [destruct_object LockedKey_destruct SecureBuf_destruct].
    - destruct (memzero_zeroed mem (Buffer N data)) as [Hi Hou]. cbn [span_of fst snd] in *. split; [|done].
      intros a c Hc Hw. rewrite Hi in Hc by done. by injection Hc as <-.
    - destruct (memzero_zeroed mem (Locked (Some bytes))) as [Hi Hou]. cbn [span_of fst snd] in *. split.
      + intros a c Hc Hw. destruct (free_inside (sodium_memzero mem bytes LockedKey_size) bytes a) as [E|E];
          rewrite E in Hc; [|done]. rewrite Hi in Hc by done. by injection Hc as <-.
      + intros a Hw. rewrite free_outside by exact Hw. by apply Hou.
    - split; [|done]. intros a c _ Hw. unfold within in Hw. cbn in Hw. lia. }
  assert (forall b, within b o \/ ~ within b o) as Hdec by (intros b; unfold within; lia).
  constructor; cbn [fst snd].
  - intros a c Hc Hkey. destruct (Hdec a) as [Hw|Hw]; [by rewrite (Hin a c) in Hkey|]. rewrite Hout in Hc by done.
    destruct (Hk a c Hc Hkey) as (k' & o' & Ho' & Hw'). exists k', o'. split; [|done]. apply lookup_delete_Some.
    split; [|done]. intros <-. rewrite Ho in Ho'. by injection Ho' as ->.
  - intros k' o' a [Hne Ho']%lookup_delete_Some Hw. rewrite Hout; [by eapply Hm|]. intros Hw'. apply Hne. by eapply Ha.
  - intros k1 k2 o1 o2 a [_ H1]%lookup_delete_Some [_ H2]%lookup_delete_Some. by apply Ha.
Qed.

Lemma storage_step_ok s s' : storage_step s s' -> storage_ok s -> storage_ok s'.
Proof.
  intros Hs. destruct Hs as [mem objs k N data mem' o Hn E Hu|mem objs k allocated mem' o Hn E Hu|mem objs k o i v mem' Ho E
    |mem objs k N data Ho|mem objs k o Ho|mem objs a v Hout]; intros Hok.
  - injection E as <- <-. eapply zeroed_new; [exact Hok | done | done | apply zero_bytes_zeroed].
  - destruct allocated as [bytes|]; [|done]. injection E as <- <-.
    eapply zeroed_new; [exact Hok | done | done | apply (memzero_zeroed mem (Locked (Some bytes)))].
  - unfold span_store in E. destruct (span_of o) as [data size] eqn:Es. destruct (Nat.ltb_spec i size); [|done].
    injection E as <-. destruct Hok as [Hk Hm Ha]. cbn [fst snd] in *. constructor; cbn [fst snd]; [| |done].
    + intros a c [[<- <-]|[_ Hc]]%lookup_insert_Some Hkey; [|by eapply Hk]. exists k, o. split; [done|].
      unfold within. rewrite Es. cbn. lia.
    + intros k' o' a Ho' Hw. destruct (decide (a = data + i)) as [->|]; [by rewrite lookup_insert_eq|].
      rewrite lookup_insert_ne by done. by eapply Hm.
  - destruct (memzero_zeroed mem (Buffer N data)) as [Hi Hou]. destruct Hok as [Hk Hm Ha]. cbn [fst snd span_of] in *.
    assert (forall b, within b (Buffer N data) \/ ~ within b (Buffer N data)) as Hdec by (intros b; unfold within; lia).
    constructor; cbn [fst snd]; [| |done].
    + intros a c Hc Hkey. destruct (Hdec a) as [Hw|Hw].
      * unfold SecureBuf_wipe_at in Hc. rewrite Hi in Hc by done. by injection Hc as <-.
      * unfold SecureBuf_wipe_at in Hc. rewrite Hou in Hc by done. by eapply Hk.
    + intros k' o' a Ho' Hw. unfold SecureBuf_wipe_at. destruct (Hdec a) as [Hw'|Hw']; [by rewrite Hi|].
      rewrite Hou by done. by eapply Hm.
  - by apply destruct_storage.
  - destruct Hok as [Hk Hm Ha]. cbn [fst snd] in *. constructor; cbn [fst snd]; [| |done].
    + intros b c Hc Hkey. destruct (decide (b = a)) as [->|].
      * rewrite lookup_partial_alter_eq in Hc. destruct v; [|done]. by injection Hc as <-.
      * rewrite lookup_partial_alter_ne in Hc by done. by eapply Hk.
    + intros k o b Ho Hw. rewrite lookup_partial_alter_ne; [by eapply Hm|]. intros ->. by eapply Hout.
Qed.

(** [C40] Keys do not outlive their objects.  Take any history in which
    [SecureBuf] and [LockedKey] objects are constructed on unused memory, of
    any size and also where earlier objects were, written byte by byte through
    their spans, wiped and destroyed in any order, while everything else uses
    the memory around them.  A byte of memory that was written through a key
    object and not overwritten since lies inside an object that is still alive
    (so when none is left, none is), live objects do not overlap, and reading
    one through its span, within its size, is always defined. *)
Theorem storage_keys_contained mem0 mem objs :
  (forall a c, mem0 !! a = Some c -> c_key c = false) ->
  rtc storage_step (mem0, ∅) (mem, objs) ->
  (forall a c, mem !! a = Some c -> c_key c = true -> exists k o, objs !! k = Some o /\ within a o) /\
  (forall k1 k2 o1 o2 a, objs !! k1 = Some o1 -> objs !! k2 = Some o2 -> within a o1 -> within a o2 -> k1 = k2) /\
  (forall k o i, objs !! k = Some o -> i < (span_of o).2 -> exists v, span_load mem o i = Ok v).
Proof.
  intros H0 Hr. assert (storage_ok (mem, objs)) as [Hk Hm Ha].
  { eapply (rtc_ind_r storage_ok); [| |exact Hr].
    - constructor; cbn [fst snd]; [|by intros k o a ?%lookup_empty_Some | by intros k1 k2 o1 o2 a ?%lookup_empty_Some].
      intros a c Hc. by rewrite (H0 a c Hc).
    - intros s s' _ Hs. by apply storage_step_ok. }
  split; [exact Hk|]. split; [exact Ha|]. intros k o i Ho Hi. unfold span_load.
  destruct (Hm k o ((span_of o).1 + i) Ho) as [c Hc]; [unfold within; cbn; lia|]. cbn [fst] in Hc.
  destruct (span_of o) as [data size]. cbn [fst snd] in *. rewrite (proj2 (Nat.ltb_lt _ _)), Hc by done. by eexists.
Qed.

End Storage.
