(* ===== verification/Netcfg.v ===== *)
(** * Netcfg: routes, NAT and sysctls, and their undoing ([src/netcfg.h]/[.cpp])

    The tools are run as children of the process; what they do to the machine
    is the [Host]'s.  The guards [ScopedCommand], [ChangeSet] and
    [ScopedSysctl] are values; their destructors are the functions the scopes
    of [Host.v] call. *)

From Stdlib Require Import ZArith Lia Ascii String.
From stdpp Require Import base tactics numbers list option strings.
From S2P Require Import Prelude Net Host.

(** ** Text *)

Definition newline : string := String "010" "".

(** [std::getline]: the text before the first newline. *)
Fixpoint line_of (s : string) : string :=
  match s with
  | EmptyString => EmptyString
  | String c s => if Ascii.eqb c "010" then EmptyString else String c (line_of s)
  end.

(** The characters of " \t\r\n". *)
Definition is_blank (c : ascii) : bool := existsb (Ascii.eqb c) [" "; "009"; "013"; "010"]%char.

Fixpoint trim_left (s : string) : string :=
  match s with
  | EmptyString => EmptyString
  | String c s' => if is_blank c then trim_left s' else s
  end.

Fixpoint trim_right (s : string) : string :=
  match s with
  | EmptyString => EmptyString
  | String c s =>
      match trim_right s with
      | EmptyString => if is_blank c then EmptyString else String c EmptyString
      | r => String c r
      end
  end.

Definition trim (text : string) : string := trim_right (trim_left text).

(** [isspace] in the C locale. *)
Definition is_space (c : ascii) : bool :=
  let n := nat_of_ascii c in (n =? 32) || ((9 <=? n) && (n <=? 13)).

(** The successive results of [stream >> token]; [word] is the token being read. *)
Fixpoint tokens_from (word : string) (s : string) : list string :=
  let flush := if String.eqb word "" then [] else [word] in
  match s with
  | EmptyString => flush
  | String c s =>
      if is_space c then flush ++ tokens_from "" s
      else tokens_from (word +:+ String c "") s
  end.
Definition tokens (line : string) : list string := tokens_from "" line.

Definition describe (prog : string) (args : list string) : string :=
  fold_left (fun text arg => text +:+ " " +:+ arg) args prog.

(** ** Addresses *)

Definition htonl (x : Z) : Z :=
  u32 (Z.lor (Z.lor (Z.shiftl (Z.land x 255) 24) (Z.shiftl (Z.land (Z.shiftr x 8) 255) 16))
             (Z.lor (Z.shiftl (Z.land (Z.shiftr x 16) 255) 8) (Z.land (Z.shiftr x 24) 255))).
Definition ntohl (x : Z) : Z := htonl x.

Definition prefix_mask (prefix : Z) : Z :=
  if (prefix =? 0)%Z then 0%Z else u32 (Z.shiftl 4294967295 (32 - prefix)).

Definition subnet_of `{I : Inet} (cidr : string) : option string :=
  match find_char "/" cidr with
  | None => None
  | Some slash =>
      match inet_pton (str_take slash cidr) with
      | None => None
      | Some parsed =>
          match from_chars false 0 (2 ^ 32 - 1) (str_drop (slash + 1) cidr) with
          | None => None
          | Some (prefix, rest) =>
              if negb (String.eqb rest "") || (32 <? prefix)%Z then None else
              match inet_ntop (htonl (Z.land (ntohl parsed) (prefix_mask prefix))) with
              | None => None
              | Some text => Some (text +:+ "/" +:+ to_string prefix)
              end
          end
      end
  end.

(** ** Policies *)

Inductive Ipv6Policy : Set := refuse | block | ignore.

Definition parse_ipv6_policy (text : string) : option Ipv6Policy :=
  if String.eqb text "refuse" then Some refuse
  else if String.eqb text "block" then Some block
  else if String.eqb text "ignore" then Some ignore
  else None.

(** ** Child processes *)

Definition kIp : list string := ["/usr/sbin/ip"; "/sbin/ip"; "/usr/bin/ip"; "/bin/ip"].
Definition kIptables : list string :=
  ["/usr/sbin/iptables"; "/sbin/iptables"; "/usr/bin/iptables"; "/bin/iptables"].
Definition kIp6tables : list string :=
  ["/usr/sbin/ip6tables"; "/sbin/ip6tables"; "/usr/bin/ip6tables"; "/bin/ip6tables"].

(** [<sys/wait.h>] on Linux. *)
Definition WTERMSIG (status : Z) : Z := Z.land status 127.
Definition WIFEXITED (status : Z) : bool := (WTERMSIG status =? 0)%Z.
Definition WEXITSTATUS (status : Z) : Z := Z.shiftr (Z.land status 65280) 8.
Definition WIFSIGNALED (status : Z) : bool :=
  negb (WTERMSIG status =? 0)%Z && negb (WTERMSIG status =? 127)%Z.

Section Netcfg.
Context `{H : Host}.

Fixpoint find_binary (candidates : list string) (what : string) : M string :=
  match candidates with
  | [] => raise (runtime_error ("could not find an executable " +:+ what +:+
                                " in /usr/sbin, /sbin, /usr/bin or /bin"))
  | c :: candidates =>
      found ← ask (fun h => h_access h c true);
      if (found : bool) then mret c else find_binary candidates what
  end.

Definition binary_for (tool : Tool) : M string :=
  match tool with
  | ip => find_binary kIp "ip(8)"
  | iptables => find_binary kIptables "iptables(8)"
  | ip6tables => find_binary kIp6tables "ip6tables(8)"
  end.

(** [posix_spawn], with no environment. *)
Definition posix_spawn (prog : string) (args : list string) (piped : bool) : M child :=
  r ← call (fun h => h_spawn h prog (prog :: args) [] piped);
  match r with
  | inl rc => raise (system_error rc ("posix_spawn " +:+ describe prog args))
  | inr c => _ ← emit (Spawned prog (prog :: args)); mret c
  end.

(** Up to end of file. *)
Fixpoint read_output (prog : string) (args : list string) (reads : list (sysres string))
    (output : string) : M string :=
  match reads with
  | [] => mret output
  | SysOk chunk :: reads =>
      if String.eqb chunk "" then mret output
      else read_output prog args reads (output +:+ chunk)
  | SysErr e :: reads =>
      if (e =? EINTR)%Z then read_output prog args reads output
      else raise (system_error e ("reading output of " +:+ describe prog args))
  end.

Fixpoint wait_child (prog : string) (waits : list Z) (status : Z) : M Z :=
  match waits with
  | [] => _ ← emit (Reaped prog (SysOk status)); mret status
  | e :: waits =>
      if negb (e =? EINTR)%Z then
        _ ← emit (Reaped prog (SysErr e));
        raise (system_error e ("waitpid for " +:+ prog))
      else wait_child prog waits status
  end.

Definition check_status (prog : string) (args : list string) (status : Z) : M unit :=
  if WIFSIGNALED status then
    raise (runtime_error (describe prog args +:+ ": killed by signal " +:+
                          to_string (WTERMSIG status)))
  else if negb (WIFEXITED status) || negb (WEXITSTATUS status =? 0)%Z then
    raise (runtime_error (describe prog args +:+ ": exited " +:+ to_string (WEXITSTATUS status)))
  else mret tt.

(** [read_end] is declared before [write_end], which [reset] closes as soon as
    the child has its copy. *)
Definition spawn_and_wait (prog : string) (args : list string) (output : bool) : M string :=
  setup ← ask h_spawn_setup;
  if negb (sp_init setup =? 0)%Z
  then raise (system_error (sp_init setup) "posix_spawn_file_actions_init") else
  if output then
    match sp_pipe setup with
    | SysErr e => raise (system_error e "pipe2")
    | SysOk (read_end, write_end) =>
        _ ← emit (Opened read_end);
        _ ← emit (Opened write_end);
        scoped (sys_close read_end)
          (c ← scoped (sys_close write_end)
                 (if negb (sp_dup2 setup =? 0)%Z
                  then raise (system_error (sp_dup2 setup) "posix_spawn_file_actions_adddup2")
                  else posix_spawn prog args true);
           text ← read_output prog args (ch_reads c) "";
           status ← wait_child prog (ch_waits c) (ch_status c);
           _ ← check_status prog args status;
           mret text)
    end
  else
    c ← posix_spawn prog args false;
    status ← wait_child prog (ch_waits c) (ch_status c);
    _ ← check_status prog args status;
    mret "".

Definition run (tool : Tool) (args : list string) : M unit :=
  recorded (fun r => Ran tool args (returned r))
    (prog ← binary_for tool;
     _ ← spawn_and_wait prog args false;
     mret tt).

Definition run_capture (tool : Tool) (args : list string) : M string :=
  recorded (Asked tool args)
    (prog ← binary_for tool;
     spawn_and_wait prog args true).

(** ** Files *)

Definition write_line (path line : string) : M bool :=
  ok ← call (fun h => h_write h path (line +:+ newline));
  _ ← emit (Wrote path line ok);
  mret ok.

Definition write_sysctl (path value : string) : M unit :=
  ok ← write_line path value;
  if negb (ok : bool) then raise (runtime_error ("cannot write " +:+ value +:+ " to " +:+ path))
  else mret tt.

(** ** Interfaces and routes *)

Definition disable_ipv6_path (dev : string) : string :=
  "/proc/sys/net/ipv6/conf/" +:+ dev +:+ "/disable_ipv6".

Definition configure_interface (dev cidr : string) (mtu : Z) : M unit :=
  _ ← run ip ["link"; "set"; "dev"; dev; "mtu"; to_string mtu];
  let disable := disable_ipv6_path dev in
  there ← ask (fun h => h_access h disable false);
  _ ← (if (there : bool) then write_sysctl disable "1"
       else emit (Stderr ("note: " +:+ disable +:+ " does not exist; this kernel has no IPv6" +:+
                          newline)));
  _ ← run ip ["addr"; "add"; cidr; "dev"; dev];
  run ip ["link"; "set"; "dev"; dev; "up"].

Definition host_has_ipv6 : M bool :=
  text ← run_capture ip ["-6"; "route"; "show"; "default"];
  mret (negb (String.eqb (trim text) "")).

Record RouteInfo : Type := mkRoute { ri_dev : string; ri_gateway : string }.

(** A keyword with nothing after it is skipped. *)
Fixpoint route_tokens (info : RouteInfo) (ts : list string) : RouteInfo :=
  match ts with
  | [] => info
  | t :: ts =>
      match ts with
      | [] => info
      | v :: ts' =>
          if String.eqb t "via" then route_tokens (mkRoute (ri_dev info) v) ts'
          else if String.eqb t "dev" then route_tokens (mkRoute v (ri_gateway info)) ts'
          else route_tokens info ts
      end
  end.

Definition route_to (address : string) : M RouteInfo :=
  output ← run_capture ip ["route"; "get"; address];
  if String.eqb output "" then
    raise (runtime_error ("ip route get " +:+ address +:+ ": no output")) else
  let line := line_of output in
  let info := route_tokens (mkRoute "" "") (tokens line) in
  if String.eqb (ri_dev info) "" then
    raise (runtime_error ("could not work out which interface reaches " +:+ address +:+
                          " (ip route get said: " +:+ line +:+ ")"))
  else mret info.

(** ** ScopedCommand *)

Record ScopedCommand : Type := mkCommand { sc_tool : Tool; sc_undo : list string }.

(** When [run] throws, the object does not come to be. *)
Definition ScopedCommand_new (tool : Tool) (apply undo : list string) : M ScopedCommand :=
  _ ← run tool apply;
  mret (mkCommand tool undo).

Definition ScopedCommand_destroy (c : ScopedCommand) : M unit :=
  if decide (sc_undo c = []) then mret tt else
  try_catch (run (sc_tool c) (sc_undo c))
    (fun e => emit (Stderr ("warning: could not undo a network change: " +:+ what e +:+ newline))).

(** The new object, and [other] afterwards. *)
Definition ScopedCommand_move (other : ScopedCommand) : ScopedCommand * ScopedCommand :=
  (mkCommand (sc_tool other) (sc_undo other), mkCommand (sc_tool other) []).

(** [release()] *)
Definition ScopedCommand_release (c : ScopedCommand) : ScopedCommand := mkCommand (sc_tool c) [].

(** ** ChangeSet *)

Definition ChangeSet : Type := list ScopedCommand.

Definition ChangeSet_add (changes : ChangeSet) (tool : Tool) (apply undo : list string)
    : M ChangeSet :=
  c ← ScopedCommand_new tool apply undo;
  mret (changes ++ [c]).

(** [pop_back] until empty; the argument is the vector from its back. *)
Fixpoint pop_all (back : list ScopedCommand) : M unit :=
  match back with
  | [] => mret tt
  | c :: back => _ ← ScopedCommand_destroy c; pop_all back
  end.

Definition ChangeSet_undo_all (changes : ChangeSet) : M unit := pop_all (rev changes).

(** The new set, and [other] afterwards: its vector has been emptied. *)
Definition ChangeSet_move (other : ChangeSet) : ChangeSet * ChangeSet := (other, []).

(** [*this = std::move(other)]. *)
Definition ChangeSet_assign (this other : ChangeSet) : M ChangeSet :=
  _ ← ChangeSet_undo_all this;
  mret other.

(** Successive [add]s to a local set, destroyed when one of them throws. *)
Fixpoint add_all (changes : ChangeSet) (l : list (Tool * list string * list string))
    : M ChangeSet :=
  match l with
  | [] => mret changes
  | (tool, apply, undo) :: l =>
      changes ← unless_returned (ChangeSet_undo_all changes)
                  (ChangeSet_add changes tool apply undo);
      add_all changes l
  end.

(** ** ScopedSysctl *)

Record ScopedSysctl : Type := mkSysctl { sy_path : string; sy_previous : string; sy_active : bool }.
Definition ScopedSysctl_inert : ScopedSysctl := mkSysctl "" "" false.

Definition ScopedSysctl_new (path value : string) : M ScopedSysctl :=
  text ← ask (fun h => h_read h path);
  match text with
  | None => raise (runtime_error ("cannot read " +:+ path))
  | Some text =>
      let previous := line_of text in
      _ ← emit (ReadLine path previous);
      if String.eqb previous value then mret (mkSysctl path previous false) else
      ok ← write_line path value;
      if negb (ok : bool)
      then raise (runtime_error ("cannot write " +:+ value +:+ " to " +:+ path))
      else mret (mkSysctl path previous true)
  end.

(** The object afterwards; the destructor calls this. *)
Definition ScopedSysctl_restore (s : ScopedSysctl) : M ScopedSysctl :=
  if negb (sy_active s) then mret s else
  ok ← write_line (sy_path s) (sy_previous s);
  _ ← (if negb (ok : bool)
       then emit (Stderr ("warning: could not restore " +:+ sy_path s +:+ " to " +:+
                          sy_previous s +:+ newline))
       else mret tt);
  mret (mkSysctl (sy_path s) (sy_previous s) false).

Definition ScopedSysctl_destroy (s : ScopedSysctl) : M unit :=
  _ ← ScopedSysctl_restore s; mret tt.

Definition ScopedSysctl_move (other : ScopedSysctl) : ScopedSysctl * ScopedSysctl :=
  (other, mkSysctl "" "" false).

(** [*this = std::move(other)]. *)
Definition ScopedSysctl_assign (this other : ScopedSysctl) : M ScopedSysctl :=
  _ ← ScopedSysctl_restore this;
  mret other.

(** ** The three configurations *)

Definition concat (a b : list string) : list string := a ++ b.

Definition ipv6_rules : list (list string) :=
  flat_map (fun prefix =>
    [["OUTPUT"; "!"; "-o"; "lo"; "-d"; prefix; "-j"; "REJECT"; "--reject-with"; "adm-prohibited"];
     ["INPUT"; "!"; "-i"; "lo"; "-s"; prefix; "-j"; "DROP"]]) ["2000::/3"; "fc00::/7"]
  ++ [["FORWARD"; "-j"; "DROP"]].

Definition block_host_ipv6 : M ChangeSet :=
  blocked ← add_all [] (map (fun spec => (ip6tables, concat ["-A"] spec, concat ["-D"] spec)) ipv6_rules);
  _ ← emit (Stderr ("ipv6: global and unique-local traffic blocked for the life of the tunnel" +:+
                    newline));
  mret blocked.

Definition host_route (server_address : string) (underlay : RouteInfo) : list string :=
  [server_address +:+ "/32"] ++
  (if String.eqb (ri_gateway underlay) "" then [] else ["via"; ri_gateway underlay]) ++
  ["dev"; ri_dev underlay].

Definition client_routes (tun_dev server_address : string) (underlay : RouteInfo)
    : list (list string) :=
  host_route server_address underlay ::
  map (fun half => [half; "dev"; tun_dev]) ["0.0.0.0/1"; "128.0.0.0/1"].

Definition install_client_routes (tun_dev server_address : string) : M ChangeSet :=
  underlay ← route_to server_address;
  changes ← add_all [] (map (fun spec => (ip, concat ["route"; "add"] spec, concat ["route"; "del"] spec))
                            (client_routes tun_dev server_address underlay));
  _ ← emit (Stderr ("routes: " +:+ server_address +:+ "/32 via " +:+
              (if String.eqb (ri_gateway underlay) "" then "(on-link)" else ri_gateway underlay) +:+
              " dev " +:+ ri_dev underlay +:+ ", then 0.0.0.0/1 and 128.0.0.0/1 dev " +:+
              tun_dev +:+ newline));
  mret changes.

Record ServerNat : Type := mkNat { sn_ip_forward : ScopedSysctl; sn_rules : ChangeSet }.
Definition ServerNat_new : ServerNat := mkNat ScopedSysctl_inert [].

Definition ip_forward_path : string := "/proc/sys/net/ipv4/ip_forward".

Definition nat_rules (tun_dev tun_subnet wan_dev : string) : list (string * list string) :=
  [("nat", ["POSTROUTING"; "-s"; tun_subnet; "-o"; wan_dev; "-j"; "MASQUERADE"]);
   ("filter", ["FORWARD"; "-i"; tun_dev; "-o"; wan_dev; "-s"; tun_subnet; "-j"; "ACCEPT"]);
   ("filter", ["FORWARD"; "-i"; wan_dev; "-o"; tun_dev; "-d"; tun_subnet; "-m"; "conntrack";
               "--ctstate"; "RELATED,ESTABLISHED"; "-j"; "ACCEPT"])].

Definition install_server_nat (tun_dev tun_subnet wan_dev : string) : M ServerNat :=
  forwarding ← ScopedSysctl_new ip_forward_path "1";
  unless_returned (ScopedSysctl_destroy forwarding)
    (installed ← add_all [] (map (fun '(table, spec) =>
                    (iptables, concat (concat ["-t"; table] ["-A"]) spec, concat (concat ["-t"; table] ["-D"]) spec))
                    (nat_rules tun_dev tun_subnet wan_dev));
     _ ← emit (Stderr ("nat: forwarding " +:+ tun_subnet +:+ " between " +:+ tun_dev +:+ " and " +:+
                       wan_dev +:+ ", masqueraded" +:+ newline));
     mret (mkNat forwarding installed)).

(** Members are assigned in order and destroyed in reverse. *)
Definition ServerNat_assign (this other : ServerNat) : M ServerNat :=
  ip_forward ← ScopedSysctl_assign (sn_ip_forward this) (sn_ip_forward other);
  rules ← ChangeSet_assign (sn_rules this) (sn_rules other);
  mret (mkNat ip_forward rules).

Definition ServerNat_destroy (nat : ServerNat) : M unit :=
  _ ← ChangeSet_undo_all (sn_rules nat);
  ScopedSysctl_destroy (sn_ip_forward nat).

End Netcfg.
