(* ===== verification/NetcfgProofs.v ===== *)
(** * NetcfgProofs: every change is undone, and subnets are what they should be

    Each function of [Netcfg.v] is followed through the ledger of [Host.v]:
    what it owes when it returns, that it owes nothing new when it throws, and
    that a reversal that failed is reported. *)

From Stdlib Require Import ZArith Lia Ascii String.
From stdpp Require Import base tactics numbers list option strings.
From S2P Require Import Prelude Net Host Netcfg.

(** Effects the ledger ignores. *)
Ltac idle := apply leaves_emit; intros n; by exists n.
Ltac seq := eapply leaves_bind.

Section Commands.
Context `{H : Host}.
Implicit Types (s : list debt) (args : list string).

Lemma find_binary_leaves s l what : leaves s (find_binary l what) (fun _ => s) s.
Proof.
  induction l as [|c l IH]; [apply leaves_raise|]. cbn [find_binary].
  seq; [apply leaves_ask|]. intros []; [by apply leaves_ret | exact IH].
Qed.

Lemma binary_for_leaves s tool : leaves s (binary_for tool) (fun _ => s) s.
Proof. destruct tool; apply find_binary_leaves. Qed.

Lemma posix_spawn_leaves s prog args piped :
  leaves s (posix_spawn prog args piped) (fun _ => s) s.
Proof.
  seq; [apply leaves_call|]. intros [rc|c]; [apply leaves_raise|].
  seq; [idle|]. intros []. by apply leaves_ret.
Qed.

Lemma read_output_leaves s prog args reads out :
  leaves s (read_output prog args reads out) (fun _ => s) s.
Proof.
  revert out. induction reads as [|[chunk|e] reads IH]; intros out; cbn [read_output].
  - by apply leaves_ret.
  - destruct (String.eqb chunk ""); [by apply leaves_ret | apply IH].
  - destruct (e =? EINTR)%Z; [apply IH | apply leaves_raise].
Qed.

Lemma wait_child_leaves s prog waits status :
  leaves s (wait_child prog waits status) (fun _ => s) s.
Proof.
  induction waits as [|e waits IH]; cbn [wait_child].
  - seq; [idle|]. intros []. by apply leaves_ret.
  - destruct (negb (e =? EINTR)%Z); [|exact IH]. seq; [idle|]. intros []. apply leaves_raise.
Qed.

Lemma check_status_leaves s prog args status :
  leaves s (check_status prog args status) (fun _ => s) s.
Proof.
  unfold check_status. destruct (WIFSIGNALED status); [apply leaves_raise|].
  destruct (_ || _); [apply leaves_raise | by apply leaves_ret].
Qed.

(** Waiting for the child and judging its status. *)
Lemma reap_leaves {A} s prog args c (a : A) :
  leaves s (status ← wait_child prog (ch_waits c) (ch_status c);
            _ ← check_status prog args status; mret a) (fun _ => s) s.
Proof.
  seq; [apply wait_child_leaves|]. intros status.
  seq; [apply check_status_leaves|]. intros []. by apply leaves_ret.
Qed.

Lemma spawn_and_wait_leaves s prog args output :
  leaves s (spawn_and_wait prog args output) (fun _ => s) s.
Proof.
  seq; [apply leaves_ask|]. intros setup. destruct (negb (sp_init setup =? 0)%Z); [apply leaves_raise|].
  destruct output.
  - destruct (sp_pipe setup) as [[r w]|e]; [|apply leaves_raise].
    seq; [apply leaves_emit, books_open|]. intros [].
    seq; [apply leaves_emit, books_open|]. intros [].
    eapply leaves_scoped; [|apply sys_close_settles]. seq.
    { eapply leaves_scoped; [|apply sys_close_settles].
      destruct (negb (sp_dup2 setup =? 0)%Z); [apply leaves_raise | apply posix_spawn_leaves]. }
    intros c. seq; [apply read_output_leaves|]. intros text. apply reap_leaves.
  - seq; [apply posix_spawn_leaves|]. intros c. apply reap_leaves.
Qed.

(** [recorded]: the outcome is booked after the fact. *)
Lemma leaves_recorded {A} s (m : M A) e st sf :
  leaves s m (fun _ => s) s ->
  (forall a, books s (e (Some a)) st) -> books s (e None) sf ->
  leaves s (recorded e m) (fun _ => st) sf.
Proof.
  intros Hm Ht Hf w Hw. specialize (Hm w Hw). unfold recorded.
  destruct (m w) as [[a|x| |] w']; try done; by eapply owes_books.
Qed.

Lemma run_body_leaves s tool args :
  leaves s (prog ← binary_for tool; _ ← spawn_and_wait prog args false; mret tt) (fun _ => s) s.
Proof.
  seq; [apply binary_for_leaves|]. intros prog.
  seq; [apply spawn_and_wait_leaves|]. intros ?. by apply leaves_ret.
Qed.

(** A command that adds something is owed its reverse. *)
Lemma run_add_leaves s tool args undo :
  change tool args = Some (true, undo) -> covered (Command tool undo) s = true ->
  leaves s (run tool args) (fun _ => Command tool undo :: s) s.
Proof.
  intros Hc Hv. apply leaves_recorded; [apply run_body_leaves|..]; intros; intros n; exists n;
    cbn [book returned]; rewrite Hc; cbn [negb]; by rewrite ?Hv.
Qed.

Lemma run_other_leaves s tool args :
  change tool args = None -> leaves s (run tool args) (fun _ => s) s.
Proof.
  intros Hc. apply leaves_recorded; [apply run_body_leaves|..]; intros; intros n; exists n;
    cbn [book returned]; by rewrite Hc.
Qed.

Lemma run_capture_leaves s tool args : leaves s (run_capture tool args) (fun _ => s) s.
Proof.
  apply leaves_recorded; [|intros; intros n; by exists n..].
  seq; [apply binary_for_leaves|]. intros prog. apply spawn_and_wait_leaves.
Qed.

(** A removal is booked as done, or the change stays and the exception is
    still to be reported. *)
Lemma run_del_cases s tool args w :
  change tool args = Some (false, args) -> owes (Command tool args :: s) w ->
  (exists w', run tool args w = (Ret tt, w') /\ owes s w') \/
  (exists x w1, owes (Command tool args :: s) w1 /\
     run tool args w = (Raise x, mkWorld (w_host w1) (w_trace w1 ++ [Ran tool args false]))).
Proof.
  intros Hc Hw. pose proof (run_body_leaves _ tool args w Hw) as Hb. unfold run, recorded.
  match type of Hb with match ?m with _ => _ end => destruct m as [[[]|x| |] w1] end;
    try done; [left | right; by exists x, w1].
  eexists. split; [reflexivity|]. eapply owes_books; [|exact Hb]. intros n. exists n. cbn [book returned].
  rewrite Hc. cbn [pay]. by rewrite decide_True.
Qed.

Lemma book_undo_failed s tool args n :
  change tool args = Some (false, args) ->
  book (Command tool args :: s, n) (Ran tool args false) = Some (s, settled (Command tool args) false n).
Proof. intros Hc. cbn [book]. rewrite Hc. cbn [pay]. by rewrite decide_True. Qed.

End Commands.

(** ** Guards *)

Lemma str_app_assoc (a b c : string) : a +:+ (b +:+ c) = (a +:+ b) +:+ c.
Proof. induction a as [|x a IH]; [done|]. rewrite !str_app_cons. by f_equal. Qed.

Lemma prefix_app_str (s t : string) : String.prefix s (s +:+ t) = true.
Proof.
  induction s as [|x s IH]; [by destruct t|]. rewrite str_app_cons. cbn.
  by destruct (ascii_dec x x).
Qed.

Section Guards.
Context `{H : Host}.
Implicit Types (s : list debt).

(** What a guard owes; its undo must be a removal. *)
Definition command_debt (c : ScopedCommand) : debt := Command (sc_tool c) (sc_undo c).
Definition removes (c : ScopedCommand) : Prop :=
  change (sc_tool c) (sc_undo c) = Some (false, sc_undo c).
Definition owed (cs : ChangeSet) : list debt := command_debt <$> rev cs.

Lemma ScopedCommand_destroy_settles c s :
  removes c -> settles (ScopedCommand_destroy c) (command_debt c :: s) s.
Proof.
  intros Hr w Hw. unfold ScopedCommand_destroy.
  destruct (decide (sc_undo c = [])) as [Hn|_].
  { unfold removes in Hr. rewrite Hn in Hr. by destruct (sc_tool c). }
  unfold try_catch. destruct (run_del_cases s _ _ w Hr Hw) as [(w' & -> & Hd)|(x & w1 & Hd & ->)]; [by eauto|].
  eexists. split; [reflexivity|]. eapply (owes_stuck (command_debt c)); [| |exact Hd].
  - intros n. by apply book_undo_failed.
  - cbn [warns command_debt]. apply prefix_app_str.
Qed.

Lemma pop_all_settles back s :
  Forall removes back -> settles (pop_all back) ((command_debt <$> back) ++ s) s.
Proof.
  induction 1 as [|c back Hc _ IH]; cbn [pop_all fmap list_fmap]; [apply settles_ret|].
  eapply settles_seq; [by apply ScopedCommand_destroy_settles | exact IH].
Qed.

Lemma undo_all_settles cs s :
  Forall removes cs -> settles (ChangeSet_undo_all cs) (owed cs ++ s) s.
Proof. intros Hc. apply pop_all_settles. by apply Forall_rev. Qed.

(** An object that was moved from, or told to keep its change, does nothing more. *)
Lemma emptied_guards_silent c cs w :
  ScopedCommand_destroy (ScopedCommand_move c).2 w = (Ret tt, w) /\
  ScopedCommand_destroy (ScopedCommand_release c) w = (Ret tt, w) /\
  ChangeSet_undo_all (ChangeSet_move cs).2 w = (Ret tt, w).
Proof. done. Qed.

(** The changes of [add_all]: each is an addition with its own reverse. *)
Definition reversible (x : Tool * list string * list string) : Prop :=
  let '(tool, apply, undo) := x in
  change tool apply = Some (true, undo) /\ change tool undo = Some (false, undo).
Definition guard_of (x : Tool * list string * list string) : ScopedCommand :=
  let '(tool, _, undo) := x in mkCommand tool undo.

Lemma owed_app cs cs' : owed (cs ++ cs') = owed cs' ++ owed cs.
Proof. unfold owed. by rewrite rev_app_distr, fmap_app. Qed.

(** Each addition is covered by what was there and the ones before it. *)
Fixpoint covered_all (l : list (Tool * list string * list string)) (s : list debt) : bool :=
  match l with
  | [] => true
  | (tool, _, undo) :: l => covered (Command tool undo) s && covered_all l (Command tool undo :: s)
  end.

(** All or nothing: the whole list is owed, or the set started from is undone too. *)
Lemma add_all_leaves l cs s :
  Forall removes cs -> Forall reversible l -> covered_all l (owed cs ++ s) = true ->
  leaves (owed cs ++ s) (add_all cs l) (fun _ => owed (cs ++ (guard_of <$> l)) ++ s) s.
Proof.
  intros Hcs Hl. revert cs Hcs. induction Hl as [|[[tool apply] undo] l [Ha Hu] _ IH];
    intros cs Hcs Hv; cbn [add_all fmap list_fmap].
  - apply leaves_ret. by rewrite app_nil_r.
  - cbn [covered_all] in Hv. apply andb_prop in Hv as [Hv Hvl]. assert (leaves (owed cs ++ s) (ChangeSet_add cs tool apply undo)
              (fun _ => owed (cs ++ [mkCommand tool undo]) ++ s) (owed cs ++ s)) as Hadd.
    { rewrite owed_app. seq; [|intros c; by apply leaves_ret].
      seq; [by apply run_add_leaves|]. intros []. by apply leaves_ret. }
    intros w Hw. unfold mbind, M_bind, unless_returned.
    pose proof (Hadd w Hw) as H1. revert H1. unfold ChangeSet_add, ScopedCommand_new.
    unfold mbind, M_bind. destruct (run tool apply w) as [[[]|e| |] w'] eqn:E; cbn; try done.
    + intros H1. assert (Forall removes (cs ++ [mkCommand tool undo])) as Hcs'
        by (apply Forall_app; split; [done | by apply Forall_singleton]).
      assert (covered_all l (owed (cs ++ [mkCommand tool undo]) ++ s) = true) as Hvl'
        by (rewrite owed_app; exact Hvl).
      specialize (IH _ Hcs' Hvl' w' H1). by rewrite <- app_assoc in IH.
    + intros H1. by destruct (undo_all_settles cs s Hcs w' H1) as (w2 & -> & H2).
Qed.

(** ** ScopedSysctl *)

Definition sysctl_debt (y : ScopedSysctl) : list debt :=
  if sy_active y then [Restore (sy_path y) (sy_previous y)] else [].
Definition guarded_path (path : string) : Prop := device_setting path = false.

Lemma books_note path line s : books s (ReadLine path line) s.
Proof. intros n. by exists (note_line path line n). Qed.

Lemma ScopedSysctl_destroy_settles y s :
  guarded_path (sy_path y) -> settles (ScopedSysctl_destroy y) (sysctl_debt y ++ s) s.
Proof.
  unfold guarded_path. intros Hp w Hw. unfold ScopedSysctl_destroy, ScopedSysctl_restore, sysctl_debt in *.
  destruct (sy_active y); cbn [negb app] in *; [|by exists w].
  unfold write_line, mbind, M_bind, call. destruct (h_write _ _ _) as [ok h'].
  assert (forall n, book (Restore (sy_path y) (sy_previous y) :: s, n) (Wrote (sy_path y) (sy_previous y) ok)
                    = Some (s, settled (Restore (sy_path y) (sy_previous y)) ok n)) as Hb.
  { intros n. cbn [book]. rewrite Hp. cbn [pay]. by rewrite decide_True. }
  destruct ok; (eexists; split; [reflexivity|]).
  - refine (owes_books _ _ _ (mkWorld h' (w_trace w)) _ Hw). intros n. by exists n.
  - eapply (owes_stuck _ _ _ _ w); [exact Hb | | exact Hw]. cbn [warns].
    rewrite !str_app_assoc. apply prefix_app_str.
Qed.

(** [path] is not about to be restored to [value] already. *)
Lemma ScopedSysctl_new_leaves path value s :
  guarded_path path -> pay (Restore path value) s = None ->
  leaves s (ScopedSysctl_new path value) (fun y => sysctl_debt y ++ s) s.
Proof.
  unfold guarded_path. intros Hp Hs w Hw. unfold ScopedSysctl_new, ask, mbind, M_bind.
  destruct (h_read (w_host w) path) as [text|]; [|done]. cbn [emit].
  pose proof (owes_books _ _ _ w (books_note path (line_of text) s) Hw) as Hr.
  destruct (String.eqb (line_of text) value); [exact Hr|].
  unfold write_line, mbind, M_bind, call. cbn [w_host w_trace].
  destruct (h_write (w_host w) path _) as [ok h']. cbn. destruct Hw as (n & Hw & Ht).
  assert (forall e, book_all ([], fresh) ((w_trace w ++ [ReadLine path (line_of text)]) ++ [e])
                    = book (s, note_line path (line_of text) n) e) as Hb.
  { intros e. by rewrite !book_all_app, Hw. }
  destruct ok; cbn; exists (note_line path (line_of text) n); cbn [w_trace]; rewrite Hb; cbn [book seen_line note_line];
    rewrite Hp, Hs; cbn [negb]; rewrite ?decide_True by done;
    (split; [done|]; by do 2 apply reported_grows).
Qed.

End Guards.

(** ** Values returned *)

Section Returns.
Context `{H : Host}.

(** Whatever [m] returns satisfies [P]. *)
Definition returns {A} (m : M A) (P : A -> Prop) : Prop :=
  forall w a w', m w = (Ret a, w') -> P a.

Lemma returns_ret {A} (a : A) (P : A -> Prop) : P a -> returns (mret a) P.
Proof. by intros Ha w b w' [= <- _]. Qed.

Lemma returns_bind {A B} (m : M A) (f : A -> M B) P Q :
  returns m P -> (forall a, P a -> returns (f a) Q) -> returns (m ≫= f) Q.
Proof.
  intros Hm Hf w b w'. unfold mbind, M_bind. specialize (Hm w).
  destruct (m w) as [[a|e| |] w1]; try done. intros Hb. by eapply Hf; [eapply Hm|].
Qed.

Lemma returns_any {A} (m : M A) : returns m (fun _ => True).
Proof. by intros w a w'. Qed.

Lemma returns_unless_returned {A} d (m : M A) P : returns m P -> returns (unless_returned d m) P.
Proof.
  intros Hm w a w'. specialize (Hm w). unfold unless_returned.
  destruct (m w) as [[b|e| |] w1]; try done. apply Hm.
Qed.

(** The rule for binds when what is returned matters for what follows. *)
Lemma leaves_bind_returns {A B} s (m : M A) (f : A -> M B) P Q R E :
  leaves s m Q E -> returns m P -> (forall a, P a -> leaves (Q a) (f a) R E) ->
  leaves s (m ≫= f) R E.
Proof.
  intros Hm HP Hf w Hw. specialize (Hm w Hw). specialize (HP w). unfold mbind, M_bind.
  destruct (m w) as [[a|e| |] w']; try done. by eapply Hf; [eapply HP|].
Qed.

Lemma add_all_returns l cs : returns (add_all cs l) (fun cs' => cs' = cs ++ (guard_of <$> l)).
Proof.
  revert cs. induction l as [|[[tool apply] undo] l IH]; intros cs; cbn [add_all fmap list_fmap].
  - apply returns_ret. by rewrite app_nil_r.
  - eapply (returns_bind _ _ (fun cs' => cs' = cs ++ [mkCommand tool undo])).
    + apply returns_unless_returned. eapply (returns_bind _ _ (fun c => c = mkCommand tool undo)).
      * eapply returns_bind; [apply returns_any|]. intros [] _. by apply returns_ret.
      * intros c ->. by apply returns_ret.
    + intros cs' -> w a w' Ha. by rewrite (IH _ _ _ _ Ha), <- app_assoc.
Qed.

(** *** Reversibility of the three lists of changes *)

Definition route_change (spec : list string) : Tool * list string * list string :=
  (ip, "route" :: "add" :: spec, "route" :: "del" :: spec).
Definition ipv6_change (spec : list string) : Tool * list string * list string :=
  (ip6tables, "-A" :: spec, "-D" :: spec).
Definition nat_change (rule : string * list string) : Tool * list string * list string :=
  let '(table, spec) := rule in
  (iptables, ["-t"; table; "-A"] ++ spec, ["-t"; table; "-D"] ++ spec).

Lemma routes_reversible l : Forall reversible (map route_change l).
Proof. induction l; constructor; done. Qed.
Lemma ipv6_reversible l : Forall reversible (map ipv6_change l).
Proof. induction l; constructor; done. Qed.
Lemma nat_reversible tun_dev subnet wan :
  Forall reversible (map nat_change (nat_rules tun_dev subnet wan)).
Proof. repeat constructor. Qed.

Lemma reversible_removes l : Forall reversible l -> Forall removes (guard_of <$> l).
Proof.
  induction 1 as [|[[tool apply] undo] l [_ Hu] _ IH]; cbn; constructor; done.
Qed.

(** *** The installers *)

Definition removals {A} (tool : Tool) (args : A -> list string) (l : list A) : list debt :=
  (fun x => Command tool (args x)) <$> rev l.

Lemma owed_guards {A} tool (f : A -> Tool * list string * list string) args l :
  (forall x, guard_of (f x) = mkCommand tool (args x)) ->
  owed (guard_of <$> map f l) = removals tool args l.
Proof.
  intros Hf. unfold owed, removals. induction l as [|x l IH]; [done|]. cbn [map fmap list_fmap rev].
  rewrite !fmap_app, IH, Hf. done.
Qed.

Lemma route_to_leaves s address : leaves s (route_to address) (fun _ => s) s.
Proof.
  seq; [apply run_capture_leaves|]. intros out. destruct (String.eqb out ""); [apply leaves_raise|].
  cbv zeta. destruct (String.eqb _ ""); [apply leaves_raise | by apply leaves_ret].
Qed.

(** A local set, filled from empty. *)
Lemma fresh_add_all l s :
  Forall reversible l -> covered_all l s = true ->
  leaves s (add_all [] l) (fun _ => owed (guard_of <$> l) ++ s) s.
Proof. intros Hl Hv. by apply (add_all_leaves l [] s). Qed.

Lemma ends_32_app s : ends_32 (s +:+ "/32") = true.
Proof.
  induction s as [|c s IH]; [done|]. rewrite str_app_cons. cbn [ends_32]. rewrite IH. apply orb_true_r.
Qed.

(** The host route comes first, and covers the two halves. *)
Lemma routes_covered tun_dev server underlay s :
  covered_all (map route_change (client_routes tun_dev server underlay)) s = true.
Proof.
  assert (forall dst, ends_32 dst = true -> String.eqb dst "0.0.0.0/1" || String.eqb dst "128.0.0.0/1" = false)
    as Hne by (intros dst Hd; apply orb_false_intro; apply String.eqb_neq; by intros ->).
  unfold client_routes, host_route. cbn [map covered_all route_change app].
  unfold covered. cbn [takes_all keeps_underlay existsb].
  rewrite Hne by apply ends_32_app. by rewrite ends_32_app, orb_true_r.
Qed.

Lemma client_routes_returns tun_dev server :
  returns (install_client_routes tun_dev server) (fun cs =>
    Forall removes cs /\ exists underlay,
      owed cs = removals ip (fun r => "route" :: "del" :: r) (client_routes tun_dev server underlay)).
Proof.
  eapply returns_bind; [apply returns_any|]. intros underlay _.
  eapply returns_bind; [apply add_all_returns|]. intros cs ->.
  eapply returns_bind; [apply returns_any|]. intros [] _. apply returns_ret. split.
  - apply reversible_removes, routes_reversible.
  - exists underlay. by apply (owed_guards _ route_change).
Qed.

Lemma client_routes_leaves s tun_dev server :
  leaves s (install_client_routes tun_dev server) (fun cs => owed cs ++ s) s.
Proof.
  seq; [apply route_to_leaves|]. intros underlay.
  eapply leaves_bind_returns; [apply fresh_add_all; [apply routes_reversible | apply routes_covered] | apply add_all_returns|].
  intros cs ->. seq; [idle|]. intros []. by apply leaves_ret.
Qed.

Lemma block_ipv6_returns :
  returns block_host_ipv6 (fun cs => Forall removes cs /\ owed cs = removals ip6tables (cons "-D") ipv6_rules).
Proof.
  eapply returns_bind; [apply add_all_returns|]. intros cs ->.
  eapply returns_bind; [apply returns_any|]. intros [] _. apply returns_ret. split.
  - apply reversible_removes, ipv6_reversible.
  - by apply (owed_guards _ ipv6_change).
Qed.

Lemma block_ipv6_leaves s : leaves s block_host_ipv6 (fun cs => owed cs ++ s) s.
Proof.
  eapply leaves_bind_returns; [apply fresh_add_all; [apply ipv6_reversible | done] | apply add_all_returns|].
  intros cs ->. seq; [idle|]. intros []. by apply leaves_ret.
Qed.

(** What a [ServerNat] owes: the rules on top of the sysctl. *)
Definition nat_owed (nat : ServerNat) : list debt :=
  owed (sn_rules nat) ++ sysctl_debt (sn_ip_forward nat).
Definition nat_ok (nat : ServerNat) : Prop :=
  Forall removes (sn_rules nat) /\ guarded_path (sy_path (sn_ip_forward nat)).

Lemma ServerNat_destroy_settles nat s :
  nat_ok nat -> settles (ServerNat_destroy nat) (nat_owed nat ++ s) s.
Proof.
  intros [Hr Hp]. unfold nat_owed. rewrite <- app_assoc.
  eapply settles_seq; [by apply undo_all_settles | by apply ScopedSysctl_destroy_settles].
Qed.

Lemma sysctl_returns path value :
  returns (ScopedSysctl_new path value) (fun y => sy_path y = path).
Proof.
  eapply returns_bind; [apply returns_any|]. intros [text|] _; [|by intros w y w'].
  eapply returns_bind; [apply returns_any|]. intros [] _.
  destruct (String.eqb _ _); [by apply returns_ret|].
  eapply returns_bind; [apply returns_any|]. intros [] _; [by apply returns_ret | by intros w y w'].
Qed.

Lemma server_nat_returns tun_dev subnet wan :
  returns (install_server_nat tun_dev subnet wan) (fun nat =>
    nat_ok nat /\ owed (sn_rules nat) =
      removals iptables (fun r => ["-t"; r.1; "-D"] ++ r.2) (nat_rules tun_dev subnet wan)).
Proof.
  eapply returns_bind; [apply sysctl_returns|]. intros y Hy. apply returns_unless_returned.
  eapply returns_bind; [apply add_all_returns|]. intros cs ->.
  eapply returns_bind; [apply returns_any|]. intros [] _. apply returns_ret. split; [split|].
  - cbn [sn_rules]. apply reversible_removes, nat_reversible.
  - cbn [sn_ip_forward]. by rewrite Hy.
  - apply (owed_guards _ nat_change). by intros [].
Qed.

Lemma server_nat_leaves s tun_dev subnet wan :
  pay (Restore ip_forward_path "1") s = None ->
  leaves s (install_server_nat tun_dev subnet wan) (fun nat => nat_owed nat ++ s) s.
Proof.
  intros Hs. eapply leaves_bind_returns; [by apply ScopedSysctl_new_leaves | apply sysctl_returns|].
  intros y Hy. eapply leaves_unless_returned; [|apply ScopedSysctl_destroy_settles; by rewrite Hy].
  eapply leaves_bind_returns; [apply fresh_add_all; [apply nat_reversible | done] | apply add_all_returns|].
  intros cs ->. seq; [idle|]. intros []. apply leaves_ret. unfold nat_owed. by rewrite <- app_assoc.
Qed.

Lemma disable_ipv6_device dev : device_setting (disable_ipv6_path dev) = true.
Proof. unfold device_setting, disable_ipv6_path. by destruct dev. Qed.

Lemma configure_interface_leaves s dev cidr mtu :
  leaves s (configure_interface dev cidr mtu) (fun _ => s) s.
Proof.
  seq; [by apply run_other_leaves|]. intros []. cbv zeta. seq; [apply leaves_ask|]. intros there.
  apply (leaves_bind _ _ _ (fun _ => s));
    [|intros []; seq; [by apply run_other_leaves | intros []; by apply run_other_leaves]].
  destruct there; [|idle]. unfold write_sysctl, write_line. seq; [seq; [apply leaves_call|]; intros ok|].
  - seq; [|intros []; by apply leaves_ret]. apply (leaves_emit _ _ s). intros seen. cbn [book].
    rewrite disable_ipv6_device. eauto.
  - intros []; [by apply leaves_ret | apply leaves_raise].
Qed.

End Returns.

(** ** Subnets *)

(** A word from its bytes, least significant first. *)
Definition word4 (b0 b1 b2 b3 : Z) : Z := (b0 + b1 * 2 ^ 8 + b2 * 2 ^ 16 + b3 * 2 ^ 24)%Z.

Lemma word4_bytes x : is_u32 x ->
  exists b0 b1 b2 b3, is_u8 b0 /\ is_u8 b1 /\ is_u8 b2 /\ is_u8 b3 /\ x = word4 b0 b1 b2 b3.
Proof.
  unfold is_u32. intros Hx.
  exists (x mod 256)%Z, (x / 256 mod 256)%Z, (x / 256 / 256 mod 256)%Z, (x / 256 / 256 / 256)%Z.
  unfold is_u8, word4. pose proof (Z.div_mod x 256). pose proof (Z.div_mod (x / 256) 256).
  pose proof (Z.div_mod (x / 256 / 256) 256). pose proof (Z.mod_pos_bound x 256).
  pose proof (Z.mod_pos_bound (x / 256) 256). pose proof (Z.mod_pos_bound (x / 256 / 256) 256).
  rewrite !Z.div_div in * by lia. change (256 * 256)%Z with 65536%Z in *.
  change (65536 * 256)%Z with 16777216%Z in *. assert (0 <= x / 16777216 < 256)%Z.
  { split; [apply Z.div_pos | apply Z.div_lt_upper_bound]; lia. }
  lia.
Qed.

Lemma htonl_word4 b0 b1 b2 b3 :
  is_u8 b0 -> is_u8 b1 -> is_u8 b2 -> is_u8 b3 ->
  htonl (word4 b0 b1 b2 b3) = word4 b3 b2 b1 b0.
Proof.
  unfold is_u8, htonl. intros H0 H1 H2 H3. set (x := word4 b0 b1 b2 b3).
  rewrite !land_255, !Z.shiftr_div_pow2 by lia.
  assert (x mod 256 = b0 /\ x / 2 ^ 8 mod 256 = b1 /\ x / 2 ^ 16 mod 256 = b2 /\
          x / 2 ^ 24 mod 256 = b3)%Z as (-> & -> & -> & ->).
  { rewrite <- (Z.div_unique x (2 ^ 8) (b1 + b2 * 2 ^ 8 + b3 * 2 ^ 16) b0),
      <- (Z.div_unique x (2 ^ 16) (b2 + b3 * 2 ^ 8) (b0 + b1 * 2 ^ 8)),
      <- (Z.div_unique x (2 ^ 24) b3 (b0 + b1 * 2 ^ 8 + b2 * 2 ^ 16)) by (unfold x, word4; lia).
    rewrite <- (Z.mod_unique x 256 (b1 + b2 * 2 ^ 8 + b3 * 2 ^ 16) b0) by (unfold x, word4; lia).
    split; [done|]. rewrite <- (Z.mod_unique _ 256 (b2 + b3 * 2 ^ 8) b1) by lia. split; [done|].
    rewrite <- (Z.mod_unique _ 256 b3 b2) by lia. split; [done|]. apply Z.mod_small. lia. }
  rewrite (Z.lor_comm (Z.shiftl b0 24)), (lor_disjoint_add (Z.shiftl b1 16)), (Z.lor_comm (Z.shiftl b2 8));
    rewrite ?Z.shiftl_mul_pow2 by lia; [|lia..].
  rewrite <- (Z.shiftl_mul_pow2 b2), lor_disjoint_add by lia. rewrite Z.lor_comm.
  replace (b1 * 2 ^ 16 + b0 * 2 ^ 24)%Z with (Z.shiftl (b1 + b0 * 2 ^ 8) 16)
    by (rewrite Z.shiftl_mul_pow2 by lia; lia).
  rewrite lor_disjoint_add by lia. unfold u32. rewrite Z.mod_small by lia. unfold word4. lia.
Qed.

Lemma htonl_invol x : is_u32 x -> htonl (htonl x) = x /\ is_u32 (htonl x).
Proof.
  intros Hx. destruct (word4_bytes x Hx) as (b0 & b1 & b2 & b3 & H0 & H1 & H2 & H3 & ->).
  rewrite !htonl_word4 by done. split; [done|]. unfold is_u32, is_u8, word4 in *. lia.
Qed.

(** The address with its last [32 - p] bits cleared. *)
Definition network (a p : Z) : Z := (a - a mod 2 ^ (32 - p))%Z.

Lemma network_mask a p :
  is_u32 a -> (0 <= p <= 32)%Z -> Z.land a (prefix_mask p) = network a p /\ is_u32 (network a p).
Proof.
  unfold is_u32. intros Ha Hp. pose proof (Z.pow_pos_nonneg 2 (32 - p)).
  pose proof (Z.mod_pos_bound a (2 ^ (32 - p))). pose proof (Z.mod_le a (2 ^ (32 - p))).
  split; [|unfold network; lia]. unfold prefix_mask, network.
  destruct (Z.eqb_spec p 0) as [->|Hnz].
  - rewrite Z.land_0_r. replace (32 - 0)%Z with 32%Z by lia. rewrite Z.mod_small by lia. lia.
  - rewrite <- (land_lnot_ones a (32 - p) 32) by lia. f_equal. unfold u32.
    apply Z.bits_inj'. intros n Hn. rewrite <- !Z.land_ones, !Z.land_spec, Z.shiftl_spec by lia.
    rewrite Z.lnot_spec by lia. change 4294967295%Z with (Z.ones 32).
    rewrite (Z.testbit_ones_nonneg 32 n), (Z.testbit_ones_nonneg (32 - p) n) by lia.
    destruct (Z.ltb_spec n 32); [|by rewrite !andb_false_r].
    rewrite !andb_true_r. destruct (Z.ltb_spec n (32 - p)); cbn [negb].
    + by rewrite Z.testbit_neg_r by lia.
    + rewrite Z.testbit_ones_nonneg by lia. apply Z.ltb_lt. lia.
Qed.

Lemma network_idem a p : (0 <= p <= 32)%Z -> network (network a p) p = network a p.
Proof.
  intros Hp. unfold network. pose proof (Z.pow_pos_nonneg 2 (32 - p)).
  replace ((a - a mod 2 ^ (32 - p)) mod 2 ^ (32 - p))%Z with 0%Z; [lia|].
  rewrite Zminus_mod_idemp_r, Z.sub_diag. by rewrite Z.mod_0_l by lia.
Qed.

Lemma find_char_split c h d :
  find_char c h = None -> find_char c (h +:+ String c d) = Some (String.length h).
Proof.
  induction h as [|x h IH]; intros Hh.
  - rewrite str_app_nil. cbn. by rewrite Ascii.eqb_refl.
  - rewrite str_app_cons. cbn in *. destruct (Ascii.eqb x c); [done|].
    destruct (find_char c h) eqn:E; [done|]. by rewrite IH.
Qed.

Lemma find_char_inv c s i :
  find_char c s = Some i -> s = str_take i s +:+ String c (str_drop (i + 1) s).
Proof.
  revert i. induction s as [|x s IH]; intros i; cbn [find_char]; [done|].
  destruct (Ascii.eqb_spec x c) as [->|]; [intros [= <-]; by rewrite str_app_nil|].
  destruct (find_char c s) as [j|]; [|done]. intros [= <-]. cbn [str_take str_drop Nat.add].
  rewrite str_app_cons. f_equal. by apply IH.
Qed.

Section Subnets.
Context `{I : Inet} `{IO : !InetOk}.

(** The text of an address and of a prefix, as [subnet_of] reads it. *)
Lemma subnet_of_text h a p :
  inet_pton h = Some a -> is_u32 a -> (0 <= p <= 32)%Z ->
  exists n, inet_ntop (htonl (network (ntohl a) p)) = Some n /\
            inet_pton n = Some (htonl (network (ntohl a) p)) /\
            subnet_of (h +:+ "/" +:+ to_string p) = Some (n +:+ "/" +:+ to_string p).
Proof.
  intros Hh Ha Hp. destruct (htonl_invol a Ha) as [_ Hu].
  destruct (network_mask (ntohl a) p Hu Hp) as [Hm Hn].
  destruct (htonl_invol _ Hn) as [_ Hn'].
  destruct (inet_roundtrip _ Hn') as (n & Hntop & Hpton). exists n. split; [done|]. split; [done|].
  destruct (to_string_ok p) as (Hd & Hne & Hv); [lia|]. set (d := to_string p) in *.
  unfold subnet_of. change ("/" +:+ d) with (String "/" d).
  rewrite find_char_split by by eapply inet_pton_slash.
  rewrite str_take_app, str_drop_app, Hh, from_chars_digits by done. cbv zeta. rewrite Hv.
  rewrite (proj2 (Z.ltb_ge _ _)), (proj2 (Z.ltb_ge (2 ^ 32 - 1) _)) by lia.
  cbn [orb negb String.eqb]. rewrite (proj2 (Z.ltb_ge 32 _)) by lia. by rewrite Hm, Hntop.
Qed.

(** A network address is its own network. *)
Lemma subnet_of_network n a p :
  is_u32 a -> (0 <= p <= 32)%Z -> inet_ntop (htonl (network a p)) = Some n ->
  inet_pton n = Some (htonl (network a p)) /\
  subnet_of (n +:+ "/" +:+ to_string p) = Some (n +:+ "/" +:+ to_string p).
Proof.
  intros Ha Hp Hn. destruct (network_mask a p Ha Hp) as [_ Hnet].
  destruct (htonl_invol _ Hnet) as [Hinv Hnet'].
  destruct (inet_roundtrip _ Hnet') as (n' & Hn' & Hpn). rewrite Hn in Hn'. injection Hn' as <-.
  split; [done|]. destruct (subnet_of_text n _ p Hpn Hnet' Hp) as (n2 & Hn2 & _ & Heq).
  unfold ntohl in Hn2. rewrite Hinv, network_idem, Hn in Hn2 by done. by injection Hn2 as <-.
Qed.

(** [C38] What [subnet_of] accepts and returns: the text is an IPv4 address, a
    slash and a prefix of at most 32; the result is the network address (the
    host bits cleared, at every prefix length from 0 to 32) with the same
    prefix, and it is its own subnet. *)
Theorem netcfg_subnet_of cidr t :
  subnet_of cidr = Some t ->
  exists h ptext a p n,
    cidr = h +:+ "/" +:+ ptext /\ inet_pton h = Some a /\
    all_digits ptext = true /\ p = decimal_from 0 ptext /\ (0 <= p <= 32)%Z /\
    inet_pton n = Some (htonl (network (ntohl a) p)) /\
    t = n +:+ "/" +:+ to_string p /\ subnet_of t = Some t.
Proof.
  unfold subnet_of at 1. destruct (find_char "/" cidr) as [i|] eqn:Hi; [|done].
  apply find_char_inv in Hi. destruct (inet_pton _) as [a|] eqn:Ha; [|done].
  destruct (from_chars _ _ _ _) as [[p rest]|] eqn:Hf; [|done].
  destruct (String.eqb_spec rest ""); cbn [negb orb]; [subst|done].
  apply from_chars_whole in Hf as [Hb [(Hd & _ & Hv)|[? _]]]; [|done].
  destruct (Z.ltb_spec 32 p); [done|]. destruct (inet_ntop _) as [n|] eqn:Hn; [|done].
  intros [= <-]. pose proof (inet_pton_u32 _ _ Ha) as Hu. destruct (htonl_invol a Hu) as [_ Hu'].
  destruct (network_mask (ntohl a) p Hu' ltac:(lia)) as [Hm Hnet]. rewrite Hm in Hn.
  destruct (subnet_of_network n (ntohl a) p Hu' ltac:(lia) Hn) as [Hpn Hidem].
  exists (str_take i cidr), (str_drop (i + 1) cidr), a, p, n.
  split; [exact Hi|]. split; [exact Ha|]. split; [exact Hd|]. split; [exact Hv|]. split; [lia|].
  split; [exact Hpn|]. split; [reflexivity | exact Hidem].
Qed.

End Subnets.

(** ** All or nothing *)

Section Installers.
Context `{H : Host}.

(** [m] applies a set of changes completely, and then destroying the object it
    returns undoes exactly those; or it throws and has undone what it did. *)
Definition installs {A} (s : list debt) (m : M A) (debts : A -> list debt) (destroy : A -> M unit)
    (content : A -> Prop) : Prop :=
  leaves s m (fun a => debts a ++ s) s /\
  returns m (fun a => content a /\ forall s', settles (destroy a) (debts a ++ s') s').


End Installers.
