(* ===== verification/Restore.v ===== *)
(** * Restore: on a machine whose tools do what they say, cleaning up restores it

    The ledger of [Host.v] speaks of the commands that were run.  Here the
    machine itself is observed: [installed] is what commands have put into its
    routing and filter tables, oldest first, each entry named by the command
    line that removes it (routes the kernel keeps by itself are not counted),
    and the forwarding sysctl is a file.  [MachineOk] states what
    posix_spawn(3), ip(8), iptables(8) and procfs document, their failures
    included: every call and every command may fail, at any time; a failed one
    changes nothing.  The two cases in which nobody can say what a command did
    are left open: its process was killed, or could not be waited for.  A run in
    which that did not happen and in which no reversal was reported as failed is
    [clean]; after a clean run an installer followed by its destructor leaves
    the tables and the sysctl as they were, whatever ran in between and wherever
    it failed. *)

From Stdlib Require Import ZArith Lia Ascii String.
From stdpp Require Import base tactics numbers list option strings sets.
From S2P Require Import Prelude Net Host Netcfg NetcfgProofs.

(** The first occurrence of [x] taken out. *)
Fixpoint remove_first (x : list string) (l : list (list string)) : list (list string) :=
  match l with
  | [] => []
  | y :: l => if decide (x = y) then l else y :: remove_first x l
  end.

Lemma remove_first_last x l : (x ∉ l) -> remove_first x (l ++ [x]) = l.
Proof.
  induction l as [|y l IH]; intros Hx; cbn; [by rewrite decide_True|].
  apply not_elem_of_cons in Hx as [Hne Hx]. rewrite decide_False by done. by rewrite IH.
Qed.

Lemma filter_all {A} (P : A -> Prop) `{!forall x, Decision (P x)} (l : list A) :
  (forall x, x ∈ l -> P x) -> filter P l = l.
Proof.
  induction l as [|x l IH]; intros Hl; [done|].
  rewrite filter_cons_True by (apply Hl; left). f_equal. apply IH. intros y Hy. apply Hl. by right.
Qed.

(** The paths tried for a tool. *)
Definition candidates (tool : Tool) : list string :=
  match tool with ip => kIp | iptables => kIptables | ip6tables => kIp6tables end.

#[export] Instance ScopedCommand_eq_dec : EqDecision ScopedCommand.
Proof. solve_decision. Defined.

(** ** Clean traces *)

(** A reversal that failed, or a child nobody knows the end of. *)
Definition trouble (e : effect) : bool :=
  match e with
  | Stderr text => String.prefix "warning: could not undo a network change: " text ||
                   String.prefix "warning: could not restore " text
  | Reaped _ (SysErr _) => true
  | Reaped _ (SysOk status) => negb (WIFEXITED status)
  | _ => false
  end.
Definition clean (t : list effect) : Prop := Forall (fun e => trouble e = false) t.

Class Machine `{H : Host} : Type := {
  installed : host -> Tool -> list (list string);
  (* the route goes through the interface that lives as long as the descriptor *)
  through : host -> nat -> list string -> bool
}.

Section Tables.
Context `{Ma : Machine}.

Definition same_files (h h' : host) : Prop := forall path, h_read h' path = h_read h path.
Definition same_tables (h h' : host) : Prop :=
  (forall tool, installed h' tool = installed h tool) /\ same_files h h'.

(** Nothing but one tool's table changes. *)
Definition only (tool : Tool) (h h' : host) : Prop :=
  same_files h h' /\ forall other, other <> tool -> installed h' other = installed h other.

(** What a command does that exits with status 0 ([ok]) or another: an addition
    appends its entry, and ip(8) refuses a route that is there already; a
    removal takes out the first matching entry; a failed command changes nothing. *)
Definition ran (tool : Tool) (args : list string) (ok : bool) (h h' : host) : Prop :=
  only tool h h' /\
  match change tool args with
  | Some (true, undo) =>
      if ok then installed h' tool = installed h tool ++ [undo] /\ (tool = ip -> undo ∉ installed h tool)
      else installed h' tool = installed h tool
  | Some (false, undo) =>
      installed h' tool = if ok then remove_first undo (installed h tool) else installed h tool
  | None => installed h' tool = installed h tool
  end.

End Tables.

Class MachineOk `{M : Machine} : Prop := {
  (* no child, or a child of which the status tells what it did *)
  spawn_law h tool path args piped : path ∈ candidates tool ->
    match h_spawn h path (path :: args) [] piped with
    | (inl rc, h') => same_tables h h'
    | (inr c, h') => only tool h h' /\
        (change tool args = None \/ WIFEXITED (ch_status c) = true ->
         ran tool args (WEXITSTATUS (ch_status c) =? 0)%Z h h')
    end;
  (* a file written is read back; a failed write changes nothing; writing one
     file changes no other and no table *)
  write_reads h path text :
    let '(ok, h') := h_write h path text in
    h_read h' path = (if ok then Some text else h_read h path) /\
    (forall other, other <> path -> h_read h' other = h_read h other) /\
    (forall tool, installed h' tool = installed h tool);
  (* devices and sockets come and go without touching the tables, except that
     an interface takes the routes through it along *)
  open_keeps h path : same_tables h (h_open h path).2;
  tunsetiff_keeps h fd name : same_tables h (h_tunsetiff h fd name).2;
  socket_keeps h : same_tables h (h_socket h).2;
  signalfd_keeps h : same_tables h (h_signalfd h).2;
  epoll_keeps h : same_tables h (h_epoll_create1 h).2;
  (* a descriptor for signals or events carries no interface; making one, or
     closing any descriptor, attaches no interface to another *)
  signalfd_plain h fd h' e : h_signalfd h = (SysOk fd, h') -> through h' fd e = false;
  epoll_plain h fd h' e : h_epoll_create1 h = (SysOk fd, h') -> through h' fd e = false;
  epoll_attaches h fd e : through h fd e = false -> through (h_epoll_create1 h).2 fd e = false;
  close_attaches h fd fd' e : through h fd e = false -> through (h_close h fd') fd e = false;
  bind_keeps h fd a : same_tables h (h_bind h fd a).2;
  close_reads h fd path : h_read (h_close h fd) path = h_read h path;
  close_tables h fd tool : tool <> ip -> installed (h_close h fd) tool = installed h tool;
  close_routes h fd : installed (h_close h fd) ip = filter (fun e => through h fd e = false) (installed h ip)
}.

(** ** What a computation does to the machine, if its trace stays clean *)

Section Acts.
Context `{H : Host}.

Definition extends (w w' : World) : Prop := w_trace w `prefix_of` w_trace w'.

(** [Q] relates the machines before and after when [m] returns, [E] when it throws. *)
Definition acts {A} (m : M A) (Q : host -> A -> host -> Prop) (E : host -> host -> Prop) : Prop :=
  forall w, let '(r, w') := m w in
    extends w w' /\
    (clean (w_trace w') ->
     match r with
     | Ret a => Q (w_host w) a (w_host w')
     | Raise _ => E (w_host w) (w_host w')
     | _ => True
     end).

(** A destructor: it returns. *)
Definition undoes (d : M unit) (R : host -> host -> Prop) : Prop :=
  forall w, exists w', d w = (Ret tt, w') /\ extends w w' /\ (clean (w_trace w') -> R (w_host w) (w_host w')).

Lemma extends_refl w : extends w w.
Proof. exists []. by rewrite app_nil_r. Qed.
Lemma extends_trans w1 w2 w3 : extends w1 w2 -> extends w2 w3 -> extends w1 w3.
Proof. unfold extends. intros [d1 E1] [d2 E2]. exists (d1 ++ d2). by rewrite E2, E1, app_assoc. Qed.
Lemma extends_snoc w h e : extends w (mkWorld h (w_trace w ++ [e])).
Proof. by exists [e]. Qed.
Lemma extends_clean w w' : extends w w' -> clean (w_trace w') -> clean (w_trace w).
Proof. intros [d ->]. by intros [? _]%Forall_app. Qed.
Lemma clean_last t e : clean (t ++ [e]) -> trouble e = false.
Proof. by intros [_ [? _]%Forall_cons]%Forall_app. Qed.

Lemma acts_weaken {A} (m : M A) Q E (Q' : host -> A -> host -> Prop) (E' : host -> host -> Prop) :
  acts m Q E -> (forall h a h', Q h a h' -> Q' h a h') -> (forall h h', E h h' -> E' h h') -> acts m Q' E'.
Proof.
  intros Hm HQ HE w. specialize (Hm w). destruct (m w) as [[a|e| |] w']; destruct Hm as [He Hc];
    (split; [done|]); intros Hcl; specialize (Hc Hcl); auto.
Qed.

Lemma acts_ext {A} (m m' : M A) Q E : (forall w, m w = m' w) -> acts m Q E -> acts m' Q E.
Proof. intros He Hm w. rewrite <- He. apply Hm. Qed.

Lemma acts_ret {A} (a : A) Q E : (forall h, Q h a h : Prop) -> acts (mret a) Q E.
Proof. intros HQ w. split; [apply extends_refl | intros _; apply HQ]. Qed.
Lemma acts_raise {A} e Q (E : host -> host -> Prop) : (forall h, E h h) -> acts (raise e : M A) Q E.
Proof. intros HE w. split; [apply extends_refl | intros _; apply HE]. Qed.
Lemma acts_ask {A} (f : host -> A) Q E : (forall h, Q h (f h) h : Prop) -> acts (ask f) Q E.
Proof. intros HQ w. split; [apply extends_refl | intros _; apply HQ]. Qed.
Lemma acts_call {A} (f : host -> A * host) Q E :
  (forall h, Q h (f h).1 (f h).2 : Prop) -> acts (call f) Q E.
Proof.
  intros HQ w. specialize (HQ (w_host w)). unfold call. destruct (f (w_host w)) as [a h']. split; [exists []; by rewrite app_nil_r | by intros _].
Qed.
Lemma acts_emit e Q E : (forall h, trouble e = false -> Q h tt h : Prop) -> acts (emit e) Q E.
Proof. intros HQ w. split; [apply extends_snoc | intros Hc%clean_last; by apply HQ]. Qed.
Lemma acts_lift {A} (r : Res A) (Q : host -> A -> host -> Prop) (E : host -> host -> Prop) :
  (forall h a, r = Ok a -> Q h a h) -> (forall h, E h h) -> acts (lift r) Q E.
Proof. intros HQ HE w. unfold lift. destruct r; (split; [apply extends_refl|]); auto. Qed.

Lemma acts_bind_returns {A B} (m : M A) (f : A -> M B) V Q E Q1 E1 R S :
  acts m Q E -> returns m V -> (forall a, V a -> acts (f a) (Q1 a) (E1 a)) ->
  (forall h a h1 b h2, V a -> Q h a h1 -> Q1 a h1 b h2 -> R h b h2) ->
  (forall h a h1 h2, V a -> Q h a h1 -> E1 a h1 h2 -> S h h2) ->
  (forall h h', E h h' -> S h h' : Prop) -> acts (m ≫= f) R S.
Proof.
  intros Hm HV Hf HR HS HE w. specialize (Hm w). specialize (HV w). unfold mbind, M_bind.
  destruct (m w) as [[a|e| |] w1]; destruct Hm as [He Hc]; try (by split; auto).
  specialize (HV a w1 eq_refl). specialize (Hf a HV w1). destruct (f a w1) as [r w2]. destruct Hf as [He2 Hc2].
  split; [by eapply extends_trans|]. intros Hcl. specialize (Hc2 Hcl).
  pose proof (Hc (extends_clean _ _ He2 Hcl)) as HQ. destruct r; eauto.
Qed.

Lemma acts_bind {A B} (m : M A) (f : A -> M B) Q E Q1 E1 R S :
  acts m Q E -> (forall a, acts (f a) (Q1 a) (E1 a)) ->
  (forall h a h1 b h2, Q h a h1 -> Q1 a h1 b h2 -> R h b h2) ->
  (forall h a h1 h2, Q h a h1 -> E1 a h1 h2 -> S h h2) ->
  (forall h h', E h h' -> S h h' : Prop) -> acts (m ≫= f) R S.
Proof.
  intros Hm Hf HR HS HE. eapply (acts_bind_returns m f (fun _ => True)); eauto. apply returns_any.
Qed.

Lemma acts_scoped {A} d (m : M A) Q E R (Q' : host -> A -> host -> Prop) (E' : host -> host -> Prop) :
  acts m Q E -> undoes d R ->
  (forall h a h1 h2, Q h a h1 -> R h1 h2 -> Q' h a h2) ->
  (forall h h1 h2, E h h1 -> R h1 h2 -> E' h h2) -> acts (scoped d m) Q' E'.
Proof.
  intros Hm Hd HQ HE w. specialize (Hm w). unfold scoped.
  destruct (m w) as [[a|e| |] w1]; destruct Hm as [He Hc]; try done;
    (destruct (Hd w1) as (w2 & -> & He2 & Hc2); split; [by eapply extends_trans|]; intros Hcl;
     pose proof (Hc (extends_clean _ _ He2 Hcl)); specialize (Hc2 Hcl); eauto).
Qed.

Lemma acts_unless_returned {A} d (m : M A) Q E R (E' : host -> host -> Prop) :
  acts m Q E -> undoes d R -> (forall h h1 h2, E h h1 -> R h1 h2 -> E' h h2) -> acts (unless_returned d m) Q E'.
Proof.
  intros Hm Hd HE w. specialize (Hm w). unfold unless_returned.
  destruct (m w) as [[a|e| |] w1]; destruct Hm as [He Hc]; try done.
  destruct (Hd w1) as (w2 & -> & He2 & Hc2). split; [by eapply extends_trans|]. intros Hcl.
  pose proof (Hc (extends_clean _ _ He2 Hcl)). specialize (Hc2 Hcl). eauto.
Qed.

Lemma acts_recorded {A} e (m : M A) Q E : acts m Q E -> acts (recorded e m) Q E.
Proof.
  intros Hm w. specialize (Hm w). unfold recorded. destruct (m w) as [[a|x| |] w1]; destruct Hm as [He Hc]; try done;
    (split; [eapply extends_trans; [exact He | apply extends_snoc]|]);
    intros Hcl; apply Hc; by eapply extends_clean; [apply extends_snoc|].
Qed.

Lemma acts_catch {A} (m : M A) k Q E Q1 E1 (Q' : host -> A -> host -> Prop) (E' : host -> host -> Prop) :
  acts m Q E -> (forall e, acts (k e) Q1 E1) -> (forall h a h', Q h a h' -> Q' h a h') ->
  (forall h h1 a h2, E h h1 -> Q1 h1 a h2 -> Q' h a h2) -> (forall h h1 h2, E h h1 -> E1 h1 h2 -> E' h h2) ->
  acts (try_catch m k) Q' E'.
Proof.
  intros Hm Hk HQ HQ' HE w. specialize (Hm w). unfold try_catch.
  destruct (m w) as [[a|e| |] w1]; destruct Hm as [He Hc]; try (by split; auto).
  specialize (Hk e w1). destruct (k e w1) as [r w2]. destruct Hk as [He2 Hc2].
  split; [by eapply extends_trans|]. intros Hcl. specialize (Hc2 Hcl).
  pose proof (Hc (extends_clean _ _ He2 Hcl)). destruct r; eauto.
Qed.

Lemma undoes_ret (R : host -> host -> Prop) : (forall h, R h h) -> undoes (mret tt) R.
Proof. intros HR w. exists w. split; [done|]. split; [apply extends_refl | intros _; apply HR]. Qed.

Lemma undoes_weaken d (R R' : host -> host -> Prop) : undoes d R -> (forall h h', R h h' -> R' h h') -> undoes d R'.
Proof. intros Hd HR w. destruct (Hd w) as (w' & E & He & Hc). exists w'. auto. Qed.

Lemma undoes_seq d d' R1 R2 (R : host -> host -> Prop) :
  undoes d R1 -> undoes d' R2 -> (forall h h1 h2, R1 h h1 -> R2 h1 h2 -> R h h2) -> undoes (_ ← d; d') R.
Proof.
  intros Hd Hd' HR w. destruct (Hd w) as (w1 & E1 & He1 & Hc1). destruct (Hd' w1) as (w2 & E2 & He2 & Hc2).
  exists w2. unfold mbind, M_bind. rewrite E1. split; [done|]. split; [by eapply extends_trans|].
  intros Hcl. pose proof (Hc1 (extends_clean _ _ He2 Hcl)). specialize (Hc2 Hcl). eauto.
Qed.

(** It returns or throws, on any machine. *)
Definition total {A} (m : M A) : Prop := forall w, match (m w).1 with Ret _ | Raise _ => True | _ => False end.

Lemma total_bind {A B} (m : M A) (f : A -> M B) : total m -> (forall a, total (f a)) -> total (m ≫= f).
Proof.
  intros Hm Hf w. specialize (Hm w). unfold mbind, M_bind. destruct (m w) as [[a|e| |] w']; try done. apply Hf.
Qed.

Lemma total_run tool args : total (run tool args).
Proof.
  assert (forall what l, total (find_binary l what)) as Hb.
  { intros what l. induction l as [|c l IH]; [done|]. apply total_bind; [done|]. by intros []. }
  assert (forall prog waits status, total (wait_child prog waits status)) as Hr.
  { intros prog waits status. induction waits as [|e waits IH]; [done|]. cbn [wait_child].
    by destruct (negb _). }
  intros w. unfold run, recorded. set (m := prog ← binary_for tool; _).
  assert (total m) as Hm; [|specialize (Hm w); by destruct (m w) as [[]]].
  apply total_bind; [destruct tool; apply Hb|]. intros prog. apply total_bind; [|done].
  unfold spawn_and_wait. apply total_bind; [done|]. intros setup. destruct (negb _); [done|].
  apply total_bind.
  { apply total_bind; [|by intros []]. intros w'. unfold call. by destruct (h_spawn _ _ _ _ _). }
  intros c. apply total_bind; [apply Hr|]. intros st. apply total_bind; [|done].
  unfold check_status. destruct (WIFSIGNALED st); [done|]. by destruct (_ || _).
Qed.

End Acts.

Section Commands.
Context `{H : Host} `{Ma : !Machine} `{MO : !MachineOk}.

(** What is restored: the tables and the value of the sysctl. *)
Definition same_config (h h' : host) : Prop :=
  (forall tool, installed h' tool = installed h tool) /\
  (line_of <$> h_read h' ip_forward_path) = (line_of <$> h_read h ip_forward_path).

Lemma same_config_refl h : same_config h h.
Proof. done. Qed.
Lemma same_config_trans h1 h2 h3 : same_config h1 h2 -> same_config h2 h3 -> same_config h1 h3.
Proof. intros [A1 B1] [A2 B2]. split; [intros tool; by rewrite A2 | by rewrite B2]. Qed.
Lemma same_tables_config h h' : same_tables h h' -> same_config h h'.
Proof. intros [Hi Hr]. split; [done | by rewrite Hr]. Qed.

(** ** Running one command *)

Lemma find_binary_acts l what :
  acts (find_binary l what) (fun h path h' => path ∈ l /\ h' = h) (fun h h' => h' = h).
Proof.
  assert (forall l', l' ⊆ l ->
    acts (find_binary l' what) (fun h path h' => path ∈ l /\ h' = h) (fun h h' => h' = h)) as Hl; [|by apply Hl].
  intros l'. induction l' as [|c l' IH]; intros Hsub; cbn [find_binary]; [by apply acts_raise|].
  eapply (acts_bind _ _ (fun h _ h' => h' = h) (fun h h' => h' = h)
            (fun _ h path h' => path ∈ l /\ h' = h) (fun _ h h' => h' = h)).
  - by apply acts_ask.
  - intros []; [apply acts_ret; intros h; split; [apply Hsub; left | done] | apply IH].
    intros x Hx. apply Hsub. by right.
  - by intros h a h1 b h2 -> [? ->].
  - by intros h a h1 h2 -> ->.
  - done.
Qed.

Lemma binary_for_acts tool :
  acts (binary_for tool) (fun h path h' => path ∈ candidates tool /\ h' = h) (fun h h' => h' = h).
Proof. destruct tool; apply find_binary_acts. Qed.

(** A child that was started. *)
Definition started (tool : Tool) (args : list string) (h : host) (c : child) (h' : host) : Prop :=
  only tool h h' /\
  (change tool args = None \/ WIFEXITED (ch_status c) = true ->
   ran tool args (WEXITSTATUS (ch_status c) =? 0)%Z h h').

Lemma posix_spawn_acts tool path args piped :
  path ∈ candidates tool -> acts (posix_spawn path args piped) (started tool args) same_tables.
Proof.
  intros Hp w. pose proof (spawn_law (w_host w) tool path args piped Hp) as Hl.
  unfold posix_spawn, mbind, M_bind, call. destruct (h_spawn _ _ _ _ _) as [[rc|c] h'].
  - split; [exists []; by rewrite app_nil_r | by intros _].
  - split; [by eexists [_] | intros _; exact Hl].
Qed.

Lemma wait_child_acts prog waits status :
  acts (wait_child prog waits status) (fun h st h' => st = status /\ WIFEXITED status = true /\ h' = h)
    (fun _ _ => False).
Proof.
  induction waits as [|e waits IH]; cbn [wait_child].
  - intros w. split; [apply extends_snoc|]. intros Hc%clean_last. split; [done|]. split; [|done].
    by apply negb_false_iff.
  - destruct (negb (e =? EINTR)%Z); [|exact IH].
    intros w. split; [apply extends_snoc|]. by intros Hc%clean_last.
Qed.

Definition exited_zero (status : Z) : bool := (WEXITSTATUS status =? 0)%Z.

Lemma check_status_acts prog args status :
  acts (check_status prog args status) (fun h _ h' => WIFEXITED status = true -> exited_zero status = true /\ h' = h)
    (fun h h' => WIFEXITED status = true -> exited_zero status = false /\ h' = h).
Proof.
  unfold check_status, WIFSIGNALED, exited_zero. fold (WIFEXITED status).
  destruct (WIFEXITED status) eqn:Hx; cbn [negb andb orb].
  - destruct (WEXITSTATUS status =? 0)%Z; cbn [negb]; [by apply acts_ret | by apply acts_raise].
  - destruct (negb (WTERMSIG status =? 127)%Z); by apply acts_raise; intros h Hf; rewrite Hf in Hx.
Qed.

(** Waiting for the child and judging it. *)
Lemma reap_acts {A} prog args c (a : A) :
  acts (status ← wait_child prog (ch_waits c) (ch_status c); _ ← check_status prog args status; mret a)
    (fun h b h' => WIFEXITED (ch_status c) = true /\ exited_zero (ch_status c) = true /\ h' = h)
    (fun h h' => WIFEXITED (ch_status c) = true /\ exited_zero (ch_status c) = false /\ h' = h).
Proof.
  eapply acts_bind; [apply wait_child_acts | intros st | | | done].
  - eapply (acts_bind _ _ _ _ (fun _ h _ h' => h' = h) (fun _ _ _ => False)
      (fun h _ h' => WIFEXITED st = true -> exited_zero st = true /\ h' = h)
      (fun h h' => WIFEXITED st = true -> exited_zero st = false /\ h' = h));
      [apply check_status_acts | intros []; by apply acts_ret | | | done].
    + intros h [] h1 b h2 Hq -> Hx. by destruct (Hq Hx).
    + intros h [] h1 h2 Hq Hf. done.
  - intros h st h1 b h2 (-> & Hx & ->) Hq. by destruct (Hq Hx).
  - intros h st h1 h2 (-> & Hx & ->) Hq. by destruct (Hq Hx).
Qed.

Lemma ran_same tool args h h' : same_tables h h' -> ran tool args false h h'.
Proof. intros [Hi Hr]. split; [by split|]. by destruct (change tool args) as [[[] undo]|]. Qed.
Lemma ran_refl tool args h h' : h' = h -> ran tool args false h h'.
Proof. intros ->. by apply ran_same. Qed.

Lemma binary_for_returns tool : returns (binary_for tool) (fun path => path ∈ candidates tool).
Proof.
  assert (forall what l' l, l' ⊆ l -> returns (find_binary l' what) (fun path => path ∈ l)) as Hl.
  { intros what l' l. induction l' as [|c l' IH]; intros Hs; [done|].
    eapply returns_bind; [apply returns_any|]. intros [] _; [apply returns_ret, Hs; left|].
    apply IH. intros x Hx. apply Hs. by right. }
  destruct tool; by apply Hl.
Qed.

(** A child from its start to its status. *)
Lemma child_acts {A} tool path args piped (read : child -> M A) :
  path ∈ candidates tool ->
  (forall c, acts (read c) (fun h _ h' => WIFEXITED (ch_status c) = true /\ exited_zero (ch_status c) = true /\ h' = h)
     (fun h h' => WIFEXITED (ch_status c) = true /\ exited_zero (ch_status c) = false /\ h' = h)) ->
  acts (c ← posix_spawn path args piped; read c) (fun h _ h' => ran tool args true h h') (ran tool args false).
Proof.
  intros Hp Hr. eapply acts_bind; [by apply posix_spawn_acts | apply Hr | | | intros; by apply ran_same].
  - intros h c h1 b h2 [_ Hs] (Hx & Hz & ->). unfold exited_zero in Hz. rewrite Hz in Hs. auto.
  - intros h c h1 h2 [_ Hs] (Hx & Hz & ->). unfold exited_zero in Hz. rewrite Hz in Hs. auto.
Qed.

(** [run] returns when the command exited with status 0. *)
Lemma run_acts tool args :
  acts (run tool args) (fun h _ h' => ran tool args true h h') (ran tool args false).
Proof.
  apply acts_recorded. eapply (acts_bind_returns _ _ _ _ _ (fun _ h _ h' => ran tool args true h h') (fun _ => ran tool args false));
    [apply binary_for_acts | apply binary_for_returns | | by intros h a h1 b h2 _ [_ ->] |
     by intros h a h1 h2 _ [_ ->] | intros; by apply ran_refl].
  intros path Hp. eapply (acts_bind _ _ (fun h _ h' => ran tool args true h h') (ran tool args false)
    (fun _ h _ h' => h' = h) (fun _ _ _ => False));
    [| intros ?; by apply acts_ret | by intros h a h1 b h2 Hr -> | done | done].
  eapply (acts_bind _ _ (fun h _ h' => h' = h) (fun _ _ => False)
    (fun _ h _ h' => ran tool args true h h') (fun _ => ran tool args false));
    [by apply acts_ask | | by intros h a h1 b h2 -> | by intros h a h1 h2 -> | done].
  intros setup. destruct (negb _); [apply acts_raise; intros h; by apply ran_refl|].
  apply child_acts; [done|]. intros c. apply reap_acts.
Qed.


(** ** Computations that leave the configuration alone *)

(** Hypotheses on the configuration that survive as long as it does. *)
Class Stable (I : host -> Prop) : Prop :=
  stable h h' : same_config h h' -> I h -> I h'.

(** None of the routes goes through an interface of this process. *)
Definition foreign_routes (h : host) : Prop :=
  forall e h' fd, e ∈ installed h ip -> through h' fd e = false.

#[export] Instance foreign_stable : Stable foreign_routes.
Proof. intros h h' [Hi _] Hf e h1 fd. rewrite Hi. apply Hf. Qed.
#[export] Instance true_stable : Stable (fun _ => True).
Proof. done. Qed.
#[export] Instance and_stable I J : Stable I -> Stable J -> Stable (fun h => I h /\ J h).
Proof. intros HI HJ h h' Hs [? ?]. split; [by eapply HI | by eapply HJ]. Qed.

(** [m] leaves alone every configuration that satisfies [I]. *)
Definition keeping (I : host -> Prop) (h h' : host) : Prop := I h -> same_config h h'.
Definition keeps (I : host -> Prop) {A} (m : M A) : Prop := acts m (fun h _ => keeping I h) (keeping I).

Lemma keeps_weaken (I J : host -> Prop) {A} (m : M A) : keeps I m -> (forall h, J h -> I h) -> keeps J m.
Proof. intros Hm HI. eapply acts_weaken; [exact Hm|..]; unfold keeping; auto. Qed.

Section Keeping.
Context (I : host -> Prop) `{HI : !Stable I}.

Lemma keeping_refl h : keeping I h h.
Proof. intros _. apply same_config_refl. Qed.
Lemma keeping_trans h1 h2 h3 : keeping I h1 h2 -> keeping I h2 h3 -> keeping I h1 h3.
Proof. intros H1 H2 Hh. eapply same_config_trans; [by apply H1|]. apply H2. by eapply HI; [apply H1|]. Qed.
Lemma keeping_tables h h' : same_tables h h' -> keeping I h h'.
Proof. intros Hs _. by apply same_tables_config. Qed.

Lemma keeps_ret {A} (a : A) : keeps I (mret a).
Proof. apply acts_ret, keeping_refl. Qed.
Lemma keeps_raise {A} e : keeps I (raise e : M A).
Proof. apply acts_raise, keeping_refl. Qed.
Lemma keeps_emit e : keeps I (emit e).
Proof. apply acts_emit. intros h _. apply keeping_refl. Qed.
Lemma keeps_ask {A} (f : host -> A) : keeps I (ask f).
Proof. apply acts_ask, keeping_refl. Qed.
Lemma keeps_lift {A} (r : Res A) : keeps I (lift r).
Proof. apply acts_lift; intros; apply keeping_refl. Qed.
Lemma keeps_call {A} (f : host -> A * host) : (forall h, same_tables h (f h).2) -> keeps I (call f).
Proof. intros Hf. apply acts_call. intros h. apply keeping_tables, Hf. Qed.

Lemma keeps_bind_returns {A B} (m : M A) (f : A -> M B) V :
  keeps I m -> returns m V -> (forall a, V a -> keeps I (f a)) -> keeps I (m ≫= f).
Proof.
  intros Hm HV Hf. eapply (acts_bind_returns _ _ V _ _ (fun _ h _ => keeping I h) (fun _ => keeping I));
    [exact Hm | exact HV | exact Hf | ..|done].
 - intros h a h1 b h2 _ H1 H2. exact (keeping_trans _ _ _ H1 H2).
  - intros h a h1 h2 _ H1 H2. exact (keeping_trans _ _ _ H1 H2).
Qed.
Lemma keeps_bind {A B} (m : M A) (f : A -> M B) : keeps I m -> (forall a, keeps I (f a)) -> keeps I (m ≫= f).
Proof. intros Hm Hf. eapply keeps_bind_returns; [done | apply returns_any | by intros a _]. Qed.

Lemma keeps_scoped {A} d (m : M A) : undoes d (keeping I) -> keeps I m -> keeps I (scoped d m).
Proof. intros Hd Hm. eapply acts_scoped; [exact Hm | exact Hd|..];
  [intros h a h1 h2 H1 H2 | intros h h1 h2 H1 H2]; exact (keeping_trans _ _ _ H1 H2). Qed.
Lemma keeps_unless_returned {A} d (m : M A) : undoes d (keeping I) -> keeps I m -> keeps I (unless_returned d m).
Proof. intros Hd Hm. eapply acts_unless_returned; [exact Hm | exact Hd|].
  intros h h1 h2 H1 H2; exact (keeping_trans _ _ _ H1 H2). Qed.

Lemma keeps_catch {A} (m : M A) k : keeps I m -> (forall e, keeps I (k e)) -> keeps I (try_catch m k).
Proof.
  intros Hm Hk. eapply acts_catch; [exact Hm | exact Hk | done | |];
  [intros h h1 a h2 H1 H2 | intros h h1 h2 H1 H2]; exact (keeping_trans _ _ _ H1 H2).
Qed.

Lemma ran_none tool args ok h h' : change tool args = None -> ran tool args ok h h' -> keeping I h h'.
Proof.
  intros Hc [[Hr Ho] Ht] _. rewrite Hc in Ht. split; [|by rewrite Hr].
  intros t. destruct (decide (t = tool)) as [->|]; auto.
Qed.

(** A command that changes no table. *)
Lemma keeps_run tool args : change tool args = None -> keeps I (run tool args).
Proof.
  intros Hc. eapply acts_weaken; [apply run_acts | intros h a h' Hr | intros h h' Hr]; exact (ran_none _ _ _ _ _ Hc Hr).
Qed.

Lemma keeps_spawn tool path args piped :
  path ∈ candidates tool -> change tool args = None -> keeps I (posix_spawn path args piped).
Proof.
  intros Hp Hc. eapply acts_weaken; [by apply (posix_spawn_acts tool) | | intros h h' Hs; by apply keeping_tables].
  intros h c h' [_ Hs]. exact (ran_none _ _ _ _ _ Hc (Hs (or_introl Hc))).
Qed.

Lemma keeps_reap {A} prog args c (a : A) :
  keeps I (status ← wait_child prog (ch_waits c) (ch_status c); _ ← check_status prog args status; mret a).
Proof.
  eapply acts_weaken; [apply reap_acts | intros h b h' (_ & _ & ->) | intros h h' (_ & _ & ->)]; apply keeping_refl.
Qed.

Lemma keeps_read prog args reads out : keeps I (read_output prog args reads out).
Proof.
  revert out. induction reads as [|[chunk|e] reads IH]; intros out; cbn [read_output]; [apply keeps_ret|..].
  - destruct (String.eqb chunk ""); [apply keeps_ret | apply IH].
  - destruct (e =? EINTR)%Z; [apply IH | apply keeps_raise].
Qed.

Lemma keeps_write path line : path <> ip_forward_path -> keeps I (write_line path line).
Proof.
  intros Hp. apply keeps_bind; [|intros ok; apply keeps_bind; [apply keeps_emit | intros []; apply keeps_ret]].
  apply acts_call. intros h _. pose proof (write_reads h path (line +:+ newline)) as Hw.
  destruct (h_write _ _ _) as [ok h']. destruct Hw as (_ & Hr & Hi). split; [done|]. cbn. by rewrite Hr.
Qed.

End Keeping.

End Commands.

Ltac kbind := apply keeps_bind; [exact _ | |].

Section Restore.
Context `{H : Host} `{Ma : !Machine} `{MO : !MachineOk}.

(** ** Computations that close descriptors *)

Section Closing.
Context (I : host -> Prop) `{HI : !Stable I} (HF : forall h, I h -> foreign_routes h).

Lemma sys_close_undoes fd (R : host -> host -> Prop) : (forall h, R h (h_close h fd)) -> undoes (sys_close fd) R.
Proof. intros HR w. eexists. split; [reflexivity|]. split; [by eexists [_] | intros _; apply HR]. Qed.

Lemma close_keeping fd : undoes (sys_close fd) (keeping I).
Proof.
  apply sys_close_undoes. intros h Hh. split; [|by rewrite close_reads]. intros tool.
  destruct (decide (tool = ip)) as [->|]; [|by apply close_tables]. rewrite close_routes.
  apply filter_all. intros e He. by eapply HF.
Qed.

Lemma destroy_undoes fd (R : host -> host -> Prop) :
  (forall h, R h h) -> ((0 <= fd)%Z -> undoes (sys_close (Z.to_nat fd)) R) -> undoes (UniqueFd_destroy fd) R.
Proof.
  intros Hr Hc. unfold UniqueFd_destroy, UniqueFd_reset. destruct (0 <=? fd)%Z eqn:E; [|by apply undoes_ret].
  intros w. destruct (Hc (proj1 (Z.leb_le _ _) E) w) as (w' & Ew & He). exists w'.
  unfold mbind, M_bind. by rewrite Ew.
Qed.

Lemma destroy_keeping fd : undoes (UniqueFd_destroy fd) (keeping I).
Proof. apply destroy_undoes; [apply keeping_refl | intros _; apply close_keeping]. Qed.

(** A question asked of a tool. *)
Lemma keeps_run_capture tool args : change tool args = None -> keeps I (run_capture tool args).
Proof.
  intros Hc. apply acts_recorded. eapply keeps_bind_returns; [exact _ | | apply binary_for_returns|].
  { eapply acts_weaken; [apply binary_for_acts | intros h a h' [_ ->] | intros h h' ->]; apply keeping_refl. }
  intros path Hp. unfold spawn_and_wait. kbind; [apply keeps_ask|]. intros setup. destruct (negb _); [apply keeps_raise|].
  destruct (sp_pipe setup) as [[r w]|e]; [|apply keeps_raise].
  kbind; [apply keeps_emit|]. intros []. kbind; [apply keeps_emit|]. intros [].
  apply keeps_scoped; [exact _ | apply close_keeping|]. kbind.
  - apply keeps_scoped; [exact _ | apply close_keeping|]. destruct (negb _); [apply keeps_raise | exact (keeps_spawn _ _ _ _ _ Hp Hc)].
  - intros c. kbind; [apply keeps_read|]. intros text. by apply keeps_reap.
Qed.

Lemma keeps_route_to address : keeps I (route_to address).
Proof.
  kbind; [by apply keeps_run_capture|]. intros out.
  destruct (String.eqb out ""); [apply keeps_raise|]. cbv zeta.
  destruct (String.eqb _ ""); [apply keeps_raise | apply keeps_ret].
Qed.

End Closing.

(** ** A stack of changes on top of a configuration *)

Definition entries (tool : Tool) (cs : ChangeSet) : list (list string) :=
  omap (fun c => if decide (sc_tool c = tool) then Some (sc_undo c) else None) cs.

Lemma entries_snoc tool cs c :
  entries tool (cs ++ [c]) = entries tool cs ++ if decide (sc_tool c = tool) then [sc_undo c] else [].
Proof.
  unfold entries. induction cs as [|c' cs IH]; cbn; [by case_decide|].
  destruct (decide (sc_tool c' = tool)); [|exact IH]. cbn. f_equal. exact IH.
Qed.

(** [h] is [h0] with the changes [cs] made, none of which was there before, and
    the sysctl at [fwd]. *)
Record stacked (h0 : host) (fwd : option string) (cs : ChangeSet) (h : host) : Prop := {
  st_installed tool : installed h tool = installed h0 tool ++ entries tool cs;
  st_new tool : NoDup (entries tool cs) /\ forall x, x ∈ entries tool cs -> x ∉ installed h0 tool;
  st_forward : (line_of <$> h_read h ip_forward_path) = fwd
}.

Lemma stacked_keeps h0 fwd cs h h' : stacked h0 fwd cs h -> same_config h h' -> stacked h0 fwd cs h'.
Proof. intros [] [Hi Hr]. constructor; [intros tool; by rewrite Hi | done | by rewrite Hr]. Qed.

Lemma stacked_nil h fwd : (line_of <$> h_read h ip_forward_path) = fwd -> stacked h fwd [] h.
Proof.
  intros Hf. constructor; [intros tool; by rewrite app_nil_r | | done].
  intros tool. split; [constructor|]. by intros x ?%elem_of_nil.
Qed.

(** Partial correctness for assertions about one machine. *)
Definition triple (P : host -> Prop) {A} (m : M A) (Q : A -> host -> Prop) (E : host -> Prop) : Prop :=
  acts m (fun h a h' => P h -> Q a h') (fun h h' => P h -> E h').

Lemma triple_bind P {A B} (m : M A) (f : A -> M B) Q R E :
  triple P m Q E -> (forall a, triple (Q a) (f a) R E) -> triple P (m ≫= f) R E.
Proof.
  intros Hm Hf. eapply (acts_bind _ _ _ _ (fun a h b h' => Q a h -> R b h') (fun a h h' => Q a h -> E h'));
    [exact Hm | exact Hf | auto..].
Qed.

Lemma triple_bind_returns P {A B} (m : M A) (f : A -> M B) V Q R E :
  triple P m Q E -> returns m V -> (forall a, V a -> triple (Q a) (f a) R E) -> triple P (m ≫= f) R E.
Proof.
  intros Hm HV Hf.
  eapply (acts_bind_returns _ _ V _ _ (fun a h b h' => Q a h -> R b h') (fun a h h' => Q a h -> E h'));
    [exact Hm | exact HV | exact Hf | auto..].
Qed.

Lemma triple_conseq (P P' : host -> Prop) {A} (m : M A) (Q Q' : A -> host -> Prop) (E E' : host -> Prop) :
  triple P m Q E -> (forall h, P' h -> P h) -> (forall a h, Q a h -> Q' a h) -> (forall h, E h -> E' h) ->
  triple P' m Q' E'.
Proof. intros Hm HP HQ HE. eapply acts_weaken; [exact Hm|..]; cbv beta; auto. Qed.

(** A fact that is not about the current machine. *)
Lemma triple_frame (X : Prop) P {A} (m : M A) Q E :
  triple P m Q E -> triple (fun h => X /\ P h) m (fun a h => X /\ Q a h) E.
Proof.
  intros Hm. eapply acts_weaken; [exact Hm | intros h a h' HQ [HX HP] | intros h h' HE [HX HP]]; auto.
Qed.

Lemma triple_ret P {A} (a : A) Q E : (forall h, P h -> Q a h) -> triple P (mret a) Q E.
Proof. intros HQ. apply acts_ret. exact HQ. Qed.
Lemma triple_emit P e Q E : (forall h, P h -> Q tt h) -> triple P (emit e) Q E.
Proof. intros HQ. apply acts_emit. intros h _. apply HQ. Qed.

(** From a starting machine fixed beforehand. *)
Lemma keeps_triple I {A} (m : M A) :
  (forall h0, triple (fun h => I h0 /\ h = h0) m (fun _ => same_config h0) (same_config h0)) -> keeps I m.
Proof.
  intros Hm w. specialize (Hm (w_host w) w). destruct (m w) as [r w']. destruct Hm as [He Hc].
  split; [done|]. intros Hcl. specialize (Hc Hcl). unfold keeping. destruct r; auto.
Qed.

Lemma triple_scoped P {A} d (m : M A) S T :
  triple P m (fun _ => S) S -> undoes d (fun h h' => S h -> T h') -> triple P (scoped d m) (fun _ => T) T.
Proof. intros Hm Hd. eapply acts_scoped; [exact Hm | exact Hd | auto..]. Qed.

Lemma triple_unless_returned P {A} d (m : M A) Q S T :
  triple P m Q S -> undoes d (fun h h' => S h -> T h') -> triple P (unless_returned d m) Q T.
Proof. intros Hm Hd. eapply acts_unless_returned; [exact Hm | exact Hd | auto..]. Qed.

Lemma triple_keeps P I {A} (m : M A) :
  keeps I m -> (forall h, P h -> I h) -> (forall h h', P h -> same_config h h' -> P h') ->
  triple P m (fun _ => P) P.
Proof. intros Hm HI HP. eapply acts_weaken; [exact Hm|..]; unfold keeping; eauto. Qed.

(** The new entry of an addition to one tool's table. *)
Definition new_entry (h0 : host) (cs : ChangeSet) (tool : Tool) (undo : list string) : Prop :=
  tool = ip \/ ((undo ∉ installed h0 tool) /\ (undo ∉ entries tool cs)).

Lemma ran_only_stacked h0 fwd cs tool h h' :
  only tool h h' -> installed h' tool = installed h tool -> stacked h0 fwd cs h -> stacked h0 fwd cs h'.
Proof.
  intros [Hr Ho] Ht Hs. eapply stacked_keeps; [exact Hs|]. split; [|by rewrite Hr].
  intros t. destruct (decide (t = tool)) as [->|]; auto.
Qed.

Lemma run_add_stacked h0 fwd cs tool apply undo :
  change tool apply = Some (true, undo) ->
  triple (fun h => new_entry h0 cs tool undo /\ stacked h0 fwd cs h) (run tool apply)
    (fun _ => stacked h0 fwd (cs ++ [mkCommand tool undo])) (stacked h0 fwd cs).
Proof.
  intros Hc. eapply acts_weaken; [apply run_acts|..]; unfold ran; rewrite Hc.
  2: { intros h h' [Ho Ht] [_ Hs]. by apply (ran_only_stacked _ _ _ tool h). }
  intros h _ h' [[Hr Ho] [Ht Hip]] [Hnew [Hi Hn Hf]].
  assert (undo ∉ installed h0 tool ++ entries tool cs) as Hfresh.
  { destruct Hnew as [->|[? ?]]; [rewrite <- Hi; auto | rewrite elem_of_app; tauto]. }
  rewrite elem_of_app in Hfresh. constructor.
  + intros t. rewrite entries_snoc. cbn. destruct (decide (tool = t)) as [<-|Hne].
    * by rewrite Ht, Hi, <- app_assoc.
    * by rewrite Ho, Hi, app_nil_r by congruence.
  + intros t. rewrite entries_snoc. cbn. destruct (Hn t) as [Hnd Hni].
    destruct (decide (tool = t)) as [<-|]; [|by rewrite app_nil_r]. split.
    * apply NoDup_app. split; [done|]. split; [|apply NoDup_singleton].
      intros x Hxc Heq%list_elem_of_singleton. subst x. tauto.
    * intros x [Hxc|Heq%list_elem_of_singleton]%elem_of_app; [auto | subst x; tauto].
  + by rewrite Hr.
Qed.

(** Removing the last entry. *)
Lemma ran_removed h0 fwd cs c h h' :
  removes c -> ran (sc_tool c) (sc_undo c) true h h' -> stacked h0 fwd (cs ++ [c]) h -> stacked h0 fwd cs h'.
Proof.
  unfold removes. set (tool := sc_tool c). set (undo := sc_undo c).
  intros Hc [[Hr Ho] Ht] [Hi Hn Hf]. rewrite Hc in Ht.
  pose proof (entries_snoc tool cs c) as Hes. fold tool in Hes. rewrite decide_True in Hes by done.
  destruct (Hn tool) as [Hnd Hni]. rewrite Hes in Hnd, Hni. apply NoDup_app in Hnd as (Hnd & Hdis & _).
  constructor; [| |by rewrite Hr].
  - intros t. destruct (decide (t = tool)) as [->|Hneq].
    + rewrite Ht, Hi, Hes, app_assoc. apply remove_first_last. rewrite elem_of_app.
      intros [Hx|Hx]; [eapply Hni, Hx; apply elem_of_app; right; left|].
      apply (Hdis _ Hx). left.
    + rewrite Ho, Hi, entries_snoc by done. fold tool. by rewrite decide_False, app_nil_r by congruence.
  - intros t. destruct (Hn t) as [Hnd' Hni']. rewrite entries_snoc in Hnd', Hni'.
    apply NoDup_app in Hnd' as (? & _). split; [done|]. intros x Hx. apply Hni'. apply elem_of_app. auto.
Qed.

(** In a clean trace the removal of a guard has worked. *)
Lemma ScopedCommand_destroy_undoes c :
  removes c -> undoes (ScopedCommand_destroy c) (ran (sc_tool c) (sc_undo c) true).
Proof.
  intros Hc w. unfold ScopedCommand_destroy. rewrite decide_False.
  2: { intros E. unfold removes in Hc. rewrite E in Hc. by destruct (sc_tool c). }
  unfold try_catch. pose proof (run_acts (sc_tool c) (sc_undo c) w) as Hr.
  pose proof (total_run (sc_tool c) (sc_undo c) w) as Ht.
  destruct (run _ _ w) as [[[]|e| |] w1]; try done; destruct Hr as [He Hr]; [by eexists|].
  eexists. split; [reflexivity|]. split; [eapply extends_trans; [exact He | apply extends_snoc]|].
  intros Hcl%clean_last. cbn [trouble] in Hcl. by rewrite prefix_app_str in Hcl.
Qed.

Lemma undo_all_stacked h0 fwd cs :
  Forall removes cs -> undoes (ChangeSet_undo_all cs) (fun h h' => stacked h0 fwd cs h -> stacked h0 fwd [] h').
Proof.
  unfold ChangeSet_undo_all. induction cs as [|c cs IH] using rev_ind; intros Hc.
  - by apply undoes_ret.
  - apply Forall_app in Hc as [Hcs Hc]. rewrite Forall_singleton in Hc. rewrite rev_app_distr. cbn [rev app pop_all].
    eapply undoes_seq; [by apply ScopedCommand_destroy_undoes | by apply IH|]. cbv beta.
    intros h h1 h2 Hr Hs Hh. by eapply Hs, ran_removed.
Qed.

(** Additions none of which is already there (for routes, ip(8) sees to that). *)
Definition new_changes (h0 : host) (cs : ChangeSet) (l : list (Tool * list string * list string)) : Prop :=
  Forall (fun c => sc_tool c = ip) (guard_of <$> l) \/
  (Forall (fun c => sc_undo c ∉ installed h0 (sc_tool c)) (guard_of <$> l) /\
   NoDup (cs ++ (guard_of <$> l))).

Lemma entries_elem tool cs undo : undo ∈ entries tool cs -> mkCommand tool undo ∈ cs.
Proof.
  unfold entries. rewrite list_elem_of_omap. intros (c & Hc & He).
  destruct (decide (sc_tool c = tool)) as [<-|]; [|done]. injection He as <-. by destruct c.
Qed.

(** Taking the first of them. *)
Lemma new_changes_cons h0 cs tool apply undo l :
  new_changes h0 cs ((tool, apply, undo) :: l) ->
  new_entry h0 cs tool undo /\ new_changes h0 (cs ++ [mkCommand tool undo]) l.
Proof.
  unfold new_changes, new_entry. cbn [fmap list_fmap guard_of]. rewrite !Forall_cons. cbn [sc_tool sc_undo].
  intros [[-> Hl]|[[Hu Hl] Hnd]]; [by split; [left | left]|].
  rewrite cons_middle, app_assoc in Hnd. split; [|by right]. right. split; [done|]. intros Hin%entries_elem.
  apply NoDup_app in Hnd as (Hnd & _). apply NoDup_app in Hnd as (_ & Hdis & _).
  apply (Hdis _ Hin). left.
Qed.

Lemma add_returns cs tool apply undo :
  returns (unless_returned (ChangeSet_undo_all cs) (ChangeSet_add cs tool apply undo))
    (fun cs' => cs' = cs ++ [mkCommand tool undo]).
Proof.
  apply returns_unless_returned. eapply (returns_bind _ _ (fun c => c = mkCommand tool undo)).
  - eapply returns_bind; [apply returns_any|]. intros [] _. by apply returns_ret.
  - intros c ->. by apply returns_ret.
Qed.

(** All of them are made, or those that were are undone again. *)
Lemma add_all_stacked h0 fwd l cs :
  Forall removes cs -> Forall reversible l ->
  triple (fun h => new_changes h0 cs l /\ stacked h0 fwd cs h) (add_all cs l)
    (fun _ => stacked h0 fwd (cs ++ (guard_of <$> l))) (stacked h0 fwd []).
Proof.
  intros Hcs Hl. revert cs Hcs. induction Hl as [|[[tool apply] undo] l [Ha Hu] _ IH];
    intros cs Hcs; cbn [add_all fmap list_fmap guard_of].
  { apply triple_ret. intros h [_ Hs]. by rewrite app_nil_r. }
  set (c := mkCommand tool undo). eapply (triple_bind_returns _ _ _ (fun cs' => cs' = cs ++ [c])
    (fun _ h => new_changes h0 (cs ++ [c]) l /\ stacked h0 fwd (cs ++ [c]) h)).
  - eapply (triple_unless_returned _ _ _ _ (stacked h0 fwd cs)); [|by apply undo_all_stacked].
    unfold ChangeSet_add, ScopedCommand_new.
    eapply (triple_bind _ _ _ (fun _ h => new_changes h0 (cs ++ [c]) l /\ stacked h0 fwd (cs ++ [c]) h)).
    + eapply (triple_bind _ _ _ (fun _ h => new_changes h0 (cs ++ [c]) l /\ stacked h0 fwd (cs ++ [c]) h));
        [|intros []; by apply triple_ret].
      eapply triple_conseq; [apply (triple_frame (new_changes h0 (cs ++ [c]) l)), (run_add_stacked h0 fwd cs _ _ undo Ha)
        | | done | done]. intros h [Hn Hs]. by apply new_changes_cons in Hn as [? ?].
    + intros c'. by apply triple_ret.
  - apply add_returns.
  - intros cs' ->. pose proof (IH (cs ++ [c])) as Hi. rewrite <- app_assoc in Hi. apply Hi.
    apply Forall_app. split; [done | by apply Forall_singleton].
Qed.

(** ** Brackets *)

(** [Guard x = install(); body] up to the closing brace. *)
Definition bracket {A B} (install : M A) (destroy : A -> M unit) (body : A -> M B) : M B :=
  x ← install; scoped (destroy x) (body x).

Lemma stacked_restored h0 h : stacked h0 (line_of <$> h_read h0 ip_forward_path) [] h -> same_config h0 h.
Proof. intros [Hi _ Hf]. split; [intros tool; by rewrite Hi, app_nil_r | done]. Qed.

(** What a body may rely on with entries of other tables on top. *)
Lemma stacked_foreign h0 fwd cs h :
  Forall (fun c => sc_tool c <> ip) cs -> foreign_routes h0 -> stacked h0 fwd cs h -> foreign_routes h.
Proof.
  intros Hcs Hf [Hi _ _] e h' fd. rewrite Hi, elem_of_app. intros [He|He]; [by apply Hf|].
  apply entries_elem in He. rewrite Forall_forall in Hcs. by specialize (Hcs _ He).
Qed.

(** A body under [cs], and the undoing of [cs]. *)
Lemma scope_restored I {B} h0 fwd cs (body : M B) :
  keeps I body -> Forall removes cs ->
  triple (fun h => (forall h', stacked h0 fwd cs h' -> I h') /\ stacked h0 fwd cs h)
    (scoped (ChangeSet_undo_all cs) body) (fun _ => stacked h0 fwd []) (stacked h0 fwd []).
Proof.
  intros Hb Hcs. eapply (triple_scoped _ _ _ (stacked h0 fwd cs)); [|by apply undo_all_stacked].
  eapply (triple_conseq _ _ _ (fun _ h => (forall h', stacked h0 fwd cs h' -> I h') /\ stacked h0 fwd cs h) _
            (fun h => (forall h', stacked h0 fwd cs h' -> I h') /\ stacked h0 fwd cs h));
    [eapply triple_keeps; [exact Hb | intros h [HI Hs]; by apply HI |] | by intros | by intros _ h [_ Hs] | by intros h [_ Hs]].
  intros h h' [HI Hs] Hsame. split; [done | by eapply stacked_keeps].
Qed.

Lemma local_returns l (note : string) :
  returns (cs ← add_all [] l; _ ← emit (Stderr note); mret cs) (fun cs => cs = guard_of <$> l).
Proof.
  eapply returns_bind; [apply add_all_returns|]. intros cs ->.
  eapply returns_bind; [apply returns_any|]. intros [] _. by apply returns_ret.
Qed.

Lemma local_stacked h0 fwd l (note : string) :
  Forall reversible l ->
  triple (fun h => new_changes h0 [] l /\ stacked h0 fwd [] h) (cs ← add_all [] l; _ ← emit (Stderr note); mret cs)
    (fun _ => stacked h0 fwd (guard_of <$> l)) (stacked h0 fwd []).
Proof.
  intros Hl. eapply triple_bind; [by apply (add_all_stacked h0 fwd l [])|]. intros cs.
  eapply (triple_bind _ _ _ (fun _ => stacked h0 fwd (guard_of <$> l))); [by apply triple_emit|].
  intros []. by apply triple_ret.
Qed.

(** Through [add_all] and the message, then the body, then the destructor. *)
Lemma changes_restored (I J : host -> Prop) {B} l (body : ChangeSet -> M B) (note : string) :
  Forall reversible l -> (forall h0, J h0 -> new_changes h0 [] l) -> (forall cs, keeps I (body cs)) ->
  (forall h0 fwd h, J h0 -> stacked h0 fwd (guard_of <$> l) h -> I h) ->
  keeps J (bracket (cs ← add_all [] l; _ ← emit (Stderr note); mret cs) ChangeSet_undo_all body).
Proof.
  intros Hl Hnew Hb HI. apply keeps_triple. intros h0. set (fwd := line_of <$> h_read h0 ip_forward_path).
  eapply (triple_conseq (fun h => J h0 /\ new_changes h0 [] l /\ stacked h0 fwd [] h) _ _
            (fun _ => stacked h0 fwd []) _ (stacked h0 fwd []));
    [| intros h [HJ ->]; split; [done | split; [by apply Hnew | by apply stacked_nil]]
     | intros _; apply stacked_restored | apply stacked_restored].
  eapply (triple_bind_returns _ _ _ _ (fun _ h => J h0 /\ stacked h0 fwd (guard_of <$> l) h));
    [by apply triple_frame, local_stacked | apply local_returns|].
  intros cs ->.
  eapply triple_conseq; [apply (scope_restored I h0 fwd); [apply Hb | by apply reversible_removes] | | by intros | by intros].
  cbv beta. intros h [HJ Hs]. split; [|exact Hs]. intros h'. by apply HI.
Qed.

(** ** The sysctl *)

Lemma line_of_line t : line_of (line_of t +:+ newline) = line_of t.
Proof.
  induction t as [|c t IH]; [done|]. cbn [line_of]. destruct (Ascii.eqb c "010") eqn:E; [done|].
  rewrite str_app_cons. cbn [line_of]. by rewrite E, IH.
Qed.

Lemma write_forward_acts line :
  acts (write_line ip_forward_path line)
    (fun h ok h' => (forall tool, installed h' tool = installed h tool) /\
       (line_of <$> h_read h' ip_forward_path) =
         if ok then Some (line_of (line +:+ newline)) else line_of <$> h_read h ip_forward_path)
    (fun _ _ => False).
Proof.
  intros w. pose proof (write_reads (w_host w) ip_forward_path (line +:+ newline)) as Hw.
  unfold write_line, mbind, M_bind, call. destruct (h_write _ _ _) as [ok h']. destruct Hw as (Hr & _ & Hi).
  split; [by eexists [_]|]. intros _. split; [done|]. cbn [w_host]. rewrite Hr. by destruct ok.
Qed.

(** What the guard remembers of the machine it was made on. *)
Definition remembers (h0 : host) (y : ScopedSysctl) : Prop :=
  sy_path y = ip_forward_path /\
  (line_of <$> h_read h0 ip_forward_path) = Some (if sy_active y then sy_previous y else "1") /\
  line_of (sy_previous y +:+ newline) = sy_previous y.

Lemma sysctl_new_stacked h0 :
  triple (fun h => h = h0) (ScopedSysctl_new ip_forward_path "1")
    (fun y h => remembers h0 y /\ stacked h0 (Some "1") [] h) (same_config h0).
Proof.
  unfold ScopedSysctl_new.
  eapply (triple_bind _ _ _ (fun text h => text = h_read h0 ip_forward_path /\ h = h0)).
  { apply acts_ask. by intros h ->. }
  intros [t|]; [|by apply acts_raise; intros h [_ ->]].
  eapply (triple_bind _ _ _ (fun _ h => Some t = h_read h0 ip_forward_path /\ h = h0)); [by apply triple_emit|].
  intros []. destruct (String.eqb_spec (line_of t) "1") as [E|_].
  - apply triple_ret. intros h [Ht ->]. split; [|by apply stacked_nil; rewrite <- Ht; cbn; rewrite E].
    split; [done|]. cbn [sy_active sy_previous]. rewrite <- Ht, line_of_line. cbn. by rewrite E.
  - eapply (triple_bind _ _ _ (fun ok h => Some t = h_read h0 ip_forward_path /\
      (forall tool, installed h tool = installed h0 tool) /\
      (line_of <$> h_read h ip_forward_path) = if (ok : bool) then Some "1" else line_of <$> h_read h0 ip_forward_path)).
    + eapply acts_weaken; [apply write_forward_acts | | by intros h h' []].
      intros h ok h' Hs [Ht ->]. done.
    + intros []; cbn [negb]; [|apply acts_raise; by intros h (_ & Hi & Hr)].
      apply triple_ret. intros h (Ht & Hi & Hr). split.
      * split; [done|]. cbn [sy_active sy_previous]. by rewrite <- Ht, line_of_line.
      * constructor; [intros tool; by rewrite Hi, app_nil_r | | done].
        intros tool. split; [constructor|]. by intros x ?%elem_of_nil.
Qed.

Lemma sysctl_destroy_restores h0 y :
  undoes (ScopedSysctl_destroy y) (fun h h' => remembers h0 y -> stacked h0 (Some "1") [] h -> same_config h0 h').
Proof.
  unfold ScopedSysctl_destroy, ScopedSysctl_restore. destruct (sy_active y) eqn:Ha; cbn [negb].
  2: { apply undoes_ret. intros h (Hp & Hf & _) [Hi _ Hw]. rewrite Ha in Hf.
       split; [intros tool; by rewrite Hi, app_nil_r | by rewrite Hw, Hf]. }
  intros w. unfold write_line, mbind, M_bind, call.
  pose proof (write_forward_acts (sy_previous y) w) as Hw. unfold write_line, mbind, M_bind, call in Hw.
  destruct (decide (sy_path y = ip_forward_path)) as [->|Hne].
  - destruct (h_write _ _ _) as [[] h']; cbn [negb].
    + eexists. split; [reflexivity|]. destruct Hw as [He Hw]. split; [exact He|]. intros Hcl.
      destruct (Hw Hcl) as [Hi' Hr]. intros (_ & Hf & Hl) [Hi _ _]. rewrite Ha in Hf. split; cbn [w_host] in *.
      * intros tool. by rewrite Hi', Hi, app_nil_r.
      * by rewrite Hr, Hf, Hl.
    + eexists. split; [reflexivity|]. split; [by eexists [_; _]; cbn; rewrite <- app_assoc|].
      intros Hcl%clean_last. cbn [trouble] in Hcl. by rewrite prefix_app_str, orb_true_r in Hcl.
  - clear Hw. destruct (h_write _ _ _) as [[] h']; cbn [negb]; (eexists; split; [reflexivity|]);
      (split; [first [by eexists [_] | by eexists [_; _]; cbn; rewrite <- app_assoc] | by intros _ (? & _)]).
Qed.

(** The bracket around an installer of the server: the sysctl, then the rules. *)
Lemma nat_restored (I J : host -> Prop) {B} l (body : ServerNat -> M B) (note : string) :
  Forall reversible l -> (forall h0, J h0 -> new_changes h0 [] l) -> (forall nat, keeps I (body nat)) ->
  (forall h0 fwd h, J h0 -> stacked h0 fwd (guard_of <$> l) h -> I h) ->
  keeps J
    (bracket (y ← ScopedSysctl_new ip_forward_path "1";
              unless_returned (ScopedSysctl_destroy y)
                (cs ← add_all [] l; _ ← emit (Stderr note); mret (mkNat y cs)))
             ServerNat_destroy body).
Proof.
  intros Hl Hnew Hb HI. apply keeps_triple. intros h0.
  set (made nat h := (J h0 /\ remembers h0 (sn_ip_forward nat)) /\ stacked h0 (Some "1") (guard_of <$> l) h).
  eapply (triple_bind_returns _ _ _ (fun nat => sn_rules nat = guard_of <$> l) made).
  - eapply (triple_bind _ _ _ (fun y h => J h0 /\ remembers h0 y /\ stacked h0 (Some "1") [] h));
      [apply triple_frame, sysctl_new_stacked|]. intros y.
    eapply (triple_unless_returned _ _ _ _ (fun h => remembers h0 y /\ stacked h0 (Some "1") [] h)).
    2: { eapply undoes_weaken; [apply (sysctl_destroy_restores h0)|]. cbv beta. intros h h' Hr [Hy Hs]. by apply Hr. }
    eapply (triple_bind_returns _ _ _ (fun cs => cs = guard_of <$> l)
              (fun _ h => (J h0 /\ remembers h0 y) /\ stacked h0 (Some "1") (guard_of <$> l) h)).
    + eapply acts_weaken; [apply (add_all_stacked h0 (Some "1") l [] (Forall_nil_2 _) Hl)|..]; cbv beta.
      * intros h cs h' Hs (HJ & Hy & Hh). split; [done|]. apply Hs. split; [by apply Hnew | done].
      * intros h h' Hs (HJ & Hy & Hh). split; [done|]. apply Hs. split; [by apply Hnew | done].
    + apply add_all_returns.
    + intros cs ->. eapply (triple_bind _ _ _ (fun _ h => (J h0 /\ remembers h0 y) /\ stacked h0 (Some "1") (guard_of <$> l) h));
        [by apply triple_emit | intros []; by apply triple_ret].
  - eapply returns_bind; [apply returns_any|]. intros y _. apply returns_unless_returned.
    eapply returns_bind; [apply add_all_returns|]. intros cs ->.
    eapply returns_bind; [apply returns_any|]. intros [] _. by apply returns_ret.
  - intros nat Hcs. eapply (triple_scoped _ _ _ (made nat)).
    + eapply (triple_keeps _ I); [apply Hb | |].
      * intros h [[HJ _] Hs]. by eapply HI.
      * intros h h' [HJ Hs] Hsame. split; [done | by eapply stacked_keeps].
    + eapply undoes_seq; [rewrite Hcs; apply (undo_all_stacked h0 (Some "1")); by apply reversible_removes |
        apply (sysctl_destroy_restores h0)|]. cbv beta. intros h h1 h2 H1 H2 [[_ Hy] Hs]. auto.
Qed.

(** ** The rules of the three configurations are distinct *)

Lemma new_rules {A} tool (f : A -> Tool * list string * list string) l h0 :
  (forall x, sc_tool (guard_of (f x)) = tool) ->
  (forall x, x ∈ l -> sc_undo (guard_of (f x)) ∉ installed h0 tool) ->
  NoDup (guard_of <$> map f l) -> new_changes h0 [] (map f l).
Proof.
  intros Ht Hu Hnd. right. split; [|done]. apply Forall_forall. intros c Hc.
  apply list_elem_of_fmap in Hc as (y & -> & Hy). apply list_elem_of_fmap in Hy as (x & -> & Hx).
  rewrite Ht. by apply Hu.
Qed.

Lemma nat_rules_distinct tun_dev subnet wan : NoDup (guard_of <$> map nat_change (nat_rules tun_dev subnet wan)).
Proof. cbn. repeat constructor; set_solver. Qed.

Lemma ipv6_rules_distinct : NoDup (guard_of <$> map ipv6_change ipv6_rules).
Proof. refine (bool_decide_unpack _ _). by vm_compute. Qed.

(** Routes are new whenever they can be added. *)
Lemma new_routes l h0 : new_changes h0 [] (map route_change l).
Proof.
  left. apply Forall_forall. intros c Hc. apply list_elem_of_fmap in Hc as (y & -> & Hy).
  by apply list_elem_of_fmap in Hy as (x & -> & Hx).
Qed.

(** ** The three configurations *)

Lemma bind_assoc {A B C} (m : M A) (f : A -> M B) (g : B -> M C) w :
  (a ← m; b ← f a; g b) w = (b ← (a ← m; f a); g b) w.
Proof. unfold mbind, M_bind. by destruct (m w) as [[]]. Qed.

Lemma client_routes_restored {B} tun_dev server (body : ChangeSet -> M B) :
  (forall cs, keeps (fun _ => True) (body cs)) ->
  keeps foreign_routes (bracket (install_client_routes tun_dev server) ChangeSet_undo_all body).
Proof.
  intros Hb. eapply acts_ext; [intros w; apply bind_assoc|].
  apply keeps_bind; [exact _ | apply keeps_route_to; [exact _ | done]|]. intros underlay.
  apply (changes_restored (fun _ => True) foreign_routes (map route_change (client_routes tun_dev server underlay)) body);
    [apply routes_reversible | intros; apply new_routes | done..].
Qed.

(** No rule of the IPv6 block, and no NAT rule, is there already. *)
Definition no_block (h : host) : Prop :=
  forall spec, spec ∈ ipv6_rules -> "-D" :: spec ∉ installed h ip6tables.
Definition no_nat (tun_dev subnet wan : string) (h : host) : Prop :=
  forall table spec, (table, spec) ∈ nat_rules tun_dev subnet wan ->
    ["-t"; table; "-D"] ++ spec ∉ installed h iptables.

Lemma block_restored {B} (body : ChangeSet -> M B) :
  (forall cs, keeps foreign_routes (body cs)) ->
  keeps (fun h => foreign_routes h /\ no_block h) (bracket block_host_ipv6 ChangeSet_undo_all body).
Proof.
  intros Hb. eapply changes_restored; [apply ipv6_reversible | | exact Hb |].
  - intros h0 [_ Hnew]. apply (new_rules ip6tables ipv6_change); [by intros | exact Hnew | apply ipv6_rules_distinct].
  - intros h0 fwd h [Hf _]. apply stacked_foreign; [|done]. by repeat constructor.
Qed.

Lemma server_nat_restored {B} tun_dev subnet wan (body : ServerNat -> M B) :
  (forall nat, keeps foreign_routes (body nat)) ->
  keeps (fun h => foreign_routes h /\ no_nat tun_dev subnet wan h)
    (bracket (install_server_nat tun_dev subnet wan) ServerNat_destroy body).
Proof.
  intros Hb. eapply nat_restored; [apply nat_reversible | | exact Hb |].
  - intros h0 [_ Hnew]. apply (new_rules iptables nat_change); [by intros [] | | apply nat_rules_distinct].
    intros [table spec] Hin. by apply Hnew.
  - intros h0 fwd h [Hf _]. apply stacked_foreign; [|done]. by repeat constructor.
Qed.

(** ** A rule that was there already *)

(** With an identical rule first in the table, the deletion takes that one: the
    table ends with its oldest rule moved behind all the others. *)
Lemma duplicate_rule_moves tool apply undo rest w w1 c r w2 :
  reversible (tool, apply, undo) -> installed (w_host w) tool = undo :: rest ->
  ScopedCommand_new tool apply undo w = (Ret c, w1) -> ScopedCommand_destroy c w1 = (r, w2) ->
  clean (w_trace w2) -> installed (w_host w2) tool = rest ++ [undo].
Proof.
  intros [Ha Hu] Hi. unfold ScopedCommand_new, mbind, M_bind. pose proof (run_acts tool apply w) as Hr.
  destruct (run tool apply w) as [[[]|e| |] w']; try done. intros [= <- <-] Hd Hcl.
  destruct (ScopedCommand_destroy_undoes (mkCommand tool undo) Hu w') as (w3 & Hd' & He & Hu').
  rewrite Hd in Hd'. injection Hd' as -> ->. destruct Hr as [_ Hr].
  specialize (Hr (extends_clean _ _ He Hcl)) as [_ Hadd]. rewrite Ha in Hadd. destruct Hadd as [Hadd _].
  specialize (Hu' Hcl) as [_ Hdel]. cbn [sc_tool sc_undo] in Hdel. rewrite Hu, Hadd, Hi in Hdel.
  rewrite Hdel. cbn. by rewrite decide_True.
Qed.

End Restore.
