(* ===== verification/Relay.v ===== *)
(** * Relay: the event loop between the TUN device and the socket ([src/relay.h]/[.cpp])

    [Relay] is the local state of [run_relay]: the statistics, the current
    peer, the session, the handshake in flight, the timestamp guard and the
    three buffers.  One function per handler; what a handler does to the
    outside is the list of [action]s it returns.  The kernel's answers, the
    clock and the random draws a handler uses are the record of its step. *)

From Stdlib Require Import ZArith Lia String.
From stdpp Require Import base tactics numbers list option strings gmap.
From S2P Require Import Prelude Wire Crypto Noise Replay Session Net.

(** ** Statistics *)

Inductive stat : Set :=
| tun_to_udp_packets | tun_to_udp_bytes | udp_to_tun_packets | udp_to_tun_bytes
| dropped_no_peer | dropped_no_session | dropped_send_failed | dropped_oversize
| dropped_malformed | dropped_replay | dropped_auth_failed | dropped_counter_exhausted
| keepalives_received | endpoint_updates
| handshakes_started | handshakes_completed | handshakes_rejected.

#[export] Instance stat_eq_dec : EqDecision stat.
Proof. solve_decision. Defined.

(** The struct, as a function of the field; every field is a [uint64_t]. *)
Definition RelayStats : Type := stat -> Z.
Definition RelayStats_new : RelayStats := fun _ => 0%Z.

Definition add_stat (f : stat) (n : Z) (s : RelayStats) : RelayStats :=
  fun g => if decide (g = f) then u64 (s g + n) else s g.
Definition bump (f : stat) (s : RelayStats) : RelayStats := add_stat f 1 s.

(** ** Configuration and state *)

Inductive Role : Set := initiator | responder.

Record RelayConfig : Type := mkConfig {
  cfg_mtu : Z;
  cfg_role : Role;
  cfg_peer : option sockaddr_in;
  cfg_identity : option Identity      (* a pointer *)
}.

Record Relay : Type := mkRelay {
  rl_stats : RelayStats;
  rl_peer : option sockaddr_in;       (* config.peer, the only field of config that changes *)
  rl_session : Session;
  rl_pending : option Handshake;
  rl_guard : TimestampGuard;
  rl_last_initiation_ns : Z;
  rl_tun_buffer : list Z;
  rl_udp_buffer : list Z;
  rl_handshake_buffer : list Z
}.

Definition set_stats (s : Relay) (x : RelayStats) : Relay :=
  mkRelay x (rl_peer s) (rl_session s) (rl_pending s) (rl_guard s) (rl_last_initiation_ns s)
    (rl_tun_buffer s) (rl_udp_buffer s) (rl_handshake_buffer s).
Definition set_peer (s : Relay) (x : option sockaddr_in) : Relay :=
  mkRelay (rl_stats s) x (rl_session s) (rl_pending s) (rl_guard s) (rl_last_initiation_ns s)
    (rl_tun_buffer s) (rl_udp_buffer s) (rl_handshake_buffer s).
Definition set_session (s : Relay) (x : Session) : Relay :=
  mkRelay (rl_stats s) (rl_peer s) x (rl_pending s) (rl_guard s) (rl_last_initiation_ns s)
    (rl_tun_buffer s) (rl_udp_buffer s) (rl_handshake_buffer s).
Definition set_pending (s : Relay) (x : option Handshake) : Relay :=
  mkRelay (rl_stats s) (rl_peer s) (rl_session s) x (rl_guard s) (rl_last_initiation_ns s)
    (rl_tun_buffer s) (rl_udp_buffer s) (rl_handshake_buffer s).
Definition set_guard (s : Relay) (x : TimestampGuard) : Relay :=
  mkRelay (rl_stats s) (rl_peer s) (rl_session s) (rl_pending s) x (rl_last_initiation_ns s)
    (rl_tun_buffer s) (rl_udp_buffer s) (rl_handshake_buffer s).
Definition set_last_initiation_ns (s : Relay) (x : Z) : Relay :=
  mkRelay (rl_stats s) (rl_peer s) (rl_session s) (rl_pending s) (rl_guard s) x
    (rl_tun_buffer s) (rl_udp_buffer s) (rl_handshake_buffer s).
Definition set_tun_buffer (s : Relay) (x : list Z) : Relay :=
  mkRelay (rl_stats s) (rl_peer s) (rl_session s) (rl_pending s) (rl_guard s)
    (rl_last_initiation_ns s) x (rl_udp_buffer s) (rl_handshake_buffer s).
Definition set_udp_buffer (s : Relay) (x : list Z) : Relay :=
  mkRelay (rl_stats s) (rl_peer s) (rl_session s) (rl_pending s) (rl_guard s)
    (rl_last_initiation_ns s) (rl_tun_buffer s) x (rl_handshake_buffer s).
Definition set_handshake_buffer (s : Relay) (x : list Z) : Relay :=
  mkRelay (rl_stats s) (rl_peer s) (rl_session s) (rl_pending s) (rl_guard s)
    (rl_last_initiation_ns s) (rl_tun_buffer s) (rl_udp_buffer s) x.

(** [++stats.f] *)
Definition count (f : stat) (s : Relay) : Relay := set_stats s (bump f (rl_stats s)).

(** What the process does to the outside, in order. *)
Inductive action : Type :=
| SendTo (d : list Z) (to : sockaddr_in) (ok : bool)   (* the call and its result *)
| WriteTun (p : list Z) (taken : bool)
| Log (line : string).

Record tun_step : Type := mkTunStep {
  ts_read : list (sysres (list Z));
  ts_now : timespec;               (* CLOCK_MONOTONIC *)
  ts_entropy : Entropy;
  ts_send : list (sysres Z)
}.

Record udp_step : Type := mkUdpStep {
  us_recv : list (sysres (list Z * sockaddr_in));
  us_entropy : Entropy;
  us_send : list (sysres Z);
  us_write : list (sysres Z)
}.

Definition kHandshakeRetryNs : Z := 1000000000.

Definition monotonic_ns (now : timespec) : Z :=
  u64 (u64 (u64 (tv_sec now) * 1000000000) + u64 (tv_nsec now)).

Section Relay.
Context `{P : Primitives} `{I : Inet}.

(** ** Starting a handshake *)

Definition start_handshake (cfg : RelayConfig) (identity : Identity) (s : Relay) (step : tun_step)
    : Res (Relay * list action) :=
  match cfg_role cfg, rl_peer s with
  | initiator, Some peer =>
      let now := monotonic_ns (ts_now step) in
      if negb (rl_last_initiation_ns s =? 0)%Z &&
         (u64 (now - rl_last_initiation_ns s) <? kHandshakeRetryNs)%Z
      then Ok (s, []) else
      let s := set_last_initiation_ns s now in
      '(hs, buffer, n) ← write_initiation (Handshake_new identity) (rl_handshake_buffer s)
                           (ts_entropy step);
      let s := set_handshake_buffer (set_pending s (Some hs)) buffer in
      match n with
      | None => Ok (set_pending s None, [])
      | Some n =>
          message ← first buffer n;
          ok ← send_to message (ts_send step);
          Ok (count (if (ok : bool) then handshakes_started else dropped_send_failed) s,
              [SendTo message peer ok])
      end
  | _, _ => Ok (s, [])
  end.

(** ** A packet from the TUN device *)

(** Sealing the [len] bytes in the payload slot and sending them. *)
Definition send_packet (s : Relay) (peer : sockaddr_in) (len : nat) (step : tun_step)
    : Res (Relay * list action) :=
  '(session, buffer, n) ← seal (rl_session s) (rl_tun_buffer s) (Z.of_nat len);
  let s := set_tun_buffer (set_session s session) buffer in
  match n with
  | None => Ok (count dropped_counter_exhausted s, [])
  | Some n =>
      datagram ← first buffer n;
      ok ← send_to datagram (ts_send step);
      if (ok : bool)
      then
        let s := count tun_to_udp_packets s in
        Ok (set_stats s (add_stat tun_to_udp_bytes (Z.of_nat (length datagram)) (rl_stats s)),
            [SendTo datagram peer ok])
      else Ok (count dropped_send_failed s, [SendTo datagram peer ok])
  end.

(** [packet] has been read into the payload slot of the send buffer. *)
Definition handle_tun (cfg : RelayConfig) (identity : Identity) (s : Relay) (packet : list Z)
    (step : tun_step) : Res (Relay * list action) :=
  buffer ← copy_to (rl_tun_buffer s) kTransportHeaderSize packet;
  let s := set_tun_buffer s buffer in
  match rl_peer s with
  | None => Ok (count dropped_no_peer s, [])
  | Some peer =>
      if negb (ss_active (rl_session s)) then
        start_handshake cfg identity (count dropped_no_session s) step
      else
        send_packet s peer (length packet) step
  end.

(** ** A datagram from the socket *)

Definition established (from : sockaddr_in) : action :=
  Log ("session established with " +:+ format_endpoint from).

(** [config.peer = from] when it is not that already. *)
Definition moved (s : Relay) (from : sockaddr_in) : bool :=
  match rl_peer s with
  | None => true
  | Some peer => negb (same_endpoint peer from)
  end.

Definition learn_peer (s : Relay) (from : sockaddr_in) : Relay :=
  if moved s from then count endpoint_updates (set_peer s (Some from)) else s.

Definition handle_initiation (cfg : RelayConfig) (identity : Identity) (s : Relay)
    (datagram : list Z) (from : sockaddr_in) (step : udp_step) : Res (Relay * list action) :=
  match cfg_role cfg with
  | initiator => Ok (count dropped_malformed s, [])
  | responder =>
      '(ok, hs, guard) ← read_initiation (Handshake_new identity) datagram (rl_guard s);
      let s := set_guard s guard in
      if negb ok then Ok (count handshakes_rejected s, []) else
      '(_, buffer, keys, n) ← write_response hs (rl_handshake_buffer s) (ss_keys (rl_session s))
                                (us_entropy step);
      let s := set_session (set_handshake_buffer s buffer) (set_keys (rl_session s) keys) in
      match n with
      | None => Ok (count handshakes_rejected s, [])
      | Some n =>
          response ← first buffer n;
          let s := set_session s (activate (rl_session s)) in
          let s := learn_peer s from in
          ok ← send_to response (us_send step);
          if (ok : bool)
          then Ok (count handshakes_completed s, [SendTo response from ok; established from])
          else Ok (count dropped_send_failed s, [SendTo response from ok])
      end
  end.

Definition handle_response (cfg : RelayConfig) (s : Relay) (datagram : list Z) (from : sockaddr_in)
    : Res (Relay * list action) :=
  match cfg_role cfg, rl_pending s with
  | initiator, Some pending =>
      '(ok, pending, keys) ← read_response pending datagram (ss_keys (rl_session s));
      let s := set_session (set_pending s (Some pending)) (set_keys (rl_session s) keys) in
      if negb ok then Ok (count handshakes_rejected s, []) else
      let s := set_pending (set_session s (activate (rl_session s))) None in
      Ok (count handshakes_completed s, [established from])
  | _, _ => Ok (count dropped_malformed s, [])
  end.

(** An authenticated packet: the first [n] bytes of [sealed], opened in place. *)
Definition deliver (cfg : RelayConfig) (tun_name : string) (s : Relay) (sealed : list Z) (n : nat)
    (from : sockaddr_in) (step : udp_step) : Res (Relay * list action) :=
  plaintext ← first sealed n;
  let roamed := match cfg_role cfg with responder => moved s from | initiator => false end in
  let '(s, log) :=
    if roamed then (count endpoint_updates (set_peer s (Some from)),
                    [Log ("peer roamed to " +:+ format_endpoint from)])
    else (s, []) in
  if length plaintext =? 0 then Ok (count keepalives_received s, log) else
  taken ← write_packet tun_name plaintext (us_write step);
  let s := count udp_to_tun_packets s in
  Ok (set_stats s (add_stat udp_to_tun_bytes (Z.of_nat (length plaintext)) (rl_stats s)),
      log ++ [WriteTun plaintext taken]).

(** Decrypting over the received bytes. *)
Definition open_transport (cfg : RelayConfig) (tun_name : string) (s : Relay)
    (datagram : list Z) (counter : Z) (from : sockaddr_in) (step : udp_step)
    : Res (Relay * list action) :=
  sealed ← subspan_from datagram kTransportHeaderSize;
  '(session, sealed, n) ← open (rl_session s) counter sealed;
  buffer ← copy_to (rl_udp_buffer s) kTransportHeaderSize sealed;
  let s := set_udp_buffer (set_session s session) buffer in
  match n with
  | None => Ok (count dropped_auth_failed s, [])
  | Some n => deliver cfg tun_name s sealed n from step
  end.

Definition handle_transport (cfg : RelayConfig) (tun_name : string) (s : Relay)
    (datagram : list Z) (data : TransportData) (from : sockaddr_in) (step : udp_step)
    : Res (Relay * list action) :=
  if negb (ss_active (rl_session s)) then Ok (count dropped_no_session s, []) else
  if negb (td_receiver_index data =? local_index (rl_session s))%Z
  then Ok (count dropped_malformed s, []) else
  ok ← replay_acceptable (rl_session s) (td_counter data);
  if negb ok then Ok (count dropped_replay s, []) else
  open_transport cfg tun_name s datagram (td_counter data) from step.

(** [datagram] has been received into the front of the receive buffer. *)
Definition handle_udp (cfg : RelayConfig) (identity : Identity) (tun_name : string) (s : Relay)
    (datagram : list Z) (from : sockaddr_in) (step : udp_step) : Res (Relay * list action) :=
  buffer ← copy_to (rl_udp_buffer s) 0 datagram;
  let s := set_udp_buffer s buffer in
  if (max_datagram (cfg_mtu cfg) <? Z.of_nat (length datagram))%Z
  then Ok (count dropped_oversize s, []) else
  message ← decode datagram;
  match message with
  | None => Ok (count dropped_malformed s, [])
  | Some (MInitiation _) => handle_initiation cfg identity s datagram from step
  | Some (MResponse _) => handle_response cfg s datagram from
  | Some (MCookie _) => Ok (count dropped_malformed s, [])
  | Some (MTransport data) => handle_transport cfg tun_name s datagram data from step
  end.

(** ** The loop *)

(** [while (packet = tun.read_packet(...)) { ... }] *)
Fixpoint drain_tun (cfg : RelayConfig) (identity : Identity) (tun_name : string) (s : Relay)
    (steps : list tun_step) : Res (Relay * list action) :=
  match steps with
  | [] => Ok (s, [])
  | step :: steps =>
      packet ← read_packet tun_name (Z.to_nat (cfg_mtu cfg)) (ts_read step);
      match packet with
      | None => Ok (s, [])
      | Some packet =>
          '(s, out) ← handle_tun cfg identity s packet step;
          '(s, out') ← drain_tun cfg identity tun_name s steps;
          Ok (s, out ++ out')
      end
  end.

Fixpoint drain_udp (cfg : RelayConfig) (identity : Identity) (tun_name : string) (s : Relay)
    (steps : list udp_step) : Res (Relay * list action) :=
  match steps with
  | [] => Ok (s, [])
  | step :: steps =>
      datagram ← recv_from (length (rl_udp_buffer s)) (us_recv step);
      match datagram with
      | None => Ok (s, [])
      | Some (datagram, from) =>
          '(s, out) ← handle_udp cfg identity tun_name s datagram from step;
          '(s, out') ← drain_udp cfg identity tun_name s steps;
          Ok (s, out ++ out')
      end
  end.

(** Which descriptor became readable.  [OnSignal]: what the read of the
    signal descriptor returned, if a whole record. *)
Inductive event : Type :=
| OnTun (steps : list tun_step)
| OnUdp (steps : list udp_step)
| OnSignal (signo : option Z)
| OnOther.

Definition handle_event (cfg : RelayConfig) (identity : Identity) (tun_name : string) (s : Relay)
    (running : bool) (e : event) : Res (Relay * bool * list action) :=
  match e with
  | OnTun steps => '(s, out) ← drain_tun cfg identity tun_name s steps; Ok (s, running, out)
  | OnUdp steps => '(s, out) ← drain_udp cfg identity tun_name s steps; Ok (s, running, out)
  | OnSignal (Some signo) =>
      Ok (s, false, [Log ("signal " +:+ to_string signo +:+ " received, shutting down")])
  | OnSignal None => Ok (s, false, [])
  | OnOther => Ok (s, running, [])
  end.

(** The events of one [epoll_wait]; a signal does not skip the rest of them. *)
Fixpoint handle_events (cfg : RelayConfig) (identity : Identity) (tun_name : string) (s : Relay)
    (running : bool) (es : list event) : Res (Relay * bool * list action) :=
  match es with
  | [] => Ok (s, running, [])
  | e :: es =>
      '(s, running, out) ← handle_event cfg identity tun_name s running e;
      '(s, running, out') ← handle_events cfg identity tun_name s running es;
      Ok (s, running, out ++ out')
  end.

(** [while (running)], over the answers of [epoll_wait]; past their end the
    call blocks and the loop is still running. *)
Fixpoint relay_loop (cfg : RelayConfig) (identity : Identity) (tun_name : string) (s : Relay)
    (waits : list (sysres (list event))) : Res (Relay * bool * list action) :=
  match waits with
  | [] => Ok (s, true, [])
  | SysErr e :: waits =>
      if (e =? EINTR)%Z then relay_loop cfg identity tun_name s waits
      else Throw (system_error e "epoll_wait")
  | SysOk es :: waits =>
      '(s, running, out) ← handle_events cfg identity tun_name s true es;
      if (running : bool) then
        '(s, running, out') ← relay_loop cfg identity tun_name s waits;
        Ok (s, running, out ++ out')
      else Ok (s, false, out)
  end.

(** ** Setting up *)

Definition check {A} (r : sysres A) (what : string) : Res A :=
  match r with
  | SysOk a => Ok a
  | SysErr e => Throw (system_error e what)
  end.

(** The answers of [sigprocmask] and of the three [epoll_ctl]s. *)
Record relay_setup : Type := mkSetup {
  su_sigprocmask : sysres unit;
  su_add_tun : sysres unit;
  su_add_sock : sysres unit;
  su_add_signal : sysres unit
}.

Definition epoll_add (r : sysres unit) : Res unit := check r "epoll_ctl(EPOLL_CTL_ADD)".

Definition relay_init (cfg : RelayConfig) : Relay :=
  let mtu := cfg_mtu cfg in
  mkRelay RelayStats_new (cfg_peer cfg) Session_new None TimestampGuard_new 0
    (replicate (kTransportHeaderSize + Z.to_nat (padded_length mtu) + Wire.kTagSize) 0%Z)
    (replicate (Z.to_nat (max_datagram mtu) + 1) 0%Z)
    (replicate kInitiationSize 0%Z).

(** From the registrations on; the two descriptors made before are in [Programs.v]. *)
Definition relay_serve (cfg : RelayConfig) (identity : Identity) (tun_name : string) (u : relay_setup)
    (waits : list (sysres (list event))) : Res (Relay * bool * list action) :=
  _ ← epoll_add (su_add_tun u);
  _ ← epoll_add (su_add_sock u);
  _ ← epoll_add (su_add_signal u);
  relay_loop cfg identity tun_name (relay_init cfg) waits.

End Relay.
