(* ===== verification/RelayProofs.v ===== *)
(** * RelayProofs: what the event loop guarantees

    [relay_inv] is the invariant of the loop.  Every handler preserves it,
    never has undefined behaviour, and throws only what a kernel answer calls
    for (the fault predicates); nothing an unauthenticated sender does
    makes the process act or move its peer; every datagram is accounted for
    once; and two relays configured for each other carry a packet from one
    TUN device to the other. *)

From Stdlib Require Import ZArith Lia String.
From stdpp Require Import base tactics numbers list option strings gmap.
From S2P Require Import Prelude Wire Crypto Toy Noise HandshakeProofs Replay Session Net Relay.

(** ** Faults *)

(** The exceptions a script of kernel answers calls for: an error outside the
    ones the call tolerates, or a packet the device took in part. *)
Definition send_fault (script : list (sysres Z)) (x : exn) : Prop :=
  exists e, SysErr e ∈ script /\ x = system_error e "sendto" /\
    e ∉ [EINTR; EAGAIN; ENOBUFS; EMSGSIZE; ENETUNREACH; EHOSTUNREACH; ECONNREFUSED; EPERM].

Definition recv_fault (script : list (sysres (list Z * sockaddr_in))) (x : exn) : Prop :=
  exists e, SysErr e ∈ script /\ x = system_error e "recvfrom" /\
    e ∉ [EINTR; EAGAIN; ECONNREFUSED; ENETUNREACH; EHOSTUNREACH].

Definition read_fault (name : string) (script : list (sysres (list Z))) (x : exn) : Prop :=
  exists e, SysErr e ∈ script /\ x = system_error e ("read from " +:+ name) /\ e ∉ [EINTR; EAGAIN].

Definition write_fault (name : string) (script : list (sysres Z)) (x : exn) : Prop :=
  (exists e, SysErr e ∈ script /\ x = system_error e ("write to " +:+ name) /\ e ∉ [EINTR; EAGAIN]) \/
  (exists n size, SysOk n ∈ script /\ n <> size /\
     x = runtime_error ("short write to " +:+ name +:+ ": " +:+ to_string n +:+ " of " +:+
                        to_string size +:+ " bytes")).

Definition tun_fault (name : string) (t : tun_step) (x : exn) : Prop :=
  read_fault name (ts_read t) x \/ send_fault (ts_send t) x.

Definition udp_fault (name : string) (t : udp_step) (x : exn) : Prop :=
  recv_fault (us_recv t) x \/ send_fault (us_send t) x \/ write_fault name (us_write t) x.

Definition event_fault (name : string) (e : event) (x : exn) : Prop :=
  match e with
  | OnTun ts => Exists (fun t => tun_fault name t x) ts
  | OnUdp us => Exists (fun t => udp_fault name t x) us
  | _ => False
  end.

Definition wait_fault (name : string) (w : sysres (list event)) (x : exn) : Prop :=
  match w with
  | SysOk es => Exists (fun e => event_fault name e x) es
  | SysErr e => e <> EINTR /\ x = system_error e "epoll_wait"
  end.

Definition setup_fault (u : relay_setup) (x : exn) : Prop :=
  exists e, SysErr e ∈ [su_add_tun u; su_add_sock u; su_add_signal u] /\
    x = system_error e "epoll_ctl(EPOLL_CTL_ADD)".

(** ** Outcomes *)

(** Never undefined, throws only what [E] allows, and establishes [Q] when it
    returns. *)
Definition safe {A} (E : exn -> Prop) (m : Res A) (Q : A -> Prop) : Prop :=
  match m with
  | Ok a => Q a
  | Throw x => E x
  | Ub => False
  end.

Lemma safe_bind {A B} (E F : exn -> Prop) (m : Res A) (f : A -> Res B) (Q : A -> Prop) (R : B -> Prop) :
  safe F m Q -> (forall x, F x -> E x) -> (forall a, Q a -> safe E (f a) R) -> safe E (m ≫= f) R.
Proof. destruct m; cbn; auto. Qed.

Lemma safe_mono {A} (E F : exn -> Prop) (m : Res A) (Q R : A -> Prop) :
  safe F m Q -> (forall x, F x -> E x) -> (forall a, Q a -> R a) -> safe E m R.
Proof. destruct m; cbn; auto. Qed.

(** An error none of the tests of the call let through. *)
Lemma not_tolerated e l : one_of e l = false -> e ∉ l.
Proof.
  unfold one_of. intros H Hin. apply list_elem_of_In in Hin.
  rewrite (proj2 (existsb_exists _ _)) in H; [done|]. exists e. split; [done|]. apply Z.eqb_refl.
Qed.

(** The call is made again, and the faults are those of the remaining answers. *)
Ltac interrupted IH :=
  eapply safe_mono; [exact IH | intros x (e & ? & ?); exists e; set_solver | done].

Lemma send_to_safe packet script :
  safe (send_fault script) (send_to packet script) (fun _ => True).
Proof.
  induction script as [|[n|e] script IH]; cbn [send_to]; [done..|].
  destruct (Z.eqb_spec e EINTR) as [->|Hi].
  - interrupted IH.
  - destruct (one_of _ _) eqn:He; [done|]. apply not_tolerated in He. exists e. set_solver.
Qed.

Lemma write_packet_safe name packet script :
  safe (write_fault name script) (write_packet name packet script) (fun _ => True).
Proof.
  induction script as [|[n|e] script IH]; cbn [write_packet]; [done| |].
  - destruct (Z.eqb_spec n (Z.of_nat (length packet))); [done|]. right. exists n, (Z.of_nat (length packet)).
    set_solver.
  - destruct (Z.eqb_spec e EINTR) as [->|Hi].
    + eapply safe_mono; [exact IH | | done].
      intros x [(e & ? & ?)|(n & k & ? & ?)]; [left; exists e | right; exists n, k]; set_solver.
    + destruct (Z.eqb_spec e EAGAIN); [done|]. left. exists e. set_solver.
Qed.

Lemma recv_from_safe size script :
  Forall (fun r => match r with SysOk (d, _) => bytes_ok d | _ => True end) script ->
  safe (recv_fault script) (recv_from size script)
    (fun r => forall d from, r = Some (d, from) -> bytes_ok d /\ length d ≤ size).
Proof.
  induction 1 as [|[[d from]|e] script Hd _ IH]; cbn [recv_from]; [done| |].
  - intros d' from' [= <- <-]. split; [auto with vpn|]. rewrite length_take. lia.
  - destruct (Z.eqb_spec e EINTR) as [->|Hi].
    + interrupted IH.
    + destruct (Z.eqb_spec e EAGAIN); [done|]. destruct (one_of _ _) eqn:He; [done|].
      apply not_tolerated in He. exists e. set_solver.
Qed.

Lemma read_packet_safe name size script :
  Forall (fun r => match r with SysOk d => bytes_ok d | _ => True end) script ->
  safe (read_fault name script) (read_packet name size script)
    (fun r => forall d, r = Some d -> bytes_ok d /\ length d ≤ size).
Proof.
  induction 1 as [|[d|e] script Hd _ IH]; cbn [read_packet]; [done| |].
  - intros d' [= <-]. split; [auto with vpn|]. rewrite length_take. lia.
  - destruct (Z.eqb_spec e EINTR) as [->|Hi].
    + interrupted IH.
    + destruct (Z.eqb_spec e EAGAIN); [done|]. exists e. set_solver.
Qed.

(** ** The invariant *)

Tactic Notation "relay_cbn" :=
  cbn [count set_stats set_peer set_session set_pending set_guard set_last_initiation_ns
       set_tun_buffer set_udp_buffer set_handshake_buffer
       rl_stats rl_peer rl_session rl_pending rl_guard rl_last_initiation_ns
       rl_tun_buffer rl_udp_buffer rl_handshake_buffer].
Tactic Notation "relay_cbn" "in" "*" :=
  cbn [count set_stats set_peer set_session set_pending set_guard set_last_initiation_ns
       set_tun_buffer set_udp_buffer set_handshake_buffer
       rl_stats rl_peer rl_session rl_pending rl_guard rl_last_initiation_ns
       rl_tun_buffer rl_udp_buffer rl_handshake_buffer] in *.

Section Invariant.
Context `{P : Primitives} `{PO : !PrimitivesOk} `{I : Inet}.

Definition config_ok (cfg : RelayConfig) : Prop := (0 <= cfg_mtu cfg <= 65535)%Z.

Record relay_inv (cfg : RelayConfig) (identity : Identity) (A : gset Z) (s : Relay) : Prop := {
  inv_session : session_ok (rl_session s);
  inv_window : window_rep (ss_window (rl_session s)) A;
  inv_guard : guard_ok (rl_guard s);
  inv_pending hs : rl_pending s = Some hs -> handshake_ok hs /\ hs_identity hs = identity;
  inv_tun : length (rl_tun_buffer s) = 32 + Z.to_nat (padded_length (cfg_mtu cfg));
  inv_tun_bytes : bytes_ok (rl_tun_buffer s);
  inv_udp : length (rl_udp_buffer s) = Z.to_nat (max_datagram (cfg_mtu cfg)) + 1;
  inv_hs : length (rl_handshake_buffer s) = 148;
  inv_last : is_u64 (rl_last_initiation_ns s)
}.

(** The invariant does not read the statistics or the peer. *)
Lemma relay_inv_count cfg i A s f : relay_inv cfg i A s -> relay_inv cfg i A (count f s).
Proof. by intros []. Qed.
Lemma relay_inv_stats cfg i A s x : relay_inv cfg i A s -> relay_inv cfg i A (set_stats s x).
Proof. by intros []. Qed.
Lemma relay_inv_peer cfg i A s x : relay_inv cfg i A s -> relay_inv cfg i A (set_peer s x).
Proof. by intros []. Qed.
Lemma relay_inv_learn cfg i A s x : relay_inv cfg i A s -> relay_inv cfg i A (learn_peer s x).
Proof. unfold learn_peer. case_match; auto using relay_inv_count, relay_inv_peer. Qed.
Lemma relay_inv_udp cfg i A s b :
  length b = length (rl_udp_buffer s) -> relay_inv cfg i A s -> relay_inv cfg i A (set_udp_buffer s b).
Proof. intros Hb []. constructor; try done. relay_cbn. lia. Qed.
Lemma relay_inv_pending cfg i A s p :
  (forall hs, p = Some hs -> handshake_ok hs /\ hs_identity hs = i) ->
  relay_inv cfg i A s -> relay_inv cfg i A (set_pending s p).
Proof. intros Hp []. by constructor. Qed.
Lemma relay_inv_session cfg i A A' s x :
  session_ok x -> window_rep (ss_window x) A' -> relay_inv cfg i A s ->
  relay_inv cfg i A' (set_session s x).
Proof. intros ? ? []. by constructor. Qed.

Lemma max_datagram_val cfg :
  config_ok cfg -> max_datagram (cfg_mtu cfg) = (32 + padded_length (cfg_mtu cfg))%Z /\
    (cfg_mtu cfg <= padded_length (cfg_mtu cfg) < cfg_mtu cfg + 16)%Z.
Proof.
  unfold config_ok. intros Hm. destruct (padded_length_facts (cfg_mtu cfg)) as [_ Hp]; [lia..|].
  split; [|done]. unfold max_datagram. autounfold with wire_consts.
  rewrite u64_small by (unfold is_u64; lia). lia.
Qed.

Lemma relay_init_inv cfg i : config_ok cfg -> relay_inv cfg i ∅ (relay_init cfg).
Proof.
  intros Hc. constructor; unfold relay_init; cbn [rl_session rl_guard rl_pending rl_tun_buffer
    rl_udp_buffer rl_handshake_buffer rl_last_initiation_ns].
  - by_dec.
  - exact window_rep_new.
  - by_dec.
  - done.
  - rewrite length_replicate. autounfold with wire_consts. lia.
  - apply bytes_ok_replicate.
  - by rewrite length_replicate.
  - by rewrite length_replicate.
  - by_dec.
Qed.

End Invariant.

#[export] Hint Resolve relay_inv_count relay_inv_stats relay_inv_peer relay_inv_learn : vpn.

(** ** What a datagram can do: the specification of [handle_udp] *)

Section Spec.
Context `{P : Primitives} `{PO : !PrimitivesOk} `{I : Inet}.

(** Everything but the statistics and the scratch buffers. *)
Definition same_core (s s' : Relay) : Prop :=
  rl_peer s' = rl_peer s /\ rl_session s' = rl_session s /\ rl_pending s' = rl_pending s /\
  rl_guard s' = rl_guard s /\ rl_last_initiation_ns s' = rl_last_initiation_ns s.

Definition outcomes : list stat :=
  [dropped_oversize; dropped_malformed; handshakes_rejected; handshakes_completed;
   dropped_send_failed; dropped_no_session; dropped_replay; dropped_auth_failed;
   keepalives_received; udp_to_tun_packets].

(** Exactly the outcome [f] was counted. *)
Definition counted (f : stat) (s s' : Relay) : Prop :=
  f ∈ outcomes /\ rl_stats s' f = u64 (rl_stats s f + 1) /\
  forall g, g ∈ outcomes -> g <> f -> rl_stats s' g = rl_stats s g.

(** A transport message for this session, fresh, sealed by the peer. *)
Definition genuine (A : gset Z) (s : Relay) (d : list Z) (c : Z) (m : list Z) : Prop :=
  ss_active (rl_session s) = true /\ is_u64 c /\ spec_acceptable A c /\
  exists sealed, authentic (rl_session s) c sealed m /\
    decode d = Ok (Some (MTransport (mkTransport (local_index (rl_session s)) c sealed))).

Definition authenticated (cfg : RelayConfig) (i : Identity) (A : gset Z) (s : Relay) (d : list Z)
    : Prop :=
  (cfg_role cfg = responder /\
   exists hs g, read_initiation (Handshake_new i) d (rl_guard s) = Ok (true, hs, g)) \/
  (cfg_role cfg = initiator /\ exists p hs k, rl_pending s = Some p /\
   read_response p d (ss_keys (rl_session s)) = Ok (true, hs, k)) \/
  (exists c m, genuine A s d c m).

Definition peer_is (s : Relay) (a : sockaddr_in) : Prop :=
  exists p, rl_peer s = Some p /\ same_endpoint p a = true.

Inductive udp_spec (cfg : RelayConfig) (i : Identity) (A : gset Z) (s : Relay) (d : list Z)
    (from : sockaddr_in) : gset Z -> Relay -> list action -> Prop :=
| udp_drop f s' :
    (f = dropped_oversize /\ (max_datagram (cfg_mtu cfg) < Z.of_nat (length d))%Z \/
     ~ authenticated cfg i A s d) ->
    same_core s s' -> counted f s s' -> udp_spec cfg i A s d from A s' []
| udp_no_response hs s' :
    cfg_role cfg = responder ->
    read_initiation (Handshake_new i) d (rl_guard s) = Ok (true, hs, rl_guard s') ->
    rl_peer s' = rl_peer s -> rl_session s' = rl_session s -> rl_pending s' = rl_pending s ->
    counted handshakes_rejected s s' ->
    udp_spec cfg i A s d from A s' []
| udp_initiation hs s' keys response (ok : bool) :
    cfg_role cfg = responder ->
    read_initiation (Handshake_new i) d (rl_guard s) = Ok (true, hs, rl_guard s') ->
    length response = 92 ->
    rl_session s' = activate (set_keys (rl_session s) keys) ->
    peer_is s' from -> rl_pending s' = rl_pending s ->
    counted (if ok then handshakes_completed else dropped_send_failed) s s' ->
    udp_spec cfg i A s d from ∅ s'
      (SendTo response from ok :: if ok then [established from] else [])
| udp_response p hs keys s' :
    cfg_role cfg = initiator -> rl_pending s = Some p ->
    read_response p d (ss_keys (rl_session s)) = Ok (true, hs, keys) ->
    rl_session s' = activate (set_keys (rl_session s) keys) ->
    rl_pending s' = None -> rl_peer s' = rl_peer s -> rl_guard s' = rl_guard s ->
    counted handshakes_completed s s' ->
    udp_spec cfg i A s d from ∅ s' [established from]
| udp_not_ipv4 c m w s' :
    genuine A s d c m -> delivered m = None ->
    rl_session s' = opened (rl_session s) w -> rl_peer s' = rl_peer s ->
    rl_pending s' = rl_pending s -> rl_guard s' = rl_guard s ->
    counted dropped_auth_failed s s' ->
    udp_spec cfg i A s d from ({[c]} ∪ A) s' []
| udp_data c m n w s' log taken :
    genuine A s d c m -> delivered m = Some n ->
    rl_session s' = opened (rl_session s) w ->
    rl_pending s' = rl_pending s -> rl_guard s' = rl_guard s ->
    (cfg_role cfg = initiator -> rl_peer s' = rl_peer s) ->
    (cfg_role cfg = responder -> peer_is s' from) ->
    Forall (fun a => exists line, a = Log line) log ->
    counted (if n =? 0 then keepalives_received else udp_to_tun_packets) s s' ->
    udp_spec cfg i A s d from ({[c]} ∪ A) s'
      (log ++ if n =? 0 then [] else [WriteTun (take n m) taken]).

(** ** Statistics *)

Lemma add_stat_same f n s : add_stat f n s f = u64 (s f + n).
Proof. unfold add_stat. by rewrite decide_True. Qed.
Lemma add_stat_other f n s g : g <> f -> add_stat f n s g = s g.
Proof. intros. unfold add_stat. by rewrite decide_False. Qed.

(** [x] and [y] agree on the outcomes. *)
Definition agree (x y : RelayStats) : Prop := forall g, g ∈ outcomes -> x g = y g.

Lemma agree_add h n x y : h ∉ outcomes -> agree x y -> agree (add_stat h n x) y.
Proof. intros Hh Ha g Hg. rewrite add_stat_other by congruence. by apply Ha. Qed.

Lemma counted_intro f s s' x :
  f ∈ outcomes -> agree x (rl_stats s) -> agree (rl_stats s') (bump f x) -> counted f s s'.
Proof.
  intros Hf Hx Hs. split; [done|]. unfold bump in Hs. split.
  - rewrite Hs, add_stat_same by done. by rewrite Hx.
  - intros g Hg Hne. rewrite Hs, add_stat_other by done. by apply Hx.
Qed.

Lemma counted_count f s s0 :
  f ∈ outcomes -> agree (rl_stats s0) (rl_stats s) -> counted f s (count f s0).
Proof. intros Hf Ha. by apply (counted_intro f s _ (rl_stats s0)). Qed.

Lemma agree_learn s from : agree (rl_stats (learn_peer s from)) (rl_stats s).
Proof. unfold learn_peer. case_match; [|done]. by apply agree_add; [by_dec|]. Qed.

Lemma learn_peer_is s from : peer_is (learn_peer s from) from.
Proof.
  unfold peer_is, learn_peer, moved. destruct (rl_peer s) as [p|] eqn:Hp.
  - destruct (same_endpoint p from) eqn:He; cbn [negb]; [by exists p|].
    exists from. split; [done|]. unfold same_endpoint. by rewrite !Z.eqb_refl.
  - exists from. split; [done|]. unfold same_endpoint. by rewrite !Z.eqb_refl.
Qed.

Lemma learn_peer_core s from :
  rl_session (learn_peer s from) = rl_session s /\ rl_pending (learn_peer s from) = rl_pending s /\
  rl_guard (learn_peer s from) = rl_guard s.
Proof. unfold learn_peer. by case_match. Qed.

(** ** Each handler meets the specification *)

Variables (cfg : RelayConfig) (i : Identity) (A : gset Z) (name : string) (step : udp_step).
Hypotheses (Hcfg : config_ok cfg) (Hi : identity_ok i).

(** What a handler has to establish; only an authentic datagram gets as far as
    a system call that can fail. *)
Definition meets (s : Relay) (d : list Z) (from : sockaddr_in) (r : Res (Relay * list action))
    : Prop :=
  safe (fun x => authenticated cfg i A s d /\
                 (send_fault (us_send step) x \/ write_fault name (us_write step) x)) r (fun '(s', out) => exists A', udp_spec cfg i A s d from A' s' out /\ relay_inv cfg i A' s').

Lemma meets_drop s s0 d from f :
  f ∈ outcomes -> relay_inv cfg i A s0 -> same_core s s0 -> rl_stats s0 = rl_stats s ->
  (f = dropped_oversize /\ (max_datagram (cfg_mtu cfg) < Z.of_nat (length d))%Z \/
   ~ authenticated cfg i A s d) ->
  meets s d from (Ok (count f s0, [])).
Proof.
  intros Hf Hinv Hcore Hst Hwhy. exists A. split; [|auto with vpn].
  apply (udp_drop cfg i A s d from f); [done..|]. apply counted_count; [done|]. by rewrite Hst.
Qed.

(** Only a message of the right type can authenticate anything. *)
Lemma authenticated_type s d dm :
  decode d = Ok dm -> authenticated cfg i A s d ->
  match dm with
  | Some (MInitiation _) => cfg_role cfg = responder /\
      exists hs g, read_initiation (Handshake_new i) d (rl_guard s) = Ok (true, hs, g)
  | Some (MResponse _) => cfg_role cfg = initiator /\ exists p hs k, rl_pending s = Some p /\
      read_response p d (ss_keys (rl_session s)) = Ok (true, hs, k)
  | Some (MTransport data) => td_receiver_index data = local_index (rl_session s) /\
      ss_active (rl_session s) = true /\ spec_acceptable A (td_counter data) /\
      exists m, authentic (rl_session s) (td_counter data) (td_sealed data) m
  | _ => False
  end.
Proof.
  intros Hdec [(Hr & hs & g & H)|[(Hr & p & hs & k & Hp & H)|(c & m & Ha & _ & Hs & sealed & Hau & H)]].
  - assert (is_Some (match dm with Some (MInitiation _) => Some tt | _ => None end)) as [[] Hdm].
    { unfold read_initiation in H. rewrite Hdec in H. by destruct dm as [[]|]. }
    destruct dm as [[]|]; try done. eauto.
  - assert (is_Some (match dm with Some (MResponse _) => Some tt | _ => None end)) as [[] Hdm].
    { unfold read_response in H. rewrite Hdec in H. by destruct dm as [[]|]. }
    destruct dm as [[]|]; try done. eauto 10.
  - rewrite H in Hdec. injection Hdec as <-. cbn. eauto.
Qed.

Lemma same_core_peer s s0 : same_core s s0 -> rl_peer s0 = rl_peer s.
Proof. by intros []. Qed.

Lemma window_new_inv s0 keys :
  relay_inv cfg i A s0 ->
  key_ok (tk_send keys) -> key_ok (tk_receive keys) -> is_u32 (tk_local_index keys) ->
  is_u32 (tk_peer_index keys) ->
  relay_inv cfg i ∅ (set_session s0 (activate (set_keys (rl_session s0) keys))).
Proof.
  intros Hinv H1 H2 H3 H4. apply (relay_inv_session cfg i A); [|exact window_rep_new|done].
  repeat split_and; try done.
Qed.

(** The state once a response has been written and the session activated. *)
Lemma activated s1 keys from :
  let s2 := learn_peer (set_session s1 (activate (set_keys (rl_session s1) keys))) from in
  relay_inv cfg i A s1 -> key_ok (tk_send keys) -> key_ok (tk_receive keys) ->
  is_u32 (tk_local_index keys) -> is_u32 (tk_peer_index keys) ->
  relay_inv cfg i ∅ s2 /\ rl_session s2 = activate (set_keys (rl_session s1) keys) /\
  rl_pending s2 = rl_pending s1 /\ rl_guard s2 = rl_guard s1 /\ peer_is s2 from /\
  agree (rl_stats s2) (rl_stats s1).
Proof.
  intros s2 Hinv H1 H2 H3 H4. unfold s2.
  destruct (learn_peer_core (set_session s1 (activate (set_keys (rl_session s1) keys))) from)
    as (-> & -> & ->).
  split; [by apply relay_inv_learn, window_new_inv|]. split; [done|]. split; [done|]. split; [done|].
  split; [apply learn_peer_is|].
  exact (agree_learn (set_session s1 (activate (set_keys (rl_session s1) keys))) from).
Qed.

(** An accepted initiation leaves a well-formed object. *)
Lemma accepted_initiation d g :
  bytes_ok d -> guard_ok g ->
  read_initiation (Handshake_new i) d g = Ok (false, Handshake_new i, g) \/
  exists hs g', read_initiation (Handshake_new i) d g = Ok (true, hs, g') /\
    handshake_ok hs /\ guard_ok g'.
Proof.
  intros Hd Hg. destruct (read_initiation_cases (Handshake_new i) d g Hd Hi Hg)
    as [Hno|(sn & E & m2 & ss1 & ss2 & ts & _ & Hsn & HE & _ & Hts & _ & _ & _ & Hyes)]; [by left|].
  right. eexists _, _. split; [exact Hyes|]. split; [|exact Hts].
  destruct (transcript1_sizes (id_public i) E (id_peer_public i) ss1 ss2 ts) as (_ & _ & Kck & Kh);
    [by apply (identity_keys i Hi) | done|].
  unfold handshake_ok. repeat split_and; try done; by_dec.
Qed.

Lemma handle_initiation_meets s0 s d from m :
  relay_inv cfg i A s0 -> same_core s s0 -> rl_stats s0 = rl_stats s ->
  bytes_ok d -> entropy_ok (us_entropy step) -> decode d = Ok (Some (MInitiation m)) ->
  meets s d from (handle_initiation cfg i s0 d from step).
Proof.
  intros Hinv Hcore Hst Hd Hent Hdec. pose proof Hcore as (Hc1 & Hc2 & Hc3 & Hc4 & Hc5).
  unfold handle_initiation. destruct (cfg_role cfg) eqn:Hrole.
  { apply meets_drop; [by_dec | done..|]. right. intros [? _]%(authenticated_type s d _ Hdec).
    congruence. }
  destruct (accepted_initiation d (rl_guard s0) Hd (inv_guard _ _ _ _ Hinv))
    as [Hno|(hs & g & Hyes & Hhs & Hg)].
  { rewrite Hno, bind_Ok. cbn [negb]. apply meets_drop; [by_dec | by destruct Hinv | done..|].
    right. intros (_ & hs & g & Hau)%(authenticated_type s d _ Hdec). rewrite <- Hc4, Hno in Hau. done. }
  rewrite Hyes, bind_Ok. cbn [negb]. rewrite Hc4 in Hyes.
  change (rl_handshake_buffer (set_guard s0 g)) with (rl_handshake_buffer s0).
  change (rl_session (set_guard s0 g)) with (rl_session s0).
  pose proof (inv_hs _ _ _ _ Hinv) as Hbuf.
  destruct (write_response_total hs (rl_handshake_buffer s0) (ss_keys (rl_session s0)) (us_entropy step))
    as (hs' & buf & keys & r & -> & Hlen & Hr & Hk); [done | done | lia |]. rewrite bind_Ok.
  set (s1 := set_handshake_buffer (set_guard s0 g) buf).
  assert (relay_inv cfg i A s1) as Hinv1
    by (unfold s1; destruct Hinv; constructor; relay_cbn; (done || lia)).
  destruct Hr as [->|[-> ->]].
  - destruct (Hk eq_refl) as (K1 & K2 & K3 & K4).
    unfold first. rewrite subspan_ok by lia. rewrite bind_Ok, drop_0.
    eapply safe_bind; [apply send_to_safe | by split; [left; eauto | left] |]. intros ok _.
    destruct (activated s1 keys from Hinv1 K1 K2) as (Hinv2 & E1 & E2 & E3 & Hpi & Hag);
      [rewrite K3; by apply ent_index_ok | rewrite K4; apply Hhs |].
    change (learn_peer (set_session (set_session s1 _) _) from) with
      (learn_peer (set_session s1 (activate (set_keys (rl_session s1) keys))) from).
    set (s2 := learn_peer _ _) in *. clearbody s2. unfold s1 in E1, E2, E3, Hag. relay_cbn in *.
    rewrite Hc2 in E1. rewrite Hc3 in E2. rewrite <- E3 in Hyes. rewrite Hst in Hag.
    assert (length (take 92 buf) = 92) as Ltake by (rewrite length_take; lia).
    destruct ok; exists ∅; (split; [|auto with vpn]);
      [apply (udp_initiation cfg i A s d from hs _ keys (take 92 buf) true)
      |apply (udp_initiation cfg i A s d from hs _ keys (take 92 buf) false)]; try done;
      by apply counted_count; [by_dec|].
  - exists A. split.
    + apply (udp_no_response cfg i A s d from hs); try done.
      * relay_cbn. rewrite Hc2. by destruct (rl_session s).
      * apply counted_count; [by_dec|]. change (agree (rl_stats s0) (rl_stats s)). by rewrite Hst.
    + apply relay_inv_count, (relay_inv_session cfg i A); try done;
        by destruct Hinv as [? ? _ _ _ _ _ _ _]; destruct (rl_session s0).
Qed.

Lemma accepted_response p d keys :
  bytes_ok d -> handshake_ok p ->
  read_response p d keys = Ok (false, p, keys) \/
  exists hs keys', read_response p d keys = Ok (true, hs, keys') /\
    key_ok (tk_send keys') /\ key_ok (tk_receive keys') /\
    is_u32 (tk_local_index keys') /\ is_u32 (tk_peer_index keys').
Proof.
  intros Hd Hp. destruct (read_response_cases p d keys Hd Hp)
    as [Hno|(sn & E & m2 & ss3 & ss4 & _ & Hsn & _ & _ & _ & _ & Hyes)]; [by left|].
  right. eexists _, _. split; [exact Hyes|]. cbn. destruct Hp as (_ & _ & _ & _ & _ & ? & _).
  auto with vpn.
Qed.

Lemma handle_response_meets s0 s d from m :
  relay_inv cfg i A s0 -> same_core s s0 -> rl_stats s0 = rl_stats s ->
  bytes_ok d -> decode d = Ok (Some (MResponse m)) ->
  meets s d from (handle_response cfg s0 d from).
Proof.
  intros Hinv Hcore Hst Hd Hdec. pose proof Hcore as (Hc1 & Hc2 & Hc3 & Hc4 & Hc5).
  assert (forall role, cfg_role cfg = role -> role = responder \/ rl_pending s0 = None ->
    meets s d from (Ok (count dropped_malformed s0, []))) as Hdrop.
  { intros role Hrole Hor. apply meets_drop; [by_dec | done..|]. right.
    intros (? & p & hs & k & Hp & _)%(authenticated_type s d _ Hdec).
    destruct Hor; congruence. }
  unfold handle_response. destruct (cfg_role cfg) eqn:Hrole; [|by apply (Hdrop responder); auto].
  destruct (rl_pending s0) as [p|] eqn:Hp; [|by apply (Hdrop initiator); auto]. clear Hdrop.
  destruct (inv_pending _ _ _ _ Hinv p Hp) as [Hpok Hpi].
  destruct (accepted_response p d (ss_keys (rl_session s0)) Hd Hpok)
    as [Hno|(hs & keys & Hyes & K1 & K2 & K3 & K4)].
  - rewrite Hno, bind_Ok. cbn [negb]. apply meets_drop; [by_dec| | |done|].
    + apply (relay_inv_session cfg i A); [by destruct Hinv as [? _ _ _ _ _ _ _ _]; destruct (rl_session s0)
        | by destruct Hinv as [_ ? _ _ _ _ _ _ _]; destruct (rl_session s0) |].
      apply relay_inv_pending; [|done]. by intros ? [= <-].
    + unfold same_core. relay_cbn. rewrite <- Hc2, <- Hc3. by destruct (rl_session s0).
    + right. intros (_ & p' & hs & k & Hp' & Hau)%(authenticated_type s d _ Hdec).
      rewrite <- Hc3 in Hp'. injection Hp' as <-. rewrite <- Hc2, Hno in Hau. done.
  - rewrite Hyes, bind_Ok. cbn [negb]. rewrite Hc2 in Hyes. exists ∅. split.
    + apply (udp_response cfg i A s d from p hs keys); try done.
      * apply counted_count; [by_dec|]. change (agree (rl_stats s0) (rl_stats s)). by rewrite Hst.
    + apply relay_inv_count. change (relay_inv cfg i ∅ (set_pending (set_session s0
        (activate (set_keys (rl_session s0) keys))) None)).
      apply relay_inv_pending; [done|]. by apply window_new_inv.
Qed.

(** The peer and the log after an authentic packet. *)
Lemma roam_facts s1 from A1 :
  let roamed := match cfg_role cfg with responder => moved s1 from | initiator => false end in
  let r := if roamed then (count endpoint_updates (set_peer s1 (Some from)),
                           [Log ("peer roamed to " +:+ format_endpoint from)]) else (s1, []) in
  relay_inv cfg i A1 s1 ->
  relay_inv cfg i A1 r.1 /\ rl_session r.1 = rl_session s1 /\ rl_pending r.1 = rl_pending s1 /\
  rl_guard r.1 = rl_guard s1 /\ (cfg_role cfg = initiator -> rl_peer r.1 = rl_peer s1) /\
  (cfg_role cfg = responder -> peer_is r.1 from) /\
  Forall (fun a => exists line, a = Log line) r.2 /\ agree (rl_stats r.1) (rl_stats s1).
Proof.
  intros roamed r Hinv. pose proof (learn_peer_is s1 from) as Hl. unfold learn_peer in Hl.
  unfold r, roamed. destruct (cfg_role cfg); [cbn; repeat split_and; try done; constructor|].
  destruct (moved s1 from); cbn [fst snd].
  - split; [auto with vpn|]. repeat split_and; try done; [repeat constructor; eauto|].
    by apply agree_add; [by_dec|].
  - repeat split_and; done.
Qed.

(** An authentic packet, after [open] has returned. *)
Lemma deliver_meets s s1 d from c m n w sealed' :
  relay_inv cfg i ({[c]} ∪ A) s1 -> genuine A s d c m -> delivered m = Some n ->
  rl_session s1 = opened (rl_session s) w -> rl_pending s1 = rl_pending s ->
  rl_guard s1 = rl_guard s -> rl_peer s1 = rl_peer s -> rl_stats s1 = rl_stats s ->
  take (length m) sealed' = m -> n ≤ length m -> length m ≤ length sealed' ->
  meets s d from (deliver cfg name s1 sealed' n from step).
Proof.
  intros Hinv Hgen Hdel E1 E2 E3 E4 E5 Htk Hn Hlen.
  unfold deliver, first. rewrite subspan_ok by lia. rewrite bind_Ok, drop_0.
  assert (take n sealed' = take n m) as ->
    by (transitivity (take n (take (length m) sealed')); [rewrite take_take; f_equal; lia | by rewrite Htk]).
  destruct (roam_facts s1 from _ Hinv) as (F1 & F2 & F3 & F4 & F5 & F6 & F7 & F8). cbv zeta.
  destruct (if match cfg_role cfg with initiator => false | responder => moved s1 from end then _ else _)
    as [s2 log]. cbn [fst snd] in *. rewrite E1 in F2. rewrite E2 in F3. rewrite E3 in F4.
  rewrite E4 in F5. rewrite E5 in F8. rewrite length_take, Nat.min_l by lia.
  destruct (Nat.eqb_spec n 0) as [->|Hnz].
  - exists ({[c]} ∪ A). split; [|auto with vpn]. rewrite <- (app_nil_r log).
    apply (udp_data cfg i A s d from c m 0 w _ log true); try done.
    by apply counted_count; [by_dec|].
  - eapply safe_bind; [apply write_packet_safe | by split; [right; right; eauto | right] |].
    intros taken _.
    exists ({[c]} ∪ A). split; [|auto with vpn].
    pose proof (udp_data cfg i A s d from c m n w (set_stats (count udp_to_tun_packets s2)
      (add_stat udp_to_tun_bytes (Z.of_nat n) (rl_stats (count udp_to_tun_packets s2)))) log taken) as Hd.
    rewrite (proj2 (Nat.eqb_neq n 0) Hnz) in Hd. apply Hd; try done.
    apply (counted_intro _ _ _ (rl_stats s2)); [by_dec | done |]. by apply agree_add; [by_dec|].
Qed.

Lemma delivered_le m n : bytes_ok m -> delivered m = Some n -> n ≤ length m.
Proof.
  intros Bm. unfold delivered. destruct (length m =? 0); [intros [= <-]; lia|].
  destruct (inner_packet_length_total m Bm) as (r & -> & Hr). apply Hr.
Qed.

(** The length and the sealed part of a transport message. *)
Lemma transport_shape d data :
  bytes_ok d -> decode d = Ok (Some (MTransport data)) ->
  is_u64 (td_counter data) /\ bytes_ok (td_sealed data) /\ drop 16 d = td_sealed data /\
  length d = 16 + length (td_sealed data).
Proof.
  intros Hd Hdec. destruct (decode_sound d _ Hd Hdec) as [Hwf Hser]. cbn in Hwf.
  destruct Hwf as (_ & Hctr & Hbs & _).
  assert (d = transport_header (td_receiver_index data) (td_counter data) ++ td_sealed data) as ->
    by (rewrite Hser; unfold transport_header; by rewrite <- !app_assoc).
  split; [done|]. split; [done|]. split; [rewrite drop_app_length'; [done|by rewrite length_transport_header]|].
  by rewrite length_app, length_transport_header.
Qed.

Lemma open_transport_meets s0 s d from data :
  relay_inv cfg i A s0 -> same_core s s0 -> rl_stats s0 = rl_stats s -> bytes_ok d ->
  (Z.of_nat (length d) <= max_datagram (cfg_mtu cfg))%Z ->
  decode d = Ok (Some (MTransport data)) ->
  ss_active (rl_session s0) = true -> td_receiver_index data = local_index (rl_session s0) ->
  spec_acceptable A (td_counter data) ->
  meets s d from (open_transport cfg name s0 d (td_counter data) from step).
Proof.
  intros Hinv Hcore Hst Hd Hsz Hdec Hact Hidx Hsp. pose proof Hcore as (Hc1 & Hc2 & Hc3 & Hc4 & Hc5).
  destruct (transport_shape d data Hd Hdec) as (Hctr & Hbs & Hdrop & Hdl).
  pose proof (inv_session _ _ _ _ Hinv) as Hses. pose proof (inv_window _ _ _ _ Hinv) as Hwin.
  pose proof (inv_udp _ _ _ _ Hinv) as Hudp.
  unfold open_transport, subspan_from. rewrite decide_True by wire_lia. rewrite bind_Ok.
  change kTransportHeaderSize with 16. rewrite Hdrop.
  assert (forall x, length x = length (td_sealed data) -> exists b,
    copy_to (rl_udp_buffer s0) 16 x = Ok b /\ length b = length (rl_udp_buffer s0)) as Hcopy.
  { intros x Hx. unfold copy_to. rewrite decide_True by lia. eexists; split; [done|].
    rewrite !length_app, length_take, length_drop. lia. }
  destruct (open_cases (rl_session s0) A (td_counter data) (td_sealed data) Hses Hwin Hctr Hbs)
    as [(_ & _ & m & Hm)|[Hno (x & -> & Hx)]].
  2: { rewrite bind_Ok. destruct (Hcopy x Hx) as (buf & -> & Hbuf). rewrite bind_Ok.
       apply meets_drop; [by_dec| by apply relay_inv_udp; [|destruct Hinv] | done | done |].
       right. intros (_ & _ & _ & m & Hm)%(authenticated_type s d _ Hdec).
       rewrite <- Hc2 in Hm. by apply (Hno Hact Hsp m). }
  destruct (open_authentic _ A _ _ m Hses Hact Hwin Hctr Hsp Hm) as (w & Hw & ->). rewrite bind_Ok.
  pose proof Hm as (Bm & _ & Hct). destruct Hses as (Hks & Hkr & Hsrest).
  assert (length (td_sealed data) = length m + 16) as Hlm by (by rewrite Hct, length_sealed).
  set (x := m ++ _). assert (length x = length (td_sealed data)) as Hx
    by (unfold x; rewrite length_app, length_drop; lia).
  destruct (Hcopy x Hx) as (buf & -> & Hbuf). rewrite bind_Ok.
  assert (genuine A s d (td_counter data) m) as Hgen.
  { rewrite Hc2 in *. split; [done|]. split; [done|]. split; [done|]. exists (td_sealed data).
    split; [done|]. rewrite Hdec. destruct data; cbn in *. by subst. }
  set (s1 := set_udp_buffer _ _). assert (relay_inv cfg i ({[td_counter data]} ∪ A) s1) as Hinv1.
  { apply relay_inv_udp; [done|]. by apply (relay_inv_session cfg i A). }
  destruct (delivered m) as [n|] eqn:Hdel.
  - apply (deliver_meets s s1 d from (td_counter data) m n w); try done.
    + unfold s1. relay_cbn. by rewrite Hc2.
    + unfold x. by rewrite take_app_length.
    + by apply delivered_le.
    + lia.
  - exists ({[td_counter data]} ∪ A). split; [|auto with vpn].
    apply (udp_not_ipv4 cfg i A s d from (td_counter data) m w); try done.
    + unfold s1. relay_cbn. by rewrite Hc2.
    + apply counted_count; [by_dec|]. unfold s1. relay_cbn. by rewrite Hst.
Qed.

Lemma handle_transport_meets s0 s d from data :
  relay_inv cfg i A s0 -> same_core s s0 -> rl_stats s0 = rl_stats s -> bytes_ok d ->
  (Z.of_nat (length d) <= max_datagram (cfg_mtu cfg))%Z ->
  decode d = Ok (Some (MTransport data)) ->
  meets s d from (handle_transport cfg name s0 d data from step).
Proof.
  intros Hinv Hcore Hst Hd Hsz Hdec. pose proof Hcore as (_ & Hc2 & _).
  destruct (transport_shape d data Hd Hdec) as (Hctr & _).
  assert (forall f, f ∈ outcomes -> ~ authenticated cfg i A s d ->
    meets s d from (Ok (count f s0, []))) as Hout by (intros; apply meets_drop; auto).
  pose proof (fun Ha => authenticated_type s d _ Hdec Ha) as Hau. cbn in Hau. rewrite <- Hc2 in Hau.
  unfold handle_transport. destruct (ss_active (rl_session s0)) eqn:Hact; cbn [negb].
  2: { apply Hout; [by_dec|]. intros (_ & ? & _)%Hau. done. }
  destruct (Z.eqb_spec (td_receiver_index data) (local_index (rl_session s0))) as [Hidx|Hidx]; cbn [negb].
  2: { apply Hout; [by_dec|]. intros (? & _)%Hau. done. }
  unfold replay_acceptable.
  destruct (acceptable_spec _ _ _ (inv_window _ _ _ _ Hinv) Hctr) as (b & -> & Hb). rewrite bind_Ok.
  destruct b; cbn [negb].
  - apply open_transport_meets; try done. by apply Hb.
  - apply Hout; [by_dec|]. intros (_ & _ & Hs & _)%Hau. by apply Hb in Hs.
Qed.

(** The whole handler, on any datagram. *)
Lemma handle_udp_meets s d from :
  relay_inv cfg i A s -> bytes_ok d -> length d ≤ length (rl_udp_buffer s) ->
  entropy_ok (us_entropy step) ->
  meets s d from (handle_udp cfg i name s d from step).
Proof.
  intros Hinv Hd Hlen Hent. unfold handle_udp. rewrite copy_to_start by done. rewrite bind_Ok.
  set (s0 := set_udp_buffer s _).
  assert (relay_inv cfg i A s0) as Hinv0
    by (apply relay_inv_udp; [rewrite length_app, length_drop; lia | done]).
  assert (same_core s s0) as Hcore by done. assert (rl_stats s0 = rl_stats s) as Hst by done.
  destruct (Z.ltb_spec (max_datagram (cfg_mtu cfg)) (Z.of_nat (length d))) as [Hbig|Hsm].
  { apply meets_drop; [by_dec | done..|]. by left. }
  destruct (decode_eq d Hd) as [(t & rest & _ & Hdec)|[_ Hdec]]; rewrite Hdec, bind_Ok.
  2: { apply meets_drop; [by_dec | done..|]. right. exact (authenticated_type s d _ Hdec). }
  destruct (decode_fields d t) as [[m|m|m|m]|].
  - by eapply handle_initiation_meets.
  - by eapply handle_response_meets.
  - apply meets_drop; [by_dec | done..|]. right. exact (authenticated_type s d _ Hdec).
  - by eapply handle_transport_meets.
  - apply meets_drop; [by_dec | done..|]. right. exact (authenticated_type s d _ Hdec).
Qed.
End Spec.
