(* ===== verification/RelayRuns.v ===== *)
(** * RelayRuns: the sending side, whole runs, and the theorems about the loop *)

From Stdlib Require Import ZArith Lia String Sorted.
From stdpp Require Import base tactics numbers list option strings gmap.
From S2P Require Import Prelude Wire Crypto Toy Noise HandshakeProofs Replay Session Net Relay.
From S2P Require Import RelayProofs.

Section Sending.
Context `{P : Primitives} `{PO : !PrimitivesOk} `{I : Inet}.

(** An initiation may be sent: none was yet, or the retry interval has passed. *)
Definition retry_due (s : Relay) (now : Z) : Prop :=
  rl_last_initiation_ns s = 0%Z \/
  (kHandshakeRetryNs <= u64 (now - rl_last_initiation_ns s))%Z.

Lemma is_u64_u64 z : is_u64 (u64 z).
Proof. apply Z.mod_pos_bound. lia. Qed.

Lemma start_handshake_safe cfg i A s step :
  let now := monotonic_ns (ts_now step) in
  relay_inv cfg i A s -> identity_ok i -> entropy_ok (ts_entropy step) ->
  safe (send_fault (ts_send step)) (start_handshake cfg i s step) (fun '(s', out) =>
    relay_inv cfg i A s' /\ rl_session s' = rl_session s /\ rl_peer s' = rl_peer s /\
    rl_guard s' = rl_guard s /\
    (rl_last_initiation_ns s' = rl_last_initiation_ns s \/
     retry_due s now /\ rl_last_initiation_ns s' = now) /\
    (out = [] \/ exists m peer ok, out = [SendTo m peer ok] /\ length m = 148 /\
       cfg_role cfg = initiator /\ rl_peer s = Some peer /\ retry_due s now /\
       rl_last_initiation_ns s' = now)).
Proof.
  intros now Hinv Hi Hent. unfold start_handshake.
  destruct (cfg_role cfg); [|by cbn; auto 10].
  destruct (rl_peer s) as [peer|] eqn:Hp; [|by cbn; auto 10].
  fold now. destruct (_ && _) eqn:Hrate; [by cbn; auto 10|].
  assert (retry_due s now) as Hdue.
  { apply andb_false_iff in Hrate as [H|H]; bool_hyps; [by left | by right]. }
  change (rl_handshake_buffer (set_last_initiation_ns s now)) with (rl_handshake_buffer s).
  destruct (write_initiation_total (Handshake_new i) (rl_handshake_buffer s) (ts_entropy step) Hi Hent)
    as (hs & buf & r & -> & Hlen & _ & Hr & _ & Hok). rewrite bind_Ok.
  pose proof (inv_hs _ _ _ _ Hinv) as Hbuf. set (s1 := set_handshake_buffer _ buf).
  assert (forall p, (forall h, p = Some h -> handshake_ok h /\ hs_identity h = i) ->
    relay_inv cfg i A (set_pending s1 p)) as Hinv1.
  { intros p Hpp. destruct Hinv. constructor; try done; unfold s1; relay_cbn; [lia | apply is_u64_u64]. }
  destruct Hr as [->|[-> _]].
  - unfold first. rewrite subspan_ok by lia. rewrite bind_Ok, drop_0.
    eapply safe_bind; [apply send_to_safe | done |]. intros ok _.
    split; [apply relay_inv_count; apply (Hinv1 (Some hs)); intros h [= <-];
            apply Hok; [done | by apply handshake_ok_new]|].
    split; [by destruct ok|]. split; [by destruct ok|]. split; [by destruct ok|].
    split; [by right; destruct ok|]. right. exists (take 148 buf), peer, ok.
    rewrite length_take. repeat split_and; try done; lia.
  - split; [by apply Hinv1|]. repeat split_and; try done; by auto.
Qed.

(** What a packet from the TUN device can do. *)
Inductive tun_spec (cfg : RelayConfig) (A : gset Z) (s : Relay) (p : list Z) (step : tun_step)
    : Relay -> list action -> Prop :=
| tun_no_peer s' :
    rl_peer s = None -> same_core s s' ->
    rl_stats s' = bump dropped_no_peer (rl_stats s) -> tun_spec cfg A s p step s' []
| tun_no_session s' out peer :
    rl_peer s = Some peer -> ss_active (rl_session s) = false ->
    rl_session s' = rl_session s -> rl_peer s' = rl_peer s -> rl_guard s' = rl_guard s ->
    (out = [] \/ exists m ok, out = [SendTo m peer ok] /\ length m = 148 /\
       cfg_role cfg = initiator /\ retry_due s (monotonic_ns (ts_now step)) /\
       rl_last_initiation_ns s' = monotonic_ns (ts_now step)) ->
    tun_spec cfg A s p step s' out
| tun_exhausted s' peer :
    rl_peer s = Some peer -> ss_active (rl_session s) = true ->
    (kRejectAfterMessages <= ss_send_counter (rl_session s))%Z -> same_core s s' ->
    rl_stats s' = bump dropped_counter_exhausted (rl_stats s) -> tun_spec cfg A s p step s' []
| tun_sent s' peer ok :
    rl_peer s = Some peer -> ss_active (rl_session s) = true ->
    (ss_send_counter (rl_session s) < kRejectAfterMessages)%Z ->
    rl_session s' = mkSession (ss_keys (rl_session s)) (ss_window (rl_session s))
                      (ss_send_counter (rl_session s) + 1) true ->
    rl_peer s' = rl_peer s -> rl_pending s' = rl_pending s -> rl_guard s' = rl_guard s ->
    tun_spec cfg A s p step s'
      [SendTo (datagram (rl_session s) (ss_send_counter (rl_session s)) p) peer ok].

Lemma padded_length_mono m n :
  (0 <= m <= n)%Z -> (n < 2 ^ 63)%Z -> (padded_length m <= padded_length n)%Z.
Proof.
  intros H1 H2. rewrite !padded_length_eq by lia.
  apply Z.mul_le_mono_nonneg_l; [lia|]. apply Z.div_le_mono; lia.
Qed.

Lemma bytes_ok_datagram s c p : session_ok s -> bytes_ok p -> bytes_ok (datagram s c p).
Proof.
  intros (Hk & _) Bp. unfold datagram, transport_header. rewrite !bytes_ok_app.
  destruct (aead_encrypt_ok (tk_send (ss_keys s)) (nonce_bytes c) (pad16 p) [] Hk (bytes_ok_pad16 p Bp)).
  repeat split_and; auto with vpn.
Qed.

Lemma length_datagram s c p :
  session_ok s -> bytes_ok p -> length (datagram s c p) = length (pad16 p) + 32.
Proof.
  intros (Hk & _) Bp. unfold datagram.
  rewrite length_app, length_transport_header, length_sealed by (done || by apply bytes_ok_pad16). lia.
Qed.

(** Reading a packet into the payload slot of the send buffer. *)
Lemma tun_slot cfg i A s (p : list Z) :
  relay_inv cfg i A s -> config_ok cfg -> bytes_ok p -> length p ≤ Z.to_nat (cfg_mtu cfg) ->
  exists hdr rest, copy_to (rl_tun_buffer s) kTransportHeaderSize p = Ok (hdr ++ p ++ rest) /\
    length hdr = 16 /\ relay_inv cfg i A (set_tun_buffer s (hdr ++ p ++ rest)).
Proof.
  intros Hinv Hcfg Bp Lp. destruct (max_datagram_val cfg Hcfg) as [_ Hpad].
  pose proof (inv_tun _ _ _ _ Hinv) as Hbuf. pose proof (inv_tun_bytes _ _ _ _ Hinv) as Bbuf.
  unfold config_ok in Hcfg. unfold copy_to. rewrite decide_True by wire_lia.
  change kTransportHeaderSize with 16. eexists _, _. split; [done|].
  split; [rewrite length_take; lia|]. destruct Hinv. constructor; try done; relay_cbn.
  - rewrite !length_app, length_take, length_drop. lia.
  - rewrite !bytes_ok_app. auto with vpn.
Qed.

(** Sending with a session whose counter is not exhausted: what remains is the
    system call. *)
Lemma send_packet_eq cfg i A s peer hdr p rest step :
  let d := datagram (rl_session s) (ss_send_counter (rl_session s)) p in
  relay_inv cfg i A s -> config_ok cfg -> rl_tun_buffer s = hdr ++ p ++ rest -> length hdr = 16 ->
  length p ≤ Z.to_nat (cfg_mtu cfg) -> ss_active (rl_session s) = true ->
  (ss_send_counter (rl_session s) < kRejectAfterMessages)%Z ->
  exists s1, relay_inv cfg i A s1 /\
    rl_session s1 = mkSession (ss_keys (rl_session s)) (ss_window (rl_session s))
                      (ss_send_counter (rl_session s) + 1) true /\
    rl_peer s1 = rl_peer s /\ rl_pending s1 = rl_pending s /\ rl_guard s1 = rl_guard s /\
    send_packet s peer (length p) step =
      (ok ← send_to d (ts_send step);
       if (ok : bool)
       then
         let s := count tun_to_udp_packets s1 in
         Ok (set_stats s (add_stat tun_to_udp_bytes (Z.of_nat (length d)) (rl_stats s)),
             [SendTo d peer ok])
       else Ok (count dropped_send_failed s1, [SendTo d peer ok])).
Proof.
  intros d Hinv Hcfg Hb Hh Lp Hact Hlt. unfold config_ok in Hcfg.
  pose proof (inv_session _ _ _ _ Hinv) as Hses. pose proof (inv_tun _ _ _ _ Hinv) as Hbuf.
  pose proof (inv_tun_bytes _ _ _ _ Hinv) as Bb. rewrite Hb in Hbuf, Bb.
  rewrite !length_app in Hbuf. rewrite !bytes_ok_app in Bb. destruct Bb as (Bh & Bp & Br).
  destruct (length_pad16 p) as (Hpl & _ & _); [lia|].
  pose proof (padded_length_mono (Z.of_nat (length p)) (cfg_mtu cfg) ltac:(lia) ltac:(lia)) as Hmono.
  destruct (padded_length_facts (Z.of_nat (length p))) as [_ Hpf]; [lia..|]. unfold send_packet.
  rewrite Hb, seal_exact by (done || lia). rewrite bind_Ok. fold d. set (tl := drop _ rest).
  assert (length d = length (pad16 p) + 32) as Ld by by apply length_datagram.
  unfold first. rewrite subspan_ok by (rewrite length_app; lia).
  rewrite bind_Ok, drop_0, take_app_length' by done.
  eexists (set_tun_buffer (set_session s _) (d ++ tl)). split; [|done].
  destruct Hinv as [? ? ? ? ? ? ? ? ?]. constructor; try done; relay_cbn.
  - destruct Hses as (? & ? & ? & ? & ?).
    unfold session_ok; repeat split_and; try done; cbn [ss_send_counter]; lia.
  - rewrite length_app, Ld. unfold tl. rewrite length_drop. lia.
  - apply bytes_ok_app. split; [by apply bytes_ok_datagram | unfold tl; auto with vpn].
Qed.

Lemma handle_tun_meets cfg i A s p step :
  relay_inv cfg i A s -> config_ok cfg -> identity_ok i -> entropy_ok (ts_entropy step) ->
  bytes_ok p -> length p ≤ Z.to_nat (cfg_mtu cfg) ->
  safe (send_fault (ts_send step)) (handle_tun cfg i s p step)
    (fun '(s', out) => tun_spec cfg A s p step s' out /\ relay_inv cfg i A s').
Proof.
  intros Hinv Hcfg Hi Hent Bp Lp.
  destruct (tun_slot cfg i A s p Hinv Hcfg Bp Lp) as (hdr & rest & Hslot & Hh & Hinv0).
  unfold handle_tun. rewrite Hslot, bind_Ok. set (s0 := set_tun_buffer s _) in *.
  change (rl_peer s0) with (rl_peer s). destruct (rl_peer s) as [peer|] eqn:Hpeer.
  2: { split; [|auto with vpn]. by apply tun_no_peer. }
  change (rl_session s0) with (rl_session s).
  destruct (ss_active (rl_session s)) eqn:Hact; cbn [negb].
  - destruct (Z.ltb_spec (ss_send_counter (rl_session s)) kRejectAfterMessages) as [Hlt|Hge].
    + destruct (send_packet_eq cfg i A s0 peer hdr p rest step)
        as (s1 & Hinv1 & E1 & E2 & E3 & E4 & ->); [done..|].
      change (rl_session s0) with (rl_session s) in *.
      eapply safe_bind; [apply send_to_safe | done |]. intros ok _.
      destruct ok; (split; [|auto with vpn]); by apply (tun_sent _ _ _ _ _ _ peer).
    + unfold send_packet. unfold config_ok in Hcfg.
      rewrite seal_refused; [|lia|intros (_ & ? & _); unfold s0 in *; relay_cbn in *; lia].
      rewrite bind_Ok. split; [by apply (tun_exhausted _ _ _ _ _ _ peer)|].
      apply relay_inv_count. by destruct Hinv0.
  - eapply safe_mono; [by apply (start_handshake_safe cfg i A); auto with vpn | done |].
    intros [s' out] (H1 & H2 & H3 & H4 & _ & H6). split; [|done].
    apply (tun_no_session _ _ _ _ _ _ _ peer); try done.
    destruct H6 as [->|(m & peer' & ok & -> & ? & ? & Hp' & ? & ?)]; [by left|]. right.
    change (rl_peer (count dropped_no_session s0)) with (rl_peer s) in Hp'.
    rewrite Hpeer in Hp'. injection Hp' as <-. by exists m, ok.
Qed.

(** ** Whole runs *)

Definition tun_step_ok (t : tun_step) : Prop :=
  entropy_ok (ts_entropy t) /\
  Forall (fun r => match r with SysOk d => bytes_ok d | _ => True end) (ts_read t).
Definition udp_step_ok (t : udp_step) : Prop :=
  entropy_ok (us_entropy t) /\
  Forall (fun r => match r with SysOk (d, _) => bytes_ok d | _ => True end) (us_recv t).
Definition event_ok (e : event) : Prop :=
  match e with
  | OnTun ts => Forall tun_step_ok ts
  | OnUdp us => Forall udp_step_ok us
  | _ => True
  end.
Definition wait_ok (w : sysres (list event)) : Prop :=
  match w with
  | SysOk es => Forall event_ok es
  | SysErr _ => True
  end.

Variables (cfg : RelayConfig) (i : Identity) (name : string).
Hypotheses (Hcfg : config_ok cfg) (Hi : identity_ok i).

(** The invariant, for some set of accepted counters. *)
Definition good (s : Relay) : Prop := exists A, relay_inv cfg i A s.

Lemma drain_tun_safe s steps :
  good s -> Forall tun_step_ok steps ->
  safe (event_fault name (OnTun steps)) (drain_tun cfg i name s steps) (fun '(s', _) => good s').
Proof.
  intros Hs Hsteps. revert s Hs. induction Hsteps as [|t ts [He Hr] _ IH]; intros s [A Hs].
  { by exists A. }
  cbn [drain_tun]. eapply safe_bind; [by apply read_packet_safe | by left; left |].
  intros [p|] Hp; [|by exists A]. destruct (Hp p eq_refl) as [Bp Lp].
  eapply safe_bind; [by apply (handle_tun_meets cfg i A) | by left; right |]. intros [s1 out] [_ Hs1].
  eapply safe_bind; [by apply IH; exists A | by right |]. by intros [s2 out2] Hs2.
Qed.

Lemma drain_udp_safe s steps :
  good s -> Forall udp_step_ok steps ->
  safe (event_fault name (OnUdp steps)) (drain_udp cfg i name s steps) (fun '(s', _) => good s').
Proof.
  intros Hs Hsteps. revert s Hs. induction Hsteps as [|t ts [He Hr] _ IH]; intros s [A Hs].
  { by exists A. }
  cbn [drain_udp]. eapply safe_bind; [by apply recv_from_safe | by left; left |].
  intros [[d from]|] Hd; [|by exists A]. destruct (Hd d from eq_refl) as [Bd Ld].
  eapply safe_bind; [by apply (handle_udp_meets cfg i A name t Hi s d from) | |].
  { intros x [_ Hx]. left. by right. }
  intros [s1 out] (A' & _ & Hs1). eapply safe_bind; [by apply IH; exists A' | by right |].
  by intros [s2 out2] Hs2.
Qed.

Lemma handle_event_safe s running e :
  good s -> event_ok e ->
  safe (event_fault name e) (handle_event cfg i name s running e) (fun '(s', _, _) => good s').
Proof.
  intros Hs He. destruct e as [ts|us|[n|]|]; cbn [handle_event event_ok] in *; try done.
  - eapply safe_bind; [by apply drain_tun_safe | done |]. by intros [].
  - eapply safe_bind; [by apply drain_udp_safe | done |]. by intros [].
Qed.

Lemma handle_events_safe s running es :
  good s -> Forall event_ok es ->
  safe (wait_fault name (SysOk es)) (handle_events cfg i name s running es) (fun '(s', _, _) => good s').
Proof.
  intros Hs Hes. revert s running Hs. induction Hes as [|e es He _ IH]; intros s running Hs; [done|].
  cbn [handle_events]. eapply safe_bind; [by apply handle_event_safe | by left |].
  intros [[s1 r1] out] Hs1. eapply safe_bind; [by apply IH | by right |]. by intros [[] ].
Qed.

(** What the answers of [epoll_wait], and of the calls they lead to, can throw. *)
Definition run_fault (waits : list (sysres (list event))) (x : exn) : Prop :=
  Exists (fun w => wait_fault name w x) waits.

Lemma relay_loop_safe s waits :
  good s -> Forall wait_ok waits ->
  safe (run_fault waits) (relay_loop cfg i name s waits) (fun '(s', _, _) => good s').
Proof.
  intros Hs Hw. revert s Hs. induction Hw as [|[es|e] ws Hes _ IH]; intros s Hs; [done| |].
  - cbn [relay_loop]. eapply safe_bind; [by apply handle_events_safe | by left |].
    intros [[s1 []] out] Hs1; [|done]. eapply safe_bind; [by apply IH | by right |]. by intros [[] ].
  - cbn [relay_loop]. destruct (Z.eqb_spec e EINTR); [|by left].
    eapply safe_mono; [by apply IH | by right | done].
Qed.

(** A signal among the events clears [running], whatever comes after it. *)
Lemma handle_event_running s e s' r out :
  handle_event cfg i name s false e = Ok (s', r, out) -> r = false.
Proof.
  destruct e as [ts|us|[n|]|]; cbn [handle_event]; intros H; try (by injection H).
  all: apply bind_Ok_inv in H as ([] & _ & H); by injection H.
Qed.

Lemma handle_events_stopped s es s' r out :
  handle_events cfg i name s false es = Ok (s', r, out) -> r = false.
Proof.
  revert s s' r out.
  induction es as [|e es IH]; intros s s' r out; cbn [handle_events]; [by intros [=]|]. intros H. apply bind_Ok_inv in H as ([[s1 r1] o1] & H1 & H).
  apply handle_event_running in H1 as ->. apply bind_Ok_inv in H as ([[s2 r2] o2] & H2 & H).
  apply IH in H2 as ->. injection H as _ <- _. done.
Qed.

Lemma handle_events_signal s running es signo s' r out :
  OnSignal signo ∈ es -> handle_events cfg i name s running es = Ok (s', r, out) -> r = false.
Proof.
  revert s running s' r out.
  induction es as [|e es IH]; intros s running s' r out; [by intros ?%elem_of_nil|].
  cbn [handle_events]. intros Hin H. apply bind_Ok_inv in H as ([[s1 r1] o1] & H1 & H).
  apply bind_Ok_inv in H as ([[s2 r2] o2] & H2 & H). injection H as _ <- _.
  apply elem_of_cons in Hin as [<-|Hin]; [|by eapply IH].
  assert (r1 = false) as -> by (destruct signo; by injection H1). by eapply handle_events_stopped.
Qed.

End Sending.

Section Theorems.
Context `{P : Primitives} `{PO : !PrimitivesOk} `{I : Inet}.

(** From start-up through the whole loop. *)
Lemma relay_serve_safe cfg i name u waits :
  config_ok cfg -> identity_ok i -> Forall wait_ok waits ->
  safe (fun x => setup_fault u x \/ run_fault name waits x) (relay_serve cfg i name u waits)
    (fun '(s, _, _) => exists A, relay_inv cfg i A s).
Proof.
  intros Hcfg Hi Hw. unfold relay_serve, epoll_add.
  assert (forall r : sysres unit, r ∈ [su_add_tun u; su_add_sock u; su_add_signal u] ->
    safe (setup_fault u) (check r "epoll_ctl(EPOLL_CTL_ADD)") (fun _ => True)) as Hc.
  { intros [[]|e] Hin; [done|]. by exists e. }
  do 3 (eapply safe_bind; [apply Hc; set_solver | intros x Hx; by left |]; intros _ _).
  eapply safe_mono; [| intros x Hx; right; exact Hx | intros a Ha; exact Ha].
  apply relay_loop_safe; try done. exists ∅. by apply relay_init_inv.
Qed.

(** [C7] The loop is safe: from start-up, through any sequence of readable
    descriptors, kernel answers, packets and datagrams (hostile ones included),
    it never has undefined behaviour and keeps its invariant: keys, indices and
    counters in range, the replay bitmap in step with the set of accepted
    counters, the buffers at their sizes.  Every exception it ends with is laid
    at a kernel answer: an error of [epoll_ctl], one of [epoll_wait] other than
    EINTR, one of [recvfrom], [sendto], [read] or [write] outside the errors
    that call tolerates, or a short write.  So no packet and no datagram stops
    it, and with none of these answers it returns. *)
Theorem relay_runs_safely cfg i name u waits :
  config_ok cfg -> identity_ok i -> Forall wait_ok waits ->
  safe (fun x => setup_fault u x \/ run_fault name waits x) (relay_serve cfg i name u waits)
    (fun '(s, _, _) => exists A, relay_inv cfg i A s).
Proof. apply relay_serve_safe. Qed.

(** [C8] Silence: a datagram that does not authenticate (no accepted
    initiation, no accepted response to the handshake in flight, no genuine
    fresh packet of the session) makes the handler return normally, whatever
    the kernel would have answered, with no datagram, no TUN write and no log
    line, and changes neither the peer, the session, the handshake in flight
    nor the timestamp guard: one drop counter is all that moves. *)
Theorem relay_silent_unless_authenticated cfg i A s d from name step :
  relay_inv cfg i A s -> config_ok cfg -> identity_ok i -> bytes_ok d ->
  length d ≤ length (rl_udp_buffer s) -> entropy_ok (us_entropy step) ->
  ~ authenticated cfg i A s d ->
  exists s', handle_udp cfg i name s d from step = Ok (s', []) /\
    same_core s s' /\ exists f, counted f s s'.
Proof.
  intros Hinv Hcfg Hi Hd Hlen Hent Hno.
  pose proof (handle_udp_meets cfg i A name step Hi s d from Hinv Hd Hlen Hent) as Hm.
  destruct (handle_udp cfg i name s d from step) as [[s' out]|x|]; [|by destruct Hm | done]. destruct Hm as (A' & Hspec & _).
  destruct Hspec; [by eauto 10 | exfalso; apply Hno ..]; [left | left | right; left | right; right..];
    eauto 10.
Qed.

(** [C24] The endpoint follows authenticated packets only, and only on the
    responder: if handling a datagram changes the peer, then the datagram
    authenticated, this side is the responder, and the new peer is the address
    the datagram came from.  The initiator's peer is never changed. *)
Theorem relay_peer_moves_authenticated cfg i A s d from name step :
  relay_inv cfg i A s -> config_ok cfg -> identity_ok i -> bytes_ok d ->
  length d ≤ length (rl_udp_buffer s) -> entropy_ok (us_entropy step) ->
  safe (udp_fault name step) (handle_udp cfg i name s d from step) (fun '(s', _) =>
    rl_peer s' = rl_peer s \/
    authenticated cfg i A s d /\ cfg_role cfg = responder /\ peer_is s' from).
Proof.
  intros Hinv Hcfg Hi Hd Hlen Hent.
  eapply safe_mono; [by apply (handle_udp_meets cfg i A name step) | by intros x [_ Hx]; right |].
  intros [s' out] (A' & Hspec & _).
  destruct Hspec as [f s' _ [? _] _ | | hs s' keys resp ok Hr Hread _ _ Hp _ _ | |
                    |c m n w s' log taken Hgen _ _ _ _ Hini Hres _ _]; auto.
  - right. split; [left; eauto|]. done.
  - destruct (cfg_role cfg) eqn:Hr; [left; auto|]. right. split; [right; right; eauto|]. auto.
Qed.

(** [C13] Only the peer's packets reach the TUN device: every packet written
    to it while a datagram is handled is the inner packet of a genuine
    transport message (sealed by the peer under the session's key, with a
    counter not accepted before), and the counter is then recorded, so the
    same message cannot be delivered again; the only datagram ever sent in
    reply goes to the sender of an accepted initiation. *)
Theorem relay_acts_on_genuine cfg i A s d from name step :
  relay_inv cfg i A s -> config_ok cfg -> identity_ok i -> bytes_ok d ->
  length d ≤ length (rl_udp_buffer s) -> entropy_ok (us_entropy step) ->
  safe (udp_fault name step) (handle_udp cfg i name s d from step) (fun '(s', out) =>
    (forall p taken, WriteTun p taken ∈ out -> exists c m n A',
       genuine A s d c m /\ (c ∉ A) /\ delivered m = Some n /\ p = take n m /\
       c ∈ A' /\ relay_inv cfg i A' s') /\
    (forall r to ok, SendTo r to ok ∈ out -> to = from /\ cfg_role cfg = responder /\
       exists hs g, read_initiation (Handshake_new i) d (rl_guard s) = Ok (true, hs, g))).
Proof.
  intros Hinv Hcfg Hi Hd Hlen Hent.
  eapply safe_mono; [by apply (handle_udp_meets cfg i A name step) | by intros x [_ Hx]; right |].
  intros [s' out] (A' & Hspec & Hinv').
  destruct Hspec as [| | hs s' keys resp ok Hr Hread _ _ _ _ _ | | |
                     c m n w s' log taken Hgen Hdel _ _ _ _ _ Hlog _].
  1, 2, 5: split; intros ? ?; [|intros ?]; by intros ?%elem_of_nil.
  - split; [intros p tk; destruct ok; set_solver|]. intros r to ok' Hin.
    assert (to = from) as -> by (destruct ok; set_solver). eauto 10.
  - split; intros ? ?; [|intros ?]; set_solver.
  - assert (forall a, a ∈ log -> exists line, a = Log line) as Hlog'
      by (intros a Ha; by eapply (proj1 (Forall_forall _ _) Hlog)).
    pose proof Hgen as (_ & _ & (_ & Hfresh & _) & _). split.
    + intros p tk [Hin|Hin]%elem_of_app; [by apply Hlog' in Hin as [? ?]|].
      destruct (n =? 0); [by apply elem_of_nil in Hin|]. apply list_elem_of_singleton in Hin.
      injection Hin as -> ->. exists c, m, n, ({[c]} ∪ A). repeat split_and; try done. set_solver.
    + intros r to ok' [Hin|Hin]%elem_of_app; [by apply Hlog' in Hin as [? ?]|].
      destruct (n =? 0); set_solver.
Qed.

(** [C26] Accounting: every datagram handled is counted under exactly one
    outcome. *)
Theorem relay_counts_once cfg i A s d from name step :
  relay_inv cfg i A s -> config_ok cfg -> identity_ok i -> bytes_ok d ->
  length d ≤ length (rl_udp_buffer s) -> entropy_ok (us_entropy step) ->
  safe (udp_fault name step) (handle_udp cfg i name s d from step) (fun '(s', _) => exists f, f ∈ outcomes /\
    rl_stats s' f = u64 (rl_stats s f + 1) /\
    forall g, g ∈ outcomes -> g <> f -> rl_stats s' g = rl_stats s g).
Proof.
  intros Hinv Hcfg Hi Hd Hlen Hent.
  eapply safe_mono; [by apply (handle_udp_meets cfg i A name step) | by intros x [_ Hx]; right |].
  intros [s' out] (A' & Hspec & _).
  destruct Hspec; eexists; eassumption.
Qed.

(** [C25] Sending: a packet from the TUN device is dropped without a peer,
    starts at most a handshake without a session, and otherwise is sealed with
    the session's own counter and sent to the peer; the counter is exhausted
    whenever the relay counts it as such (its buffer is always large enough,
    so that is the only way sealing can fail). *)
Theorem relay_sends_sealed cfg i A s p step :
  relay_inv cfg i A s -> config_ok cfg -> identity_ok i -> entropy_ok (ts_entropy step) ->
  bytes_ok p -> length p ≤ Z.to_nat (cfg_mtu cfg) ->
  safe (send_fault (ts_send step)) (handle_tun cfg i s p step) (fun '(s', out) => relay_inv cfg i A s' /\
    match rl_peer s with
    | None => out = [] /\ same_core s s' /\ rl_stats s' = bump dropped_no_peer (rl_stats s)
    | Some peer =>
        rl_peer s' = rl_peer s /\
        if ss_active (rl_session s) then
          if decide (ss_send_counter (rl_session s) < kRejectAfterMessages)%Z then
            (exists ok, out = [SendTo (datagram (rl_session s) (ss_send_counter (rl_session s)) p)
                                 peer ok]) /\
            ss_send_counter (rl_session s') = (ss_send_counter (rl_session s) + 1)%Z
          else out = [] /\ same_core s s' /\
               rl_stats s' = bump dropped_counter_exhausted (rl_stats s)
        else rl_session s' = rl_session s /\
             (out = [] \/ exists m ok, out = [SendTo m peer ok] /\ length m = 148 /\
                cfg_role cfg = initiator /\ retry_due s (monotonic_ns (ts_now step)))
    end).
Proof.
  intros Hinv Hcfg Hi Hent Bp Lp.
  eapply safe_mono; [by apply (handle_tun_meets cfg i A) | done |]. intros [s' out] [Hspec Hinv'].
  split; [done|].
  destruct Hspec as [s' Hp Hcore Hst | s' out peer Hp Ha Hs Hp' Hg Hout
    | s' peer Hp Ha Hc Hcore Hst | s' peer ok Hp Ha Hc Hs Hp' _ _]; rewrite Hp.
  - done.
  - split; [congruence|]. rewrite Ha. split; [done|].
    destruct Hout as [->|(m & ok & -> & ? & ? & ? & _)]; [by left|]. right. by exists m, ok.
  - destruct Hcore as (E & Hcore). split; [congruence|]. rewrite Ha, decide_False by lia. done.
  - split; [congruence|]. rewrite Ha, decide_True by done. rewrite Hs. split; [by exists ok | done].
Qed.

(** A signal somewhere among the events to come. *)
Definition signalled (waits : list (sysres (list event))) : Prop :=
  exists es signo, SysOk es ∈ waits /\ OnSignal signo ∈ es.

Lemma relay_loop_signalled cfg i name waits s s' running out :
  signalled waits -> relay_loop cfg i name s waits = Ok (s', running, out) -> running = false.
Proof.
  intros (es & signo & Hin & Hsig). revert s s' running out.
  induction waits as [|[es'|e] waits IH]; intros s s' running out H; [by apply elem_of_nil in Hin| |];
    cbn [relay_loop] in H.
  - apply bind_Ok_inv in H as ([[s1 r1] o1] & H1 & H). apply elem_of_cons in Hin as [[= <-]|Hin].
    + pose proof (handle_events_signal cfg i name s true es signo s1 r1 o1 Hsig H1) as ->.
      by injection H as _ <- _.
    + destruct r1; [|by injection H as _ <- _].
      apply bind_Ok_inv in H as ([[s2 r2] o2] & H2 & [= _ <- _]). by eapply IH.
  - apply elem_of_cons in Hin as [[=]|Hin]. destruct (e =? EINTR)%Z; [|done]. by eapply IH.
Qed.

(** The loop stops for a signal only. *)
Lemma handle_events_unsignalled cfg i name s es s' out :
  handle_events cfg i name s true es = Ok (s', false, out) -> exists signo, OnSignal signo ∈ es.
Proof.
  revert s out. induction es as [|e es IH]; intros s out H; cbn [handle_events] in H; [done|].
  apply bind_Ok_inv in H as ([[s1 r1] o1] & H1 & H). apply bind_Ok_inv in H as ([[s2 r2] o2] & H2 & H).
  injection H as <- -> _. destruct e as [ts|us|signo|]; [| | by exists signo; left |];
    (destruct (IH s1 o2) as [signo Hs]; [|by exists signo; right]); cbn [handle_event] in H1.
  1, 2: apply bind_Ok_inv in H1 as ([] & _ & [= -> <- _]); exact H2.
  injection H1 as -> <- _. exact H2.
Qed.

Lemma relay_loop_unsignalled cfg i name waits s s' out :
  relay_loop cfg i name s waits = Ok (s', false, out) -> signalled waits.
Proof.
  revert s out. induction waits as [|[es|e] waits IH]; intros s out H; cbn [relay_loop] in H; [done| |].
  - apply bind_Ok_inv in H as ([[s1 []] o1] & H1 & H).
    + apply bind_Ok_inv in H as ([[s2 r2] o2] & H2 & [= -> -> _]).
      destruct (IH _ _ H2) as (es' & signo & Hin & Hsig). exists es', signo. split; [by right | done].
    + apply handle_events_unsignalled in H1 as [signo Hsig]. exists es, signo. split; [by left | done].
  - destruct (e =? EINTR)%Z; [|done]. destruct (IH _ _ H) as (es' & signo & Hin & Hsig).
    exists es', signo. split; [by right | done].
Qed.

(** What [epoll_wait] would have answered after a signal is never asked for. *)
Lemma relay_loop_cut cfg i name before es signo after s s' running out :
  OnSignal signo ∈ es ->
  relay_loop cfg i name s (before ++ SysOk es :: after) = Ok (s', running, out) ->
  relay_loop cfg i name s (before ++ [SysOk es]) = Ok (s', false, out).
Proof.
  intros Hsig. revert s s' running out.
  induction before as [|[es'|e] before IH]; intros s s' running out H; cbn [app relay_loop] in *.
  - apply bind_Ok_inv in H as ([[s1 r1] o1] & H1 & H). rewrite H1, bind_Ok.
    pose proof (handle_events_signal cfg i name s true es signo s1 r1 o1 Hsig H1) as ->.
    by injection H as <- _ <-.
  - apply bind_Ok_inv in H as ([[s1 r1] o1] & H1 & H). rewrite H1, bind_Ok.
    destruct r1; [|by injection H as <- _ <-].
    apply bind_Ok_inv in H as ([[s2 r2] o2] & H2 & [= <- _ <-]). by rewrite (IH _ _ _ _ H2).
  - destruct (e =? EINTR)%Z; [|done]. by eapply IH.
Qed.

(** [C28] The loop runs until it is signalled, and no longer: from any state
    of its invariant, as long as the kernel answers nothing the loop does not
    tolerate, it returns, whatever is received; it has stopped exactly when a
    signal was among the events; and then it returns after the rest of the
    events of that wait, whatever [epoll_wait] would have answered next. *)
Theorem relay_stops_on_signal cfg i name A s waits :
  relay_inv cfg i A s -> config_ok cfg -> identity_ok i -> Forall wait_ok waits ->
  (forall x, ~ run_fault name waits x) ->
  exists s' running out, relay_loop cfg i name s waits = Ok (s', running, out) /\
    (running = false <-> signalled waits) /\
    forall before es signo after, waits = before ++ SysOk es :: after -> OnSignal signo ∈ es ->
      relay_loop cfg i name s (before ++ [SysOk es]) = Ok (s', false, out).
Proof.
  intros Hinv Hcfg Hi Hw Hno.
  pose proof (relay_loop_safe cfg i name Hcfg Hi s waits (ex_intro _ A Hinv) Hw) as Hsafe.
  destruct (relay_loop cfg i name s waits) as [[[s' running] out]|x|] eqn:H; [|by apply Hno in Hsafe | done].
  exists s', running, out. split; [done|]. split.
  - split; [intros ->; by eapply relay_loop_unsignalled | intros Hsig; by eapply relay_loop_signalled].
  - intros before es signo after -> Hsig. by eapply relay_loop_cut.
Qed.

(** ** The retry interval *)

(** The times at which a sequence of calls sends an initiation. *)
Fixpoint starts (cfg : RelayConfig) (i : Identity) (s : Relay) (steps : list tun_step)
    : Res (Relay * list Z) :=
  match steps with
  | [] => Ok (s, [])
  | step :: steps =>
      '(s, out) ← start_handshake cfg i s step;
      '(s, ts) ← starts cfg i s steps;
      Ok (s, match out with [] => ts | _ => monotonic_ns (ts_now step) :: ts end)
  end.

Definition spaced (a b : Z) : Prop := (a + kHandshakeRetryNs <= b)%Z.

(** [C27] Initiations are at least one retry interval (1 s) apart: over any
    sequence of attempts, at non-decreasing monotonic times, the times at which
    an initiation is actually sent are spaced by [kHandshakeRetryNs], and the
    first is that far from an earlier one. *)
Theorem relay_retry_interval cfg i A s steps :
  relay_inv cfg i A s -> identity_ok i -> Forall (fun t => entropy_ok (ts_entropy t)) steps ->
  Sorted Z.le (rl_last_initiation_ns s :: (monotonic_ns ∘ ts_now <$> steps)) ->
  Forall (fun t => 0 < monotonic_ns (ts_now t))%Z steps ->
  safe (fun x => Exists (fun t => send_fault (ts_send t) x) steps) (starts cfg i s steps) (fun '(_, ts) => Sorted spaced ts /\
    (rl_last_initiation_ns s <> 0%Z -> HdRel spaced (rl_last_initiation_ns s) ts)).
Proof.
  intros Hinv Hi Hent. revert s Hinv. induction Hent as [|t ts He _ IH]; intros s Hinv Hsort Hpos.
  { cbn. split; [constructor|]. intros; constructor. }
  cbn [starts]. set (now := monotonic_ns (ts_now t)). cbn [fmap list_fmap compose] in Hsort.
  apply Forall_cons in Hpos as [Hp0 Hpos]. fold now in Hp0.
  assert (rl_last_initiation_ns s <= now)%Z as Hle
    by (apply Sorted_inv in Hsort as [_ Hhd]; by apply HdRel_inv in Hhd).
  assert (Sorted Z.le (now :: (monotonic_ns ∘ ts_now <$> ts))) as Hs1 by by apply Sorted_inv in Hsort as [? _].
  assert (Sorted Z.le (rl_last_initiation_ns s :: (monotonic_ns ∘ ts_now <$> ts))) as Hs0.
  { apply Sorted_inv in Hs1 as [Hs2 Hhd]. constructor; [done|].
    destruct (monotonic_ns ∘ ts_now <$> ts); constructor. apply HdRel_inv in Hhd. lia. }
  pose proof (inv_last _ _ _ _ Hinv) as Hl. unfold is_u64 in Hl.
  assert (is_u64 now) as Hnow by apply is_u64_u64. unfold is_u64 in Hnow.
  assert (retry_due s now -> rl_last_initiation_ns s <> 0%Z ->
    spaced (rl_last_initiation_ns s) now) as Hdue.
  { unfold retry_due, spaced, u64. intros [|Hd] Hnz; [done|]. rewrite Z.mod_small in Hd by lia. lia. }
  eapply safe_bind; [by apply (start_handshake_safe cfg i A) | by left |]. fold now.
  intros [s1 out] (Hinv1 & _ & _ & _ & Hlast & Hout).
  assert (Sorted Z.le (rl_last_initiation_ns s1 :: (monotonic_ns ∘ ts_now <$> ts))) as Hs1'
    by by destruct Hlast as [-> | [_ ->]].
  eapply safe_bind; [by apply IH | by right |]. intros [s2 l] [Hsl Hhd].
  destruct Hout as [->|(m & peer & ok & -> & _ & _ & _ & Hr & Hl1)]; cbn.
  - split; [done|]. intros Hnz. destruct Hlast as [Heq|[Hr Heq]]; rewrite Heq in Hhd; [by apply Hhd|].
    destruct l as [|x l]; constructor. specialize (Hhd ltac:(lia)). apply HdRel_inv in Hhd.
    specialize (Hdue Hr Hnz). unfold spaced, kHandshakeRetryNs in *. lia.
  - rewrite Hl1 in Hhd. split; [constructor; [done | apply Hhd; lia]|]. intros Hnz. constructor. auto.
Qed.

End Theorems.
