(* ===== verification/Tunnel.v ===== *)
(** * Tunnel: two relays configured for each other carry packets

    The whole path in one statement, from any state in which the client has no
    session: a packet on its TUN device makes
    it send an initiation, the server answers, the client activates its
    session, and the next packet comes out of the server's TUN device byte for
    byte.  Each lemma below is one handler run on the message the previous one
    produced. *)

From Stdlib Require Import ZArith Lia String.
From stdpp Require Import base tactics numbers list option strings gmap.
From S2P Require Import Prelude Wire Crypto Toy Noise HandshakeProofs Replay Session Net Relay.
From S2P Require Import RelayProofs RelayRuns.

Section Tunnel.
Context `{P : Primitives} `{PO : !PrimitivesOk} `{I : Inet}.

Lemma send_to_all (d : list Z) n : n = Z.of_nat (length d) -> send_to d [SysOk n] = Ok true.
Proof. intros ->. cbn. by rewrite Z.eqb_refl. Qed.

(** No initiation was sent yet, or the last one is a retry interval ago. *)
Definition may_initiate (s : Relay) (step : tun_step) : Prop :=
  rl_last_initiation_ns s = 0%Z \/
  (kHandshakeRetryNs <= u64 (monotonic_ns (ts_now step) - rl_last_initiation_ns s))%Z.

Lemma client_initiates cfg i A s p step peer hs m :
  relay_inv cfg i A s -> config_ok cfg -> bytes_ok p -> length p ≤ Z.to_nat (cfg_mtu cfg) ->
  cfg_role cfg = initiator -> rl_peer s = Some peer -> ss_active (rl_session s) = false ->
  may_initiate s step ->
  write_initiation (Handshake_new i) (rl_handshake_buffer s) (ts_entropy step)
    = Ok (hs, m ++ drop 148 (rl_handshake_buffer s), Some 148) -> length m = 148 ->
  ts_send step = [SysOk 148%Z] ->
  exists s', handle_tun cfg i s p step = Ok (s', [SendTo m peer true]) /\
    rl_pending s' = Some hs /\ rl_session s' = rl_session s /\ rl_peer s' = Some peer.
Proof.
  intros Hinv Hcfg Bp Lp Hrole Hpeer Hact Hlast Hw Lm Hsend.
  destruct (tun_slot cfg i A s p Hinv Hcfg Bp Lp) as (hdr & rest & Hb & _).
  unfold handle_tun. rewrite Hb, bind_Ok.
  relay_cbn. rewrite Hpeer, Hact. cbn [negb]. unfold start_handshake. rewrite Hrole. relay_cbn.
  rewrite Hpeer. replace (_ && _) with false; [rewrite Hw, bind_Ok|].
  2: { symmetry. apply andb_false_iff. destruct Hlast as [->|Hlast]; [by left | right; by apply Z.ltb_ge]. }
  unfold first. rewrite subspan_ok by (rewrite length_app; lia).
  rewrite bind_Ok, drop_0, take_app_length', Hsend, send_to_all by (done || lia). rewrite bind_Ok.
  eexists. split; [done|]. done.
Qed.

Lemma read_initiation_type hs d g hs' g' :
  read_initiation hs d g = Ok (true, hs', g') -> exists m, decode d = Ok (Some (MInitiation m)).
Proof.
  unfold read_initiation. destruct (decode d) as [[[]|]| |]; cbn; try done. eauto.
Qed.
Lemma read_response_type hs d k hs' k' :
  read_response hs d k = Ok (true, hs', k') -> exists m, decode d = Ok (Some (MResponse m)).
Proof.
  unfold read_response. destruct (decode d) as [[[]|]| |]; cbn; try done. eauto.
Qed.

Lemma udp_slot cfg i A s (d : list Z) :
  relay_inv cfg i A s -> config_ok cfg ->
  (Z.of_nat (length d) <= max_datagram (cfg_mtu cfg))%Z -> length d ≤ length (rl_udp_buffer s).
Proof. intros Hinv Hcfg Hd. pose proof (inv_udp _ _ _ _ Hinv). lia. Qed.

Lemma server_responds cfg i A s d from name step hs g hs' m keys :
  relay_inv cfg i A s -> config_ok cfg ->
  (Z.of_nat (length d) <= max_datagram (cfg_mtu cfg))%Z -> cfg_role cfg = responder ->
  read_initiation (Handshake_new i) d (rl_guard s) = Ok (true, hs, g) ->
  write_response hs (rl_handshake_buffer s) (ss_keys (rl_session s)) (us_entropy step)
    = Ok (hs', m ++ drop 92 (rl_handshake_buffer s), keys, Some 92) -> length m = 92 ->
  us_send step = [SysOk 92%Z] ->
  exists s', handle_udp cfg i name s d from step =
      Ok (s', [SendTo m from true; established from]) /\
    rl_session s' = activate (set_keys (rl_session s) keys) /\ peer_is s' from.
Proof.
  intros Hinv Hcfg Hsz Hrole Hread Hw Lm Hsend. unfold handle_udp.
  rewrite copy_to_start by (by eapply udp_slot). rewrite bind_Ok.
  rewrite (proj2 (Z.ltb_ge _ _)) by lia. destruct (read_initiation_type _ _ _ _ _ Hread) as [x ->].
  rewrite bind_Ok. unfold handle_initiation. rewrite Hrole. relay_cbn. rewrite Hread, bind_Ok.
  cbn [negb]. rewrite Hw, bind_Ok. unfold first. rewrite subspan_ok by (rewrite length_app; lia).
  rewrite bind_Ok, drop_0, take_app_length', Hsend, send_to_all by (done || lia). rewrite bind_Ok.
  match goal with |- context [learn_peer ?x from] => set (s2 := x) end.
  destruct (learn_peer_core s2 from) as (E1 & _).
  eexists. split; [done|]. split; [exact E1|]. exact (learn_peer_is s2 from).
Qed.

Lemma client_completes cfg i A s d from name step p hs keys :
  relay_inv cfg i A s -> config_ok cfg ->
  (Z.of_nat (length d) <= max_datagram (cfg_mtu cfg))%Z -> cfg_role cfg = initiator ->
  rl_pending s = Some p ->
  read_response p d (ss_keys (rl_session s)) = Ok (true, hs, keys) ->
  exists s', handle_udp cfg i name s d from step = Ok (s', [established from]) /\
    rl_session s' = activate (set_keys (rl_session s) keys) /\ rl_peer s' = rl_peer s /\
    rl_pending s' = None.
Proof.
  intros Hinv Hcfg Hsz Hrole Hp Hread. unfold handle_udp.
  rewrite copy_to_start by (by eapply udp_slot). rewrite bind_Ok.
  rewrite (proj2 (Z.ltb_ge _ _)) by lia. destruct (read_response_type _ _ _ _ _ Hread) as [x ->].
  rewrite bind_Ok. unfold handle_response. rewrite Hrole. relay_cbn. rewrite Hp, Hread, bind_Ok.
  by eexists.
Qed.

(** The data path: the client seals and sends, the server opens and writes. *)
Lemma client_sends cfg i A s p step peer :
  relay_inv cfg i A s -> config_ok cfg -> identity_ok i -> entropy_ok (ts_entropy step) ->
  bytes_ok p -> length p ≤ Z.to_nat (cfg_mtu cfg) -> rl_peer s = Some peer ->
  ss_active (rl_session s) = true -> (ss_send_counter (rl_session s) < kRejectAfterMessages)%Z ->
  ts_send step = [SysOk (Z.of_nat (length (pad16 p) + 32))] ->
  exists s', handle_tun cfg i s p step =
    Ok (s', [SendTo (datagram (rl_session s) (ss_send_counter (rl_session s)) p) peer true]).
Proof.
  intros Hinv Hcfg Hi Hent Bp Lp Hpeer Hact Hlt Hsend.
  destruct (tun_slot cfg i A s p Hinv Hcfg Bp Lp) as (hdr & rest & Hb & Hh & Hinv0).
  unfold handle_tun. rewrite Hb, bind_Ok. set (s0 := set_tun_buffer s _) in *.
  change (rl_peer s0) with (rl_peer s). change (rl_session s0) with (rl_session s).
  rewrite Hpeer, Hact. cbn [negb].
  destruct (send_packet_eq cfg i A s0 peer hdr p rest step) as (s1 & _ & _ & _ & _ & _ & ->); [done..|].
  change (rl_session s0) with (rl_session s).
  rewrite Hsend, send_to_all, bind_Ok; [by eexists|].
  rewrite length_datagram; [done | by apply (inv_session _ _ _ _ Hinv) | done].
Qed.

Lemma peer_delivers cfg i A s c p sealed d from name step :
  relay_inv cfg i A s -> config_ok cfg -> ss_active (rl_session s) = true -> is_u64 c -> spec_acceptable A c ->
  (Z.of_nat (length d) <= max_datagram (cfg_mtu cfg))%Z -> bytes_ok d ->
  decode d = Ok (Some (MTransport (mkTransport (local_index (rl_session s)) c sealed))) ->
  authentic (rl_session s) c sealed (pad16 p) -> bytes_ok p -> ipv4_packet p ->
  (Z.of_nat (length p) < 2 ^ 63)%Z -> us_write step = [SysOk (Z.of_nat (length p))] ->
  exists s' log, handle_udp cfg i name s d from step = Ok (s', log ++ [WriteTun p true]) /\
    Forall (fun a => exists line, a = Log line) log /\ (peer_is s from -> log = []).
Proof.
  intros Hinv Hcfg Hact Hc Hacc Hsz Bd Hdec Hau Bp Hip Lp Hw.
  pose proof (inv_session _ _ _ _ Hinv) as Hses. pose proof (inv_window _ _ _ _ Hinv) as Hwin.
  pose proof (udp_slot cfg i A s d Hinv Hcfg Hsz) as Hfit.
  destruct (transport_shape d _ Bd Hdec) as (_ & _ & Hdrop & Hdl). cbn in Hdrop, Hdl.
  unfold handle_udp. rewrite copy_to_start by done. rewrite bind_Ok.
  rewrite (proj2 (Z.ltb_ge _ _)) by lia. rewrite Hdec, bind_Ok. unfold handle_transport. relay_cbn.
  rewrite Hact. cbn [negb td_receiver_index td_counter]. rewrite Z.eqb_refl. cbn [negb].
  unfold replay_acceptable. destruct (acceptable_spec _ _ _ Hwin Hc) as (b & Hb & Hbs).
  rewrite (proj2 Hbs Hacc) in Hb. rewrite Hb, bind_Ok. cbn [negb].
  unfold open_transport, subspan_from. rewrite decide_True by wire_lia. rewrite bind_Ok.
  change kTransportHeaderSize with 16. rewrite Hdrop. relay_cbn.
  destruct (open_authentic _ A c sealed (pad16 p) Hses Hact Hwin Hc Hacc Hau) as (w & _ & ->).
  rewrite bind_Ok, delivered_ipv4 by done. destruct Hau as (Bpad & _ & Hct).
  destruct Hses as (_ & Hkr & _).
  assert (length sealed = length (pad16 p) + 16) as Ls by (by rewrite Hct, length_sealed).
  unfold copy_to. rewrite decide_True by (rewrite !length_app, !length_drop; lia). rewrite bind_Ok.
  unfold deliver, first. destruct (length_pad16 p Lp) as (_ & _ & Hpl).
  rewrite subspan_ok by (rewrite length_app; lia). rewrite bind_Ok, drop_0.
  rewrite (take_app_le (pad16 p)) by lia. assert (take (length p) (pad16 p) = p) as ->
    by (unfold pad16; by rewrite take_app_length).
  assert ((length p =? 0) = false) as Hne
    by (apply Nat.eqb_neq; destruct Hip as (? & ? & ? & ? & ? & -> & _); done).
  match goal with |- context [if ?b then (count _ (set_peer _ _), _) else _] => set (roamed := b) end.
  assert (peer_is s from -> roamed = false) as Hroam.
  { intros (q & Hq & Hsame). unfold roamed, moved. relay_cbn. rewrite Hq, Hsame. by destruct (cfg_role cfg). }
  destruct roamed; cbv iota beta; rewrite Hne, Hw; cbn [write_packet]; rewrite Z.eqb_refl;
    cbn [negb]; rewrite bind_Ok;
    (eexists _, _; split; [reflexivity|]; split; [repeat constructor; by eexists|]).
  - by intros ?%Hroam.
  - done.
Qed.

(** ** From the exact runs back to the invariant *)

Lemma tun_inv cfg i A s p step s' out :
  relay_inv cfg i A s -> config_ok cfg -> identity_ok i -> entropy_ok (ts_entropy step) ->
  bytes_ok p -> length p ≤ Z.to_nat (cfg_mtu cfg) ->
  handle_tun cfg i s p step = Ok (s', out) -> relay_inv cfg i A s'.
Proof.
  intros Hinv Hcfg Hi Hent Bp Lp H. pose proof (handle_tun_meets cfg i A s p step Hinv Hcfg Hi Hent Bp Lp)
    as Hsafe. rewrite H in Hsafe. by destruct Hsafe.
Qed.

(** After a handshake the window is empty. *)
Lemma udp_inv_activated cfg i A s d from name step s' out s0 keys :
  relay_inv cfg i A s -> identity_ok i -> entropy_ok (us_entropy step) ->
  bytes_ok d -> length d ≤ length (rl_udp_buffer s) ->
  handle_udp cfg i name s d from step = Ok (s', out) ->
  rl_session s' = activate (set_keys s0 keys) -> relay_inv cfg i ∅ s'.
Proof.
  intros Hinv Hi Hent Bd Ld H Hses.
  pose proof (handle_udp_meets cfg i A name step Hi s d from Hinv Bd Ld Hent) as Hsafe.
  rewrite H in Hsafe. destruct Hsafe as (A' & _ & Hinv').
  destruct (inv_window _ _ _ _ Hinv') as [_ Hrep]. rewrite Hses in Hrep. cbn in Hrep. by subst A'.
Qed.

(** A client and a server between which the handshake has just completed. *)
Record tunnel_up (cfgI cfgR : RelayConfig) (iI iR : Identity) (caddr saddr : sockaddr_in)
    (c s : Relay) : Prop := {
  up_client : relay_inv cfgI iI ∅ c;
  up_server : relay_inv cfgR iR ∅ s;
  up_client_peer : rl_peer c = Some saddr;
  up_server_peer : peer_is s caddr;
  up_client_active : ss_active (rl_session c) = true;
  up_server_active : ss_active (rl_session s) = true;
  up_counter : ss_send_counter (rl_session c) = 0%Z;
  up_keys : tk_receive (ss_keys (rl_session s)) = tk_send (ss_keys (rl_session c));
  up_index : local_index (rl_session s) = peer_index (rl_session c);
  up_pending : rl_pending c = None;
  up_counter_back : ss_send_counter (rl_session s) = 0%Z;
  up_keys_back : tk_receive (ss_keys (rl_session c)) = tk_send (ss_keys (rl_session s));
  up_index_back : local_index (rl_session c) = peer_index (rl_session s)
}.

(** The server has not accepted an initiation with this or a later timestamp. *)
Definition newer_than_seen (s : Relay) (ent : Entropy) : Prop :=
  forall ts, timestamp (ent_now ent) = Ok ts -> fresh_for (rl_guard s) ts.

Lemma handshake_completes cfgI cfgR iI iR cname sname caddr saddr A A' c0 s0 p0 st1 st2 st3 :
  let e1 := clamp (ent_key (ts_entropy st1)) in
  let e2 := clamp (ent_key (us_entropy st2)) in
  paired iI iR ->
  (576 <= cfg_mtu cfgI <= 1500)%Z -> (576 <= cfg_mtu cfgR <= 1500)%Z ->
  cfg_role cfgI = initiator -> cfg_role cfgR = responder ->
  relay_inv cfgI iI A c0 -> relay_inv cfgR iR A' s0 ->
  rl_peer c0 = Some saddr -> ss_active (rl_session c0) = false -> may_initiate c0 st1 ->
  newer_than_seen s0 (ts_entropy st1) ->
  bytes_ok p0 -> length p0 ≤ Z.to_nat (cfg_mtu cfgI) ->
  entropy_ok (ts_entropy st1) -> entropy_ok (us_entropy st2) -> entropy_ok (us_entropy st3) ->
  is_Some (dh_val e1 (id_peer_public iI)) -> is_Some (dh_val (id_private iI) (id_peer_public iI)) ->
  is_Some (dh_val e2 (scalarmult_base e1).2) -> is_Some (dh_val e2 (id_peer_public iR)) ->
  ts_send st1 = [SysOk 148%Z] -> us_send st2 = [SysOk 92%Z] ->
  exists m1 m2 c1 s1 c2,
    handle_tun cfgI iI c0 p0 st1 = Ok (c1, [SendTo m1 saddr true]) /\
    handle_udp cfgR iR sname s0 m1 caddr st2
      = Ok (s1, [SendTo m2 caddr true; established caddr]) /\
    handle_udp cfgI iI cname c1 m2 saddr st3 = Ok (c2, [established saddr]) /\
    tunnel_up cfgI cfgR iI iR caddr saddr c2 s1.
Proof.
  intros e1 e2 Hp MI MR RI RR IC0 IS0 PI Hact Hmay Hnew Bp0 Lp0 E1 E2 E3 D1 D2 D3 D4 S1 S2.
  assert (config_ok cfgI) as CI by (unfold config_ok; lia).
  assert (config_ok cfgR) as CR by (unfold config_ok; lia).
  pose proof Hp as (OI & OR & _). pose proof (inv_hs _ _ _ _ IC0) as LI. pose proof (inv_hs _ _ _ _ IS0) as LR.
  destruct (max_datagram_val cfgI CI) as [XI YI]. destruct (max_datagram_val cfgR CR) as [XR YR].
  destruct (timestamp_val (ent_now (ts_entropy st1))) as (ts & Hts & _); [apply E1|].
  destruct (initiation_delivered (Handshake_new iI) (Handshake_new iR) (rl_handshake_buffer c0)
    (ts_entropy st1) (rl_guard s0) ts) as (hi & m1 & hr & W1 & [L1 B1] & R1 & Hst & _ & J2 & K1 & _);
    try done; [by apply handshake_ok_new.. | apply (inv_guard _ _ _ _ IS0) | lia | by apply Hnew |].
  destruct (response_delivered hi hr (rl_handshake_buffer s0) (us_entropy st2)
    (ss_keys (rl_session s0)) (ss_keys (rl_session c0)))
    as (hr' & m2 & kr & hi' & ki & W2 & [L2 B2] & R2 & Q1 & Q2 & Q3 & Q4 & Q5 & Q6 & _); [done | done | lia | ..].
  { pose proof Hst as (_ & _ & _ & _ & _ & -> & _). by rewrite K1. }
  { by rewrite J2. }
  destruct (client_initiates cfgI iI A c0 p0 st1 saddr hi m1)
    as (c1 & H1 & P1 & T1 & V1); try done.
  pose proof (tun_inv _ _ _ _ _ _ _ _ IC0 CI OI E1 Bp0 Lp0 H1) as IC1.
  destruct (server_responds cfgR iR A' s0 m1 caddr sname st2 hr (mkGuard ts true) hr' m2 kr)
    as (s1 & H2 & T2 & V2); try done; [lia|].
  destruct (client_completes cfgI iI A c1 m2 saddr cname st3 hi hi' ki) as (c2 & H3 & T3 & V3 & N3);
    try done; [lia | by rewrite T1 |].
  exists m1, m2, c1, s1, c2. split; [done|]. split; [done|]. split; [done|].
  constructor.
  - exact (udp_inv_activated _ _ _ _ _ _ _ _ _ _ _ _ IC1 OI E3 B2
             (udp_slot cfgI iI A c1 m2 IC1 CI ltac:(lia)) H3 T3).
  - exact (udp_inv_activated _ _ _ _ _ _ _ _ _ _ _ _ IS0 OR E2 B1
             (udp_slot cfgR iR A' s0 m1 IS0 CR ltac:(lia)) H2 T2).
  - by rewrite V3.
  - exact V2.
  - by rewrite T3.
  - by rewrite T2.
  - by rewrite T3.
  - rewrite T2, T3. cbn. congruence.
  - rewrite T2, T3. unfold local_index, peer_index. cbn. congruence.
  - exact N3.
  - by rewrite T2.
  - rewrite T2, T3. cbn. congruence.
  - rewrite T2, T3. unfold local_index, peer_index. cbn. congruence.
Qed.

(** Once the tunnel is up, a packet goes through. *)
Lemma packet_crosses cfgI cfgR iI iR sname caddr saddr c s p st4 st5 :
  tunnel_up cfgI cfgR iI iR caddr saddr c s -> config_ok cfgI -> config_ok cfgR ->
  identity_ok iI -> cfg_role cfgR = responder ->
  bytes_ok p -> ipv4_packet p ->
  length p ≤ Z.to_nat (cfg_mtu cfgI) -> length p ≤ Z.to_nat (cfg_mtu cfgR) ->
  entropy_ok (ts_entropy st4) ->
  ts_send st4 = [SysOk (Z.of_nat (length (pad16 p) + 32))] ->
  us_write st5 = [SysOk (Z.of_nat (length p))] ->
  exists d c' s', handle_tun cfgI iI c p st4 = Ok (c', [SendTo d saddr true]) /\
    handle_udp cfgR iR sname s d caddr st5 = Ok (s', [WriteTun p true]).
Proof.
  intros [IC IS PC PS AC AS Hctr Hkeys Hidx _ _ _ _] CI CR OI RR Bp Hip LI LR E4 S4 S5.
  destruct (max_datagram_val cfgR CR) as [XR YR].
  pose proof (inv_session _ _ _ _ IC) as OKC.
  destruct (client_sends cfgI iI ∅ c p st4 saddr) as (c' & H4); try done; [by rewrite Hctr|].
  rewrite Hctr in H4. set (ses := rl_session c) in *. unfold config_ok in CI, CR.
  assert (Z.of_nat (length p) < 2 ^ 63)%Z as Lp63 by lia.
  destruct (length_pad16 p Lp63) as (Hpl & Hmod & _).
  pose proof (padded_length_mono (Z.of_nat (length p)) (cfg_mtu cfgR) ltac:(lia) ltac:(lia)) as Hmono.
  destruct (padded_length_facts (Z.of_nat (length p))) as [_ Hpf]; [lia..|].
  destruct (peer_delivers cfgR iR ∅ s 0 p (aead_encrypt (tk_send (ss_keys ses)) (nonce_bytes 0) (pad16 p) [])
    (datagram ses 0 p) caddr sname st5) as (s' & log & H5 & _ & Hlog); try done.
  - rewrite length_datagram by done. lia.
  - by apply bytes_ok_datagram.
  - rewrite decode_datagram by (done || by_dec). by rewrite Hidx.
  - split; [by apply bytes_ok_pad16|]. split; [done|]. by rewrite Hkeys.
  - rewrite (Hlog PS) in H5. by exists (datagram ses 0 p), c', s'.
Qed.

(** [C1] End to end, from any state: two relays configured with each other's
    public keys, the server in any state its invariant allows (just started, or
    with an old session, an old peer and old timestamps), the client in any
    state without a session in which it may send an initiation (just started or
    restarted, or after handshakes that got lost).  The next packet on the
    client's TUN device makes it send an initiation; if its timestamp is newer
    than what the server has accepted, the server answers and learns the
    client's address; the client accepts the answer; the next packet is sent
    to the server, which writes exactly that packet to its TUN device.  The
    other conditions are that the kernel takes what is sent, that the packets
    fit the MTUs, and that no Diffie-Hellman hits a low-order point. *)
Theorem tunnel_end_to_end cfgI cfgR iI iR cname sname caddr saddr A A' c0 s0 p0 p st1 st2 st3 st4 st5 :
  let e1 := clamp (ent_key (ts_entropy st1)) in
  let e2 := clamp (ent_key (us_entropy st2)) in
  paired iI iR ->
  (576 <= cfg_mtu cfgI <= 1500)%Z -> (576 <= cfg_mtu cfgR <= 1500)%Z ->
  cfg_role cfgI = initiator -> cfg_role cfgR = responder ->
  relay_inv cfgI iI A c0 -> relay_inv cfgR iR A' s0 ->
  rl_peer c0 = Some saddr -> ss_active (rl_session c0) = false -> may_initiate c0 st1 ->
  newer_than_seen s0 (ts_entropy st1) ->
  bytes_ok p0 -> length p0 ≤ Z.to_nat (cfg_mtu cfgI) ->
  bytes_ok p -> ipv4_packet p ->
  length p ≤ Z.to_nat (cfg_mtu cfgI) -> length p ≤ Z.to_nat (cfg_mtu cfgR) ->
  entropy_ok (ts_entropy st1) -> entropy_ok (us_entropy st2) -> entropy_ok (us_entropy st3) ->
  entropy_ok (ts_entropy st4) ->
  is_Some (dh_val e1 (id_peer_public iI)) -> is_Some (dh_val (id_private iI) (id_peer_public iI)) ->
  is_Some (dh_val e2 (scalarmult_base e1).2) -> is_Some (dh_val e2 (id_peer_public iR)) ->
  ts_send st1 = [SysOk 148%Z] -> us_send st2 = [SysOk 92%Z] ->
  ts_send st4 = [SysOk (Z.of_nat (length (pad16 p) + 32))] ->
  us_write st5 = [SysOk (Z.of_nat (length p))] ->
  exists m1 m2 d c1 s1 c2 c3 s2,
    handle_tun cfgI iI c0 p0 st1 = Ok (c1, [SendTo m1 saddr true]) /\
    handle_udp cfgR iR sname s0 m1 caddr st2
      = Ok (s1, [SendTo m2 caddr true; established caddr]) /\
    handle_udp cfgI iI cname c1 m2 saddr st3 = Ok (c2, [established saddr]) /\
    handle_tun cfgI iI c2 p st4 = Ok (c3, [SendTo d saddr true]) /\
    handle_udp cfgR iR sname s1 d caddr st5 = Ok (s2, [WriteTun p true]).
Proof.
  intros e1 e2 Hp MI MR RI RR IC0 IS0 PI Hact Hmay Hnew Bp0 Lp0 Bp Hip LpI LpR E1 E2 E3 E4 D1 D2 D3 D4 S1 S2 S4 S5.
  destruct (handshake_completes cfgI cfgR iI iR cname sname caddr saddr A A' c0 s0 p0 st1 st2 st3)
    as (m1 & m2 & c1 & s1 & c2 & H1 & H2 & H3 & Hup); try done.
  destruct (packet_crosses cfgI cfgR iI iR sname caddr saddr c2 s1 p st4 st5 Hup)
    as (d & c3 & s2 & H4 & H5); try done; [unfold config_ok; lia.. | apply Hp |].
  by exists m1, m2, d, c1, s1, c2, c3, s2.
Qed.

End Tunnel.
