(* ===== verification/Channel.v ===== *)
(** * Channel: two relays and a hostile network between them

    Once a handshake has completed, the two relays and everything the network
    may do are one transition system: either side takes a packet from its TUN
    device, or either side is handed any datagram from any address.  The
    transition system covers one pair of sessions: it has no step for a further
    handshake or a restart (those are in [Lifetime.v]).  The network may drop, repeat, reorder and invent datagrams; what it cannot do
    is forge a tag, so a datagram that authenticates under a session key is one
    the other side put on the wire ([unforged], the integrity of the AEAD and
    of the handshake as a condition on the step). *)

From Stdlib Require Import ZArith Lia String.
From stdpp Require Import base tactics numbers list option strings gmap relations.
From S2P Require Import Prelude Wire Crypto Toy Noise HandshakeProofs Replay Session Net Relay.
From S2P Require Import RelayProofs RelayRuns Tunnel.

(** ** What a handler put on the wire or on the TUN device *)

Definition sends (out : list action) : list (list Z) :=
  omap (fun a => match a with SendTo d _ _ => Some d | _ => None end) out.
Definition writes (out : list action) : list (list Z) :=
  omap (fun a => match a with WriteTun p _ => Some p | _ => None end) out.

Lemma writes_app out out' : writes (out ++ out') = writes out ++ writes out'.
Proof. induction out as [|[] out IH]; cbn; [done|..]; unfold writes in *; rewrite <- ?IH; done. Qed.

(** One direction of the tunnel: datagrams sent, the packets in them, and the
    packets the other side wrote to its device. *)
Record traffic : Type := mkTraffic {
  tr_wire : list (list Z);
  tr_sent : list (list Z);
  tr_written : list (list Z)
}.
Definition no_traffic : traffic := mkTraffic [] [] [].

Definition record_send (t : traffic) (p : list Z) (out : list action) : traffic :=
  mkTraffic (tr_wire t ++ sends out)
    (tr_sent t ++ match sends out with [] => [] | _ => [p] end) (tr_written t).
Definition record_write (t : traffic) (out : list action) : traffic :=
  mkTraffic (tr_wire t) (tr_sent t) (tr_written t ++ writes out).

(** Every packet written was sent, and no packet was written twice. *)
Definition faithful (t : traffic) (l : list nat) : Prop :=
  NoDup l /\ Forall2 (fun j q => tr_sent t !! j = Some q) l (tr_written t).

Section Channel.
Context `{P : Primitives} `{PO : !PrimitivesOk} `{I : Inet}.

(** The packets the tunnel is meant to carry. *)
Definition carried (mtu mtu' : Z) (p : list Z) : Prop :=
  bytes_ok p /\ ipv4_packet p /\ (Z.of_nat (length p) <= mtu)%Z /\ (Z.of_nat (length p) <= mtu')%Z.

(** What the network cannot do: make [s] accept a transport message the other
    side has not sent, or a handshake it has not started. *)
Definition unforged (s : Relay) (wire : list (list Z)) (d : list Z) : Prop :=
  forall c sealed m,
    decode d = Ok (Some (MTransport (mkTransport (local_index (rl_session s)) c sealed))) ->
    authentic (rl_session s) c sealed m -> d ∈ wire.
Definition no_handshake (i : Identity) (s : Relay) (d : list Z) : Prop :=
  ~ (exists hs g, read_initiation (Handshake_new i) d (rl_guard s) = Ok (true, hs, g)).

(** ** One direction *)

(** [snd] seals for [rcv], which has accepted the counters [A]. *)
Record direction (mtu mtu' : Z) (snd rcv : Session) (A : gset Z) (t : traffic) (l : list nat)
    : Prop := {
  dir_snd_ok : session_ok snd;
  dir_snd_active : ss_active snd = true;
  dir_rcv_active : ss_active rcv = true;
  dir_keys : tk_receive (ss_keys rcv) = tk_send (ss_keys snd);
  dir_index : local_index rcv = peer_index snd;
  dir_counter : ss_send_counter snd = Z.of_nat (length (tr_sent t));
  dir_sent : Forall (carried mtu mtu') (tr_sent t);
  dir_wire : forall j d, tr_wire t !! j = Some d ->
               exists p, tr_sent t !! j = Some p /\ d = datagram snd (Z.of_nat j) p;
  dir_wire_all : length (tr_wire t) = length (tr_sent t);
  dir_accepted : forall j, Z.of_nat j ∈ A <-> j ∈ l;
  dir_accepted_nat : forall c, c ∈ A -> (0 <= c)%Z;
  dir_faithful : faithful t l
}.

(** Only the keys matter for the datagrams and for the receiver. *)
Lemma datagram_keys s s' c p : ss_keys s' = ss_keys s -> datagram s' c p = datagram s c p.
Proof. intros E. unfold datagram, peer_index. by rewrite E. Qed.

Lemma direction_frame mtu mtu' snd snd' rcv rcv' A t l :
  direction mtu mtu' snd rcv A t l -> session_ok snd' ->
  ss_keys snd' = ss_keys snd -> ss_active snd' = true -> ss_send_counter snd' = ss_send_counter snd ->
  ss_keys rcv' = ss_keys rcv -> ss_active rcv' = true ->
  direction mtu mtu' snd' rcv' A t l.
Proof.
  intros [] Hok Ks As Cs Kr Ar. constructor; try done.
  - by rewrite Ks, Kr.
  - unfold local_index, peer_index in *. by rewrite Ks, Kr.
  - by rewrite Cs.
  - intros j d Hd. destruct (dir_wire0 j d Hd) as (p & Hp & ->). exists p. split; [done|].
    symmetry. by apply datagram_keys.
Qed.

Lemma direction_send mtu mtu' snd snd' rcv A t l p to ok :
  direction mtu mtu' snd rcv A t l -> session_ok snd' -> carried mtu mtu' p ->
  snd' = mkSession (ss_keys snd) (ss_window snd) (ss_send_counter snd + 1) true ->
  direction mtu mtu' snd' rcv A
    (record_send t p [SendTo (datagram snd (ss_send_counter snd) p) to ok]) l.
Proof.
  intros [] Hok Hp ->. unfold record_send. cbn [sends omap list_omap].
  constructor; try done; cbn [tr_sent tr_wire tr_written ss_send_counter].
  - rewrite length_app. cbn. lia.
  - apply Forall_app. split; [done | by apply Forall_singleton].
  - intros j d. rewrite lookup_app. destruct (tr_wire t !! j) as [d'|] eqn:Hj.
    + intros [= <-]. destruct (dir_wire0 j d' Hj) as (q & Hq & ->). exists q.
      split; [by apply lookup_app_l_Some | done].
    + apply lookup_ge_None in Hj. intros [Hz <-]%list_lookup_singleton_Some. exists p.
      assert (j = length (tr_sent t)) as -> by lia. split; [|by rewrite dir_counter0].
      by rewrite lookup_app_r, Nat.sub_diag by lia.
  - rewrite !length_app. cbn. lia.
  - destruct dir_faithful0 as [Hnd Hf]. split; [done|].
    eapply Forall2_impl; [exact Hf|]. intros j q Hq. by apply lookup_app_l_Some.
Qed.

(** A genuine datagram is one of the wire's, at the position of its counter. *)
Lemma direction_genuine mtu mtu' snd rcv A t l s d c m :
  direction mtu mtu' snd rcv A t l -> rl_session s = rcv -> unforged s (tr_wire t) d ->
  genuine A s d c m ->
  exists j p, c = Z.of_nat j /\ (j ∉ l) /\ tr_sent t !! j = Some p /\ carried mtu mtu' p /\ m = pad16 p.
Proof.
  intros [] Hs Hu (_ & Hc & (_ & HcA & _) & sealed & Hau & Hdec).
  destruct (proj1 (list_elem_of_lookup _ _) (Hu _ _ _ Hdec Hau)) as [j Hj].
  destruct (dir_wire0 j d Hj) as (p & Hp & ->).
  pose proof (proj1 (Forall_lookup _ _) dir_sent0 j p Hp) as Hcar. pose proof Hcar as (Bp & _).
  pose proof (lookup_lt_Some _ _ _ Hp) as Hlt. pose proof dir_snd_ok0 as (Hk & _ & _ & _ & Hctr).
  assert (is_u64 (Z.of_nat j)) as Hj64 by (unfold is_u64; rewrite kRejectAfterMessages_val in *; lia).
  rewrite decode_datagram in Hdec by done. injection Hdec as _ Hcj Hse.
  exists j, p. split; [done|]. subst c. split; [by rewrite <- dir_accepted0|].
  split; [done|]. split; [done|]. destruct Hau as (Bm & _ & Hse'). rewrite <- Hse, Hs, dir_keys0 in Hse'.
  apply (f_equal (fun ct => (aead_decrypt (tk_send (ss_keys snd)) (nonce_bytes (Z.of_nat j)) ct []).2))
    in Hse'. by rewrite !aead_roundtrip in Hse' by (done || by apply bytes_ok_pad16).
Qed.

Lemma direction_accept mtu mtu' snd rcv A t l j p w taken log :
  direction mtu mtu' snd rcv A t l -> (j ∉ l) -> tr_sent t !! j = Some p -> writes log = [] ->
  direction mtu mtu' snd (opened rcv w) ({[Z.of_nat j]} ∪ A)
    (record_write t (log ++ [WriteTun p taken])) (l ++ [j]).
Proof.
  intros [] Hj Hp Hlog. constructor; try done; cbn [record_write tr_sent tr_wire tr_written].
  - intros k. rewrite elem_of_union, elem_of_singleton, elem_of_app, list_elem_of_singleton.
    rewrite dir_accepted0, Nat2Z.inj_iff. tauto.
  - intros c [Hc%elem_of_singleton|Hc]%elem_of_union; [lia | auto].
  - destruct dir_faithful0 as [Hnd Hf]. split.
    + apply NoDup_app. split; [done|]. split; [|apply NoDup_singleton].
      intros k Hk Hk'%list_elem_of_singleton. congruence.
    + unfold record_write. cbn [tr_written tr_sent]. rewrite writes_app, Hlog. cbn.
      apply Forall2_app; [done | by constructor].
Qed.

(** ** The handlers, seen from one direction *)

(** A packet from the TUN device of an active session: sealed, or nothing happens. *)
Lemma tun_effect cfg i A s p st s' out :
  relay_inv cfg i A s -> config_ok cfg -> identity_ok i -> entropy_ok (ts_entropy st) ->
  bytes_ok p -> length p ≤ Z.to_nat (cfg_mtu cfg) -> ss_active (rl_session s) = true ->
  handle_tun cfg i s p st = Ok (s', out) ->
  relay_inv cfg i A s' /\ rl_pending s' = rl_pending s /\ rl_guard s' = rl_guard s /\
  ((out = [] /\ rl_session s' = rl_session s) \/
   exists to ok, out = [SendTo (datagram (rl_session s) (ss_send_counter (rl_session s)) p) to ok] /\
     rl_session s' = mkSession (ss_keys (rl_session s)) (ss_window (rl_session s))
                       (ss_send_counter (rl_session s) + 1) true).
Proof.
  intros Hinv Hcfg Hi He Bp Lp Ha H.
  pose proof (handle_tun_meets cfg i A s p st Hinv Hcfg Hi He Bp Lp) as Hm. rewrite H in Hm.
  destruct Hm as [Hspec Hinv']. split; [done|].
  destruct Hspec as [s' _ Hc _ | s' out peer _ Hact | s' peer _ _ _ Hc _ | s' peer ok _ _ _ Hs Hp Hpe Hg].
  - destruct Hc as (_ & ? & ? & ? & _). auto.
  - congruence.
  - destruct Hc as (_ & ? & ? & ? & _). auto.
  - eauto 10.
Qed.

(** The receiver's side of a datagram: dropped, or genuine and opened. *)
Definition received (A : gset Z) (s : Relay) (d : list Z) (A' : gset Z) (s' : Relay)
    (out : list action) : Prop :=
  (A' = A /\ rl_session s' = rl_session s /\ writes out = []) \/
  exists c m w, genuine A s d c m /\ A' = {[c]} ∪ A /\ rl_session s' = opened (rl_session s) w /\
    match delivered m with
    | None => writes out = []
    | Some n => exists log taken, writes log = [] /\
        out = log ++ if n =? 0 then [] else [WriteTun (take n m) taken]
    end.

(** A datagram, when no handshake is in flight or accepted. *)
Lemma udp_effect cfg i A s d from name st s' out :
  relay_inv cfg i A s -> identity_ok i -> bytes_ok d -> length d ≤ length (rl_udp_buffer s) ->
  entropy_ok (us_entropy st) -> (cfg_role cfg = responder -> no_handshake i s d) ->
  (cfg_role cfg = initiator -> rl_pending s = None) ->
  handle_udp cfg i name s d from st = Ok (s', out) ->
  exists A', relay_inv cfg i A' s' /\ rl_pending s' = rl_pending s /\
  received A s d A' s' out.
Proof.
  intros Hinv Hi Bd Ld He Hno Hnp H.
  pose proof (handle_udp_meets cfg i A name st Hi s d from Hinv Bd Ld He) as Hm. rewrite H in Hm.
  destruct Hm as (A' & Hspec & Hinv'). exists A'. split; [done|].
  unfold received. destruct Hspec as [f s' _ (_ & Hs & Hp & _) | hs s' Hr Hread | hs s' keys resp ok Hr Hread
    | p hs keys s' Hr Hp | c m w s' Hg Hd Hs _ Hp _ _ | c m n w s' log taken Hg Hd Hs Hp _ _ _ Hlog _].
  - auto.
  - destruct (Hno Hr). eauto.
  - destruct (Hno Hr). eauto.
  - rewrite (Hnp Hr) in Hp. done.
  - split; [done|]. right. exists c, m, w. rewrite Hd. auto.
  - split; [done|]. right. exists c, m, w. rewrite Hd. repeat split_and; try done.
    exists log, taken. split; [|done]. clear -Hlog.
    induction Hlog as [|a log [line ->] _ IH]; [done|]. exact IH.
Qed.

(** Receiving, for the direction in which [s] is the receiver. *)
Lemma direction_udp mtu mtu' snd A t l s s' d A' out :
  direction mtu mtu' snd (rl_session s) A t l -> unforged s (tr_wire t) d ->
  (mtu < 2 ^ 63)%Z ->
  received A s d A' s' out ->
  exists l', direction mtu mtu' snd (rl_session s') A' (record_write t out) l'.
Proof.
  intros Hd Hu Hmtu [(-> & Hs & Hw)|(c & m & w & Hg & -> & Hs & Hout)].
  - exists l. unfold record_write. rewrite Hs, Hw, app_nil_r. by destruct t.
  - destruct (direction_genuine _ _ _ _ _ _ _ s d c m Hd eq_refl Hu Hg)
      as (j & p & -> & Hj & Hp & (Bp & Hip & Hl & Hl') & ->).
    rewrite delivered_ipv4 in Hout by (done || lia). destruct Hout as (log & taken & Hlog & ->).
    assert (length p <> 0) as Hne by (destruct Hip as (? & ? & ? & ? & ? & -> & _); done).
    rewrite (proj2 (Nat.eqb_neq _ _) Hne). exists (l ++ [j]). rewrite Hs.
    replace (take (length p) (pad16 p)) with p by (unfold pad16; by rewrite take_app_length).
    by apply direction_accept.
Qed.

(** ** The system *)

Variables (cfgI cfgR : RelayConfig) (iI iR : Identity) (cname sname : string).

Record net : Type := mkNet {
  n_client : Relay; n_server : Relay;
  n_up : traffic;          (* client to server *)
  n_down : traffic         (* server to client *)
}.

Inductive net_step : net -> net -> Prop :=
| client_tun n p st c out :
    carried (cfg_mtu cfgI) (cfg_mtu cfgR) p -> entropy_ok (ts_entropy st) ->
    handle_tun cfgI iI (n_client n) p st = Ok (c, out) ->
    net_step n (mkNet c (n_server n) (record_send (n_up n) p out) (n_down n))
| server_tun n p st s out :
    carried (cfg_mtu cfgI) (cfg_mtu cfgR) p -> entropy_ok (ts_entropy st) ->
    handle_tun cfgR iR (n_server n) p st = Ok (s, out) ->
    net_step n (mkNet (n_client n) s (n_up n) (record_send (n_down n) p out))
| client_udp n d from st c out :
    bytes_ok d -> length d ≤ length (rl_udp_buffer (n_client n)) -> entropy_ok (us_entropy st) ->
    unforged (n_client n) (tr_wire (n_down n)) d ->
    handle_udp cfgI iI cname (n_client n) d from st = Ok (c, out) ->
    net_step n (mkNet c (n_server n) (n_up n) (record_write (n_down n) out))
| server_udp n d from st s out :
    bytes_ok d -> length d ≤ length (rl_udp_buffer (n_server n)) -> entropy_ok (us_entropy st) ->
    unforged (n_server n) (tr_wire (n_up n)) d -> no_handshake iR (n_server n) d ->
    handle_udp cfgR iR sname (n_server n) d from st = Ok (s, out) ->
    net_step n (mkNet (n_client n) s (record_write (n_up n) out) (n_down n)).

Hypotheses (CI : config_ok cfgI) (CR : config_ok cfgR) (OI : identity_ok iI) (OR : identity_ok iR)
  (RI : cfg_role cfgI = initiator) (RR : cfg_role cfgR = responder).

Abbreviation dir := (direction (cfg_mtu cfgI) (cfg_mtu cfgR)).

(** Both relays, and both directions between them. *)
Record net_inv (n : net) (Ac As : gset Z) (lu ld : list nat) : Prop := {
  ni_client : relay_inv cfgI iI Ac (n_client n);
  ni_server : relay_inv cfgR iR As (n_server n);
  ni_pending : rl_pending (n_client n) = None;
  ni_up : dir (rl_session (n_client n)) (rl_session (n_server n)) As (n_up n) lu;
  ni_down : dir (rl_session (n_server n)) (rl_session (n_client n)) Ac (n_down n) ld
}.

(** Sending on one side, for its own direction and for the other one. *)
Lemma sent_dirs cfg i A s s' out p other As' t l t' l' :
  relay_inv cfg i A s' -> carried (cfg_mtu cfgI) (cfg_mtu cfgR) p ->
  dir (rl_session s) other As' t l -> dir other (rl_session s) A t' l' ->
  ((out = [] /\ rl_session s' = rl_session s) \/
   exists to ok, out = [SendTo (datagram (rl_session s) (ss_send_counter (rl_session s)) p) to ok] /\
     rl_session s' = mkSession (ss_keys (rl_session s)) (ss_window (rl_session s))
                       (ss_send_counter (rl_session s) + 1) true) ->
  dir (rl_session s') other As' (record_send t p out) l /\ dir other (rl_session s') A t' l'.
Proof.
  intros Hinv Hp Hd Hd' [(-> & ->)|(to & ok & -> & Hs)].
  - unfold record_send. cbn. rewrite !app_nil_r. by destruct t.
  - pose proof (inv_session _ _ _ _ Hinv) as Hok. split; [by apply direction_send|].
    rewrite Hs. eapply direction_frame; [exact Hd' | exact (dir_snd_ok _ _ _ _ _ _ _ Hd') | done | | done..].
    exact (dir_snd_active _ _ _ _ _ _ _ Hd').
Qed.

(** Receiving on one side. *)
Lemma received_dirs cfg i A A' s s' d out other As' t l t' l' :
  relay_inv cfg i A' s' -> dir (rl_session s) other As' t l -> dir other (rl_session s) A t' l' ->
  unforged s (tr_wire t') d -> received A s d A' s' out ->
  dir (rl_session s') other As' t l /\
  exists l2, dir other (rl_session s') A' (record_write t' out) l2.
Proof.
  intros Hinv Hd Hd' Hu Hr. pose proof (inv_session _ _ _ _ Hinv) as Hok. split.
  - assert (ss_keys (rl_session s') = ss_keys (rl_session s) /\ ss_active (rl_session s') = true /\
            ss_send_counter (rl_session s') = ss_send_counter (rl_session s)) as (K & Act & C).
    { pose proof (dir_snd_active _ _ _ _ _ _ _ Hd) as Ha.
      destruct Hr as [(_ & -> & _)|(c & m & w & _ & _ & -> & _)]; done. }
    eapply direction_frame; [exact Hd | done..|]. exact (dir_rcv_active _ _ _ _ _ _ _ Hd).
  - eapply direction_udp; [done..| |exact Hr]. unfold config_ok in CI. lia.
Qed.

Lemma net_inv_step n n' Ac As lu ld :
  net_inv n Ac As lu ld -> net_step n n' -> exists Ac' As' lu' ld', net_inv n' Ac' As' lu' ld'.
Proof.
  intros [IC IS NP Hu Hd] Hstep.
  pose proof (dir_snd_active _ _ _ _ _ _ _ Hu) as Ac1. pose proof (dir_snd_active _ _ _ _ _ _ _ Hd) as As1.
  destruct Hstep as [n p st c out Hp He H | n p st s out Hp He H | n d from st c out Bd Ld He Hf H
    | n d from st s out Bd Ld He Hf Hh H]; cbn [n_client n_server n_up n_down] in *.
  - pose proof Hp as (Bp & _ & L1 & L2).
    destruct (tun_effect _ _ _ _ _ _ _ _ IC CI OI He Bp ltac:(lia) Ac1 H) as (IC' & NP' & _ & Hout).
    destruct (sent_dirs _ _ _ _ _ _ _ _ _ _ _ _ _ IC' Hp Hu Hd Hout).
    exists Ac, As, lu, ld. constructor; try done. cbn. congruence.
  - pose proof Hp as (Bp & _ & L1 & L2).
    destruct (tun_effect _ _ _ _ _ _ _ _ IS CR OR He Bp ltac:(lia) As1 H) as (IS' & _ & _ & Hout).
    destruct (sent_dirs _ _ _ _ _ _ _ _ _ _ _ _ _ IS' Hp Hd Hu Hout).
    by exists Ac, As, lu, ld.
  - destruct (udp_effect _ _ _ _ _ _ _ _ _ _ IC OI Bd Ld He ltac:(congruence) ltac:(done) H)
      as (Ac' & IC' & NP' & Hr).
    destruct (received_dirs _ _ _ _ _ _ _ _ _ _ _ _ _ _ IC' Hu Hd Hf Hr) as (Hu' & ld' & Hd').
    exists Ac', As, lu, ld'. constructor; try done. cbn. congruence.
  - destruct (udp_effect _ _ _ _ _ _ _ _ _ _ IS OR Bd Ld He ltac:(done) ltac:(congruence) H)
      as (As' & IS' & _ & Hr).
    destruct (received_dirs _ _ _ _ _ _ _ _ _ _ _ _ _ _ IS' Hd Hu Hf Hr) as (Hd' & lu' & Hu').
    by exists Ac, As', lu', ld.
Qed.

(** ** From a completed handshake on *)

Lemma dir_start snd rcv :
  session_ok snd -> ss_active snd = true -> ss_active rcv = true ->
  tk_receive (ss_keys rcv) = tk_send (ss_keys snd) -> local_index rcv = peer_index snd ->
  ss_send_counter snd = 0%Z -> dir snd rcv ∅ no_traffic [].
Proof.
  intros. constructor; try done; unfold no_traffic; cbn [tr_sent tr_wire tr_written].
  - intros j. split; [by intros ?%not_elem_of_empty | by intros ?%elem_of_nil].
  - split; constructor.
Qed.

Lemma net_inv_start c s caddr saddr :
  tunnel_up cfgI cfgR iI iR caddr saddr c s ->
  net_inv (mkNet c s no_traffic no_traffic) ∅ ∅ [] [].
Proof.
  intros []. constructor; try done; apply dir_start; try done; by eapply inv_session.
Qed.

Lemma net_inv_reachable c s caddr saddr n :
  tunnel_up cfgI cfgR iI iR caddr saddr c s ->
  rtc net_step (mkNet c s no_traffic no_traffic) n -> exists Ac As lu ld, net_inv n Ac As lu ld.
Proof.
  intros Hup. apply (rtc_ind_r (fun n => exists Ac As lu ld, net_inv n Ac As lu ld)).
  - exists ∅, ∅, [], []. by eapply net_inv_start.
  - intros n1 n2 _ Hstep (Ac & As & lu & ld & Hinv). by eapply net_inv_step.
Qed.

(** A datagram of the wire that was not delivered yet and is inside the window. *)
Lemma delivers_one cfg i name A s snd t l j p d from st :
  relay_inv cfg i A s -> config_ok cfg -> (cfg_mtu cfg = cfg_mtu cfgI \/ cfg_mtu cfg = cfg_mtu cfgR) ->
  dir snd (rl_session s) A t l ->
  tr_sent t !! j = Some p -> tr_wire t !! j = Some d -> (j ∉ l) ->
  (forall k, k ∈ l -> (Z.of_nat k - Z.of_nat j < kBits)%Z) -> us_write st = [SysOk (Z.of_nat (length p))] ->
  exists s' log, handle_udp cfg i name s d from st = Ok (s', log ++ [WriteTun p true]) /\ writes log = [].
Proof.
  intros Hinv Hcfg Hmtu [] Hp Hd Hj Hwin Hw. destruct (dir_wire0 j d Hd) as (p' & Hp' & ->).
  rewrite Hp in Hp'. injection Hp' as <-.
  pose proof (proj1 (Forall_lookup _ _) dir_sent0 j p Hp) as (Bp & Hip & L1 & L2).
  pose proof (lookup_lt_Some _ _ _ Hp) as Hlt. pose proof dir_snd_ok0 as (Hk & _ & _ & _ & Hctr).
  rewrite kRejectAfterMessages_val in *. destruct (max_datagram_val cfg Hcfg) as [Xd _].
  unfold config_ok in *. assert (Z.of_nat (length p) < 2 ^ 63)%Z as L63 by lia.
  destruct (length_pad16 p L63) as (Hpl & Hmod & _).
  pose proof (padded_length_mono (Z.of_nat (length p)) (cfg_mtu cfg) ltac:(lia) ltac:(lia)) as Hmono.
  destruct (padded_length_facts (Z.of_nat (length p))) as [_ Hpf]; [lia..|].
  assert (is_u64 (Z.of_nat j)) as Hj64 by (unfold is_u64; lia).
  destruct (peer_delivers cfg i A s (Z.of_nat j) p
    (aead_encrypt (tk_send (ss_keys snd)) (nonce_bytes (Z.of_nat j)) (pad16 p) [])
    (datagram snd (Z.of_nat j) p) from name st) as (s' & log & H & Hlog & _); try done.
  - split; [rewrite kRejectAfterMessages_val; lia|]. split; [by rewrite dir_accepted0|].
    intros a Ha. pose proof (dir_accepted_nat0 a Ha). specialize (Hwin (Z.to_nat a)).
    rewrite <- dir_accepted0, Z2Nat.id in Hwin by done. specialize (Hwin Ha). lia.
  - rewrite length_datagram by done. lia.
  - by apply bytes_ok_datagram.
  - rewrite decode_datagram by done. by rewrite dir_index0.
  - split; [by apply bytes_ok_pad16|]. split; [done|]. by rewrite dir_keys0.
  - exists s', log. split; [done|]. clear -Hlog.
    induction Hlog as [|a log [line ->] _ IH]; [done | exact IH].
Qed.

End Channel.

Section Theorems.
Context `{P : Primitives} `{PO : !PrimitivesOk} `{I : Inet}.

(** [C15] Delivery within one session.  The system is [net_step], started where
    a handshake between the two relays has completed ([tunnel_up]): either relay
    takes packets of its TUN device or is handed datagrams, by a network that
    drops, repeats, reorders, redirects and invents them at will but forges no
    tag; no relay is restarted and no further handshake is accepted, so it is
    the two sessions of that handshake throughout.  In any state they reach,
    what each side wrote is what the other took in, unchanged and each packet at
    most once, and a datagram on the wire that has not been delivered yet, and
    is less than 8192 packets older than every packet delivered, makes its
    receiver write exactly the packet it carries, whatever address it comes
    from: reordering inside the window loses nothing, in either direction. *)
Theorem tunnel_delivers_in_window cfgI cfgR iI iR cname sname caddr saddr c s n :
  config_ok cfgI -> config_ok cfgR -> identity_ok iI -> identity_ok iR ->
  cfg_role cfgI = initiator -> cfg_role cfgR = responder ->
  tunnel_up cfgI cfgR iI iR caddr saddr c s ->
  rtc (net_step cfgI cfgR iI iR cname sname) (mkNet c s no_traffic no_traffic) n ->
  exists lu ld, faithful (n_up n) lu /\ faithful (n_down n) ld /\
    forall j p d from st,
      us_write st = [SysOk (Z.of_nat (length p))] ->
      (tr_sent (n_up n) !! j = Some p -> tr_wire (n_up n) !! j = Some d -> (j ∉ lu) ->
       (forall k, k ∈ lu -> (Z.of_nat k - Z.of_nat j < kBits)%Z) ->
       exists s' out, handle_udp cfgR iR sname (n_server n) d from st = Ok (s', out) /\ writes out = [p]) /\
      (tr_sent (n_down n) !! j = Some p -> tr_wire (n_down n) !! j = Some d -> (j ∉ ld) ->
       (forall k, k ∈ ld -> (Z.of_nat k - Z.of_nat j < kBits)%Z) ->
       exists c' out, handle_udp cfgI iI cname (n_client n) d from st = Ok (c', out) /\ writes out = [p]).
Proof.
  intros CI CR OI OR RI RR Hup Hr.
  destruct (net_inv_reachable cfgI cfgR iI iR cname sname CI CR OI OR RI RR c s caddr saddr n Hup Hr)
    as (Ac & As & lu & ld & [IC IS _ Hu Hd]).
  exists lu, ld. split; [by eapply dir_faithful|]. split; [by eapply dir_faithful|].
  intros j p d from st Hw. split; intros Hp Hwire Hj Hwin.
  - destruct (delivers_one cfgI cfgR CI CR cfgR iR sname As _ _ _ lu j p d from st IS CR (or_intror eq_refl) Hu)
      as (s' & log & H & Hlog); try done. eexists _, _. split; [done|]. by rewrite writes_app, Hlog.
  - destruct (delivers_one cfgI cfgR CI CR cfgI iI cname Ac _ _ _ ld j p d from st IC CI (or_introl eq_refl) Hd)
      as (s' & log & H & Hlog); try done. eexists _, _. split; [done|]. by rewrite writes_app, Hlog.
Qed.

End Theorems.
