(* ===== verification/Lifetime.v ===== *)
(** * Lifetime: the tunnel from start-up on, across handshakes

    [Channel.v] starts when a handshake has completed and lets none happen
    afterwards.  Here both relays start in their initial state and the network
    may carry, repeat, delay and invent handshake messages as well: initiations
    are retried, the server may change its session at any accepted initiation,
    the client at a response.  Either process may also be restarted at any time
    and then remembers nothing, not even the timestamps it has seen.

    Two conditions stand for what cryptography promises.  [sealed_by_peer]: a
    transport message that authenticates under a relay's receiving key was
    sealed with that key by its peer.  [new_key]: an accepted handshake gives a
    receiving key the relay has not had before (each side contributes a fresh
    ephemeral key).  That every packet is written unchanged and at most once,
    over all sessions together, is then the work of the code: of the counters,
    of the window, and of resetting it exactly when the keys change.

    [channel] is the contract this amounts to: a queue per direction from which
    any packet may be taken, once.  The system is shown to refine two of them. *)

From Stdlib Require Import ZArith Lia String.
From stdpp Require Import base tactics numbers list option strings gmap relations.
From S2P Require Import Prelude Wire Crypto Toy Noise HandshakeProofs Replay Session Net Relay.
From S2P Require Import RelayProofs RelayRuns Tunnel Channel.

(** A packet that a relay sealed: the key, the datagram and what is in it. *)
Record entry : Type := mkEntry { en_key : list Z; en_datagram : list Z; en_packet : list Z }.

Section Lifetime.
Context `{P : Primitives} `{PO : !PrimitivesOk} `{I : Inet}.

(** What an active session sends is sealed; what an inactive one sends is a handshake. *)
Definition sealed_now (s : Relay) (p : list Z) (out : list action) : list entry :=
  if ss_active (rl_session s)
  then (fun d => mkEntry (tk_send (ss_keys (rl_session s))) d p) <$> sends out else [].

(** The key of a session no handshake has filled in. *)
Definition initial_key : list Z := tk_receive TransportKeys_new.
Definition receiving_key (s : Relay) : list Z := tk_receive (ss_keys (rl_session s)).

(** ** What cryptography promises *)

Definition sealed_by_peer (s : Relay) (log : list entry) (d : list Z) : Prop :=
  forall c sealed m,
    decode d = Ok (Some (MTransport (mkTransport (local_index (rl_session s)) c sealed))) ->
    authentic (rl_session s) c sealed m ->
    exists e, e ∈ log /\ en_key e = receiving_key s /\ en_datagram e = d.

(** The relay takes [d] for a message that completes a handshake. *)
Definition completes (cfg : RelayConfig) (i : Identity) (s : Relay) (d : list Z) : Prop :=
  match cfg_role cfg with
  | responder => exists hs g, read_initiation (Handshake_new i) d (rl_guard s) = Ok (true, hs, g)
  | initiator => exists p hs k, rl_pending s = Some p /\
                   read_response p d (ss_keys (rl_session s)) = Ok (true, hs, k)
  end.

Definition new_key (cfg : RelayConfig) (i : Identity) (used : list (list Z)) (s s' : Relay) (d : list Z)
    : Prop :=
  completes cfg i s d -> rl_session s' = rl_session s \/ receiving_key s' ∉ used.

(** ** One direction, seen by its receiver *)

Definition entry_ok (mtu mtu' : Z) (e : entry) : Prop :=
  key_ok (en_key e) /\ carried mtu mtu' (en_packet e) /\
  exists idx c, decode (en_datagram e) = Ok (Some (MTransport (mkTransport idx c
    (aead_encrypt (en_key e) (nonce_bytes c) (pad16 (en_packet e)) [])))).

(** The counter of the datagram at position [j] of the log. *)
Definition counted_at (log : list entry) (j : nat) (key : list Z) (c : Z) : Prop :=
  exists e idx sealed, log !! j = Some e /\ en_key e = key /\
    decode (en_datagram e) = Ok (Some (MTransport (mkTransport idx c sealed))).

(** Distinct positions of the log list what was written. *)
Definition once (log : list entry) (written : list (list Z)) (l : list nat) : Prop :=
  NoDup l /\ Forall2 (fun j q => en_packet <$> log !! j = Some q) l written.

(** ** The contract: a channel that loses and reorders, but nothing else

    What was sent, which of it has been taken out (by position), and what came
    out, in that order. *)
Record channel : Type := mkChannel {
  ch_sent : list (list Z); ch_taken : list nat; ch_received : list (list Z)
}.

Inductive channel_step : channel -> channel -> Prop :=
| ch_send sent taken received p :
    channel_step (mkChannel sent taken received) (mkChannel (sent ++ [p]) taken received)
| ch_receive sent taken received j p :
    sent !! j = Some p -> (j ∉ taken) ->
    channel_step (mkChannel sent taken received) (mkChannel sent (taken ++ [j]) (received ++ [p])).

Definition channel_start : channel := mkChannel [] [] [].

(** The channel a log, the positions taken and the packets written stand for. *)
Definition channel_of (log : list entry) (l : list nat) (written : list (list Z)) : channel :=
  mkChannel (en_packet <$> log) l written.

Lemma channel_sends log log' l written :
  rtc channel_step (channel_of log l written) (channel_of (log ++ log') l written).
Proof.
  revert log. induction log' as [|e log' IH]; intros log; [rewrite app_nil_r; apply rtc_refl|].
  eapply rtc_l; [|rewrite (app_assoc log [e] log' : log ++ e :: log' = _); apply IH].
  unfold channel_of. rewrite fmap_app. apply ch_send.
Qed.

Record heard (mtu mtu' : Z) (s : Relay) (A : gset Z) (used : list (list Z)) (log : list entry)
    (written : list (list Z)) (l : list nat) : Prop := {
  he_entries : Forall (entry_ok mtu mtu') log;
  he_once : once log written l;
  he_accepted : forall j c, j ∈ l -> counted_at log j (receiving_key s) c -> c ∈ A;
  he_used : forall j e, j ∈ l -> log !! j = Some e -> en_key e ∈ used;
  he_current : receiving_key s ∈ used;
  he_initial : initial_key ∈ used;
  he_active : ss_active (rl_session s) = true -> receiving_key s <> initial_key;
  he_real : forall j e, j ∈ l -> log !! j = Some e -> en_key e <> initial_key
}.

Lemma heard_grows mtu mtu' s A used log log' written l :
  heard mtu mtu' s A used log written l -> Forall (entry_ok mtu mtu') log' ->
  heard mtu mtu' s A used (log ++ log') written l.
Proof.
  intros [He [Hnd Ho] Ha Hu Hc Hz Hact Hr] Hl'.
  assert (forall j e, j ∈ l -> (log ++ log') !! j = Some e -> log !! j = Some e) as Hback.
  { intros j e Hj He'. destruct (proj1 (list_elem_of_lookup _ _) Hj) as [k Hk].
    destruct (Forall2_lookup_l _ _ _ _ _ Ho Hk) as (q & _ & Hq).
    destruct (log !! j) as [e0|] eqn:E; [|done]. by rewrite (lookup_app_l_Some _ _ _ _ E) in He'. }
  constructor; try done.
  - by apply Forall_app.
  - split; [done|]. eapply Forall2_impl; [exact Ho|]. intros j q (e & Hl & ->)%fmap_Some.
    by rewrite (lookup_app_l_Some _ _ _ _ Hl).
  - intros j c Hj (e & idx & sealed & He' & Hk & Hd). apply (Ha j); [done|].
    exists e, idx, sealed. split; [by apply Hback | done].
  - intros j e Hj He'. eapply Hu; [exact Hj | by apply Hback].
  - intros j e Hj He'. eapply Hr; [exact Hj | by apply Hback].
Qed.

(** The receiver's relay changed, but neither its key nor what it accepted. *)
Lemma heard_same mtu mtu' s s' A used log written l :
  receiving_key s' = receiving_key s -> ss_active (rl_session s') = ss_active (rl_session s) ->
  heard mtu mtu' s A used log written l -> heard mtu mtu' s' A used log written l.
Proof. intros Hk Ha []. constructor; try done; by rewrite ?Ha, Hk. Qed.

(** A new key: nothing was accepted under it, so the window may start empty. *)
Lemma heard_rekeyed mtu mtu' s s' A A' used log written l :
  heard mtu mtu' s A used log written l -> receiving_key s' ∉ used ->
  heard mtu mtu' s' A' (used ++ [receiving_key s']) log written l.
Proof.
  intros [He Ho Ha Hu Hc Hz Hact Hr] Hnew. constructor; try done.
  - intros j c Hj (e & idx & sealed & Hl & Hk & _). exfalso. apply Hnew. rewrite <- Hk. by eapply Hu.
  - intros j e Hj Hl. apply elem_of_app. left. by eapply Hu.
  - apply elem_of_app. right. apply list_elem_of_singleton. done.
  - apply elem_of_app. by left.
  - intros _ E. apply Hnew. by rewrite E.
Qed.

(** The process is started anew. *)
Lemma heard_restarted mtu mtu' cfg s A used log written l :
  heard mtu mtu' s A used log written l -> heard mtu mtu' (relay_init cfg) ∅ used log written l.
Proof.
  intros [He Ho Ha Hu Hc Hz Hact Hr]. constructor; try done.
  intros j c Hj (e & idx & sealed & Hl & Hk & _). by destruct (Hr j e Hj Hl).
Qed.

Lemma heard_used mtu mtu' s A used used' log written l :
  heard mtu mtu' s A used log written l -> used ⊆ used' -> heard mtu mtu' s A used' log written l.
Proof. intros [] Hs. constructor; try done; [intros j e ? ?; apply Hs; eauto | by apply Hs..]. Qed.

(** A genuine datagram is in the log, at a position not written yet. *)
Lemma heard_genuine mtu mtu' s A used log written l d c m :
  heard mtu mtu' s A used log written l -> sealed_by_peer s log d -> genuine A s d c m ->
  exists j e, (j ∉ l) /\ log !! j = Some e /\ carried mtu mtu' (en_packet e) /\ m = pad16 (en_packet e) /\
    counted_at log j (receiving_key s) c /\ (en_key e ∈ used /\ en_key e <> initial_key) /\
    (forall c', counted_at log j (receiving_key s) c' -> c' = c).
Proof.
  intros [He Ho Ha Hu Hcur Hz Hact Hr] Hs (Hac & Hc & (_ & HcA & _) & sealed & Hau & Hdec).
  destruct (Hs _ _ _ Hdec Hau) as (e & Hin & Hk & Hd).
  apply list_elem_of_lookup in Hin as [j Hj]. pose proof (proj1 (Forall_lookup _ _) He j e Hj) as (Kk & Hcar & idx & c' & Hde).
  assert (counted_at log j (receiving_key s) c) as Hat by (exists e, (local_index (rl_session s)), sealed; by rewrite Hd).
  exists j, e. split; [intros Hjl; by apply HcA, (Ha j)|]. split; [done|]. split; [done|].
  rewrite Hd, Hdec in Hde. injection Hde as Hidx <- Hse. split; [|split; [done|split; [rewrite Hk; auto|]]].
  - destruct Hau as (Bm & _ & Hse'). rewrite Hse, Hk in Hse'. fold (receiving_key s) in Hse'.
    rewrite Hk in Kk. destruct Hcar as (Bp & _).
    apply (f_equal (fun ct => (aead_decrypt (receiving_key s) (nonce_bytes c) ct []).2)) in Hse'.
    by rewrite !aead_roundtrip in Hse' by (done || by apply bytes_ok_pad16).
  - intros c2 (e2 & idx2 & sealed2 & Hj2 & _ & Hd2). rewrite Hj in Hj2. injection Hj2 as <-.
    rewrite Hd, Hdec in Hd2. by injection Hd2.
Qed.

(** It was written, or its counter was only recorded. *)
Lemma heard_write mtu mtu' s s' A used log written l j e c :
  heard mtu mtu' s A used log written l -> receiving_key s' = receiving_key s ->
  ss_active (rl_session s') = ss_active (rl_session s) ->
  (j ∉ l) -> log !! j = Some e -> en_key e ∈ used /\ en_key e <> initial_key ->
  (forall c', counted_at log j (receiving_key s) c' -> c' = c) ->
  heard mtu mtu' s' ({[c]} ∪ A) used log (written ++ [en_packet e]) (l ++ [j]).
Proof.
  intros [He [Hnd Ho] Ha Hu Hcur Hz Hact Hr] Hk Hac Hj Hlog [Hused Hreal] Hone.
  constructor; try done; try (by rewrite ?Hac, Hk).
  - split; [|apply Forall2_app; [done|]; constructor; [by rewrite Hlog | constructor]].
    apply NoDup_app. split; [done|]. split; [|apply NoDup_singleton].
    intros k Hkl ->%list_elem_of_singleton. done.
  - rewrite Hk. intros k c' [Hkl| ->%list_elem_of_singleton]%elem_of_app Hat; apply elem_of_union; [right; eauto|].
    left. apply elem_of_singleton. by apply Hone.
  - intros k e' [Hkl| ->%list_elem_of_singleton]%elem_of_app Hl; [by eapply Hu|]. congruence.
  - intros k e' [Hkl| ->%list_elem_of_singleton]%elem_of_app Hl; [by eapply Hr|]. congruence.
Qed.

(** ** The handlers *)

Lemma tun_heard cfg i A mtu mtu' s p st s' out :
  relay_inv cfg i A s -> config_ok cfg -> identity_ok i -> entropy_ok (ts_entropy st) ->
  carried mtu mtu' p -> length p ≤ Z.to_nat (cfg_mtu cfg) ->
  handle_tun cfg i s p st = Ok (s', out) ->
  relay_inv cfg i A s' /\ receiving_key s' = receiving_key s /\
  ss_active (rl_session s') = ss_active (rl_session s) /\
  Forall (entry_ok mtu mtu') (sealed_now s p out).
Proof.
  intros Hinv Hcfg Hi He Hcar Lp H. pose proof Hcar as (Bp & _).
  pose proof (handle_tun_meets cfg i A s p st Hinv Hcfg Hi He Bp Lp) as Hm. rewrite H in Hm.
  destruct Hm as [Hspec Hinv']. split; [done|]. unfold receiving_key, sealed_now.
  destruct Hspec as [s' _ (_ & -> & _) _ | s' out peer _ Hact -> _ _ _ | s' peer _ Hact _ (_ & -> & _) _
    | s' peer ok _ Hact Hctr -> _ _ _]; (split; [done|]); (split; [done|]); rewrite ?Hact; try (by destruct (ss_active _)); [done..|].
  pose proof (inv_session _ _ _ _ Hinv) as Hok. pose proof Hok as (Hk & _ & _ & _ & Hc).
  apply Forall_singleton. split; [done|]. split; [done|]. eexists _, _. cbn [en_datagram en_key en_packet].
  apply decode_datagram; [done..|]. rewrite kRejectAfterMessages_val in Hctr. unfold is_u64. lia.
Qed.

Lemma window_fresh_empty A : window_rep ReplayWindow_new A -> A = ∅.
Proof. by intros [_ ?]. Qed.

Lemma same_session_heard cfg i mtu mtu' s s' A A' used log written l :
  rl_session s' = rl_session s -> A' = A \/ (ss_window (rl_session s') = ReplayWindow_new /\ A' = ∅) ->
  relay_inv cfg i A s -> heard mtu mtu' s A used log written l ->
  heard mtu mtu' s' A' (used ++ [receiving_key s']) log written l.
Proof.
  intros Hs HA Hinv Hh. assert (A' = A) as ->.
  { destruct HA as [->|[Hw ->]]; [done|]. rewrite Hs in Hw. pose proof (inv_window _ _ _ _ Hinv) as Hr.
    rewrite Hw in Hr. by rewrite (window_fresh_empty A Hr). }
  eapply heard_used; [|by intros x Hx; apply elem_of_app; left].
  eapply heard_same; [| |exact Hh]; unfold receiving_key; by rewrite Hs.
Qed.

Lemma writes_logs log : Forall (fun a => exists line, a = Log line) log -> writes log = [].
Proof. by induction 1 as [|a log [line ->] _ IH]. Qed.

Lemma udp_heard cfg i A mtu mtu' s d from name st s' out used log written l :
  relay_inv cfg i A s -> identity_ok i -> bytes_ok d -> length d ≤ length (rl_udp_buffer s) ->
  entropy_ok (us_entropy st) -> (mtu < 2 ^ 63)%Z ->
  sealed_by_peer s log d -> new_key cfg i used s s' d -> heard mtu mtu' s A used log written l ->
  handle_udp cfg i name s d from st = Ok (s', out) ->
  exists A' l', relay_inv cfg i A' s' /\
    heard mtu mtu' s' A' (used ++ [receiving_key s']) log (written ++ writes out) l' /\
    rtc channel_step (channel_of log l written) (channel_of log l' (written ++ writes out)).
Proof.
  intros Hinv Hi Bd Ld He Hmtu Hs Hnew Hh H.
  pose proof (handle_udp_meets cfg i A name st Hi s d from Hinv Bd Ld He) as Hm. rewrite H in Hm.
  destruct Hm as (A' & Hspec & Hinv'). exists A'. unfold new_key, completes in Hnew.
  assert (forall x, x ∈ used -> x ∈ used ++ [receiving_key s']) as Hsub by (intros; apply elem_of_app; by left).
  destruct Hspec as [f s' _ (_ & Hse & _) | hs s' Hr _ _ Hse _ _ | hs s' keys resp ok Hr Hread _ Hse _ _ _
    | p hs keys s' Hr Hp Hread Hse _ _ _ _ | c m w s' Hg Hd _ _ _ _ _
    | c m n w s' log' taken Hg Hd Hse _ _ _ _ Hlog _].
  - exists l. split; [done|]. rewrite app_nil_r. split; [eapply same_session_heard; eauto | apply rtc_refl].
  - exists l. split; [done|]. rewrite app_nil_r. split; [eapply same_session_heard; eauto | apply rtc_refl].
  - exists l. split; [done|]. replace (writes _) with ([] : list (list Z)) by by destruct ok.
    rewrite app_nil_r. split; [|apply rtc_refl]. rewrite Hr in Hnew.
    destruct Hnew as [Heq|Hf]; [by eauto | |by eapply heard_rekeyed].
    eapply same_session_heard; [done | right; by rewrite Hse | done..].
  - exists l. split; [done|]. cbn. rewrite app_nil_r. split; [|apply rtc_refl]. rewrite Hr in Hnew.
    destruct Hnew as [Heq|Hf]; [by eauto 10 | |by eapply heard_rekeyed].
    eapply same_session_heard; [done | right; by rewrite Hse | done..].
  - destruct (heard_genuine _ _ _ _ _ _ _ _ _ _ _ Hh Hs Hg) as (j & e & _ & _ & (Bp & Hip & Hl & _) & -> & _).
    rewrite delivered_ipv4 in Hd by (done || lia). done.
  - destruct (heard_genuine _ _ _ _ _ _ _ _ _ _ _ Hh Hs Hg)
      as (j & e & Hj & Hat & (Bp & Hip & Hl & _) & -> & _ & Hu & Hone).
    rewrite delivered_ipv4 in Hd by (done || lia). injection Hd as <-.
    assert (length (en_packet e) <> 0) as Hne by (destruct Hip as (? & ? & ? & ? & ? & -> & _); done).
    rewrite (proj2 (Nat.eqb_neq _ _) Hne), writes_app, writes_logs by done. cbn.
    replace (take (length (en_packet e)) (pad16 (en_packet e))) with (en_packet e)
      by (unfold pad16; by rewrite take_app_length).
    exists (l ++ [j]). split; [done|]. split.
    + eapply heard_used; [|exact Hsub]. eapply heard_write; eauto; unfold receiving_key; by rewrite Hse.
    + apply rtc_once, ch_receive; [by rewrite list_lookup_fmap, Hat | done].
Qed.

(** ** The system *)

Variables (cfgI cfgR : RelayConfig) (iI iR : Identity) (cname sname : string).

Record life : Type := mkLife {
  lf_client : Relay; lf_server : Relay;
  lf_up : list entry; lf_up_written : list (list Z);        (* client to server *)
  lf_down : list entry; lf_down_written : list (list Z);    (* server to client *)
  lf_client_used : list (list Z); lf_server_used : list (list Z)
}.

Definition life_start : life :=
  mkLife (relay_init cfgI) (relay_init cfgR) [] [] [] [] [initial_key] [initial_key].

Inductive life_step : life -> life -> Prop :=
| life_client_tun n p st c out :
    carried (cfg_mtu cfgI) (cfg_mtu cfgR) p -> entropy_ok (ts_entropy st) ->
    handle_tun cfgI iI (lf_client n) p st = Ok (c, out) ->
    life_step n (mkLife c (lf_server n) (lf_up n ++ sealed_now (lf_client n) p out) (lf_up_written n)
                   (lf_down n) (lf_down_written n) (lf_client_used n) (lf_server_used n))
| life_server_tun n p st s out :
    carried (cfg_mtu cfgI) (cfg_mtu cfgR) p -> entropy_ok (ts_entropy st) ->
    handle_tun cfgR iR (lf_server n) p st = Ok (s, out) ->
    life_step n (mkLife (lf_client n) s (lf_up n) (lf_up_written n)
                   (lf_down n ++ sealed_now (lf_server n) p out) (lf_down_written n)
                   (lf_client_used n) (lf_server_used n))
| life_client_udp n d from st c out :
    bytes_ok d -> length d ≤ length (rl_udp_buffer (lf_client n)) -> entropy_ok (us_entropy st) ->
    sealed_by_peer (lf_client n) (lf_down n) d ->
    handle_udp cfgI iI cname (lf_client n) d from st = Ok (c, out) ->
    new_key cfgI iI (lf_client_used n) (lf_client n) c d ->
    life_step n (mkLife c (lf_server n) (lf_up n) (lf_up_written n)
                   (lf_down n) (lf_down_written n ++ writes out)
                   (lf_client_used n ++ [receiving_key c]) (lf_server_used n))
| life_server_udp n d from st s out :
    bytes_ok d -> length d ≤ length (rl_udp_buffer (lf_server n)) -> entropy_ok (us_entropy st) ->
    sealed_by_peer (lf_server n) (lf_up n) d ->
    handle_udp cfgR iR sname (lf_server n) d from st = Ok (s, out) ->
    new_key cfgR iR (lf_server_used n) (lf_server n) s d ->
    life_step n (mkLife (lf_client n) s (lf_up n) (lf_up_written n ++ writes out)
                   (lf_down n) (lf_down_written n)
                   (lf_client_used n) (lf_server_used n ++ [receiving_key s]))
| life_client_restart n :
    life_step n (mkLife (relay_init cfgI) (lf_server n) (lf_up n) (lf_up_written n)
                   (lf_down n) (lf_down_written n) (lf_client_used n) (lf_server_used n))
| life_server_restart n :
    life_step n (mkLife (lf_client n) (relay_init cfgR) (lf_up n) (lf_up_written n)
                   (lf_down n) (lf_down_written n) (lf_client_used n) (lf_server_used n)).

Hypotheses (CI : config_ok cfgI) (CR : config_ok cfgR) (OI : identity_ok iI) (OR : identity_ok iR).

Abbreviation hears := (heard (cfg_mtu cfgI) (cfg_mtu cfgR)).

Record life_inv (n : life) (Ac As : gset Z) (lu ld : list nat) : Prop := {
  li_client : relay_inv cfgI iI Ac (lf_client n);
  li_server : relay_inv cfgR iR As (lf_server n);
  li_up : hears (lf_server n) As (lf_server_used n) (lf_up n) (lf_up_written n) lu;
  li_down : hears (lf_client n) Ac (lf_client_used n) (lf_down n) (lf_down_written n) ld
}.

Abbreviation up_channel n lu := (channel_of (lf_up n) lu (lf_up_written n)).
Abbreviation down_channel n ld := (channel_of (lf_down n) ld (lf_down_written n)).

Lemma life_inv_step n n' Ac As lu ld :
  life_inv n Ac As lu ld -> life_step n n' ->
  exists Ac' As' lu' ld', life_inv n' Ac' As' lu' ld' /\
    rtc channel_step (up_channel n lu) (up_channel n' lu') /\
    rtc channel_step (down_channel n ld) (down_channel n' ld').
Proof.
  intros [IC IS Hu Hd] Hstep. assert (cfg_mtu cfgI < 2 ^ 63)%Z as Hmtu by (unfold config_ok in CI; lia).
  destruct Hstep as [n p st c out Hp He H | n p st s out Hp He H | n d from st c out Bd Ld He Hs H Hk
    | n d from st s out Bd Ld He Hs H Hk | n | n].
  - pose proof Hp as (_ & _ & L1 & _).
    destruct (tun_heard _ _ _ _ _ _ _ _ _ _ IC CI OI He Hp ltac:(lia) H) as (IC' & Hkey & Hac & Hen).
    exists Ac, As, lu, ld. split; [|split; [apply channel_sends | apply rtc_refl]].
    constructor; try done; [by apply heard_grows | by eapply heard_same].
  - pose proof Hp as (_ & _ & _ & L2).
    destruct (tun_heard _ _ _ _ _ _ _ _ _ _ IS CR OR He Hp ltac:(lia) H) as (IS' & Hkey & Hac & Hen).
    exists Ac, As, lu, ld. split; [|split; [apply rtc_refl | apply channel_sends]].
    constructor; try done; [by eapply heard_same | by apply heard_grows].
  - destruct (udp_heard _ _ _ _ _ _ _ _ _ _ _ _ _ _ _ _ IC OI Bd Ld He Hmtu Hs Hk Hd H)
      as (Ac' & ld' & IC' & Hd' & Hc). exists Ac', As, lu, ld'. by split; [|split; [apply rtc_refl|]].
  - destruct (udp_heard _ _ _ _ _ _ _ _ _ _ _ _ _ _ _ _ IS OR Bd Ld He Hmtu Hs Hk Hu H)
      as (As' & lu' & IS' & Hu' & Hc). exists Ac, As', lu', ld. by split; [|split; [|apply rtc_refl]].
  - exists ∅, As, lu, ld. split; [|by split; apply rtc_refl].
    constructor; try done; [by apply relay_init_inv | by eapply heard_restarted].
  - exists Ac, ∅, lu, ld. split; [|by split; apply rtc_refl].
    constructor; try done; [by apply relay_init_inv | by eapply heard_restarted].
Qed.

Lemma heard_start cfg : hears (relay_init cfg) ∅ [initial_key] [] [] [].
Proof.
  constructor; try done; try (by intros ? ? ?%elem_of_nil); try (by apply list_elem_of_singleton).
  split; constructor.
Qed.

Lemma life_inv_start : life_inv life_start ∅ ∅ [] [].
Proof. constructor; try (by apply relay_init_inv); apply heard_start. Qed.

Lemma life_inv_reachable n :
  rtc life_step life_start n -> exists Ac As lu ld, life_inv n Ac As lu ld.
Proof.
  apply (rtc_ind_r (fun n => exists Ac As lu ld, life_inv n Ac As lu ld)).
  - exists ∅, ∅, [], []. apply life_inv_start.
  - intros n1 n2 _ Hstep (Ac & As & lu & ld & Hinv).
    destruct (life_inv_step _ _ _ _ _ _ Hinv Hstep) as (Ac' & As' & lu' & ld' & Hinv' & _). by eauto.
Qed.

(** The two channels a state of the system stands for. *)
Definition implements (n : life) (up down : channel) : Prop :=
  exists Ac As, life_inv n Ac As (ch_taken up) (ch_taken down) /\
    up = up_channel n (ch_taken up) /\ down = down_channel n (ch_taken down).

End Lifetime.

Section Theorem_.
Context `{P : Primitives} `{PO : !PrimitivesOk} `{I : Inet}.

(** [C2] Integrity over the whole life of the tunnel.  Both relays start in
    their initial state; from then on packets appear on either TUN device, any
    datagram from any address reaches either socket (handshake messages old and
    new included, repeated, reordered or invented), sessions come and go, and
    either process may be restarted and forget everything.  If no transport
    message authenticates that the peer has not sealed with that key, and no
    handshake gives a receiving key that was there before, then the packets each
    side has ever written to its TUN device are packets the other side sealed,
    unchanged, each at most once over all sessions together: there is a list of
    distinct positions among the sealed packets that lists the written ones. *)
Theorem tunnel_lifetime_integrity cfgI cfgR iI iR cname sname n :
  config_ok cfgI -> config_ok cfgR -> identity_ok iI -> identity_ok iR ->
  rtc (life_step cfgI cfgR iI iR cname sname) (life_start cfgI cfgR) n ->
  (exists lu, once (lf_up n) (lf_up_written n) lu) /\ (exists ld, once (lf_down n) (lf_down_written n) ld).
Proof.
  intros CI CR OI OR Hr.
  destruct (life_inv_reachable cfgI cfgR iI iR cname sname CI CR OI OR n Hr) as (Ac & As & lu & ld & [_ _ Hu Hd]).
  split; [exists lu | exists ld]; by eapply he_once.
Qed.

(** [C3] Refinement: the two relays with the network between them implement
    two channels, one per direction, that may lose and reorder packets and do
    nothing else.  The initial states correspond, and each step of the system (a
    packet read, a datagram of any kind handled, a restart) is matched by steps
    of the channels: a packet is sent into one, or a packet that was sent and
    not yet taken comes out, or nothing happens.  What was sealed and written so
    far is what the channels have sent and received. *)
Theorem tunnel_refines_channels cfgI cfgR iI iR cname sname :
  config_ok cfgI -> config_ok cfgR -> identity_ok iI -> identity_ok iR ->
  implements cfgI cfgR iI iR (life_start cfgI cfgR) channel_start channel_start /\
  (forall n n' up down, implements cfgI cfgR iI iR n up down ->
     life_step cfgI cfgR iI iR cname sname n n' ->
     exists up' down', rtc channel_step up up' /\ rtc channel_step down down' /\
       implements cfgI cfgR iI iR n' up' down') /\
  (forall n up down, implements cfgI cfgR iI iR n up down ->
     ch_sent up = en_packet <$> lf_up n /\ ch_received up = lf_up_written n /\
     ch_sent down = en_packet <$> lf_down n /\ ch_received down = lf_down_written n).
Proof.
  intros CI CR OI OR. split; [|split].
  - exists ∅, ∅. split; [by apply life_inv_start | done].
  - intros n n' up down (Ac & As & Hinv & -> & ->) Hstep.
    destruct (life_inv_step cfgI cfgR iI iR cname sname CI CR OI OR _ _ _ _ _ _ Hinv Hstep)
      as (Ac' & As' & lu' & ld' & Hinv' & Hu & Hd).
    eexists _, _. split; [exact Hu|]. split; [exact Hd|]. by exists Ac', As'.
  - intros n up down (Ac & As & _ & -> & ->). done.
Qed.

End Theorem_.
