(* ===== verification/RelayWitnesses.v ===== *)
(** * RelayWitnesses: the theorems about the loop at concrete inputs

    Two peers with the keys of [Toy], an MTU of 1420, and short scripts of
    kernel answers. *)

From Stdlib Require Import ZArith Lia String Sorted.
From stdpp Require Import base tactics numbers list option strings gmap relations.
From S2P Require Import Prelude Wire Crypto Toy Noise HandshakeProofs Replay Session Net Relay.
From S2P Require Import RelayProofs RelayRuns Tunnel Channel Lifetime.

#[local] Existing Instance toy_inet.

Definition client_addr : sockaddr_in := mkAddr 5 5555.
Definition server_addr : sockaddr_in := mkAddr 2 27850.

Definition client_id : Identity := demo_identity 3 5.
Definition server_id : Identity := demo_identity 5 3.

Definition client_cfg : RelayConfig := mkConfig 1420 initiator (Some server_addr) (Some client_id).
Definition server_cfg : RelayConfig := mkConfig 1420 responder None (Some server_id).

Definition demo_tun (index seed ns : Z) (sent : list (sysres Z)) : tun_step :=
  mkTunStep [] (mkTimespec 5 ns) (demo_entropy index seed 1700000000) sent.
Definition demo_udp (index seed : Z) (sent written : list (sysres Z)) : udp_step :=
  mkUdpStep [] (demo_entropy index seed 1700000000) sent written.

Lemma client_cfg_ok : config_ok client_cfg.
Proof. unfold config_ok. cbn. lia. Qed.
Lemma server_cfg_ok : config_ok server_cfg.
Proof. unfold config_ok. cbn. lia. Qed.

(** A hostile datagram, an interrupted wait, an unreachable network, a signal. *)
Definition demo_waits : list (sysres (list event)) :=
  [SysErr EINTR;
   SysOk [OnUdp [mkUdpStep [SysErr EINTR; SysOk ([1; 2; 3]%Z, client_addr)] (demo_entropy 1 1 5) [] [];
                 mkUdpStep [SysErr ENETUNREACH] (demo_entropy 1 1 5) [] []];
          OnSignal (Some 15%Z); OnOther]].

Lemma demo_waits_ok : Forall wait_ok demo_waits.
Proof. repeat constructor; try by_dec; cbn; by_dec. Qed.

(** Case analysis over the concrete answers of a run. *)
Ltac over_answers :=
  repeat match goal with
  | H : Exists _ [] |- _ => by apply Exists_nil in H
  | H : Exists _ (_ :: _) |- _ => apply Exists_cons in H as [H|H]
  | H : _ \/ _ |- _ => destruct H as [H|H]
  | H : ex _ |- _ => destruct H as [? H]
  | H : _ /\ _ |- _ => destruct H as [? H]
  | H : _ ∈ [] |- _ => by apply elem_of_nil in H
  | H : _ ∈ _ :: _ |- _ => apply elem_of_cons in H as [H|H]
  | H : SysErr _ = SysErr _ |- _ => injection H as ->
  | H : SysErr _ = SysOk _ |- _ => discriminate H
  end.

Lemma demo_waits_calm name x : ~ run_fault name demo_waits x.
Proof.
  unfold run_fault, demo_waits. intros H. over_answers; cbn [wait_fault] in H; over_answers;
    cbn [event_fault] in H; over_answers; unfold udp_fault in H; cbn in H; over_answers; try done.
  all: unfold recv_fault, send_fault, write_fault in H; over_answers; apply H; by_dec.
Qed.

Lemma relay_runs_safely_witness :
  let u := mkSetup (SysOk tt) (SysOk tt) (SysErr 28%Z) (SysOk tt) in
  safe (fun x => setup_fault u x \/ run_fault "tun0" demo_waits x)
    (relay_serve server_cfg server_id "tun0" u demo_waits)
    (fun '(s, _, _) => exists A, relay_inv server_cfg server_id A s).
Proof.
  apply (relay_runs_safely (P := toy) server_cfg server_id);
    [exact server_cfg_ok | by_dec | exact demo_waits_ok].
Defined.

Lemma relay_silent_unless_authenticated_witness :
  exists s', handle_udp server_cfg server_id "tun0" (relay_init server_cfg) [9; 9; 9]%Z client_addr
               (demo_udp 1 1 [SysErr 5%Z] [SysErr 5%Z]) = Ok (s', []) /\
    same_core (relay_init server_cfg) s' /\ exists f, counted f (relay_init server_cfg) s'.
Proof.
  apply (relay_silent_unless_authenticated (P := toy) server_cfg server_id ∅);
    [exact (relay_init_inv server_cfg server_id server_cfg_ok) | exact server_cfg_ok | by_dec
    | by_dec | by_dec | by_dec |].
  intros H. exact (authenticated_type server_cfg server_id ∅ (relay_init server_cfg) [9; 9; 9]%Z
    None eq_refl H).
Defined.

Lemma relay_peer_moves_authenticated_witness :
  safe (udp_fault "tun0" (demo_udp 9 13 [SysOk 92%Z] []))
    (handle_udp server_cfg server_id "tun0" (relay_init server_cfg) demo_initiation.2 client_addr
       (demo_udp 9 13 [SysOk 92%Z] []))
    (fun '(s', _) => rl_peer s' = None \/
       authenticated server_cfg server_id ∅ (relay_init server_cfg) demo_initiation.2 /\
       responder = responder /\ peer_is s' client_addr).
Proof.
  apply (relay_peer_moves_authenticated (P := toy) server_cfg server_id ∅ (relay_init server_cfg));
    [exact (relay_init_inv server_cfg server_id server_cfg_ok) | exact server_cfg_ok | by_dec
    | by_dec | by_dec | by_dec].
Defined.

Lemma relay_counts_once_witness :
  safe (udp_fault "tun0" (demo_udp 1 1 [] []))
    (handle_udp server_cfg server_id "tun0" (relay_init server_cfg) [4; 0; 0; 0]%Z client_addr
       (demo_udp 1 1 [] []))
    (fun '(s', _) => exists f, f ∈ outcomes /\
       rl_stats s' f = u64 (rl_stats (relay_init server_cfg) f + 1) /\
       forall g, g ∈ outcomes -> g <> f -> rl_stats s' g = rl_stats (relay_init server_cfg) g).
Proof.
  apply (relay_counts_once (P := toy) server_cfg server_id ∅);
    [exact (relay_init_inv server_cfg server_id server_cfg_ok) | exact server_cfg_ok | by_dec
    | by_dec | by_dec | by_dec].
Defined.

Lemma relay_stops_on_signal_witness :
  exists s' running out,
    relay_loop server_cfg server_id "tun0" (relay_init server_cfg) (demo_waits ++ [SysErr EINTR])
    = Ok (s', running, out) /\
    (running = false <-> signalled (demo_waits ++ [SysErr EINTR])) /\
    forall before es signo after, demo_waits ++ [SysErr EINTR] = before ++ SysOk es :: after ->
      OnSignal signo ∈ es ->
      relay_loop server_cfg server_id "tun0" (relay_init server_cfg) (before ++ [SysOk es])
      = Ok (s', false, out).
Proof.
  apply (relay_stops_on_signal (P := toy) server_cfg server_id "tun0" ∅ (relay_init server_cfg)
    (demo_waits ++ [SysErr EINTR]));
    [exact (relay_init_inv server_cfg server_id server_cfg_ok) | exact server_cfg_ok | by_dec | |].
  - apply Forall_app. split; [exact demo_waits_ok | repeat constructor].
  - intros x [H|H]%Exists_app; [exact (demo_waits_calm "tun0" x H)|].
    apply Exists_cons in H as [[H _]|H%Exists_nil]; [by apply H | exact H].
Defined.

Lemma relay_sends_sealed_witness :
  exists s' out, handle_tun client_cfg client_id (relay_init client_cfg) demo_packet
                   (demo_tun 7 11 0 [SysOk 148%Z]) = Ok (s', out) /\
    rl_session s' = Session_new /\ length out = 1.
Proof.
  pose proof (relay_sends_sealed (P := toy) client_cfg client_id ∅ (relay_init client_cfg) demo_packet
    (demo_tun 7 11 0 [SysOk 148%Z]) (relay_init_inv client_cfg client_id client_cfg_ok)
    client_cfg_ok ltac:(by_dec) ltac:(by_dec) ltac:(by_dec) ltac:(by_dec)) as H.
  set (r := handle_tun _ _ _ _ _) in *.
  assert (match r with Ok (_, out) => length out | _ => 0 end = 1) as Hr by (vm_compute; reflexivity).
  destruct r as [[s' out]| |]; [|discriminate Hr..]. destruct H as (_ & _ & Hs & _).
  exists s', out. split; [reflexivity|]. split; [exact Hs | exact Hr].
Defined.

Lemma relay_retry_interval_witness :
  let steps := [demo_tun 7 11 0 [SysOk 148%Z]; demo_tun 8 13 500000000 [SysOk 148%Z]] in
  safe (fun x => Exists (fun t => send_fault (ts_send t) x) steps)
    (starts client_cfg client_id (relay_init client_cfg) steps)
    (fun '(_, ts) => Sorted spaced ts /\
       (0%Z <> 0%Z -> HdRel spaced 0%Z ts)).
Proof.
  apply (relay_retry_interval (P := toy) client_cfg client_id ∅ (relay_init client_cfg));
    [exact (relay_init_inv client_cfg client_id client_cfg_ok) | by_dec | | |].
  - repeat constructor; by_dec.
  - repeat constructor; vm_compute; discriminate.
  - repeat constructor.
Defined.

Lemma relay_acts_on_genuine_witness :
  safe (udp_fault "tun0" (demo_udp 9 13 [SysOk 92%Z] []))
    (handle_udp server_cfg server_id "tun0" (relay_init server_cfg) demo_initiation.2 client_addr
       (demo_udp 9 13 [SysOk 92%Z] []))
    (fun '(s', out) => forall r to ok, SendTo r to ok ∈ out -> to = client_addr).
Proof.
  eapply safe_mono; [apply (relay_acts_on_genuine (P := toy) server_cfg server_id ∅);
    [exact (relay_init_inv server_cfg server_id server_cfg_ok) | exact server_cfg_ok | by_dec
    | by_dec | by_dec | by_dec] | done |].
  intros [s' out] [_ H] r to ok Hin. exact (proj1 (H r to ok Hin)).
Defined.

Lemma demo_paired : paired client_id server_id.
Proof. unfold paired. split; [by_dec|]. split; [by_dec|]. split; vm_compute; reflexivity. Qed.

Lemma demo_packet_ipv4 : ipv4_packet demo_packet.
Proof.
  exists 69%Z, 0%Z, 0%Z, 24%Z, (replicate 20 7%Z). split; [reflexivity|]. split; [reflexivity|].
  vm_compute. split; [split; intros H; discriminate H | reflexivity].
Qed.

(** Nothing was accepted yet by a server that was just started. *)
Lemma newer_than_none ent : newer_than_seen (relay_init server_cfg) ent.
Proof. intros ts _. reflexivity. Qed.

(** ** A run of the whole system: handshake, one packet sent, its datagram delivered *)

Lemma demo_up : exists c s,
  tunnel_up (P := toy) client_cfg server_cfg client_id server_id client_addr server_addr c s.
Proof.
  destruct (handshake_completes (P := toy) client_cfg server_cfg client_id server_id "tunc" "tuns"
    client_addr server_addr ∅ ∅ (relay_init client_cfg) (relay_init server_cfg) demo_packet
    (demo_tun 7 11 0 [SysOk 148%Z]) (demo_udp 9 13 [SysOk 92%Z] []) (demo_udp 1 1 [] []))
    as (m1 & m2 & c1 & s1 & c2 & _ & _ & _ & Hup);
    [exact demo_paired | cbn; lia | cbn; lia | reflexivity | reflexivity
    | exact (relay_init_inv _ _ client_cfg_ok) | exact (relay_init_inv _ _ server_cfg_ok) | reflexivity | reflexivity
    | left; reflexivity | apply newer_than_none | by_dec..| reflexivity | reflexivity |].
  by exists c2, s1.
Qed.

Lemma demo_carried : carried (cfg_mtu client_cfg) (cfg_mtu server_cfg) demo_packet.
Proof. split; [by_dec|]. split; [exact demo_packet_ipv4 | cbn; lia]. Qed.

Lemma demo_run : exists c s n,
  tunnel_up (P := toy) client_cfg server_cfg client_id server_id client_addr server_addr c s /\
  rtc (net_step (P := toy) client_cfg server_cfg client_id server_id "tunc" "tuns")
    (mkNet c s no_traffic no_traffic) n /\
  tr_sent (n_up n) = [demo_packet] /\ tr_written (n_up n) = [demo_packet].
Proof.
  destruct demo_up as (c & s & Hup). exists c, s. pose proof Hup as [IC IS PC PS AC AS Hctr Hkeys Hidx _ _ _ _].
  destruct (packet_crosses (P := toy) _ _ _ _ "tuns" _ _ c s demo_packet (demo_tun 7 11 0 [SysOk 64%Z])
    (demo_udp 1 1 [] [SysOk 24%Z]) Hup) as (d & c' & s' & Ht & Hu);
    [exact client_cfg_ok | exact server_cfg_ok | by_dec | reflexivity | by_dec | exact demo_packet_ipv4
    | by_dec | by_dec | by_dec | vm_compute; reflexivity | reflexivity |].
  destruct (tun_effect client_cfg client_id ∅ c demo_packet (demo_tun 7 11 0 [SysOk 64%Z]) c' [SendTo d server_addr true])
    as (_ & _ & _ & [[[=] _]|(to & ok & [= Hd _ _] & _)]);
    [exact IC | exact client_cfg_ok | by_dec | by_dec | by_dec | by_dec | exact AC | exact Ht |].
  pose proof (inv_session _ _ _ _ IC) as OKC. rewrite Hctr in Hd.
  assert (decode d = Ok (Some (MTransport (mkTransport (peer_index (rl_session c)) 0
    (aead_encrypt (tk_send (ss_keys (rl_session c))) (nonce_bytes 0) (pad16 demo_packet) [])))))
    as Hdec by (rewrite Hd; apply decode_datagram; [exact OKC | by_dec | by_dec]).
  assert (bytes_ok d) as Bd by (rewrite Hd; apply bytes_ok_datagram; [exact OKC | by_dec]).
  assert (length d = 64) as Ld by (rewrite Hd, length_datagram; [vm_compute; reflexivity | exact OKC | by_dec]).
  eexists. split; [exact Hup|]. split; [|split].
  - eapply rtc_l; [exact (client_tun client_cfg server_cfg client_id server_id "tunc" "tuns"
      (mkNet c s no_traffic no_traffic) demo_packet (demo_tun 7 11 0 [SysOk 64%Z]) c' _ demo_carried
      ltac:(by_dec) Ht)|].
    eapply rtc_l; [|apply rtc_refl].
    apply (server_udp client_cfg server_cfg client_id server_id "tunc" "tuns") with (d := d)
      (from := client_addr) (st := demo_udp 1 1 [] [SysOk 24%Z]); [exact Bd | | by_dec | | | exact Hu].
    + apply (udp_slot server_cfg server_id ∅ s d IS server_cfg_ok). rewrite Ld. vm_compute. discriminate.
    + intros ? ? ? _ _. cbn. left.
    + intros (hs & g & Hr). apply read_initiation_type in Hr as [m Hm]. congruence.
  - reflexivity.
  - reflexivity.
Qed.

(** The client has sent its first packet, and it is still on the way. *)
Lemma demo_underway : exists c s n d,
  tunnel_up (P := toy) client_cfg server_cfg client_id server_id client_addr server_addr c s /\
  rtc (net_step (P := toy) client_cfg server_cfg client_id server_id "tunc" "tuns")
    (mkNet c s no_traffic no_traffic) n /\
  tr_sent (n_up n) = [demo_packet] /\ tr_wire (n_up n) = [d] /\ tr_written (n_up n) = [].
Proof.
  destruct demo_up as (c & s & Hup). exists c, s.
  destruct (packet_crosses (P := toy) _ _ _ _ "tuns" _ _ c s demo_packet (demo_tun 7 11 0 [SysOk 64%Z])
    (demo_udp 1 1 [] [SysOk 24%Z]) Hup) as (d & c' & s' & Ht & Hu);
    [exact client_cfg_ok | exact server_cfg_ok | by_dec | reflexivity | by_dec | exact demo_packet_ipv4
    | by_dec | by_dec | by_dec | vm_compute; reflexivity | reflexivity |].
  eexists _, d. split; [exact Hup|]. split; [|split; [|split]].
  - eapply rtc_l; [|apply rtc_refl].
    exact (client_tun client_cfg server_cfg client_id server_id "tunc" "tuns"
      (mkNet c s no_traffic no_traffic) demo_packet (demo_tun 7 11 0 [SysOk 64%Z]) c' _ demo_carried
      ltac:(by_dec) Ht).
  - reflexivity.
  - reflexivity.
  - reflexivity.
Qed.

(** The packet that is on the way is delivered, from an address never seen. *)
Lemma tunnel_delivers_in_window_witness :
  exists (n : net) d s' out, tr_sent (n_up n) = [demo_packet] /\ tr_wire (n_up n) = [d] /\
    tr_written (n_up n) = [] /\
    handle_udp (P := toy) server_cfg server_id "tuns" (n_server n) d (mkAddr 7 7) (demo_udp 1 1 [] [SysOk 24%Z])
      = Ok (s', out) /\ writes out = [demo_packet].
Proof.
  destruct demo_underway as (c & s & n & d & Hup & Hr & Hs & Hwire & Hwr).
  destruct (tunnel_delivers_in_window (P := toy) client_cfg server_cfg client_id server_id "tunc" "tuns"
    client_addr server_addr c s n) as (lu & ld & [_ Hlu] & _ & Hdel);
    [exact client_cfg_ok | exact server_cfg_ok | by_dec | by_dec | reflexivity | reflexivity
    | exact Hup | exact Hr |].
  rewrite Hwr in Hlu. apply Forall2_nil_inv_r in Hlu as ->.
  destruct (proj1 (Hdel 0 demo_packet d (mkAddr 7 7) (demo_udp 1 1 [] [SysOk 24%Z]) ltac:(reflexivity)))
    as (s' & out & Hu & Hw); [by rewrite Hs | by rewrite Hwire | by intros ?%elem_of_nil | by intros k ?%elem_of_nil|].
  exists n, d, s', out. repeat split; assumption.
Defined.

(** ** A life: handshake, a packet, its replay, a restart of the server and the
    old initiation again *)

Definition is_ok {A} (r : Res A) : bool := match r with Ok _ => true | _ => false end.
Definition after (r : Res (Relay * list action)) : Relay :=
  match r with Ok (s, _) => s | _ => relay_init server_cfg end.
Definition done_by (r : Res (Relay * list action)) : list action :=
  match r with Ok (_, out) => out | _ => [] end.
Lemma ran r : is_ok r = true -> r = Ok (after r, done_by r).
Proof. by destruct r as [[]| |]. Qed.

Definition first_sent (out : list action) : list Z := default [] (head (sends out)).

(** The successors of a state, by the handlers. *)
Definition c_tun (n : life) (st : tun_step) : Res (Relay * list action) :=
  handle_tun (P := toy) client_cfg client_id (lf_client n) demo_packet st.
Definition c_udp (n : life) (d : list Z) (st : udp_step) : Res (Relay * list action) :=
  handle_udp (P := toy) client_cfg client_id "tunc" (lf_client n) d server_addr st.
Definition s_udp (n : life) (d : list Z) (st : udp_step) : Res (Relay * list action) :=
  handle_udp (P := toy) server_cfg server_id "tuns" (lf_server n) d client_addr st.

Definition after_c_tun (n : life) (r : Res (Relay * list action)) : life :=
  mkLife (after r) (lf_server n) (lf_up n ++ sealed_now (lf_client n) demo_packet (done_by r)) (lf_up_written n)
    (lf_down n) (lf_down_written n) (lf_client_used n) (lf_server_used n).
Definition after_c_udp (n : life) (r : Res (Relay * list action)) : life :=
  mkLife (after r) (lf_server n) (lf_up n) (lf_up_written n) (lf_down n) (lf_down_written n ++ writes (done_by r))
    (lf_client_used n ++ [receiving_key (after r)]) (lf_server_used n).
Definition after_s_udp (n : life) (r : Res (Relay * list action)) : life :=
  mkLife (lf_client n) (after r) (lf_up n) (lf_up_written n ++ writes (done_by r)) (lf_down n) (lf_down_written n)
    (lf_client_used n) (lf_server_used n ++ [receiving_key (after r)]).
Definition after_restart (n : life) : life :=
  mkLife (lf_client n) (relay_init server_cfg) (lf_up n) (lf_up_written n) (lf_down n) (lf_down_written n)
    (lf_client_used n) (lf_server_used n).

#[local] Abbreviation step := (life_step (P := toy) client_cfg server_cfg client_id server_id "tunc" "tuns").

(** A handshake message is no transport message, and no transport message is one. *)
Lemma handshake_not_sealed s log d :
  (forall t, decode d <> Ok (Some (MTransport t))) -> sealed_by_peer (P := toy) s log d.
Proof. intros Hd c sealed m Hdec. by destruct (Hd _ Hdec). Qed.
Lemma transport_completes_nothing cfg i s d t :
  decode d = Ok (Some (MTransport t)) -> ~ completes (P := toy) cfg i s d.
Proof.
  intros Hd. unfold completes. destruct (cfg_role cfg).
  - intros (p & hs & k & _ & [m Hm]%read_response_type). congruence.
  - intros (hs & g & [m Hm]%read_initiation_type). congruence.
Qed.

Definition l0 : life := life_start client_cfg server_cfg.
Definition r1 := c_tun l0 (demo_tun 7 11 0 [SysOk 148%Z]).
Definition l1 : life := after_c_tun l0 r1.
Definition m1 : list Z := first_sent (done_by r1).
Definition r2 := s_udp l1 m1 (demo_udp 9 13 [SysOk 92%Z] []).
Definition l2 : life := after_s_udp l1 r2.
Definition r3 := c_udp l2 (first_sent (done_by r2)) (demo_udp 1 1 [] []).
Definition l3 : life := after_c_udp l2 r3.
Definition r4 := c_tun l3 (demo_tun 7 11 0 [SysOk 64%Z]).
Definition l4 : life := after_c_tun l3 r4.
Definition m4 : list Z := first_sent (done_by r4).
Definition r5 := s_udp l4 m4 (demo_udp 1 1 [] [SysOk 24%Z]).
Definition l5 : life := after_s_udp l4 r5.
Definition l6 : life := after_restart l5.
Definition r7 := s_udp l6 m1 (demo_udp 2 17 [SysOk 92%Z] []).
Definition l7 : life := after_s_udp l6 r7.

Lemma tun_stepped n st :
  entropy_ok (ts_entropy st) -> is_ok (c_tun n st) = true -> step n (after_c_tun n (c_tun n st)).
Proof. intros He Hok. eapply life_client_tun; [exact demo_carried | exact He | by apply ran]. Qed.

Lemma client_stepped n d st :
  bytes_ok d -> length d ≤ length (rl_udp_buffer (lf_client n)) -> entropy_ok (us_entropy st) ->
  (forall t, decode d <> Ok (Some (MTransport t))) -> is_ok (c_udp n d st) = true ->
  receiving_key (after (c_udp n d st)) ∉ lf_client_used n -> step n (after_c_udp n (c_udp n d st)).
Proof.
  intros Bd Ld He Hd Hok Hnew. eapply life_client_udp; [exact Bd | exact Ld | exact He
    | by apply handshake_not_sealed | by apply ran | by right].
Qed.

Lemma handshake_step n d st :
  bytes_ok d -> length d ≤ length (rl_udp_buffer (lf_server n)) -> entropy_ok (us_entropy st) ->
  (forall t, decode d <> Ok (Some (MTransport t))) -> is_ok (s_udp n d st) = true ->
  receiving_key (after (s_udp n d st)) ∉ lf_server_used n -> step n (after_s_udp n (s_udp n d st)).
Proof.
  intros Bd Ld He Hd Hok Hnew. eapply life_server_udp; [exact Bd | exact Ld | exact He
    | by apply handshake_not_sealed | by apply ran | by right].
Qed.

Lemma step2 : step l1 l2.
Proof. apply handshake_step; [by_dec | by_dec | by_dec | intros t; vm_compute; discriminate | vm_compute; reflexivity | by_dec]. Qed.

Lemma step1 : step l0 l1.
Proof. apply tun_stepped; [by_dec | vm_compute; reflexivity]. Qed.

Lemma step3 : step l2 l3.
Proof. apply client_stepped; [by_dec | by_dec | by_dec | intros t; vm_compute; discriminate | vm_compute; reflexivity | by_dec]. Qed.

Lemma step4 : step l3 l4.
Proof. apply tun_stepped; [by_dec | vm_compute; reflexivity]. Qed.

Lemma m4_transport : exists t, decode m4 = Ok (Some (MTransport t)).
Proof. eexists. vm_compute. reflexivity. Qed.

Lemma transport_stepped n d st j e :
  bytes_ok d -> length d ≤ length (rl_udp_buffer (lf_server n)) -> entropy_ok (us_entropy st) ->
  (exists t, decode d = Ok (Some (MTransport t))) -> is_ok (s_udp n d st) = true ->
  lf_up n !! j = Some e -> en_key e = receiving_key (lf_server n) -> en_datagram e = d ->
  step n (after_s_udp n (s_udp n d st)).
Proof.
  intros Bd Ld He [t Ht] Hok Hl Hk Hd. eapply life_server_udp; [exact Bd | exact Ld | exact He | | by apply ran|].
  - intros c sealed m _ _. exists e. split; [by eapply list_elem_of_lookup_2 | done].
  - intros Hc. by destruct (transport_completes_nothing _ _ _ _ _ Ht Hc).
Qed.

Definition e4 : entry := mkEntry (receiving_key (lf_server l4)) m4 demo_packet.

Lemma step5 : step l4 l5.
Proof.
  apply (transport_stepped l4 m4 (demo_udp 1 1 [] [SysOk 24%Z]) 0 e4).
  - by_dec.
  - by_dec.
  - by_dec.
  - exact m4_transport.
  - vm_compute; reflexivity.
  - vm_compute; reflexivity.
  - vm_compute. reflexivity.
  - vm_compute. reflexivity.
Qed.

Lemma step7 : step l6 l7.
Proof. apply handshake_step; [by_dec | by_dec | by_dec | intros t; vm_compute; discriminate | vm_compute; reflexivity | by_dec]. Qed.

Lemma demo_first_session : rtc step l0 l5.
Proof.
  eapply rtc_l; [exact step1|]. eapply rtc_l; [exact step2|]. eapply rtc_l; [exact step3|].
  eapply rtc_l; [exact step4|]. eapply rtc_l; [exact step5 | apply rtc_refl].
Qed.

Lemma demo_life : rtc step l0 l7.
Proof.
  eapply rtc_r; [|exact step7]. eapply rtc_r; [exact demo_first_session | apply life_server_restart].
Qed.

(** The packet has crossed, and the server has taken the old initiation again. *)
Lemma tunnel_lifetime_integrity_witness :
  lf_up_written l7 = [demo_packet] /\ ss_active (rl_session (lf_server l7)) = true /\
  (exists lu, once (lf_up l7) (lf_up_written l7) lu) /\ (exists ld, once (lf_down l7) (lf_down_written l7) ld).
Proof.
  split; [vm_compute; reflexivity|]. split; [vm_compute; reflexivity|].
  apply (tunnel_lifetime_integrity (P := toy) client_cfg server_cfg client_id server_id "tunc" "tuns" l7);
    [exact client_cfg_ok | exact server_cfg_ok | by_dec | by_dec | exact demo_life].
Defined.

(** The first step: the client's first packet starts a handshake, and nothing is sent yet. *)
Lemma tunnel_refines_channels_witness :
  exists up down, rtc channel_step channel_start up /\
    implements (P := toy) client_cfg server_cfg client_id server_id l1 up down /\ ch_sent up = [].
Proof.
  destruct (tunnel_refines_channels (P := toy) client_cfg server_cfg client_id server_id "tunc" "tuns")
    as (Hstart & Hsim & Hobs);
    [exact client_cfg_ok | exact server_cfg_ok | by_dec | by_dec |].
  destruct (Hsim l0 l1 channel_start channel_start Hstart step1) as (up & down & Hu & _ & Himp).
  exists up, down. split; [exact Hu|]. split; [exact Himp|].
  destruct (Hobs l1 up down Himp) as (-> & _). vm_compute. reflexivity.
Defined.

(** ** The client is restarted: it reconnects to a server that has a session with it *)

Definition later (index seed : Z) (sent : list (sysres Z)) : tun_step :=
  mkTunStep [] (mkTimespec 5 0) (demo_entropy index seed 1700000001) sent.

Lemma server_kept : exists A, relay_inv (P := toy) server_cfg server_id A (lf_server l5).
Proof.
  destruct (life_inv_reachable (P := toy) client_cfg server_cfg client_id server_id "tunc" "tuns"
    client_cfg_ok server_cfg_ok ltac:(by_dec) ltac:(by_dec) l5 demo_first_session) as (Ac & As & lu & ld & [_ IS _ _]).
  by exists As.
Qed.

Lemma later_is_newer : newer_than_seen (lf_server l5) (ts_entropy (later 21 23 [SysOk 148%Z])).
Proof. intros ts Hts. vm_compute in Hts. injection Hts as <-. vm_compute. reflexivity. Qed.

Lemma tunnel_end_to_end_witness :
  exists m1 m2 d c1 s1 c2 c3 s2,
    handle_tun client_cfg client_id (relay_init client_cfg) demo_packet
      (later 21 23 [SysOk 148%Z]) = Ok (c1, [SendTo m1 server_addr true]) /\
    handle_udp server_cfg server_id "tuns" (lf_server l5) m1 client_addr
      (demo_udp 9 29 [SysOk 92%Z] [])
      = Ok (s1, [SendTo m2 client_addr true; established client_addr]) /\
    handle_udp client_cfg client_id "tunc" c1 m2 server_addr (demo_udp 1 1 [] [])
      = Ok (c2, [established server_addr]) /\
    handle_tun client_cfg client_id c2 demo_packet (demo_tun 7 11 0 [SysOk 64%Z])
      = Ok (c3, [SendTo d server_addr true]) /\
    handle_udp server_cfg server_id "tuns" s1 d client_addr (demo_udp 1 1 [] [SysOk 24%Z])
      = Ok (s2, [WriteTun demo_packet true]).
Proof.
  destruct server_kept as [A HA].
  apply (tunnel_end_to_end (P := toy) client_cfg server_cfg client_id server_id "tunc" "tuns"
    client_addr server_addr ∅ A (relay_init client_cfg) (lf_server l5) demo_packet demo_packet);
    [exact demo_paired | cbn; lia | cbn; lia | reflexivity | reflexivity
    | exact (relay_init_inv _ _ client_cfg_ok) | exact HA | reflexivity | reflexivity
    | left; reflexivity | exact later_is_newer | by_dec | by_dec
    | by_dec | exact demo_packet_ipv4 | by_dec | by_dec | by_dec | by_dec | by_dec | by_dec | by_dec
    | by_dec | by_dec | by_dec | reflexivity | reflexivity | vm_compute; reflexivity | reflexivity].
Defined.
