(* ===== verification/Programs.v ===== *)
(** * Programs: the client, the server and the key tool
      ([src/vpn.cpp], [src/vpnd.cpp], [src/vpnkey.cpp], and the functions that
      open what they use: [TunDevice::open], [UdpSocket::bind_any],
      [noise::load_identity])

    Each [main] is a computation of [Host.M] that returns its exit status.  The
    locals of its [try] block that have destructors are nested scopes, in
    declaration order.  The packets of the loop are the actions of [run_relay];
    [Blocked] is a loop still waiting when the given events are used up. *)

From Stdlib Require Import ZArith Lia Ascii String.
From stdpp Require Import base tactics numbers list option strings gmap.
From S2P Require Import Prelude Wire Crypto Noise Net Host Netcfg Replay Session Relay.

(** ** Text *)

(** [while (!line.empty() && (line.back() == '\r' || line.back() == ' ')) line.pop_back()] *)
Fixpoint strip_right (s : string) : string :=
  match s with
  | EmptyString => EmptyString
  | String c s =>
      match strip_right s with
      | EmptyString => if Ascii.eqb c "013" || Ascii.eqb c " " then EmptyString else String c EmptyString
      | r => String c r
      end
  end.

(** The digit [k] of an octal numeral, and ["%04o"]. *)
Definition octal_digit (n k : Z) : ascii := ascii_of_nat (48 + Z.to_nat (Z.land (Z.shiftr n (3 * k)) 7)).
Definition octal4 (n : Z) : string :=
  String (octal_digit n 3) (String (octal_digit n 2) (String (octal_digit n 1)
    (String (octal_digit n 0) ""))).

(** ** Devices and sockets *)

Definition IFNAMSIZ : nat := 16.

Record TunDevice : Type := mkTun { tun_fd : UniqueFd; tun_name : string }.
Record UdpSocket : Type := mkUdp { udp_fd : UniqueFd }.

Section Opening.
Context `{H : Host}.

Definition TunDevice_open (name : string) : M TunDevice :=
  if String.eqb name "" || (IFNAMSIZ <=? String.length name) then
    raise (invalid_argument ("tun device name must be 1.." +:+
             to_string (Z.of_nat (IFNAMSIZ - 1)) +:+ " characters: " +:+ name)) else
  '(fd, errno) ← acquire (fun h => h_open h "/dev/net/tun");
  if negb (UniqueFd_valid fd) then raise (system_error errno "open /dev/net/tun") else
  unless_returned (UniqueFd_destroy fd)
    (r ← call (fun h => h_tunsetiff h (Z.to_nat fd) name);
     match r with
     | SysErr e => raise (system_error e ("ioctl(TUNSETIFF) on " +:+ name))
     | SysOk actual => mret (mkTun (UniqueFd_move fd).1 (str_take IFNAMSIZ actual))
     end).

Definition bind_any (port : Z) : M UdpSocket :=
  '(fd, errno) ← acquire h_socket;
  if negb (UniqueFd_valid fd) then raise (system_error errno "socket(AF_INET, SOCK_DGRAM)") else
  unless_returned (UniqueFd_destroy fd)
    (r ← call (fun h => h_bind h (Z.to_nat fd) (mkAddr (htonl 0) (htons port)));
     match r with
     | SysErr e => raise (system_error e ("bind udp port " +:+ to_string port))
     | SysOk _ => mret (mkUdp (UniqueFd_move fd).1)
     end).

Definition local_port (sock : UdpSocket) : M Z :=
  r ← ask (fun h => h_getsockname h (Z.to_nat (udp_fd sock)));
  match r with
  | SysErr e => raise (system_error e "getsockname")
  | SysOk me => mret (ntohs (sin_port me))
  end.

(** ** Keys *)

Context `{P : Primitives}.

Definition load_identity (private_key_path peer_public_base64 : string) : M (option Identity) :=
  mode ← ask (fun h => h_stat h private_key_path);
  match mode with
  | None => _ ← emit (Stderr ("cannot read " +:+ private_key_path +:+ newline)); mret None
  | Some mode =>
      _ ← (if negb (Z.land mode 63 =? 0)%Z
           then emit (Stderr ("warning: " +:+ private_key_path +:+
                              " is readable by more than its owner (mode " +:+
                              octal4 (Z.land mode 4095) +:+ ")" +:+ newline))
           else mret tt);
      text ← ask (fun h => h_read h private_key_path);
      match text with
      | None => _ ← emit (Stderr ("cannot open " +:+ private_key_path +:+ newline)); mret None
      | Some text =>
          let line := strip_right (line_of text) in
          identity ← lift (Identity_from_base64 line peer_public_base64);
          _ ← (match identity with
               | None => emit (Stderr (private_key_path +:+
                           " or the peer key is not a valid base64 32-byte key" +:+ newline))
               | Some _ => mret tt
               end);
          mret identity
      end
  end.

End Opening.

(** ** Statistics *)

Definition print_stats (stats : RelayStats) : string :=
  let n f := to_string (stats f) in
  "tun->udp " +:+ n tun_to_udp_packets +:+ " packets / " +:+ n tun_to_udp_bytes +:+ " bytes" +:+ newline +:+
  "udp->tun " +:+ n udp_to_tun_packets +:+ " packets / " +:+ n udp_to_tun_bytes +:+ " bytes" +:+ newline +:+
  "handshakes: " +:+ n handshakes_started +:+ " started, " +:+ n handshakes_completed +:+
    " completed, " +:+ n handshakes_rejected +:+ " rejected" +:+ newline +:+
  "dropped: " +:+ n dropped_no_peer +:+ " no-peer, " +:+ n dropped_no_session +:+ " no-session, " +:+
    n dropped_send_failed +:+ " send-failed, " +:+ n dropped_oversize +:+ " oversize" +:+ newline +:+
  "dropped: " +:+ n dropped_malformed +:+ " malformed, " +:+ n dropped_replay +:+ " replayed, " +:+
    n dropped_auth_failed +:+ " failed-auth, " +:+ n dropped_counter_exhausted +:+
    " counter-exhausted" +:+ newline +:+
  "keepalives received: " +:+ n keepalives_received +:+ newline +:+
  "endpoint updates: " +:+ n endpoint_updates +:+ newline.

(** ** Arguments *)

(** Parsing ends with the settings, or with an exit status and what is printed. *)
Inductive parsed (A : Type) : Type :=
| Run (a : A)
| Exit (code : Z) (text : string).
Arguments Run {A} a.
Arguments Exit {A} code text.

Definition vpn_usage (program : string) : string :=
  "usage: " +:+ program +:+ " --server IP:PORT [options]" +:+ newline +:+
  "  --server IP:PORT    vpn server endpoint (required)" +:+ newline +:+
  "  --dev NAME          tun device name (default tun0)" +:+ newline +:+
  "  --tun-addr CIDR     tunnel address (default 10.9.0.2/24)" +:+ newline +:+
  "  --mtu N             tunnel MTU, 576..1500 (default 1420)" +:+ newline +:+
  "  --listen-port N     local udp port (default 0, ephemeral)" +:+ newline +:+
  "  --private-key PATH  our private key, base64 (required)" +:+ newline +:+
  "  --peer-key BASE64   the server's public key (required)" +:+ newline +:+
  "  --no-routes         do not touch the routing table" +:+ newline +:+
  "  --host-ipv6 MODE    what to do if this host has working IPv6:" +:+ newline +:+
  "                      refuse (default) | block | ignore" +:+ newline.

Definition vpnd_usage (program : string) : string :=
  "usage: " +:+ program +:+ " [options]" +:+ newline +:+
  "  --dev NAME          tun device name (default tun0)" +:+ newline +:+
  "  --tun-addr CIDR     tunnel address (default 10.9.0.1/24)" +:+ newline +:+
  "  --mtu N             tunnel MTU, 576..1500 (default 1420)" +:+ newline +:+
  "  --listen-port N     udp port to bind (default 51820)" +:+ newline +:+
  "  --wan-if NAME       interface to masquerade out of" +:+ newline +:+
  "                      (default: whichever reaches the internet)" +:+ newline +:+
  "  --private-key PATH  our private key, base64 (required)" +:+ newline +:+
  "  --peer-key BASE64   the client's public key (required)" +:+ newline +:+
  "  --no-nat            do not forward or masquerade" +:+ newline.

Record vpn_settings : Type := mkVpn {
  va_dev : string; va_tun_addr : string; va_mtu : Z; va_listen_port : Z;
  va_install_routes : bool; va_ipv6_policy : Ipv6Policy;
  va_private_key_path : string; va_peer_key : string; va_server : option sockaddr_in
}.

Record vpnd_settings : Type := mkVpnd {
  vd_dev : string; vd_tun_addr : string; vd_wan_if : string; vd_mtu : Z; vd_listen_port : Z;
  vd_install_nat : bool; vd_private_key_path : string; vd_peer_key : string
}.

Definition vpn_defaults : vpn_settings :=
  mkVpn "tun0" "10.9.0.2/24" kDefaultTunnelMtu 0 true refuse "" "" None.
Definition vpnd_defaults : vpnd_settings :=
  mkVpnd "tun0" "10.9.0.1/24" "" kDefaultTunnelMtu 51820 true "" "".

Definition needs_value (flag : string) : string :=
  flag +:+ " is not a known option, or needs a value" +:+ newline.

Section Arguments_.
Context `{I : Inet}.

(** One option with its value. *)
Definition vpn_option (program flag value : string) (a : vpn_settings) : parsed vpn_settings :=
  let '(mkVpn dev tun_addr mtu listen_port routes policy key_path peer_key server) := a in
  let set := fun dev tun_addr mtu listen_port policy key_path peer_key server =>
    Run (mkVpn dev tun_addr mtu listen_port routes policy key_path peer_key server) in
  if String.eqb flag "--server" then
    match parse_endpoint value with
    | None => Exit 2 ("bad --server (want IPv4:PORT, e.g. 10.0.0.1:51820)" +:+ newline)
    | server => set dev tun_addr mtu listen_port policy key_path peer_key server
    end
  else if String.eqb flag "--dev" then
    set value tun_addr mtu listen_port policy key_path peer_key server
  else if String.eqb flag "--tun-addr" then
    match subnet_of value with
    | None => Exit 2 ("bad --tun-addr (want IPv4/PREFIX, e.g. 10.9.0.2/24)" +:+ newline)
    | Some _ => set dev value mtu listen_port policy key_path peer_key server
    end
  else if String.eqb flag "--host-ipv6" then
    match parse_ipv6_policy value with
    | Some policy => set dev tun_addr mtu listen_port policy key_path peer_key server
    | None => Exit 2 ("bad --host-ipv6 (want refuse, block or ignore)" +:+ newline)
    end
  else if String.eqb flag "--private-key" then
    set dev tun_addr mtu listen_port policy value peer_key server
  else if String.eqb flag "--peer-key" then
    set dev tun_addr mtu listen_port policy key_path value server
  else if String.eqb flag "--mtu" then
    match parse_mtu value with
    | Some mtu => set dev tun_addr mtu listen_port policy key_path peer_key server
    | None => Exit 2 ("bad --mtu (want 576..1500)" +:+ newline)
    end
  else if String.eqb flag "--listen-port" then
    match parse_port value with
    | Some port => set dev tun_addr mtu port policy key_path peer_key server
    | None => Exit 2 ("bad --listen-port (want 1..65535)" +:+ newline)
    end
  else Exit 2 ("unknown argument " +:+ flag +:+ newline +:+ vpn_usage program).

Fixpoint vpn_arguments (program : string) (args : list string) (a : vpn_settings)
    : parsed vpn_settings :=
  match args with
  | [] => Run a
  | flag :: args =>
      if String.eqb flag "-h" || String.eqb flag "--help" then Exit 0 (vpn_usage program) else
      if String.eqb flag "--no-routes" then
        vpn_arguments program args
          (mkVpn (va_dev a) (va_tun_addr a) (va_mtu a) (va_listen_port a) false (va_ipv6_policy a)
             (va_private_key_path a) (va_peer_key a) (va_server a)) else
      match args with
      | [] => Exit 2 (needs_value flag)
      | value :: args =>
          match vpn_option program flag value a with
          | Run a => vpn_arguments program args a
          | Exit code text => Exit code text
          end
      end
  end.

Definition vpnd_option (program flag value : string) (a : vpnd_settings) : parsed vpnd_settings :=
  let '(mkVpnd dev tun_addr wan_if mtu listen_port nat key_path peer_key) := a in
  let set := fun dev tun_addr wan_if mtu listen_port key_path peer_key =>
    Run (mkVpnd dev tun_addr wan_if mtu listen_port nat key_path peer_key) in
  if String.eqb flag "--dev" then set value tun_addr wan_if mtu listen_port key_path peer_key
  else if String.eqb flag "--tun-addr" then
    match subnet_of value with
    | None => Exit 2 ("bad --tun-addr (want IPv4/PREFIX, e.g. 10.9.0.1/24)" +:+ newline)
    | Some _ => set dev value wan_if mtu listen_port key_path peer_key
    end
  else if String.eqb flag "--wan-if" then set dev tun_addr value mtu listen_port key_path peer_key
  else if String.eqb flag "--private-key" then set dev tun_addr wan_if mtu listen_port value peer_key
  else if String.eqb flag "--peer-key" then set dev tun_addr wan_if mtu listen_port key_path value
  else if String.eqb flag "--mtu" then
    match parse_mtu value with
    | Some mtu => set dev tun_addr wan_if mtu listen_port key_path peer_key
    | None => Exit 2 ("bad --mtu (want 576..1500)" +:+ newline)
    end
  else if String.eqb flag "--listen-port" then
    match parse_port value with
    | Some port => set dev tun_addr wan_if mtu port key_path peer_key
    | None => Exit 2 ("bad --listen-port (want 1..65535)" +:+ newline)
    end
  else Exit 2 ("unknown argument " +:+ flag +:+ newline +:+ vpnd_usage program).

Fixpoint vpnd_arguments (program : string) (args : list string) (a : vpnd_settings)
    : parsed vpnd_settings :=
  match args with
  | [] => Run a
  | flag :: args =>
      if String.eqb flag "-h" || String.eqb flag "--help" then Exit 0 (vpnd_usage program) else
      if String.eqb flag "--no-nat" then
        vpnd_arguments program args
          (mkVpnd (vd_dev a) (vd_tun_addr a) (vd_wan_if a) (vd_mtu a) (vd_listen_port a) false
             (vd_private_key_path a) (vd_peer_key a)) else
      match args with
      | [] => Exit 2 (needs_value flag)
      | value :: args =>
          match vpnd_option program flag value a with
          | Run a => vpnd_arguments program args a
          | Exit code text => Exit code text
          end
      end
  end.

End Arguments_.

(** ** The client and the server *)

Section Mains.
Context `{H : Host} `{P : Primitives} `{I : Inet}.

(** Blocks the signals, and gives the descriptor that reports them. *)
Definition make_signalfd (u : relay_setup) : M UniqueFd :=
  _ ← lift (check (su_sigprocmask u) "sigprocmask");
  '(fd, errno) ← acquire h_signalfd;
  if negb (UniqueFd_valid fd) then raise (system_error errno "signalfd") else
  mret (UniqueFd_move fd).1.

(** The loop, as a statement of a program: when the events run out it is still waiting. *)
Definition relay_until_signal (cfg : RelayConfig) (identity : Identity) (name : string) (u : relay_setup)
    (waits : list (sysres (list event))) : M RelayStats := fun w =>
  match relay_serve cfg identity name u waits with
  | Ok (s, false, _) => (Ret (rl_stats s), w)
  | Ok (_, true, _) => (Blocked, w)
  | Throw e => (Raise e, w)
  | Ub => (Undefined, w)
  end.

Definition run_relay (cfg : RelayConfig) (name : string) (u : relay_setup)
    (waits : list (sysres (list event))) : M RelayStats :=
  match cfg_identity cfg with
  | None => raise (logic_error "run_relay needs an identity; the tunnel is not optional")
  | Some identity =>
      signal_fd ← make_signalfd u;
      scoped (UniqueFd_destroy signal_fd)
        ('(epoll_fd, errno) ← acquire h_epoll_create1;
         if negb (UniqueFd_valid epoll_fd) then raise (system_error errno "epoll_create1") else
         scoped (UniqueFd_destroy epoll_fd) (relay_until_signal cfg identity name u waits))
  end.

Definition refusal : string :=
  "this host has a default IPv6 route, and this tunnel carries only IPv4." +:+ newline +:+
  "       Traffic to any IPv6-capable destination would go around it, in the clear." +:+ newline +:+
  "       Pass --host-ipv6 block to firewall IPv6 off while the tunnel is up," +:+ newline +:+
  "       or --host-ipv6 ignore to accept the leak.".

(** What [ipv6_block] holds after the check. *)
Definition guard_ipv6 (policy : Ipv6Policy) : M ChangeSet :=
  has ← host_has_ipv6;
  if (has : bool) then
    match policy with
    | refuse => raise (runtime_error refusal)
    | block => blocked ← block_host_ipv6; ChangeSet_assign [] blocked
    | ignore =>
        _ ← emit (Stderr ("WARNING: this host routes IPv6 and the tunnel does not carry it. " +:+
                          "Traffic to IPv6 destinations is leaving in the clear." +:+ newline));
        mret []
    end
  else mret [].

(** From the device on, inside the scope of [ipv6_block]. *)
Definition vpn_tunnel (a : vpn_settings) (server : sockaddr_in) (identity : Identity) (u : relay_setup)
    (waits : list (sysres (list event))) : M Z :=
  tun ← TunDevice_open (va_dev a);
  scoped (UniqueFd_destroy (tun_fd tun))
    (_ ← configure_interface (tun_name tun) (va_tun_addr a) (va_mtu a);
     sock ← bind_any (va_listen_port a);
     scoped (UniqueFd_destroy (udp_fd sock))
       (routes ← (if va_install_routes a then
                    r ← install_client_routes (tun_name tun) (format_address server);
                    ChangeSet_assign [] r
                  else mret []);
        scoped (ChangeSet_undo_all routes)
          (port ← local_port sock;
           _ ← emit (Stderr ("vpn: " +:+ tun_name tun +:+ " " +:+ va_tun_addr a +:+ " mtu " +:+
                       to_string (va_mtu a) +:+ ", udp/" +:+ to_string port +:+ " -> " +:+
                       format_endpoint server +:+ newline));
           stats ← run_relay (mkConfig (va_mtu a) initiator (Some server) (Some identity))
                     (tun_name tun) u waits;
           _ ← emit (Stderr (print_stats stats));
           mret 0%Z))).

Definition vpn_try (a : vpn_settings) (server : sockaddr_in) (u : relay_setup)
    (waits : list (sysres (list event))) : M Z :=
  _ ← lift init;
  identity ← load_identity (va_private_key_path a) (va_peer_key a);
  match identity with
  | None => mret 1%Z
  | Some identity =>
      ipv6_block ← guard_ipv6 (va_ipv6_policy a);
      scoped (ChangeSet_undo_all ipv6_block) (vpn_tunnel a server identity u waits)
  end.

Definition vpn_main (program : string) (args : list string) (u : relay_setup)
    (waits : list (sysres (list event))) : M Z :=
  match vpn_arguments program args vpn_defaults with
  | Exit code text => _ ← emit (Stderr text); mret code
  | Run a =>
      match va_server a with
      | None => _ ← emit (Stderr ("--server is required" +:+ newline +:+ vpn_usage program)); mret 2%Z
      | Some server =>
          if String.eqb (va_private_key_path a) "" || String.eqb (va_peer_key a) "" then
            _ ← emit (Stderr ("--private-key and --peer-key are both required" +:+ newline +:+
                              vpn_usage program));
            mret 2%Z
          else
            try_catch (vpn_try a server u waits)
              (fun e => _ ← emit (Stderr ("vpn: " +:+ what e +:+ newline)); mret 1%Z)
      end
  end.

(** [*subnet_of(tun_addr)]: undefined when there is no value. *)
Definition subnet_value (cidr : string) : Res string :=
  match subnet_of cidr with
  | Some subnet => Ok subnet
  | None => Ub
  end.

Definition vpnd_try (a : vpnd_settings) (u : relay_setup) (waits : list (sysres (list event)))
    : M Z :=
  _ ← lift init;
  identity ← load_identity (vd_private_key_path a) (vd_peer_key a);
  match identity with
  | None => mret 1%Z
  | Some identity =>
      tun ← TunDevice_open (vd_dev a);
      scoped (UniqueFd_destroy (tun_fd tun))
        (_ ← configure_interface (tun_name tun) (vd_tun_addr a) (vd_mtu a);
         sock ← bind_any (vd_listen_port a);
         scoped (UniqueFd_destroy (udp_fd sock))
           (nat ← (if vd_install_nat a then
                     wan_if ← (if String.eqb (vd_wan_if a) "" then
                                 info ← route_to "1.1.1.1"; mret (ri_dev info)
                               else mret (vd_wan_if a));
                     subnet ← lift (subnet_value (vd_tun_addr a));
                     nat ← install_server_nat (tun_name tun) subnet wan_if;
                     ServerNat_assign ServerNat_new nat
                   else mret ServerNat_new);
            scoped (ServerNat_destroy nat)
              (port ← local_port sock;
               _ ← emit (Stderr ("vpnd: " +:+ tun_name tun +:+ " " +:+ vd_tun_addr a +:+ " mtu " +:+
                           to_string (vd_mtu a) +:+ ", listening on udp/" +:+ to_string port +:+
                           newline +:+ "vpnd: no peer yet — the client has to send first" +:+ newline));
               stats ← run_relay (mkConfig (vd_mtu a) responder None (Some identity))
                         (tun_name tun) u waits;
               _ ← emit (Stderr (print_stats stats));
               mret 0%Z)))
  end.

Definition vpnd_main (program : string) (args : list string) (u : relay_setup)
    (waits : list (sysres (list event))) : M Z :=
  match vpnd_arguments program args vpnd_defaults with
  | Exit code text => _ ← emit (Stderr text); mret code
  | Run a =>
      if String.eqb (vd_private_key_path a) "" || String.eqb (vd_peer_key a) "" then
        _ ← emit (Stderr ("--private-key and --peer-key are both required" +:+ newline +:+
                          vpnd_usage program));
        mret 2%Z
      else
        try_catch (vpnd_try a u waits)
          (fun e => _ ← emit (Stderr ("vpnd: " +:+ what e +:+ newline)); mret 1%Z)
  end.

End Mains.

(** ** The key tool *)

Section Key.
Context `{P : Primitives}.

(** Exit status, standard output and standard error. *)
Record printed : Type := mkPrinted { pr_code : Z; pr_stdout : string; pr_stderr : string }.

Definition vpnkey_usage (program : string) : string :=
  "usage: " +:+ program +:+ " genkey | pubkey" +:+ newline +:+
  "  genkey    write a new private key, base64, to stdout" +:+ newline +:+
  "  pubkey    read a private key from stdin, write its public key" +:+ newline.

(** [isatty] is the answer of [isatty(STDOUT_FILENO)]. *)
Definition stdout_is_safe_for_secrets (isatty : Z) : bool := (isatty =? 0)%Z.

(** [random] is what [randombytes_buf] fills the key with. *)
Definition genkey (stdout_isatty : Z) (random : list Z) : Res printed :=
  if negb (stdout_is_safe_for_secrets stdout_isatty) then
    Ok (mkPrinted 1 "" ("refusing to print a private key to a terminal; redirect it:" +:+ newline +:+
                        "  vpnkey genkey > private.key" +:+ newline))
  else
    '(private_key, _) ← generate_keypair random;
    Ok (mkPrinted 0 (to_base64 private_key +:+ newline) "").

Definition pubkey (stdin : string) : Res printed :=
  let line := strip_right (line_of stdin) in
  match from_base64 line with
  | Some decoded =>
      if negb (length decoded =? kKeySize) then
        Ok (mkPrinted 1 "" ("stdin is not a base64 32-byte private key" +:+ newline))
      else
        public_key ← derive_public decoded;
        Ok (mkPrinted 0 (to_base64 public_key +:+ newline) "")
  | None => Ok (mkPrinted 1 "" ("stdin is not a base64 32-byte private key" +:+ newline))
  end.

Definition vpnkey_main (strerror : Z -> string) (program : string) (args : list string)
    (stdout_isatty : Z) (random : list Z) (stdin : string) : Res printed :=
  match args with
  | [command] =>
      let r := (_ ← init;
                if String.eqb command "genkey" then genkey stdout_isatty random
                else if String.eqb command "pubkey" then pubkey stdin
                else Ok (mkPrinted 2 "" (vpnkey_usage program))) in
      match r with
      | Throw error => Ok (mkPrinted 1 "" ("vpnkey: " +:+ exn_what strerror error +:+ newline))
      | r => r
      end
  | _ => Ok (mkPrinted 2 "" (vpnkey_usage program))
  end.

End Key.
