(* ===== verification/ProgramsProofs.v ===== *)
(** * ProgramsProofs: the programs clean up after themselves, and the key tool *)

From Stdlib Require Import ZArith Lia Ascii String.
From stdpp Require Import base tactics numbers list option strings gmap.
From S2P Require Import Prelude Wire Crypto Toy Noise HandshakeProofs Net Host Netcfg NetcfgProofs Replay Session Relay.
From S2P Require Import RelayProofs RelayRuns Programs.

(** ** Opening *)

Section Opening.
Context `{H : Host}.
Implicit Types (s : list debt).

(** A freshly acquired descriptor in the hands of a constructor. *)
Lemma constructor_leaves {A} s f (bad : Z -> exn) (body : UniqueFd -> M A) (fd_of : A -> UniqueFd) :
  (forall fd, leaves (held fd ++ s) (body fd) (fun a => held (fd_of a) ++ s) (held fd ++ s)) ->
  leaves s ('(fd, errno) ← acquire f;
            if negb (UniqueFd_valid fd) then raise (bad errno) else
            unless_returned (UniqueFd_destroy fd) (body fd)) (fun a => held (fd_of a) ++ s) s.
Proof.
  intros Hb. seq; [apply acquire_leaves|]. intros [fd errno].
  destruct (UniqueFd_valid fd) eqn:Hv; cbn [negb].
  - eapply leaves_unless_returned; [apply Hb | apply UniqueFd_destroy_settles].
  - unfold held. unfold UniqueFd_valid in Hv. rewrite Hv. apply leaves_raise.
Qed.

Lemma TunDevice_open_leaves s name :
  leaves s (TunDevice_open name) (fun t => held (tun_fd t) ++ s) s.
Proof.
  unfold TunDevice_open. destruct (_ || _); [apply leaves_raise|].
  apply (constructor_leaves _ _ (fun e => system_error e "open /dev/net/tun")
           (fun fd => r ← _; _)). intros fd.
  seq; [apply leaves_call|]. intros [actual|e]; [by apply leaves_ret | apply leaves_raise].
Qed.

Lemma bind_any_leaves s port : leaves s (bind_any port) (fun u => held (udp_fd u) ++ s) s.
Proof.
  apply (constructor_leaves _ _ (fun e => system_error e "socket(AF_INET, SOCK_DGRAM)")
           (fun fd => r ← _; _)). intros fd.
  seq; [apply leaves_call|]. intros [actual|e]; [by apply leaves_ret | apply leaves_raise].
Qed.

Lemma local_port_leaves s sock : leaves s (local_port sock) (fun _ => s) s.
Proof. seq; [apply leaves_ask|]. intros [me|e]; [by apply leaves_ret | apply leaves_raise]. Qed.

(** ** Keys *)

Context `{P : Primitives} `{PO : !PrimitivesOk} `{BO : !Base64Ok}.

Lemma from_base64_bytes text b : from_base64 text = Some b -> bytes_ok b.
Proof.
  unfold from_base64. destruct (decide _); [intros [= <-]; constructor|].
  destruct (sodium_base642bin text) as [[rc bytes] used] eqn:E.
  destruct (Z.eqb_spec rc 0) as [->|]; cbn [negb]; [|done]. destruct (negb _); [done|].
  intros [= <-]. by eapply base64_bytes.
Qed.

(** The two texts decode to two keys, or there is no identity; or there is no
    locked memory for it. *)
Lemma Identity_from_base64_ok priv pub :
  match Identity_from_base64 priv pub with
  | Ok r => forall i, r = Some i -> identity_ok i
  | Throw e => e = bad_alloc
  | Ub => False
  end.
Proof.
  unfold Identity_from_base64. destruct (from_base64 priv) as [a|] eqn:Ha; [|done].
  destruct (from_base64 pub) as [b|] eqn:Hb; [|done].
  destruct (_ || _) eqn:Hl; [done|]. bool_hyps.
  assert (key_ok a /\ key_ok b) as [Ka Kb] by (split; split; try done; by eapply from_base64_bytes).
  destruct (sodium_malloc LockedKey_size) eqn:Hm.
  - destruct (Identity_new_ok a b Hm Ka Kb) as (i & -> & Hi & _). by intros ? [= <-].
  - by rewrite Identity_new_eq, Hm.
Qed.

Lemma load_identity_leaves s path peer : leaves s (load_identity path peer) (fun _ => s) s.
Proof.
  seq; [apply leaves_ask|]. intros [mode|]; [|seq; [idle|]; intros []; by apply leaves_ret].
  apply (leaves_bind _ _ _ (fun _ => s)); [destruct (negb _); [idle | by apply leaves_ret]|].
  intros []. seq; [apply leaves_ask|].
  intros [text|]; [|seq; [idle|]; intros []; by apply leaves_ret].
  pose proof (Identity_from_base64_ok (strip_right (line_of text)) peer) as Hr.
  cbv zeta. seq; [apply leaves_lift; [by intros E; rewrite E in Hr | done]|]. intros identity.
  apply (leaves_bind _ _ _ (fun _ => s)); [destruct identity; [by apply leaves_ret | idle]|].
  intros []. by apply leaves_ret.
Qed.

Lemma load_identity_returns path peer :
  returns (load_identity path peer) (fun r => forall i, r = Some i -> identity_ok i).
Proof.
  eapply returns_bind; [apply returns_any|]. intros [mode|] _.
  2: { eapply returns_bind; [apply returns_any|]. intros [] _. by apply returns_ret. }
  eapply returns_bind; [apply returns_any|]. intros [] _.
  eapply returns_bind; [apply returns_any|]. intros [text|] _.
  2: { eapply returns_bind; [apply returns_any|]. intros [] _. by apply returns_ret. }
  pose proof (Identity_from_base64_ok (strip_right (line_of text)) peer) as Hr. cbv zeta.
  eapply (returns_bind _ _ (fun x => forall i, x = Some i -> identity_ok i)).
  { unfold lift. intros w x w'. destruct (Identity_from_base64 _ _); [|done..]. by intros [= <- _]. }
  intros x Hx. eapply returns_bind; [apply returns_any|]. intros [] _. by apply returns_ret.
Qed.

End Opening.

(** ** Arguments *)

Section Arguments_.
Context `{I : Inet}.

Definition mtu_ok (mtu : Z) : Prop := (576 <= mtu <= 1500)%Z.

Lemma parse_mtu_range text v : parse_mtu text = Some v -> mtu_ok v.
Proof.
  unfold parse_mtu, parse_number, mtu_ok. destruct (from_chars _ _ _ _) as [[n rest]|]; [|done].
  destruct (_ || _) eqn:Hb; [done|]. intros [= <-]. bool_hyps. lia.
Qed.

Definition vpn_valid (a : vpn_settings) : Prop := mtu_ok (va_mtu a).
Definition vpnd_valid (a : vpnd_settings) : Prop :=
  mtu_ok (vd_mtu a) /\ subnet_of (vd_tun_addr a) <> None.

(** Case analysis on the option being parsed. *)
Ltac each_option :=
  repeat match goal with
  | |- context [if String.eqb ?f ?s then _ else _] => destruct (String.eqb f s); [|]
  end.

Lemma vpn_option_valid program flag value a a' :
  vpn_valid a -> vpn_option program flag value a = Run a' -> vpn_valid a'.
Proof.
  unfold vpn_valid. destruct a as [dev addr mtu port routes policy path key server].
  cbn [vpn_option va_mtu]. intros Ha. each_option; try (by intros [= <-]); try done;
    try (destruct (parse_mtu value) eqn:E; [|done]; intros [= <-]; by eapply parse_mtu_range);
    case_match; try done; by intros [= <-].
Qed.

Lemma vpn_arguments_valid_n n program args a a' :
  length args ≤ n -> vpn_valid a -> vpn_arguments program args a = Run a' -> vpn_valid a'.
Proof.
  revert args a. induction n as [|n IH]; intros [|flag args] a Hn Ha; cbn [length] in Hn; try lia;
    try (by intros [= <-]). cbn [vpn_arguments]. destruct (_ || _); [done|].
  destruct (String.eqb flag _); [apply IH; [lia | done]|].
  destruct args as [|value args]; [done|]. cbn [length] in Hn.
  destruct (vpn_option program flag value a) as [a1|] eqn:E; [|done].
  apply IH; [lia | by eapply vpn_option_valid].
Qed.

Lemma vpnd_option_valid program flag value a a' :
  vpnd_valid a -> vpnd_option program flag value a = Run a' -> vpnd_valid a'.
Proof.
  unfold vpnd_valid. destruct a as [dev addr wan mtu port nat path key].
  cbn [vpnd_option vd_mtu vd_tun_addr]. intros [Hm Hs]. each_option; try (by intros [= <-]); try done.
  - destruct (subnet_of value) eqn:E; [|done]. intros [= <-]. cbn. by rewrite E.
  - destruct (parse_mtu value) eqn:E; [|done]. intros [= <-]. split; [by eapply parse_mtu_range | done].
  - case_match; try done; by intros [= <-].
Qed.

Lemma vpnd_arguments_valid_n n program args a a' :
  length args ≤ n -> vpnd_valid a -> vpnd_arguments program args a = Run a' -> vpnd_valid a'.
Proof.
  revert args a. induction n as [|n IH]; intros [|flag args] a Hn Ha; cbn [length] in Hn; try lia;
    try (by intros [= <-]). cbn [vpnd_arguments]. destruct (_ || _); [done|].
  destruct (String.eqb flag _); [apply IH; [lia | done]|].
  destruct args as [|value args]; [done|]. cbn [length] in Hn.
  destruct (vpnd_option program flag value a) as [a1|] eqn:E; [|done].
  apply IH; [lia | by eapply vpnd_option_valid].
Qed.

End Arguments_.

(** ** The mains *)

Section Mains.
Context `{H : Host} `{P : Primitives} `{PO : !PrimitivesOk} `{BO : !Base64Ok} `{I : Inet}.
Implicit Types (s : list debt).
Variables (u : relay_setup) (waits : list (sysres (list event))).
Hypotheses (Hw : Forall wait_ok waits) (Hsig : signalled waits).

(** Once signalled, the loop returns or throws. *)
Lemma relay_until_signal_ends mtu role peer i name w :
  mtu_ok mtu -> identity_ok i ->
  exists r, relay_until_signal (mkConfig mtu role peer (Some i)) i name u waits w = (r, w) /\
    match r with Ret _ | Raise _ => True | _ => False end.
Proof.
  intros Hm Hi. unfold relay_until_signal. set (cfg := mkConfig _ _ _ _).
  assert (config_ok cfg) as Hc by (unfold config_ok, mtu_ok in *; cbn; lia).
  pose proof (relay_serve_safe cfg i name u waits Hc Hi Hw) as Hsafe.
  destruct (relay_serve cfg i name u waits) as [[[st running] out]|e|] eqn:E; [|by eexists | done].
  unfold relay_serve in E. res_inv E.
  rewrite (relay_loop_signalled _ _ _ _ _ _ _ _ Hsig E). by eexists.
Qed.

Lemma make_signalfd_leaves s : leaves s (make_signalfd u) (fun fd => held fd ++ s) s.
Proof.
  seq; [apply leaves_lift; [by destruct (su_sigprocmask u) | done]|]. intros [].
  seq; [apply acquire_leaves|]. intros [fd errno]. destruct (UniqueFd_valid fd) eqn:Hv; cbn [negb].
  - by apply leaves_ret.
  - unfold held. unfold UniqueFd_valid in Hv. rewrite Hv. apply leaves_raise.
Qed.

Lemma run_relay_leaves s mtu role peer i name :
  mtu_ok mtu -> identity_ok i ->
  leaves s (run_relay (mkConfig mtu role peer (Some i)) name u waits) (fun _ => s) s.
Proof.
  intros Hm Hi. unfold run_relay. cbn [cfg_identity]. seq; [apply make_signalfd_leaves|]. intros signal_fd.
  eapply leaves_scoped; [|apply UniqueFd_destroy_settles].
  seq; [apply acquire_leaves|]. intros [fd errno]. destruct (UniqueFd_valid fd) eqn:Hv; cbn [negb].
  - eapply leaves_scoped; [|apply UniqueFd_destroy_settles]. intros w Hs.
    destruct (relay_until_signal_ends mtu role peer i name w Hm Hi) as ([] & -> & Hr); done.
  - unfold held at 1. unfold UniqueFd_valid in Hv. rewrite Hv. apply leaves_raise.
Qed.

Lemma init_leaves s : leaves s (lift init) (fun _ => s) s.
Proof. apply leaves_lift; [|done]. unfold init. by destruct (sodium_init <? 0)%Z. Qed.

Lemma guard_ipv6_leaves s policy : leaves s (guard_ipv6 policy) (fun cs => owed cs ++ s) s.
Proof.
  seq; [seq; [apply run_capture_leaves|]; intros text; by apply (leaves_ret _ _ (fun _ => s))|].
  intros []; [|by apply leaves_ret]. destruct policy; [apply leaves_raise| |].
  - seq; [apply block_ipv6_leaves|]. intros cs. by apply leaves_ret.
  - seq; [idle|]. intros []. by apply leaves_ret.
Qed.

Lemma guard_ipv6_returns policy : returns (guard_ipv6 policy) (Forall removes).
Proof.
  eapply returns_bind; [apply returns_any|]. intros [] _; [|by apply returns_ret].
  destruct policy; [by intros w a w'| |].
  - eapply returns_bind; [apply block_ipv6_returns|]. intros cs [Hr _]. by apply returns_ret.
  - eapply returns_bind; [apply returns_any|]. intros [] _. by apply returns_ret.
Qed.

(** The two descriptors: the scope of the device and the scope of the socket. *)
Lemma open_scope {A} s (m : M A) (fd_of : A -> UniqueFd) (body : A -> M Z) :
  leaves s m (fun a => held (fd_of a) ++ s) s ->
  (forall a, leaves (held (fd_of a) ++ s) (body a) (fun _ => held (fd_of a) ++ s) (held (fd_of a) ++ s)) ->
  leaves s (a ← m; scoped (UniqueFd_destroy (fd_of a)) (body a)) (fun _ => s) s.
Proof.
  intros Hm Hb. seq; [exact Hm|]. intros a.
  eapply leaves_scoped; [apply Hb | apply UniqueFd_destroy_settles].
Qed.

(** The last lines of both mains: the port, the banner, the loop, the statistics. *)
Lemma serve_leaves s sock banner mtu role peer i name :
  mtu_ok mtu -> identity_ok i ->
  leaves s (port ← local_port sock; _ ← emit (Stderr (banner port));
            stats ← run_relay (mkConfig mtu role peer (Some i)) name u waits;
            _ ← emit (Stderr (print_stats stats)); mret 0%Z) (fun _ => s) s.
Proof.
  intros Hm Hi. seq; [apply local_port_leaves|]. intros port. seq; [idle|]. intros [].
  seq; [by apply run_relay_leaves|]. intros stats. seq; [idle|]. intros []. by apply leaves_ret.
Qed.

Lemma routes_leaves s (install : bool) tun_dev server :
  leaves s (if install then r ← install_client_routes tun_dev server; ChangeSet_assign [] r
            else mret []) (fun cs => owed cs ++ s) s.
Proof.
  destruct install; [|by apply leaves_ret]. seq; [apply client_routes_leaves|].
  intros cs. by apply leaves_ret.
Qed.

Lemma routes_returns (install : bool) tun_dev server :
  returns (if install then r ← install_client_routes tun_dev server; ChangeSet_assign [] r
           else mret []) (Forall removes).
Proof.
  destruct install; [|by apply returns_ret].
  eapply returns_bind; [apply client_routes_returns|]. intros cs [Hr _]. by apply returns_ret.
Qed.

Lemma vpn_tunnel_leaves s a server i :
  vpn_valid a -> identity_ok i -> leaves s (vpn_tunnel a server i u waits) (fun _ => s) s.
Proof.
  intros Ha Hi. apply (open_scope _ _ tun_fd); [apply TunDevice_open_leaves|]. intros tun.
  seq; [apply configure_interface_leaves|]. intros [].
  apply (open_scope _ _ udp_fd); [apply bind_any_leaves|]. intros sock.
  eapply leaves_bind_returns; [apply routes_leaves | apply routes_returns|]. intros routes Hr.
  eapply leaves_scoped; [|by apply undo_all_settles].
  by apply (serve_leaves _ sock (fun port => _)).
Qed.

Lemma vpn_try_leaves s a server :
  vpn_valid a -> leaves s (vpn_try a server u waits) (fun _ => s) s.
Proof.
  intros Ha. seq; [apply init_leaves|]. intros [].
  eapply leaves_bind_returns; [apply load_identity_leaves | apply load_identity_returns|].
  intros [i|] Hi; [|by apply leaves_ret]. specialize (Hi i eq_refl).
  eapply leaves_bind_returns; [apply guard_ipv6_leaves | apply guard_ipv6_returns|]. intros cs Hcs.
  eapply leaves_scoped; [by apply vpn_tunnel_leaves | by apply undo_all_settles].
Qed.

Lemma pay_held path line fd s :
  pay (Restore path line) s = None -> pay (Restore path line) (held fd ++ s) = None.
Proof. intros Hs. unfold held. by destruct (0 <=? fd)%Z. Qed.

(** [wan_if], as given or looked up. *)
Definition wan_of (given : string) : M string :=
  if String.eqb given "" then info ← route_to "1.1.1.1"; mret (ri_dev info) else mret given.

Lemma wan_of_leaves s given : leaves s (wan_of given) (fun _ => s) s.
Proof.
  unfold wan_of. destruct (String.eqb given ""); [|by apply leaves_ret].
  seq; [apply route_to_leaves|]. intros info. by apply leaves_ret.
Qed.

Definition nat_scope (install : bool) (given tun_addr name : string) : M ServerNat :=
  if install then
    wan_if ← wan_of given;
    subnet ← lift (subnet_value tun_addr);
    nat ← install_server_nat name subnet wan_if;
    ServerNat_assign ServerNat_new nat
  else mret ServerNat_new.

Lemma nat_scope_leaves s install given tun_addr name :
  subnet_of tun_addr <> None -> pay (Restore ip_forward_path "1") s = None ->
  leaves s (nat_scope install given tun_addr name) (fun nat => nat_owed nat ++ s) s.
Proof.
  intros Ht Hs. destruct install; [|by apply leaves_ret]. cbn [nat_scope].
  seq; [apply wan_of_leaves|]. intros wan. unfold subnet_value.
  destruct (subnet_of tun_addr) as [subnet|]; [|done]. seq; [by apply leaves_lift|]. intros subnet'.
  seq; [by apply server_nat_leaves|]. intros nat w Hn. by destruct nat.
Qed.

Lemma nat_scope_returns install given tun_addr name :
  returns (nat_scope install given tun_addr name) nat_ok.
Proof.
  assert (nat_ok ServerNat_new) as Hnew by (split; [constructor | done]).
  destruct install; [|by apply returns_ret]. cbn [nat_scope].
  eapply returns_bind; [apply returns_any|]. intros wan _.
  eapply returns_bind; [apply returns_any|]. intros subnet _.
  eapply returns_bind; [apply server_nat_returns|]. intros nat [Hn _] w a w' [= <- _]. by destruct nat.
Qed.

Lemma vpnd_try_leaves a : vpnd_valid a -> leaves [] (vpnd_try a u waits) (fun _ => []) [].
Proof.
  intros [Hm Ha]. seq; [apply init_leaves|]. intros [].
  eapply leaves_bind_returns; [apply load_identity_leaves | apply load_identity_returns|].
  intros [i|] Hi; [|by apply leaves_ret]. specialize (Hi i eq_refl).
  apply (open_scope _ _ tun_fd); [apply TunDevice_open_leaves|]. intros tun.
  seq; [apply configure_interface_leaves|]. intros [].
  apply (open_scope _ _ udp_fd); [apply bind_any_leaves|]. intros sock.
  eapply (leaves_bind_returns _ (nat_scope (vd_install_nat a) (vd_wan_if a) (vd_tun_addr a) (tun_name tun)));
    [apply nat_scope_leaves; [done | by apply pay_held, pay_held] | apply nat_scope_returns|].
  intros nat Hn. eapply leaves_scoped; [|by apply ServerNat_destroy_settles].
  by apply (serve_leaves _ sock (fun port => _)).
Qed.

(** *** Exit statuses *)

Definition cleaned (w : World) : Prop :=
  exists left, unwinds (w_trace w) left /\ reported (w_trace w) left.

Definition status_ok (code : Z) : Prop := code = 0%Z \/ code = 1%Z \/ code = 2%Z.

Lemma returns_scoped {A} d (m : M A) Q : returns m Q -> returns (scoped d m) Q.
Proof.
  intros Hm w a w'. specialize (Hm w). unfold scoped.
  destruct (m w) as [[b|e| |] w1]; try done. intros [= <- _]. by eapply Hm.
Qed.

(** Through the nested scopes to the statement that returns. *)
Ltac returning :=
  repeat first
    [ progress intros ? _
    | apply returns_scoped
    | eapply returns_bind; [apply returns_any|]
    | apply returns_ret; unfold status_ok; lia ].

Lemma vpn_try_status a server : returns (vpn_try a server u waits) status_ok.
Proof.
  unfold vpn_try, vpn_tunnel. eapply returns_bind; [apply returns_any|]. intros [] _.
  eapply returns_bind; [apply returns_any|]. intros [i|] _; returning.
Qed.

Lemma vpnd_try_status a : returns (vpnd_try a u waits) status_ok.
Proof.
  unfold vpnd_try. eapply returns_bind; [apply returns_any|]. intros [] _.
  eapply returns_bind; [apply returns_any|]. intros [i|] _; returning.
Qed.

Lemma vpn_arguments_status n program args a code text :
  length args ≤ n -> vpn_arguments program args a = Exit code text -> status_ok code.
Proof.
  unfold status_ok. revert args a.
  induction n as [|n IH]; intros [|flag args] a Hn; cbn [length] in Hn; try lia; try done.
  cbn [vpn_arguments]. destruct (_ || _); [intros [= <- _]; lia|].
  destruct (String.eqb flag _); [apply IH; lia|].
  destruct args as [|value args]; [intros [= <- _]; lia|]. cbn [length] in Hn.
  destruct (vpn_option program flag value a) as [a1|c t] eqn:E; [apply IH; lia|]. intros [= <- _].
  destruct a. cbn [vpn_option] in E. repeat case_match; simplify_eq; lia.
Qed.

Lemma vpnd_arguments_status n program args a code text :
  length args ≤ n -> vpnd_arguments program args a = Exit code text -> status_ok code.
Proof.
  unfold status_ok. revert args a.
  induction n as [|n IH]; intros [|flag args] a Hn; cbn [length] in Hn; try lia; try done.
  cbn [vpnd_arguments]. destruct (_ || _); [intros [= <- _]; lia|].
  destruct (String.eqb flag _); [apply IH; lia|].
  destruct args as [|value args]; [intros [= <- _]; lia|]. cbn [length] in Hn.
  destruct (vpnd_option program flag value a) as [a1|c t] eqn:E; [apply IH; lia|]. intros [= <- _].
  destruct a. cbn [vpnd_option] in E. repeat case_match; simplify_eq; lia.
Qed.

(** A [try] block that cleans up, with a handler that prints and returns 1. *)
Lemma try_exits m message w :
  leaves [] m (fun _ => []) [] -> returns m status_ok -> owes [] w ->
  exists code w', try_catch m (fun e => _ ← emit (Stderr (message e)); mret 1%Z) w = (Ret code, w') /\
    status_ok code /\ cleaned w'.
Proof.
  intros Hm Hr Hs. specialize (Hm w Hs). specialize (Hr w). unfold try_catch.
  destruct (m w) as [[code|e| |] w']; try done.
  - exists code, w'. split; [done|]. split; [by eapply Hr | by apply owes_unwinds].
  - eexists 1%Z, _. split; [reflexivity|]. split; [by right; left|]. apply owes_unwinds.
    eapply owes_books; [|exact Hm]. intros n. by exists n.
Qed.

(** Printing a message and exiting at once. *)
Lemma print_exits text code w :
  w_trace w = [] -> status_ok code ->
  exists code' w', (_ ← emit (Stderr text); mret code) w = (Ret code', w') /\
    status_ok code' /\ cleaned w'.
Proof.
  intros Hw0 Hc. eexists code, _. split; [reflexivity|]. split; [done|]. apply owes_unwinds.
  eapply owes_books; [|by apply owes_start]. intros n. by exists n.
Qed.

End Mains.

Section Unwinding.
Context `{H : Host} `{P : Primitives} `{PO : !PrimitivesOk} `{BO : !Base64Ok} `{I : Inet}.

Lemma vpn_main_exits program args u waits w :
  w_trace w = [] -> Forall wait_ok waits -> signalled waits ->
  exists code w', vpn_main program args u waits w = (Ret code, w') /\
    status_ok code /\ cleaned w'.
Proof.
  intros Hw0 Hw Hsig. unfold vpn_main.
  destruct (vpn_arguments program args vpn_defaults) as [a|code text] eqn:E.
  2: { apply print_exits; [done|]. by eapply vpn_arguments_status. }
  destruct (va_server a) as [server|]; [|apply print_exits; unfold status_ok; auto].
  destruct (_ || _); [apply print_exits; unfold status_ok; auto|].
  apply try_exits; [apply vpn_try_leaves; try done | apply vpn_try_status | by apply owes_start].
  eapply (vpn_arguments_valid_n (length args)); [done| |exact E]. by unfold vpn_valid, mtu_ok.
Qed.

Lemma vpnd_main_exits program args u waits w :
  w_trace w = [] -> Forall wait_ok waits -> signalled waits ->
  subnet_of (vd_tun_addr vpnd_defaults) <> None ->
  exists code w', vpnd_main program args u waits w = (Ret code, w') /\
    status_ok code /\ cleaned w'.
Proof.
  intros Hw0 Hw Hsig Hd. unfold vpnd_main.
  destruct (vpnd_arguments program args vpnd_defaults) as [a|code text] eqn:E.
  2: { apply print_exits; [done|]. by eapply vpnd_arguments_status. }
  destruct (_ || _); [apply print_exits; unfold status_ok; auto|].
  apply try_exits; [apply vpnd_try_leaves; try done | apply vpnd_try_status | by apply owes_start].
  eapply (vpnd_arguments_valid_n (length args)); [done| |exact E]. split; [by unfold mtu_ok | done].
Qed.


End Unwinding.

(** ** The key tool *)

Section Key.
Context `{P : Primitives} `{PO : !PrimitivesOk} `{BO : !Base64Ok}.

Definition base64_text (s : string) : Prop :=
  Forall (fun c => base64_char c = true) (String.list_ascii_of_string s).

Lemma base64_char_plain c :
  base64_char c = true ->
  Ascii.eqb c "010" = false /\ Ascii.eqb c "013" = false /\ Ascii.eqb c " " = false.
Proof.
  intros Hc. repeat split;
    (match goal with |- Ascii.eqb c ?d = false => destruct (Ascii.eqb_spec c d) as [->|]; done end).
Qed.

(** One line holding base64 is read back exactly. *)
Lemma line_of_base64 s : base64_text s -> line_of (s +:+ newline) = s.
Proof.
  induction s as [|c s IH]; intros Hs; [done|]. apply Forall_cons in Hs as [Hc Hs].
  rewrite str_app_cons. cbn [line_of]. destruct (base64_char_plain c Hc) as (-> & _). by rewrite IH.
Qed.

Lemma strip_right_base64 s : base64_text s -> strip_right s = s.
Proof.
  induction s as [|c s IH]; intros Hs; [done|]. apply Forall_cons in Hs as [Hc Hs].
  cbn [strip_right]. rewrite IH by done. destruct s; [|done].
  by destruct (base64_char_plain c Hc) as (_ & -> & ->).
Qed.

Lemma from_to_base64 b : bytes_ok b -> b <> [] -> from_base64 (to_base64 b) = Some b.
Proof.
  intros Hb Hn. unfold from_base64, to_base64. rewrite decide_False by by apply base64_nonempty.
  rewrite base64_roundtrip by done. cbn [negb Z.eqb]. by rewrite Nat.eqb_refl.
Qed.

(** A key written on a line of its own, as the programs read it. *)
Lemma read_key_line k : key_ok k -> from_base64 (strip_right (line_of (to_base64 k +:+ newline))) = Some k.
Proof.
  intros [Hl Hb]. rewrite line_of_base64, strip_right_base64 by apply base64_alphabet.
  apply from_to_base64; [done|]. by intros ->.
Qed.

(** [C39] Keys round-trip through the tool and the configuration: what
    [vpnkey genkey] prints, [vpnkey pubkey] reads and answers with the public
    key of that private key; the same line as a key file, with the printed
    public key of a peer, gives the identity with exactly those keys when its
    locked memory can be had, and [std::bad_alloc] when it cannot.  To a
    terminal [genkey] prints nothing on standard output and exits 1. *)
Theorem programs_key_roundtrip strerror program r tty r' pub' :
  (0 <= sodium_init)%Z -> key_ok r -> key_ok pub' ->
  exists k pub line,
    generate_keypair r = Ok (k, pub) /\
    vpnkey_main strerror program ["genkey"] 0 r "" = Ok (mkPrinted 0 line "") /\
    vpnkey_main strerror program ["pubkey"] tty r' line = Ok (mkPrinted 0 (to_base64 pub +:+ newline) "") /\
    (if sodium_malloc LockedKey_size then
       exists i, Identity_from_base64 (strip_right (line_of line)) (to_base64 pub') = Ok (Some i) /\
         id_private i = k /\ id_public i = pub /\ id_peer_public i = pub'
     else Identity_from_base64 (strip_right (line_of line)) (to_base64 pub') = Throw bad_alloc) /\
    (forall tty, tty <> 0%Z -> exists err,
       vpnkey_main strerror program ["genkey"] tty r "" = Ok (mkPrinted 1 "" err)).
Proof.
  intros Hinit Hr Hp. destruct (generate_keypair_ok r Hr) as [Hg Hk].
  set (k := clamp r) in *. exists k, (scalarmult_base k).2, (to_base64 k +:+ newline).
  assert (init = Ok tt) as Hi by (unfold init; by rewrite (proj2 (Z.ltb_ge _ _)) by lia).
  pose proof (read_key_line k Hk) as Hread.
  split; [done|]. unfold vpnkey_main. rewrite Hi, !bind_Ok. cbn [String.eqb Ascii.eqb Bool.eqb].
  split; [unfold genkey; by rewrite Hg|]. split.
  { unfold pubkey. rewrite Hread. rewrite (proj1 Hk). cbn [negb Nat.eqb kKeySize].
    by rewrite derive_public_ok. }
  split; [|intros tty0 Ht; unfold genkey, stdout_is_safe_for_secrets; rewrite (proj2 (Z.eqb_neq _ _) Ht); by eexists].
  unfold Identity_from_base64. rewrite Hread.
  rewrite from_to_base64 by (try apply Hp; intros ->; by destruct Hp).
  rewrite (proj1 Hk), (proj1 Hp), Nat.eqb_refl. cbn [negb orb].
  destruct (sodium_malloc LockedKey_size) eqn:Hm; [|by rewrite Identity_new_eq, Hm].
  destruct (Identity_new_ok k pub' Hm Hk Hp) as (i & -> & Hio & Hpriv & Hpeer). exists i.
  split; [done|]. split; [done|]. split; [|done]. destruct Hio as (_ & -> & _). by rewrite Hpriv.
Qed.

End Key.
