(* ===== verification/ProgramsRestore.v ===== *)
(** * ProgramsRestore: running a program leaves the machine as it was

    [Restore.v] shows that each configuration is undone on a machine whose
    tools do what they document.  Here the scopes of the two mains are put
    together: whatever fails on the way, when the program exits after a clean
    run the routing and filter tables and the forwarding sysctl are what they
    were when it started. *)

From Stdlib Require Import ZArith Lia Ascii String.
From stdpp Require Import base tactics numbers list option strings gmap.
From S2P Require Import Prelude Wire Crypto Noise HandshakeProofs Net Host Netcfg NetcfgProofs Restore Replay Session Relay.
From S2P Require Import RelayProofs RelayRuns Programs ProgramsProofs.

Section Restoring.
Context `{H : Host} `{Ma : !Machine} `{MO : !MachineOk}.
Context `{P : Primitives} `{PO : !PrimitivesOk} `{BO : !Base64Ok} `{Inet}.
Context (I : host -> Prop) `{HI : !Stable I} (HF : forall h, I h -> foreign_routes h).

(** ** Opening and configuring *)

Lemma acquire_keeps f : (forall h, same_tables h (f h).2) -> keeps I (acquire f).
Proof.
  intros Hf. kbind; [by apply keeps_call|]. intros [fd|e]; [|apply keeps_ret].
  kbind; [apply keeps_emit|]. intros []. apply keeps_ret.
Qed.

Lemma constructor_keeps {A} f (bad : Z -> exn) (body : UniqueFd -> M A) :
  (forall h, same_tables h (f h).2) -> (forall fd, keeps I (body fd)) ->
  keeps I ('(fd, errno) ← acquire f;
           if negb (UniqueFd_valid fd) then raise (bad errno) else
           unless_returned (UniqueFd_destroy fd) (body fd)).
Proof.
  intros Hf Hb. kbind; [by apply acquire_keeps|]. intros [fd errno]. destruct (negb _); [apply keeps_raise|].
  apply keeps_unless_returned; [exact _ | by apply destroy_keeping | apply Hb].
Qed.

Lemma TunDevice_open_keeps name : keeps I (TunDevice_open name).
Proof.
  unfold TunDevice_open. destruct (_ || _); [apply keeps_raise|].
  apply (constructor_keeps _ (fun e => system_error e "open /dev/net/tun") (fun fd => r ← _; _));
    [intros h; apply open_keeps|]. intros fd.
  kbind; [apply keeps_call; intros h; apply tunsetiff_keeps|]. intros [actual|e]; [apply keeps_ret | apply keeps_raise].
Qed.

Lemma bind_any_keeps port : keeps I (bind_any port).
Proof.
  apply (constructor_keeps _ (fun e => system_error e "socket(AF_INET, SOCK_DGRAM)") (fun fd => r ← _; _));
    [intros h; apply socket_keeps|]. intros fd.
  kbind; [apply keeps_call; intros h; apply bind_keeps|]. intros [actual|e]; [apply keeps_ret | apply keeps_raise].
Qed.

Lemma local_port_keeps J sock : Stable J -> keeps J (local_port sock).
Proof.
  intros HJ. kbind; [apply keeps_ask|]. intros [me|e]; [apply keeps_ret | apply keeps_raise].
Qed.

Lemma load_identity_keeps path peer : keeps I (load_identity path peer).
Proof.
  kbind; [apply keeps_ask|]. intros [mode|]; [|kbind; [apply keeps_emit|]; intros []; apply keeps_ret].
  kbind; [destruct (negb _); [apply keeps_emit | apply keeps_ret]|]. intros [].
  kbind; [apply keeps_ask|]. intros [text|]; [|kbind; [apply keeps_emit|]; intros []; apply keeps_ret].
  cbv zeta. kbind; [apply keeps_lift|]. intros identity.
  kbind; [destruct identity; [apply keeps_ret | apply keeps_emit]|]. intros []. apply keeps_ret.
Qed.

Lemma disable_path_other dev : disable_ipv6_path dev <> ip_forward_path.
Proof. intros E. apply (f_equal device_setting) in E. by rewrite disable_ipv6_device in E. Qed.

Lemma configure_interface_keeps dev cidr mtu : keeps I (configure_interface dev cidr mtu).
Proof.
  kbind; [by apply keeps_run|]. intros []. kbind; [apply keeps_ask|]. intros there. kbind.
  { destruct there; [|apply keeps_emit]. kbind; [apply keeps_write; [exact _ | apply disable_path_other]|].
    intros ok. destruct (negb _); [apply keeps_raise | apply keeps_ret]. }
  intros []. kbind; [by apply keeps_run|]. intros []. by apply keeps_run.
Qed.

(** ** The loop *)

Variables (u : relay_setup) (waits : list (sysres (list event))).

(** No interface depends on the descriptor. *)
Definition plain (fd : UniqueFd) (h : host) : Prop :=
  (0 <= fd)%Z -> forall e, through h (Z.to_nat fd) e = false.

(** The configuration is kept, and no plain descriptor becomes another. *)
Definition quietly (h h' : host) : Prop := same_config h h' /\ forall fd, plain fd h -> plain fd h'.

Lemma quietly_refl h : quietly h h.
Proof. split; [apply same_config_refl | done]. Qed.
Lemma quietly_trans h1 h2 h3 : quietly h1 h2 -> quietly h2 h3 -> quietly h1 h3.
Proof. intros [S1 P1] [S2 P2]. split; [by eapply same_config_trans | auto]. Qed.

Lemma close_quietly fd : undoes (UniqueFd_destroy fd) (fun h h' => plain fd h -> quietly h h').
Proof.
  apply destroy_undoes; [intros h _; apply quietly_refl|]. intros Hle. apply sys_close_undoes. intros h Hp.
  split; [split|].
  - intros tool. destruct (decide (tool = ip)) as [->|]; [|by apply close_tables]. rewrite close_routes.
    apply filter_all. intros e _. by apply Hp.
  - by rewrite close_reads.
  - intros fd' Hp' Hle' e. by apply close_attaches, Hp'.
Qed.

Lemma scope_quietly {A} fd (m : M A) :
  acts m (fun h _ => quietly h) quietly ->
  acts (scoped (UniqueFd_destroy fd) m) (fun h _ h' => plain fd h -> quietly h h') (fun h h' => plain fd h -> quietly h h').
Proof.
  intros Hm. eapply acts_scoped; [exact Hm | apply close_quietly|..]; cbv beta.
  - intros h a h1 h2 [S1 P1] H2 Hp. eapply quietly_trans; [by split | by apply H2, P1].
  - intros h h1 h2 [S1 P1] H2 Hp. eapply quietly_trans; [by split | by apply H2, P1].
Qed.

Lemma relay_until_signal_quietly cfg i name :
  acts (relay_until_signal cfg i name u waits) (fun h _ => quietly h) quietly.
Proof.
  intros w. unfold relay_until_signal. destruct (relay_serve _ _ _ _ _) as [[[s []] out]|e|];
    (split; [apply extends_refl|]); intros _; try done; apply quietly_refl.
Qed.

(** A descriptor of a kind that carries no interface. *)
Lemma acquire_acts (R : host -> host -> Prop) f :
  (forall h, R h (f h).2) -> (forall h fd h' e, f h = (SysOk fd, h') -> through h' fd e = false) ->
  acts (acquire f) (fun h '(fd, _) h' => R h h' /\ plain fd h') (fun _ _ => False).
Proof.
  intros HR Hp w. specialize (HR (w_host w)). specialize (Hp (w_host w)). unfold acquire, mbind, M_bind, call.
  destruct (f (w_host w)) as [[fd|e] h'].
  - split; [by eexists [_]|]. intros _. split; [done|]. intros _ e. unfold UniqueFd_new. rewrite Nat2Z.id. by eapply Hp.
  - split; [exists []; by rewrite app_nil_r|]. intros _. split; [done|]. unfold plain, UniqueFd_new. lia.
Qed.

(** The scope of a descriptor. *)
Lemma descriptor_scope (R S : host -> host -> Prop) f (bad : Z -> exn) {A} (m : M A) :
  (forall h, R h (f h).2) -> (forall h fd h' e, f h = (SysOk fd, h') -> through h' fd e = false) ->
  acts m (fun h _ => quietly h) quietly ->
  (forall h h', R h h' -> S h h') -> (forall h h1 h2, R h h1 -> quietly h1 h2 -> S h h2) ->
  acts ('(fd, errno) ← acquire f; if negb (UniqueFd_valid fd) then raise (bad errno) else
        scoped (UniqueFd_destroy fd) m) (fun h _ => S h) S.
Proof.
  intros HR Hp Hm HS HS2.
  eapply (acts_bind _ _ _ _ (fun '(fd, _) h _ h' => h' = h \/ (plain fd h -> quietly h h'))
            (fun '(fd, _) h h' => h' = h \/ (plain fd h -> quietly h h'))); [by apply (acquire_acts R)|..|done].
  - intros [fd errno]. destruct (negb _); [apply acts_raise; by left|].
    eapply acts_weaken; [by apply scope_quietly|..]; by right.
  - intros h [fd errno] h1 b h2 [H1 Hp1] [->|H2]; eauto.
  - intros h [fd errno] h1 h2 [H1 Hp1] [->|H2]; eauto.
Qed.

Lemma run_relay_keeps J cfg name : keeps J (run_relay cfg name u waits).
Proof.
  unfold run_relay. destruct (cfg_identity cfg) as [i|]; [|apply keeps_raise].
  eapply (acts_weaken _ (fun h _ => same_config h) same_config);
    [|intros h a h' Hs _; exact Hs | intros h h' Hs _; exact Hs].
  unfold make_signalfd. destruct (su_sigprocmask u) as [[]|e]; [|by apply (acts_raise (system_error e "sigprocmask"))].
  eapply acts_ext; [|apply (descriptor_scope same_config same_config h_signalfd (fun e => system_error e "signalfd")
    ('(epoll_fd, errno) ← acquire h_epoll_create1;
     if negb (UniqueFd_valid epoll_fd) then raise (system_error errno "epoll_create1") else
     scoped (UniqueFd_destroy epoll_fd) (relay_until_signal cfg i name u waits)))].
  - intros w. unfold mbind, M_bind, lift, check. destruct (acquire h_signalfd w) as [[[fd errno]|e| |] w']; try done.
    by destruct (negb _).
  - intros h. apply same_tables_config, signalfd_keeps.
  - intros h fd h' e. apply signalfd_plain.
  - apply (descriptor_scope quietly quietly).
    + intros h. split; [apply same_tables_config, epoll_keeps|]. intros fd Hp Hle e. by apply epoll_attaches, Hp.
    + intros h fd h' e. apply epoll_plain.
    + apply relay_until_signal_quietly.
    + done.
    + apply quietly_trans.
  - done.
  - intros h h1 h2 H1 [H2 _]. by eapply same_config_trans.
Qed.

Lemma serve_keeps J sock banner cfg name :
  Stable J ->
  keeps J (port ← local_port sock; _ ← emit (Stderr (banner port)); stats ← run_relay cfg name u waits;
           _ ← emit (Stderr (print_stats stats)); mret 0%Z).
Proof.
  intros HJ. kbind; [by apply local_port_keeps|]. intros port. kbind; [apply keeps_emit|]. intros [].
  kbind; [by apply run_relay_keeps|]. intros stats. kbind; [apply keeps_emit|]. intros []. apply keeps_ret.
Qed.

(** A descriptor and its scope. *)
Lemma open_scope_keeps {A} (m : M A) (fd_of : A -> UniqueFd) (body : A -> M Z) :
  keeps I m -> (forall a, keeps I (body a)) ->
  keeps I (a ← m; scoped (UniqueFd_destroy (fd_of a)) (body a)).
Proof.
  intros Hm Hb. kbind; [done|]. intros a. apply keeps_scoped; [exact _ | by apply destroy_keeping | apply Hb].
Qed.

End Restoring.

(** ** The mains *)

Section Mains.
Context `{H : Host} `{Ma : !Machine} `{MO : !MachineOk}.
Context `{P : Primitives} `{PO : !PrimitivesOk} `{BO : !Base64Ok} `{Inet}.

Lemma bracket_assign {B} (m : M ChangeSet) (body : ChangeSet -> M B) w :
  bracket m ChangeSet_undo_all body w =
  (cs ← (r ← m; ChangeSet_assign [] r); scoped (ChangeSet_undo_all cs) (body cs)) w.
Proof. unfold bracket, mbind, M_bind. by destruct (m w) as [[]]. Qed.

(** An empty set of changes. *)
Lemma keeps_no_changes I {B} (body : ChangeSet -> M B) :
  Stable I -> keeps I (body []) -> keeps I (cs ← mret []; scoped (ChangeSet_undo_all cs) (body cs)).
Proof.
  intros HI Hb. apply (keeps_scoped I (mret tt) (body [])); [apply undoes_ret, keeping_refl | done].
Qed.

#[export] Instance no_block_stable : Stable no_block.
Proof. intros h h' [Hi _] Hn spec Hs. rewrite Hi. by apply Hn. Qed.
Definition no_nats (h : host) : Prop := forall tun_dev subnet wan, no_nat tun_dev subnet wan h.
#[export] Instance no_nats_stable : Stable no_nats.
Proof. intros h h' [Hi _] Hn tun subnet wan table spec Hs. rewrite Hi. by apply (Hn tun subnet wan). Qed.

(** The configurations the two programs can be started on. *)
Definition client_start (h : host) : Prop := foreign_routes h /\ no_block h.
Definition server_start (h : host) : Prop := foreign_routes h /\ no_nats h.

Variables (u : relay_setup) (waits : list (sysres (list event))).

Lemma routes_scope_keeps (install : bool) tun_dev server (body : ChangeSet -> M Z) :
  (forall cs, keeps (fun _ => True) (body cs)) ->
  keeps foreign_routes
    (cs ← (if install then r ← install_client_routes tun_dev server; ChangeSet_assign [] r else mret []);
     scoped (ChangeSet_undo_all cs) (body cs)).
Proof.
  intros Hb. destruct install.
  - eapply acts_ext; [intros w; apply bracket_assign | by apply client_routes_restored].
  - apply keeps_no_changes; [exact _|]. by eapply keeps_weaken; [apply Hb|].
Qed.

Lemma ipv6_scope_keeps policy (body : ChangeSet -> M Z) :
  (forall cs, keeps foreign_routes (body cs)) ->
  keeps client_start (cs ← guard_ipv6 policy; scoped (ChangeSet_undo_all cs) (body cs)).
Proof.
  intros Hb. assert (forall cs, keeps client_start (body cs)) as Hb' by by intros cs; eapply keeps_weaken; [apply Hb | intros h []].
  unfold guard_ipv6. eapply acts_ext; [intros w; apply bind_assoc|]. kbind.
  { kbind; [apply keeps_run_capture; [exact _ | by intros h [] | done] | intros text; apply keeps_ret]. }
  intros has. cbv beta. destruct has; [destruct policy|].
  - apply (acts_raise (runtime_error refusal)), keeping_refl.
  - eapply acts_ext; [intros w; apply bracket_assign|]. by apply block_restored.
  - eapply acts_ext; [intros w; apply bind_assoc|]. kbind; [apply keeps_emit|]. intros [].
    apply keeps_no_changes; [exact _ | apply Hb'].
  - apply keeps_no_changes; [exact _ | apply Hb'].
Qed.

Lemma vpn_try_keeps a server : keeps client_start (vpn_try a server u waits).
Proof.
  kbind; [apply keeps_lift|]. intros []. kbind; [apply load_identity_keeps; exact _|].
  intros [i|]; [|apply keeps_ret]. apply ipv6_scope_keeps. intros _.
  apply (open_scope_keeps _ (fun _ H => H) _ tun_fd); [apply TunDevice_open_keeps; first [exact _ | done]|]. intros tun.
  kbind; [apply configure_interface_keeps; first [exact _ | done]|]. intros [].
  apply (open_scope_keeps _ (fun _ H => H) _ udp_fd); [apply bind_any_keeps; first [exact _ | done]|]. intros sock.
  apply routes_scope_keeps. intros _.
  apply (serve_keeps _ _ _ sock (fun port => _)). exact _.
Qed.

(** [nat], from the look-up of the outgoing interface on. *)
Lemma nat_scope_keeps install given tun_addr name (body : ServerNat -> M Z) :
  (forall nat, keeps foreign_routes (body nat)) ->
  keeps server_start (nat ← nat_scope install given tun_addr name; scoped (ServerNat_destroy nat) (body nat)).
Proof.
  intros Hb. unfold nat_scope. destruct install.
  2: { apply (keeps_scoped server_start (ServerNat_destroy ServerNat_new) (body ServerNat_new));
         [apply undoes_ret, keeping_refl | by eapply keeps_weaken; [apply Hb | intros h []]]. }
  eapply acts_ext; [intros w; apply bind_assoc|]. kbind.
  { unfold wan_of. destruct (String.eqb given ""); [|apply keeps_ret].
    kbind; [apply keeps_route_to; [exact _ | by intros h []] | intros info; apply keeps_ret]. }
  intros wan. eapply acts_ext; [intros w; apply bind_assoc|]. kbind; [apply keeps_lift|]. intros subnet.
  eapply acts_ext; [|eapply keeps_weaken; [by apply (server_nat_restored name subnet wan body)|]].
  - intros w. unfold bracket, mbind, M_bind. by destruct (install_server_nat name subnet wan w) as [[[]|e| |] w1].
  - intros h [Hf Hn]. split; [done | apply Hn].
Qed.

Lemma vpnd_try_keeps a : keeps server_start (vpnd_try a u waits).
Proof.
  kbind; [apply keeps_lift|]. intros []. kbind; [apply load_identity_keeps; exact _|].
  assert (forall h, server_start h -> foreign_routes h) as Hf by by intros h [].
  intros [i|]; [|apply keeps_ret].
  apply (open_scope_keeps _ Hf _ tun_fd); [apply TunDevice_open_keeps; first [exact _ | done]|]. intros tun.
  kbind; [apply configure_interface_keeps; first [exact _ | done]|]. intros [].
  apply (open_scope_keeps _ Hf _ udp_fd); [apply bind_any_keeps; first [exact _ | done]|]. intros sock.
  apply (nat_scope_keeps (vd_install_nat a) (vd_wan_if a)). intros _.
  apply (serve_keeps _ _ _ sock (fun port => _)). exact _.
Qed.

(** Printing, and the handler of both mains. *)
Lemma print_keeps I text (code : Z) : Stable I -> keeps I (_ ← emit (Stderr text); mret code).
Proof. intros HI. kbind; [apply keeps_emit|]. intros []. apply keeps_ret. Qed.

Lemma vpn_main_keeps program args : keeps client_start (vpn_main program args u waits).
Proof.
  unfold vpn_main. destruct (vpn_arguments program args vpn_defaults) as [a|code text]; [|apply print_keeps; exact _].
  destruct (va_server a) as [server|]; [|apply print_keeps; exact _]. destruct (_ || _); [apply print_keeps; exact _|].
  apply keeps_catch; [exact _ | apply vpn_try_keeps | intros e; apply print_keeps; exact _].
Qed.

Lemma vpnd_main_keeps program args : keeps server_start (vpnd_main program args u waits).
Proof.
  unfold vpnd_main. destruct (vpnd_arguments program args vpnd_defaults) as [a|code text]; [|apply print_keeps; exact _].
  destruct (_ || _); [apply print_keeps; exact _|].
  apply keeps_catch; [exact _ | apply vpnd_try_keeps | intros e; apply print_keeps; exact _].
Qed.

(** What a run that exits says about the machine. *)
Lemma exits_restored I (m : M Z) w code w' :
  keeps I m -> I (w_host w) -> m w = (Ret code, w') -> clean (w_trace w') -> same_config (w_host w) (w_host w').
Proof. intros Hm Hi E Hcl. specialize (Hm w). rewrite E in Hm. destruct Hm as [_ Hm]. by apply Hm. Qed.

End Mains.

(** [C9] Running either program leaves the machine as it was.  The machine's
    tools do what they document, their failures included ([MachineOk]: any
    system call, any command and any write may fail at any time, and then
    changes nothing; an addition that exits with 0 appends its entry, a removal
    that does takes out the first entry that matches, ip(8) refuses a route that
    is there, an interface takes the routes through it along when its descriptor
    is closed).  Started on tables that do not yet hold the rules the program
    itself adds, and with no route through an interface of its own, for every
    command line and every sequence of events with a signal in it, the program
    exits.  If the run was [clean], which its trace tells (no removal and no
    restoring of the sysctl was reported as failed on standard error, and every
    command that was started exited by itself and could be waited for), then
    wherever else it failed, the routing and filter tables hold exactly the
    entries they held at the start, in the same order, and the forwarding sysctl
    has the value it had. *)
Theorem programs_restore_machine `{H : Host} `{Ma : !Machine} `{MO : !MachineOk} `{P : Primitives}
    `{PO : !PrimitivesOk} `{BO : !Base64Ok} `{N : Inet} program args u waits w :
  w_trace w = [] -> Forall wait_ok waits -> signalled waits ->
  (client_start (w_host w) ->
   exists code w', vpn_main program args u waits w = (Ret code, w') /\
     (clean (w_trace w') -> same_config (w_host w) (w_host w'))) /\
  (server_start (w_host w) -> subnet_of (vd_tun_addr vpnd_defaults) <> None ->
   exists code w', vpnd_main program args u waits w = (Ret code, w') /\
     (clean (w_trace w') -> same_config (w_host w) (w_host w'))).
Proof.
  intros Hw0 Hw Hsig. split; [intros Hc | intros Hc Hd].
  - destruct (vpn_main_exits program args u waits w Hw0 Hw Hsig) as (code & w' & E & _). exists code, w'.
    split; [exact E|]. by eapply exits_restored; [apply vpn_main_keeps| |].
  - destruct (vpnd_main_exits program args u waits w Hw0 Hw Hsig Hd) as (code & w' & E & _). exists code, w'.
    split; [exact E|]. by eapply exits_restored; [apply vpnd_main_keeps| |].
Qed.
