(* ===== verification/Traces.v ===== *)
(** * Traces: what the programs do to the machine, moment by moment

    [leaves] (in [Host.v]) speaks of the ledger when a computation ends.  This
    file speaks of every moment on the way.  The trace is ghost state: no
    computation reads it, so what one does inside a scope is what it does when
    started on an empty trace ([traces]), and the ledger of such a run sits on
    top of the stack it was started with ([book_all_frame]).  [incurs G] says of
    an effect that whatever debt it leaves satisfies [G]; the code is followed
    once, for an arbitrary [G]. *)

From Stdlib Require Import ZArith Lia Ascii String.
From stdpp Require Import base tactics numbers list option strings gmap.
From S2P Require Import Prelude Wire Crypto Noise HandshakeProofs Net Host Netcfg NetcfgProofs Replay Session Relay.
From S2P Require Import RelayProofs RelayRuns Programs ProgramsProofs.

(** ** The trace is ghost state *)

Section Ghost.
Context `{H : Host}.

(** What [m] does depends on the machine only, and its effects satisfy [F]. *)
Definition traces (F : effect -> Prop) {A} (m : M A) : Prop :=
  forall h, exists r h' d, Forall F d /\ forall t, m (mkWorld h t) = (r, mkWorld h' (t ++ d)).

Context (F : effect -> Prop).

Lemma traces_pure {A} (m : M A) (f : host -> outcome A * host) :
  (forall h t, m (mkWorld h t) = ((f h).1, mkWorld (f h).2 t)) -> traces F m.
Proof.
  intros Hm h. exists (f h).1, (f h).2, []. split; [constructor|]. intros t. by rewrite app_nil_r.
Qed.

Lemma traces_fails {A} (r : outcome A) : traces F (fun w => (r, w)).
Proof. by apply (traces_pure _ (fun h => (r, h))). Qed.
Lemma traces_ret {A} (a : A) : traces F (mret a).
Proof. apply (traces_fails (Ret a)). Qed.
Lemma traces_raise {A} e : traces F (raise e : M A).
Proof. apply (traces_fails (Raise e)). Qed.
Lemma traces_lift {A} (r : Res A) : traces F (lift r).
Proof. destruct r as [a|e|]; [apply (traces_fails (Ret a)) | apply (traces_fails (Raise e)) | apply (traces_fails Undefined)]. Qed.
Lemma traces_ask {A} (f : host -> A) : traces F (ask f).
Proof. by apply (traces_pure _ (fun h => (Ret (f h), h))). Qed.
Lemma traces_call {A} (f : host -> A * host) : traces F (call f).
Proof.
  apply (traces_pure _ (fun h => (Ret (f h).1, (f h).2))). intros h t. unfold call. cbn. by destruct (f h).
Qed.
Lemma traces_emit e : F e -> traces F (emit e).
Proof. intros He h. exists (Ret tt), h, [e]. by split; [constructor|]. Qed.

(** [m], and then something that depends on how it ended. *)
Lemma traces_then {A B} (m : M A) (k : outcome A -> M B) (g : M B) :
  traces F m -> (forall r, traces F (k r)) -> (forall w, g w = k (m w).1 (m w).2) -> traces F g.
Proof.
  intros Hm Hk Hg h. destruct (Hm h) as (r & h1 & d1 & F1 & E1). destruct (Hk r h1) as (r2 & h2 & d2 & F2 & E2).
  exists r2, h2, (d1 ++ d2). split; [by apply Forall_app|]. intros t. rewrite Hg, E1. cbn [fst snd].
  by rewrite E2, app_assoc.
Qed.

(** A destructor: only what it does counts. *)
Lemma traces_after {A} (d : M unit) (r : outcome A) : traces F d -> traces F (fun w => (r, (d w).2)).
Proof.
  intros Hd. apply (traces_then d (fun _ w => (r, w))); [done | intros; apply traces_fails | done].
Qed.

Lemma traces_bind {A B} (m : M A) (f : A -> M B) :
  traces F m -> (forall a, traces F (f a)) -> traces F (m ≫= f).
Proof.
  intros Hm Hf. apply (traces_then m (fun r => match r with Ret a => f a
    | Raise e => fun w => (Raise e, w) | Undefined => fun w => (Undefined, w) | Blocked => fun w => (Blocked, w) end));
    [done | intros []; [apply Hf | apply traces_fails..] |].
  intros w. unfold mbind, M_bind. by destruct (m w) as [[] w'].
Qed.

Lemma traces_scoped {A} d (m : M A) : traces F d -> traces F m -> traces F (scoped d m).
Proof.
  intros Hd Hm. apply (traces_then m (fun r w => match r with Ret _ | Raise _ => (r, (d w).2) | _ => (r, w) end));
    [done | intros []; [by apply traces_after | by apply traces_after | apply traces_fails..] |].
  intros w. unfold scoped. by destruct (m w) as [[] w'].
Qed.

Lemma traces_unless_returned {A} d (m : M A) : traces F d -> traces F m -> traces F (unless_returned d m).
Proof.
  intros Hd Hm. apply (traces_then m (fun r w => match r with Raise _ => (r, (d w).2) | _ => (r, w) end));
    [done | intros []; [apply traces_fails | by apply traces_after | apply traces_fails..] |].
  intros w. unfold unless_returned. by destruct (m w) as [[] w'].
Qed.

Lemma traces_catch {A} (m : M A) h : traces F m -> (forall e, traces F (h e)) -> traces F (try_catch m h).
Proof.
  intros Hm Hh. apply (traces_then m (fun r => match r with Raise e => h e | _ => fun w => (r, w) end));
    [done | intros []; [apply traces_fails | apply Hh | apply traces_fails..] |].
  intros w. unfold try_catch. by destruct (m w) as [[] w'].
Qed.

Lemma traces_recorded {A} e (m : M A) : traces F m -> (forall r, F (e r)) -> traces F (recorded e m).
Proof.
  intros Hm He. apply (traces_then m (fun r => match r with
    | Ret a => fun w => (r, (emit (e (Some a)) w).2) | Raise _ => fun w => (r, (emit (e None) w).2)
    | _ => fun w => (r, w) end));
    [done | intros []; [by apply traces_after, traces_emit | by apply traces_after, traces_emit | apply traces_fails..] |].
  intros w. unfold recorded. by destruct (m w) as [[] w'].
Qed.

Lemma traces_weaken (G : effect -> Prop) {A} (m : M A) : (forall e, F e -> G e) -> traces F m -> traces G m.
Proof.
  intros HG Hm h. destruct (Hm h) as (r & h' & d & Hd & E). exists r, h', d.
  split; [by eapply Forall_impl | done].
Qed.

Lemma traces_extends {A} (m : M A) w : traces F m -> w_trace w `prefix_of` w_trace (m w).2.
Proof.
  intros Hm. destruct w as [h t]. destruct (Hm h) as (r & h' & d & _ & E). rewrite E. by exists d.
Qed.

End Ghost.

(** Only the values [m] returns matter. *)
Lemma traces_bind_returns `{H : Host} (F : effect -> Prop) {A B} (m : M A) (f : A -> M B) Q :
  traces F m -> returns m Q -> (forall a, Q a -> traces F (f a)) -> traces F (m ≫= f).
Proof.
  intros Hm HQ Hf h. destruct (Hm h) as (r & h1 & d1 & F1 & E1). unfold mbind, M_bind.
  destruct r as [a|e| |]; [|eexists _, h1, d1; (split; [done|]); intros t; by rewrite E1..].
  destruct (Hf a (HQ _ _ _ (E1 [])) h1) as (r2 & h2 & d2 & F2 & E2).
  exists r2, h2, (d1 ++ d2). split; [by apply Forall_app|]. intros t. by rewrite E1, E2, app_assoc.
Qed.

(** Follows the structure of a computation. *)
Ltac ghost :=
  repeat (try assumption; match goal with
    | |- forall _, _ => intro
    | |- traces _ (mret _) => apply traces_ret
    | |- traces _ (raise _) => apply traces_raise
    | |- traces _ (ask _) => apply traces_ask
    | |- traces _ (lift _) => apply traces_lift
    | |- traces _ (call _) => apply traces_call
    | |- traces _ (mbind _ _) => apply traces_bind
    | |- traces _ (scoped _ _) => apply traces_scoped
    | |- traces _ (unless_returned _ _) => apply traces_unless_returned
    | |- traces _ (try_catch _ _) => apply traces_catch
    | |- traces _ (match ?x with _ => _ end) => destruct x
    end).

(** ** The ledger of a part, on top of a stack *)

Definition no_restore (d : debt) : Prop := match d with Restore _ _ => False | _ => True end.

Lemma pay_frame d s s' base : pay d s = Some s' -> pay d (s ++ base) = Some (s' ++ base).
Proof. destruct s as [|d' s]; [done|]. cbn. case_decide; [|done]. by intros [= <-]. Qed.

Lemma pay_frame_none path line s base :
  Forall no_restore base -> pay (Restore path line) s = None -> pay (Restore path line) (s ++ base) = None.
Proof.
  destruct s as [|d' s]; cbn [app pay]; [|by case_decide].
  destruct 1 as [|d' base Hd _]; [done|]. cbn. case_decide as E; [by rewrite <- E in Hd | done].
Qed.

Lemma covered_frame d s base : covered d s = true -> covered d (s ++ base) = true.
Proof. unfold covered. rewrite existsb_app. destruct (negb _), (existsb _ s); done. Qed.

(** The line read last in the part alone: none yet, or the same. *)
Definition sees (part whole : notes) : Prop := seen_line part = None \/ seen_line part = seen_line whole.

Lemma sees_settled part whole d d' ok : sees part whole -> sees (settled d ok part) (settled d' ok whole).
Proof. by destruct ok. Qed.

Lemma book_frame base s n e s' n' whole :
  Forall no_restore base -> sees n whole -> book (s, n) e = Some (s', n') ->
  exists whole', book (s ++ base, whole) e = Some (s' ++ base, whole') /\ sees n' whole'.
Proof.
  intros Hb Hs. destruct e; cbn [book]; try (intros [= <- <-]; by eauto).
  - destruct (pay (Close fd) s) eqn:E; [|done]. rewrite (pay_frame _ _ _ _ E). intros [= <- <-]. by eauto.
  - destruct (change tool args) as [[[] undo]|]; [| |intros [= <- <-]; by eauto].
    + destruct (negb ok); [intros [= <- <-]; by eauto|]. destruct (covered _ s) eqn:E; [|done].
      rewrite (covered_frame _ _ _ E). intros [= <- <-]. by eauto.
    + destruct (pay _ s) eqn:E; [|done]. rewrite (pay_frame _ _ _ _ E). intros [= <- <-].
      eexists. split; [reflexivity | by apply sees_settled].
  - intros [= <- <-]. eexists. split; [reflexivity|]. by right.
  - destruct (device_setting path); [intros [= <- <-]; by eauto|].
    destruct (pay _ s) eqn:E.
    { rewrite (pay_frame _ _ _ _ E). intros [= <- <-]. eexists. split; [reflexivity | by apply sees_settled]. }
    rewrite (pay_frame_none _ _ _ _ Hb E). unfold sees in *.
    destruct (seen_line n) as [[path' old]|] eqn:En.
    + destruct Hs as [Hs|Hs]; [done|]. rewrite <- Hs. destruct (negb ok).
      * intros [= <- <-]. exists whole. split; [done|]. right. congruence.
      * case_decide; [|done]. intros [= <- <-]. exists whole. split; [done|]. right. congruence.
    + destruct (negb ok); [|done]. intros [= <- <-]. exists whole.
      split; [by destruct (seen_line whole) as [[]|] | by left].
Qed.

Lemma book_all_frame base t s n s' n' whole :
  Forall no_restore base -> sees n whole -> book_all (s, n) t = Some (s', n') ->
  exists whole', book_all (s ++ base, whole) t = Some (s' ++ base, whole').
Proof.
  intros Hb. revert s n whole. induction t as [|e t IH]; intros s n whole Hs; cbn [book_all mbind option_bind].
  - intros [= <- <-]. by eauto.
  - destruct (book (s, n) e) as [[s1 n1]|] eqn:E; [|done].
    destruct (book_frame _ _ _ _ _ _ _ Hb Hs E) as (whole1 & -> & Hs1). by apply IH.
Qed.

(** ** Debts of one kind *)

(** A command leaves a debt that satisfies [G], or none. *)
Definition allowed (G : debt -> Prop) (tool : Tool) (args : list string) : Prop :=
  match change tool args with
  | Some (true, undo) => G (Command tool undo)
  | _ => True
  end.

Definition incurs (G : debt -> Prop) (e : effect) : Prop :=
  match e with
  | Opened fd => G (Close fd)
  | Ran tool args _ => allowed G tool args
  | Wrote path _ _ => device_setting path = true \/ forall old, G (Restore path old)
  | _ => True
  end.

Section Debts.
Context (G : debt -> Prop).

Lemma pay_forall d s s' : pay d s = Some s' -> Forall G s -> Forall G s' /\ G d.
Proof.
  destruct s as [|d' s]; [done|]. cbn. case_decide; [|done]. intros [= <-]. subst. by intros [? ?]%Forall_cons.
Qed.

(** The stack, and what was given up on: it was on the stack once. *)
Definition debts_ok (G' : debt -> Prop) (l : ledger) : Prop := Forall G l.1 /\ Forall G' (stuck l.2).

Context (G' : debt -> Prop) (HGG : forall d, G d -> G' d).

Lemma paid_debts d ok s s' n :
  pay d s = Some s' -> debts_ok G' (s, n) -> debts_ok G' (s', settled d ok n).
Proof.
  intros Hp [Hs Hn]. destruct (pay_forall _ _ _ Hp Hs) as [Hs' Hd]. split; [done|].
  destruct ok; [done|]. constructor; [by apply HGG | done].
Qed.

Lemma new_debt d s n : G d -> debts_ok G' (s, n) -> debts_ok G' (d :: s, n).
Proof. intros Hd [Hs Hn]. split; [by constructor | done]. Qed.

Lemma book_incurs l e l' : incurs G e -> debts_ok G' l -> book l e = Some l' -> debts_ok G' l'.
Proof.
  destruct l as [s n]. intros Hc Hs. destruct e; cbn [book]; try (by intros [= <-]).
  - intros [= <-]. by apply new_debt.
  - destruct (pay _ s) eqn:E; [|done]. intros [= <-]. by eapply (paid_debts _ true).
  - cbn [incurs] in Hc. unfold allowed in Hc. destruct (change tool args) as [[[] undo]|]; [| |by intros [= <-]].
    + destruct (negb ok); [by intros [= <-]|]. destruct (covered _ s); [|done]. intros [= <-]. by apply new_debt.
    + destruct (pay _ s) eqn:E; [|done]. intros [= <-]. by eapply paid_debts.
  - destruct (device_setting path) eqn:Hd; [by intros [= <-]|].
    destruct (pay _ s) eqn:E; [intros [= <-]; by eapply paid_debts|].
    destruct (seen_line n) as [[path' old]|]; destruct (negb ok); try (by intros [= <-]).
    case_decide; [|done]. intros [= <-]. apply new_debt; [|done].
    destruct Hc as [Hc|Hc]; [congruence | apply Hc].
Qed.

Lemma book_all_incurs t l l' :
  Forall (incurs G) t -> debts_ok G' l -> book_all l t = Some l' -> debts_ok G' l'.
Proof.
  intros Ht. revert l. induction Ht as [|e t He _ IH]; intros l Hs; cbn [book_all mbind option_bind]; [by intros [= <-]|].
  destruct (book l e) as [l1|] eqn:E; [|done]. apply IH. by eapply book_incurs.
Qed.

End Debts.

(** The stack alone. *)
Lemma stack_incurs G t s n s' n' :
  Forall (incurs G) t -> Forall G s -> book_all (s, n) t = Some (s', n') -> Forall G s'.
Proof.
  intros Ht Hs E. apply (book_all_incurs G (fun _ => True) (fun _ _ => Logic.I) _ _ _ Ht) in E as [E _]; [done|].
  split; [done | by apply Forall_true].
Qed.

(** At any moment of a computation that starts owing nothing. *)
Lemma moment_debts `{H : Host} G {A} (m : M A) w p s n :
  traces (incurs G) m -> w_trace w = [] -> p `prefix_of` w_trace (m w).2 ->
  book_all ([], fresh) p = Some (s, n) -> Forall G (s ++ stuck n).
Proof.
  intros Hm Hw [q Hq]. destruct w as [h t]. cbn in Hw. subst t. destruct (Hm h) as (r & h' & d & Hd & E).
  rewrite E in Hq. cbn in Hq. subst d. apply Forall_app in Hd as [Hp _].
  intros Eb. apply (book_all_incurs G G (fun _ Hd => Hd) _ _ _ Hp) in Eb as [Hs Hn]; [by apply Forall_app|].
  split; apply Forall_nil_2.
Qed.

(** ** The code *)

Section Code.
Context `{H : Host} `{P : Primitives} `{I : Inet}.
Context (G : debt -> Prop) (HG : forall fd, G (Close fd)).

Abbreviation makes := (traces (incurs G)).

Lemma emit_traces e :
  match e with Ran _ _ _ | Wrote _ _ _ => False | _ => True end -> makes (emit e).
Proof. intros He. apply traces_emit. destruct e; try done. apply HG. Qed.

Lemma sys_close_traces fd : makes (sys_close fd).
Proof. unfold sys_close. ghost. by apply emit_traces. Qed.

Lemma destroy_traces fd : makes (UniqueFd_destroy fd).
Proof. unfold UniqueFd_destroy, UniqueFd_reset. ghost. apply sys_close_traces. Qed.

Lemma acquire_traces f : makes (acquire f).
Proof. unfold acquire. ghost. by apply emit_traces. Qed.

Lemma binary_for_traces tool : makes (binary_for tool).
Proof.
  assert (forall what l, makes (find_binary l what)) as Hf.
  { intros what l. induction l as [|c l IH]; cbn [find_binary]; ghost. }
  destruct tool; apply Hf.
Qed.

Lemma read_output_traces prog args reads out : makes (read_output prog args reads out).
Proof. revert out. induction reads as [|[] reads IH]; intros out; cbn [read_output]; ghost; apply IH. Qed.

Lemma wait_child_traces prog waits status : makes (wait_child prog waits status).
Proof. induction waits as [|e waits IH]; cbn [wait_child]; ghost; by apply emit_traces. Qed.

Lemma check_status_traces prog args status : makes (check_status prog args status).
Proof. unfold check_status. ghost. Qed.

Lemma posix_spawn_traces prog args piped : makes (posix_spawn prog args piped).
Proof. unfold posix_spawn. ghost. by apply emit_traces. Qed.

Lemma spawn_and_wait_traces prog args output : makes (spawn_and_wait prog args output).
Proof.
  unfold spawn_and_wait. ghost; first [by apply emit_traces | apply sys_close_traces | apply posix_spawn_traces
    | apply read_output_traces | apply wait_child_traces | apply check_status_traces].
Qed.

Lemma run_traces tool args : allowed G tool args -> makes (run tool args).
Proof.
  intros Hr. apply traces_recorded; [|intros r; exact Hr].
  ghost; [apply binary_for_traces | apply spawn_and_wait_traces].
Qed.

Lemma run_capture_traces tool args : makes (run_capture tool args).
Proof.
  apply traces_recorded; [|done]. ghost; [apply binary_for_traces | apply spawn_and_wait_traces].
Qed.

Lemma write_line_traces path line :
  device_setting path = true \/ (forall old, G (Restore path old)) -> makes (write_line path line).
Proof. intros Hp. unfold write_line. ghost. by apply traces_emit. Qed.

(** *** Guards *)

Lemma undo_all_traces cs : Forall removes cs -> makes (ChangeSet_undo_all cs).
Proof.
  unfold ChangeSet_undo_all. intros Hc%Forall_rev. induction Hc as [|c back Hc _ IH]; cbn [pop_all]; [ghost|].
  apply traces_bind; [|by intros _]. unfold ScopedCommand_destroy. ghost; [|by apply emit_traces].
  apply run_traces. unfold removes in Hc. unfold allowed. by rewrite Hc.
Qed.

Lemma add_traces cs tool apply undo :
  change tool apply = Some (true, undo) -> G (Command tool undo) -> Forall removes cs ->
  makes (unless_returned (ChangeSet_undo_all cs) (ChangeSet_add cs tool apply undo)).
Proof.
  intros Ha Hd Hcs. apply traces_unless_returned; [by apply undo_all_traces|].
  unfold ChangeSet_add, ScopedCommand_new. ghost. apply run_traces. unfold allowed. by rewrite Ha.
Qed.

Lemma add_all_traces l cs :
  Forall removes cs -> Forall reversible l -> Forall (fun x => G (command_debt (guard_of x))) l ->
  makes (add_all cs l).
Proof.
  intros Hcs Hl. revert cs Hcs. induction Hl as [|[[tool apply] undo] l [Ha Hu] _ IH]; intros cs Hcs;
    cbn [add_all]; [ghost|]. intros [Hd Hds]%Forall_cons.
  eapply traces_bind_returns; [by apply (add_traces _ _ _ undo)| |intros cs' Hcs'; apply IH; [exact Hcs' | done]].
  apply returns_unless_returned.
  eapply returns_bind; [|intros c Hc; apply returns_ret, Forall_app; split; [done|]; apply Forall_singleton; exact Hc].
  eapply returns_bind; [apply returns_any|]. intros [] _. by apply returns_ret.
Qed.

Lemma assign_fresh_traces cs : makes (ChangeSet_assign [] cs).
Proof. unfold ChangeSet_assign. ghost. by apply undo_all_traces, Forall_nil. Qed.

Lemma sysctl_new_traces path value :
  (forall old, G (Restore path old)) -> makes (ScopedSysctl_new path value).
Proof.
  intros Hp. unfold ScopedSysctl_new. ghost; [by apply emit_traces | apply write_line_traces; by right].
Qed.

Lemma sysctl_restore_traces y :
  (forall old, G (Restore (sy_path y) old)) -> makes (ScopedSysctl_restore y).
Proof.
  intros Hp. unfold ScopedSysctl_restore. ghost; [apply write_line_traces; by right | by apply emit_traces].
Qed.

(** *** Opening, configuring, serving *)

Lemma TunDevice_open_traces name : makes (TunDevice_open name).
Proof. unfold TunDevice_open. ghost; [apply acquire_traces | apply destroy_traces]. Qed.

Lemma bind_any_traces port : makes (bind_any port).
Proof. unfold bind_any. ghost; [apply acquire_traces | apply destroy_traces]. Qed.

Lemma local_port_traces sock : makes (local_port sock).
Proof. unfold local_port. ghost. Qed.

Lemma load_identity_traces path peer : makes (load_identity path peer).
Proof. unfold load_identity. ghost; by apply emit_traces. Qed.

Lemma run_relay_traces cfg name u waits : makes (run_relay cfg name u waits).
Proof.
  unfold run_relay, make_signalfd. ghost; try apply acquire_traces; try apply destroy_traces.
  unfold relay_until_signal. destruct (relay_serve _ _ _ _ _) as [[[s []] out]|e|]; apply traces_fails.
Qed.

Lemma configure_interface_traces dev cidr mtu : makes (configure_interface dev cidr mtu).
Proof.
  unfold configure_interface, write_sysctl. ghost; try (by apply run_traces); [|by apply emit_traces].
  apply write_line_traces. left. apply disable_ipv6_device.
Qed.

Lemma route_to_traces address : makes (route_to address).
Proof. unfold route_to. ghost. apply run_capture_traces. Qed.

(** The interface of a route that was found has a name. *)
Lemma route_to_returns address : returns (route_to address) (fun info => ri_dev info <> "").
Proof.
  eapply returns_bind; [apply returns_any|]. intros out _. destruct (String.eqb out ""); [by intros w a w'|].
  cbv zeta. destruct (String.eqb_spec (ri_dev (route_tokens (mkRoute "" "") (tokens (line_of out)))) "");
    [by intros w a w' | by apply returns_ret].
Qed.

(** The last lines of both mains. *)
Lemma serve_traces sock banner cfg name u waits :
  makes (port ← local_port sock; _ ← emit (Stderr (banner port)); stats ← run_relay cfg name u waits;
         _ ← emit (Stderr (print_stats stats)); mret 0%Z).
Proof. ghost; [apply local_port_traces | by apply emit_traces | apply run_relay_traces | by apply emit_traces]. Qed.

Lemma open_scope_traces {A B} (m : M A) (fd_of : A -> UniqueFd) (body : A -> M B) :
  makes m -> (forall a, makes (body a)) -> makes (a ← m; scoped (UniqueFd_destroy (fd_of a)) (body a)).
Proof. intros Hm Hb. ghost; [apply destroy_traces | apply Hb]. Qed.

(** *** The client *)

Definition routes_debts (server : string) : Prop :=
  forall tun_dev underlay, ri_dev underlay <> "" ->
    Forall (fun spec => G (Command ip ("route" :: "del" :: spec))) (client_routes tun_dev server underlay).
Definition block_debts : Prop := Forall (fun spec => G (Command ip6tables ("-D" :: spec))) ipv6_rules.

Lemma install_client_routes_traces tun_dev server :
  routes_debts server -> makes (install_client_routes tun_dev server).
Proof.
  intros Hr. unfold install_client_routes.
  eapply traces_bind_returns; [apply route_to_traces | apply route_to_returns|]. intros underlay Hu.
  apply traces_bind; [|ghost; by apply emit_traces].
  apply (add_all_traces (map route_change _)); [by apply Forall_nil | apply routes_reversible | by apply Forall_map, Hr].
Qed.

Lemma host_has_ipv6_traces : makes host_has_ipv6.
Proof. unfold host_has_ipv6. ghost. apply run_capture_traces. Qed.

Lemma block_host_ipv6_traces : block_debts -> makes block_host_ipv6.
Proof.
  intros Hb. unfold block_host_ipv6. apply traces_bind; [|ghost; by apply emit_traces].
  apply (add_all_traces (map ipv6_change _)); [by apply Forall_nil | apply ipv6_reversible | by apply Forall_map].
Qed.

Lemma guard_ipv6_traces policy : (policy = block -> block_debts) -> makes (guard_ipv6 policy).
Proof.
  intros Hb. unfold guard_ipv6. apply traces_bind; [apply host_has_ipv6_traces|].
  intros []; [|ghost]. destruct policy; [ghost| |ghost; by apply emit_traces].
  apply traces_bind; [by apply block_host_ipv6_traces, Hb | apply assign_fresh_traces].
Qed.

Lemma vpn_tunnel_traces a server i u waits :
  routes_debts (format_address server) -> makes (vpn_tunnel a server i u waits).
Proof.
  intros Hr. apply (open_scope_traces _ tun_fd); [apply TunDevice_open_traces|]. intros tun.
  apply traces_bind; [apply configure_interface_traces|]. intros [].
  apply (open_scope_traces _ udp_fd); [apply bind_any_traces|]. intros sock.
  eapply traces_bind_returns; [| apply routes_returns|].
  - ghost; [by apply install_client_routes_traces | apply assign_fresh_traces].
  - intros routes Hrs. apply traces_scoped; [by apply undo_all_traces | apply (serve_traces sock (fun port => _))].
Qed.

Lemma vpn_try_traces a server u waits :
  (va_ipv6_policy a = block -> block_debts) -> routes_debts (format_address server) ->
  makes (vpn_try a server u waits).
Proof.
  intros Hb Hr. unfold vpn_try. apply traces_bind; [ghost|]. intros [].
  apply traces_bind; [apply load_identity_traces|]. intros [i|]; [|ghost].
  eapply traces_bind_returns; [by apply guard_ipv6_traces | apply guard_ipv6_returns|]. intros cs Hcs.
  apply traces_scoped; [by apply undo_all_traces | by apply vpn_tunnel_traces].
Qed.

(** *** The server *)

Definition nat_debts (subnet : string) : Prop :=
  (forall tun_dev wan, Forall (fun '(table, spec) => G (Command iptables (["-t"; table; "-D"] ++ spec)))
                         (nat_rules tun_dev subnet wan)) /\
  (forall old, G (Restore ip_forward_path old)).

Lemma install_server_nat_traces tun_dev subnet wan :
  nat_debts subnet -> makes (install_server_nat tun_dev subnet wan).
Proof.
  intros [Hn Hf]. unfold install_server_nat.
  eapply traces_bind_returns; [by apply sysctl_new_traces | apply sysctl_returns|]. intros y Hy.
  apply traces_unless_returned.
  - unfold ScopedSysctl_destroy. ghost. apply sysctl_restore_traces. by rewrite Hy.
  - apply traces_bind; [|ghost; by apply emit_traces].
    apply (add_all_traces (map nat_change _)); [by apply Forall_nil | apply nat_reversible|].
    apply Forall_map. eapply Forall_impl; [apply Hn|]. by intros [table spec].
Qed.

(** What [ServerNat] guards, and that its destructor undoes it. *)
Definition nat_guards (nat : ServerNat) : Prop :=
  Forall removes (sn_rules nat) /\
  (sy_active (sn_ip_forward nat) = true -> sy_path (sn_ip_forward nat) = ip_forward_path).

Lemma nat_destroy_traces nat :
  (forall old, G (Restore ip_forward_path old)) -> nat_guards nat -> makes (ServerNat_destroy nat).
Proof.
  intros Hf [Hr Hp]. unfold ServerNat_destroy, ScopedSysctl_destroy. ghost; [by apply undo_all_traces|].
  unfold ScopedSysctl_restore. destruct (sy_active (sn_ip_forward nat)); cbn [negb]; [|ghost].
  rewrite Hp by done. ghost; [apply write_line_traces; by right | by apply emit_traces].
Qed.

Lemma server_nat_guards tun_dev subnet wan : returns (install_server_nat tun_dev subnet wan) nat_guards.
Proof.
  eapply returns_bind; [apply sysctl_returns|]. intros y Hy. apply returns_unless_returned.
  eapply returns_bind; [apply add_all_returns|]. intros cs ->.
  eapply returns_bind; [apply returns_any|]. intros [] _. apply returns_ret. split; [|by intros _].
  apply reversible_removes, nat_reversible.
Qed.

Lemma nat_scope_guards install given tun_addr name :
  returns (nat_scope install given tun_addr name) nat_guards.
Proof.
  assert (nat_guards ServerNat_new) as Hnew by (split; [constructor | done]).
  destruct install; [|by apply returns_ret]. cbn [nat_scope].
  eapply returns_bind; [apply returns_any|]. intros wan _.
  eapply returns_bind; [apply returns_any|]. intros subnet _.
  eapply returns_bind; [apply server_nat_guards|]. intros nat Hn w a w' [= <- _]. by destruct nat.
Qed.

Lemma subnet_value_returns cidr : returns (lift (subnet_value cidr)) (fun s => subnet_of cidr = Some s).
Proof. unfold subnet_value. destruct (subnet_of cidr); [by intros w a w' [= <- _] | done]. Qed.

Lemma nat_assign_traces nat : makes (ServerNat_assign ServerNat_new nat).
Proof.
  unfold ServerNat_assign, ScopedSysctl_assign, ScopedSysctl_restore.
  cbn [ServerNat_new sn_ip_forward sn_rules ScopedSysctl_inert sy_active negb]. ghost. apply assign_fresh_traces.
Qed.

Lemma nat_scope_traces install given tun_addr name :
  (forall subnet, subnet_of tun_addr = Some subnet -> nat_debts subnet) ->
  makes (nat_scope install given tun_addr name).
Proof.
  intros Hn. unfold nat_scope, wan_of. destruct install; [|ghost].
  apply traces_bind; [ghost; apply route_to_traces|]. intros wan.
  eapply traces_bind_returns; [ghost | apply subnet_value_returns|]. intros subnet Hs.
  apply traces_bind; [by apply install_server_nat_traces, Hn | apply nat_assign_traces].
Qed.

Lemma vpnd_try_traces a u waits :
  (forall subnet, subnet_of (vd_tun_addr a) = Some subnet -> nat_debts subnet) ->
  (forall old, G (Restore ip_forward_path old)) -> makes (vpnd_try a u waits).
Proof.
  intros Hn Hf. unfold vpnd_try. apply traces_bind; [ghost|]. intros [].
  apply traces_bind; [apply load_identity_traces|]. intros [i|]; [|ghost].
  apply (open_scope_traces _ tun_fd); [apply TunDevice_open_traces|]. intros tun.
  apply traces_bind; [apply configure_interface_traces|]. intros [].
  apply (open_scope_traces _ udp_fd); [apply bind_any_traces|]. intros sock.
  eapply (traces_bind_returns _ (nat_scope (vd_install_nat a) (vd_wan_if a) (vd_tun_addr a) (tun_name tun)));
    [by apply nat_scope_traces | apply nat_scope_guards|].
  intros nat Hg. apply traces_scoped; [by apply nat_destroy_traces | apply (serve_traces sock (fun port => _))].
Qed.

(** A [try] block with the handler of both mains, and printing a message. *)
Lemma try_traces (m : M Z) message :
  makes m -> makes (try_catch m (fun e => _ ← emit (Stderr (message e)); mret 1%Z)).
Proof. intros Hm. ghost. by apply emit_traces. Qed.

Lemma print_traces text (code : Z) : makes (_ ← emit (Stderr text); mret code).
Proof. ghost. by apply emit_traces. Qed.

End Code.
