(* ===== verification/Ipv6.v ===== *)
(** * Ipv6: the client never routes everything into the tunnel with IPv6 beside it

    The tunnel carries IPv4 only.  On a host with a default IPv6 route the
    client refuses to start, or blocks IPv6 first, or is told to ignore it
    ([--host-ipv6]).  The theorem below says that this holds at every moment of
    a run and not only at the end: with the first two policies, while a route
    that takes half of the address space is in place, the question whether there
    is IPv6 has been answered with no, or every blocking rule was added before
    it and is removed after. *)

From Stdlib Require Import ZArith Lia Ascii String.
From stdpp Require Import base tactics numbers list option strings gmap.
From S2P Require Import Prelude Wire Crypto Noise HandshakeProofs Net Host Netcfg NetcfgProofs Replay Session Relay.
From S2P Require Import RelayProofs RelayRuns Programs ProgramsProofs Traces.

(** ** Moments without a route into the tunnel *)

Definition clear (stack : list debt) : Prop := Forall (fun d => takes_all d = false) stack.
Abbreviation calm := (incurs (fun d => takes_all d = false)).
Abbreviation any := (incurs (fun _ => True)).

(** The question whether the host has IPv6 was asked, and answered with no. *)
Definition answered_none (p : list effect) : Prop :=
  exists text, Asked ip ["-6"; "route"; "show"; "default"] (Some text) ∈ p /\ trim text = "".

(** Rules to be removed later, so in place now: global and unique-local packets
    cannot leave or enter except over the loopback device, and none is forwarded. *)
Definition blocks_ipv6 (owed : list debt) : Prop :=
  (forall prefix, prefix ∈ ["2000::/3"; "fc00::/7"] ->
     Command ip6tables ["-D"; "OUTPUT"; "!"; "-o"; "lo"; "-d"; prefix; "-j"; "REJECT";
                        "--reject-with"; "adm-prohibited"] ∈ owed /\
     Command ip6tables ["-D"; "INPUT"; "!"; "-i"; "lo"; "-s"; prefix; "-j"; "DROP"] ∈ owed) /\
  Command ip6tables ["-D"; "FORWARD"; "-j"; "DROP"] ∈ owed.

(** What the policy promises when a route into the tunnel lies above [below]. *)
Definition sheltered (policy : Ipv6Policy) (p : list effect) (below : list debt) : Prop :=
  (policy = refuse -> answered_none p) /\
  (policy = block -> answered_none p \/ blocks_ipv6 below).

Definition good (policy : Ipv6Policy) (p : list effect) : Prop :=
  forall above d below seen, book_all ([], fresh) p = Some (above ++ d :: below, seen) ->
    takes_all d = true -> sheltered policy p below.

(** Every moment of [m] run in [w]. *)
Definition all_good `{H : Host} (policy : Ipv6Policy) {A} (m : M A) (w : World) : Prop :=
  forall p, w_trace w `prefix_of` p -> p `prefix_of` w_trace (m w).2 -> good policy p.

Lemma answered_none_grows p q : answered_none p -> answered_none (p ++ q).
Proof. intros (text & Hin & Ht). exists text. split; [apply elem_of_app; by left | done]. Qed.

Lemma sheltered_none policy p below : (policy <> ignore -> answered_none p) -> sheltered policy p below.
Proof. intros Hp. split; intros ->; [|left]; by apply Hp. Qed.

Lemma sheltered_grows policy p q below : sheltered policy p below -> sheltered policy (p ++ q) below.
Proof.
  intros [Hr Hb]. split; intros Hp; [by apply answered_none_grows, Hr|].
  destruct (Hb Hp); [left; by apply answered_none_grows | by right].
Qed.

Lemma clear_good policy p :
  (forall stack seen, book_all ([], fresh) p = Some (stack, seen) -> clear stack) -> good policy p.
Proof.
  intros Hc above d below seen Hb Hd. apply Hc in Hb. apply Forall_app in Hb as [_ [Hb _]%Forall_cons]. congruence.
Qed.

Section Moments.
Context `{H : Host}.

Definition clear_world (w : World) : Prop :=
  forall stack seen, book_all ([], fresh) (w_trace w) = Some (stack, seen) -> clear stack.

Lemma calm_clear t d : (forall stack seen, book_all ([], fresh) t = Some (stack, seen) -> clear stack) ->
  Forall calm d -> forall stack seen, book_all ([], fresh) (t ++ d) = Some (stack, seen) -> clear stack.
Proof.
  intros Ht Hd stack seen. rewrite book_all_cut. destruct (book_all ([], fresh) t) as [[s1 seen1]|] eqn:E; [|done].
  apply (stack_incurs (fun d => takes_all d = false)); [done | by eapply Ht].
Qed.

Lemma calm_moments policy {A} (m : M A) w : traces calm m -> clear_world w -> all_good policy m w.
Proof.
  intros Hm Hw p [q ->] Hp. destruct w as [h t]. destruct (Hm h) as (r & h' & d & Hd & E). rewrite E in Hp.
  cbn [snd w_trace] in *. apply prefix_app_inv in Hp as [k ->]. apply Forall_app in Hd as [Hq _].
  apply clear_good. intros stack seen. by apply calm_clear.
Qed.

Lemma calm_world {A} (m : M A) w : traces calm m -> clear_world w -> clear_world (m w).2.
Proof.
  intros Hm Hw stack seen. destruct w as [h t]. destruct (Hm h) as (r & h' & d & Hd & E). rewrite E.
  by apply calm_clear.
Qed.

(** A calm part first. *)
Lemma calm_then_returns policy {A B} (m : M A) (f : A -> M B) Q w :
  traces calm m -> clear_world w -> returns m Q -> (forall a, Q a -> traces any (f a)) ->
  (forall a w1, m w = (Ret a, w1) -> clear_world w1 -> all_good policy (f a) w1) ->
  all_good policy (m ≫= f) w.
Proof.
  intros Hm Hw HQ Hf Hk p Hp Hq. pose proof (calm_moments policy m w Hm Hw p Hp) as Hfirst.
  pose proof (calm_world m w Hm Hw) as Hc. specialize (HQ w). unfold mbind, M_bind in Hq.
  destruct (m w) as [[a|e| |] w1]; cbn [snd] in *; try by apply Hfirst.
  destruct (prefix_weak_total _ _ _ Hq (traces_extends _ (f a) w1 (Hf a (HQ a w1 eq_refl))));
    [by apply Hfirst | by eapply Hk].
Qed.

Lemma calm_then policy {A B} (m : M A) (f : A -> M B) w :
  traces calm m -> clear_world w -> (forall a, traces any (f a)) ->
  (forall a w1, m w = (Ret a, w1) -> clear_world w1 -> all_good policy (f a) w1) ->
  all_good policy (m ≫= f) w.
Proof. intros Hm Hw Hf. eapply calm_then_returns; [done | done | apply returns_any | by intros a _]. Qed.

End Moments.

Lemma above_base above (d : debt) below s base :
  above ++ d :: below = s ++ base -> clear base -> takes_all d = true -> base ⊆ below.
Proof.
  intros E Hc Hd. apply app_eq_inv in E as [(k & -> & E)|(k & -> & E)].
  - rewrite E in Hc. apply Forall_app in Hc as [_ [Hc _]%Forall_cons]. congruence.
  - destruct k as [|x k]; cbn in E; [rewrite <- E in Hc; apply Forall_cons in Hc as [Hc _]; congruence|].
    injection E as -> ->. intros e He. apply elem_of_app. by right.
Qed.

Section Scope.
Context `{H : Host}.

(** The scope of the blocking rules. *)
Lemma shelter_scope policy cs (m : M Z) w :
  traces any m -> leaves [] m (fun _ => []) [] ->
  leaves (owed cs) m (fun _ => owed cs) (owed cs) -> traces calm (ChangeSet_undo_all cs) ->
  owes (owed cs) w -> Forall no_restore (owed cs) -> clear (owed cs) ->
  (forall q below, owed cs ⊆ below -> sheltered policy (w_trace w ++ q) below) ->
  all_good policy (scoped (ChangeSet_undo_all cs) m) w.
Proof.
  intros Hm Hl0 Hl Hu Ho Hn Hc Hp p [q ->] Hq. specialize (Hl w Ho). destruct w as [h t].
  destruct (Hm h) as (r & h' & d & _ & E). cbn [w_trace] in *.
  destruct (Hu h') as (r2 & h2 & d2 & Hd2 & E2). unfold scoped in Hq. rewrite E in Hq, Hl.
  assert (q `prefix_of` d \/ (exists q2, q = d ++ q2 /\ Forall calm q2 /\ owes (owed cs) (mkWorld h' (t ++ d))))
    as [[k ->]|(q2 & -> & Hq2 & (seen & Ho2 & _))].
  { destruct r as [a|e| |]; try done; rewrite E2 in Hq; cbn [snd w_trace] in Hq;
      rewrite <- app_assoc in Hq; apply prefix_app_inv in Hq;
      (destruct (prefix_weak_total q d (d ++ d2)) as [Hpre|[q2 ->]]; [done | by apply prefix_app_r | by left|]);
      right; exists q2; apply prefix_app_inv in Hq as [k ->]; apply Forall_app in Hd2 as [Hq2 _]; done. }
  - intros above d0 below seen Hb Hd0. apply Hp.
    specialize (Hl0 (mkWorld h []) (owes_start (mkWorld h []) eq_refl)). rewrite E in Hl0. cbn [app] in Hl0.
    assert (exists s seen, book_all ([], fresh) (q ++ k) = Some (s, seen)) as (s1 & seen1 & Hs1)
      by (destruct r; try done; destruct Hl0 as (seen1 & Hs1 & _); by eauto).
    rewrite book_all_cut in Hs1. destruct (book_all ([], fresh) q) as [[s' seen']|] eqn:Eq; [|done].
    destruct Ho as (seen0 & Ho & _). cbn [w_trace] in Ho. rewrite book_all_cut, Ho in Hb. cbn [mbind option_bind] in Hb.
    destruct (book_all_frame (owed cs) q [] fresh s' seen' seen0 Hn (or_introl eq_refl) Eq) as (whole & Hf).
    cbn [app] in Hf. rewrite Hf in Hb. injection Hb as Hb _. by eapply above_base.
  - apply clear_good. rewrite app_assoc. cbn [w_trace] in Ho2. apply calm_clear; [|done].
    intros stack seen'. rewrite Ho2. by intros [= <- _].
Qed.

(** What the check before the device found, and what it did. *)
Lemma guard_ipv6_outcome policy w cs w1 :
  guard_ipv6 policy w = (Ret cs, w1) ->
  (cs = [] /\ (policy <> ignore -> answered_none (w_trace w1))) \/
  (policy = block /\ owed cs = removals ip6tables (cons "-D") ipv6_rules).
Proof.
  unfold guard_ipv6, host_has_ipv6, mbind, M_bind. intros E.
  destruct (run_capture ip ["-6"; "route"; "show"; "default"] w) as [[text|e| |] w0] eqn:Er; try done.
  unfold mret at 1, M_ret at 1 in E. destruct (String.eqb_spec (trim text) "") as [Ht|Ht]; cbn [negb] in E.
  - unfold mret, M_ret in E. injection E as <- <-. left. split; [done|]. intros _. exists text. split; [|done].
    unfold run_capture, recorded in Er. case_match; simplify_eq. case_match; simplify_eq.
    apply elem_of_app. right. by apply list_elem_of_singleton.
  - destruct policy; [done| |].
    + right. split; [done|]. unfold mbind, M_bind in E.
      destruct (block_host_ipv6 w0) as [[b|e| |] w2] eqn:Eb; try done. injection E as <- <-.
      by destruct (block_ipv6_returns _ _ _ Eb).
    + unfold mbind, M_bind, emit in E. injection E as <- <-. left. by split.
Qed.

End Scope.

Section NoLeak.
Context `{H : Host} `{P : Primitives} `{PO : !PrimitivesOk} `{BO : !Base64Ok} `{I : Inet}.
Variables (u : relay_setup) (waits : list (sysres (list event))).
Hypotheses (Hw : Forall wait_ok waits) (Hsig : signalled waits).

Lemma routes_any server : routes_debts (fun _ => True) server.
Proof. intros tun_dev underlay _. by apply Forall_true. Qed.

(** No command of ip6tables touches the routes. *)
Lemma block_clear : block_debts (fun d => takes_all d = false).
Proof. by apply Forall_true. Qed.

(** Membership in a list of constants. *)
Ltac listed := vm_compute; repeat (left || right).

Lemma rules_block below : removals ip6tables (cons "-D") ipv6_rules ⊆ below -> blocks_ipv6 below.
Proof.
  intros Hsub. split; [|apply Hsub; listed]. intros prefix Hp.
  repeat (apply elem_of_cons in Hp as [->|Hp]; [split; apply Hsub; listed|]).
  by apply elem_of_nil in Hp.
Qed.

Lemma guarded_scope a server i w cs w1 :
  vpn_valid a -> identity_ok i -> owes [] w -> guard_ipv6 (va_ipv6_policy a) w = (Ret cs, w1) ->
  all_good (va_ipv6_policy a) (scoped (ChangeSet_undo_all cs) (vpn_tunnel a server i u waits)) w1.
Proof.
  intros Ha Hi Ho E. pose proof (guard_ipv6_leaves [] (va_ipv6_policy a) w Ho) as Ho1. rewrite E, app_nil_r in Ho1.
  assert (forall s, leaves s (vpn_tunnel a server i u waits) (fun _ => s) s) as Hl by (intros; by apply vpn_tunnel_leaves).
  assert (traces any (vpn_tunnel a server i u waits)) as Ht by (apply vpn_tunnel_traces; [done | apply routes_any]).
  assert (Forall removes cs) as Hrm by by eapply guard_ipv6_returns.
  assert (traces calm (ChangeSet_undo_all cs)) as Hu by by apply undo_all_traces.
  destruct (guard_ipv6_outcome _ _ _ _ E) as [[-> Hnone]|[Hpol Hcs]].
  - apply shelter_scope; try done; try (by apply Forall_nil).
    intros q below _. apply sheltered_none. intros Hpol. by apply answered_none_grows, Hnone.
  - apply shelter_scope; try done; try (rewrite Hcs; by apply Forall_fmap, Forall_true).
    intros q below Hsub. rewrite Hpol. split; [done|]. right. apply rules_block. by rewrite <- Hcs.
Qed.

Lemma vpn_try_good a server w :
  vpn_valid a -> w_trace w = [] -> all_good (va_ipv6_policy a) (vpn_try a server u waits) w.
Proof.
  intros Ha Hw0. assert (owes [] w) as Ho by by apply owes_start.
  assert (clear_world w) as Hc by (intros stack seen; rewrite Hw0; intros [= <- _]; constructor).
  assert (forall cs i, Forall removes cs ->
    traces any (scoped (ChangeSet_undo_all cs) (vpn_tunnel a server i u waits))) as Htr.
  { intros cs i Hcs. apply traces_scoped; [by apply undo_all_traces | apply vpn_tunnel_traces; [done | apply routes_any]]. }
  assert (forall r, traces any (match r with None => mret 1%Z | Some i =>
    ipv6_block ← guard_ipv6 (va_ipv6_policy a);
    scoped (ChangeSet_undo_all ipv6_block) (vpn_tunnel a server i u waits) end)) as Htr'.
  { intros [i|]; [|apply traces_ret]. eapply traces_bind_returns; [|apply guard_ipv6_returns | by intros; apply Htr].
    apply guard_ipv6_traces; [done|]. intros _. by apply Forall_true. }
  apply calm_then; [apply traces_lift | done | intros; apply traces_bind; [by apply load_identity_traces | done] |].
  intros [] w1 E1 Hc1. pose proof (init_leaves [] w Ho) as Ho1. rewrite E1 in Ho1.
  apply calm_then; [by apply load_identity_traces | done | done|]. intros r w2 E2 Hc2.
  pose proof (load_identity_leaves [] (va_private_key_path a) (va_peer_key a) w1 Ho1) as Ho2. rewrite E2 in Ho2.
  destruct r as [i|]; [|apply calm_moments; [apply traces_ret | done]].
  eapply (calm_then_returns _ _ _ (Forall removes));
    [apply guard_ipv6_traces; [done | intros _; apply block_clear] | done | apply guard_ipv6_returns | by intros; apply Htr|].
  intros cs w3 E3 _. eapply guarded_scope; [done | by eapply load_identity_returns | exact Ho2 | exact E3].
Qed.

(** The message of the handler changes nothing. *)
Lemma good_message policy p text : good policy p -> good policy (p ++ [Stderr text]).
Proof.
  intros Hp above d below seen Hb Hd. rewrite book_all_app in Hb.
  destruct (book_all ([], fresh) p) as [[s1 seen1]|] eqn:E; [|done]. injection Hb as -> ->.
  apply sheltered_grows. by eapply Hp.
Qed.

Lemma catch_good policy (m : M Z) (message : exn -> string) w :
  w_trace w = [] -> all_good policy m w ->
  all_good policy (try_catch m (fun e => _ ← emit (Stderr (message e)); mret 1%Z)) w.
Proof.
  intros Hw0 Hm p Hp Hq. unfold try_catch in Hq. unfold all_good in Hm.
  destruct (m w) as [[a|e| |] w1]; cbn in *; try by apply Hm.
  destruct Hq as [k Hk]. destruct k as [|x k _] using rev_ind; cbn in Hk.
  - rewrite app_nil_r in Hk. subst p. apply good_message, Hm; [|done]. rewrite Hw0. apply prefix_nil.
  - rewrite app_assoc in Hk. apply app_inj_tail in Hk as [Hk _]. apply Hm; [done|]. by exists k.
Qed.

End NoLeak.

(** [C11] With [--host-ipv6 refuse] or [block], no IPv6 leak around the tunnel
    at any moment of a run of the client (the policy [ignore] accepts the leak
    and is not covered): take the trace of effects up to any point and the stack
    of changes made whose removal has not been run yet.  If a route that sends half of
    the address space into the tunnel is on it, then, with [refuse], ip(8) was
    asked for a default IPv6 route and named none; with [block], it named none
    or the five ip6tables rules that keep global and unique-local packets from
    leaving, entering or being forwarded lie below, so they were added before
    the route and their removal comes after that of the route. *)
Theorem programs_ipv6_no_leak `{H : Host} `{P : Primitives} `{PO : !PrimitivesOk} `{BO : !Base64Ok} `{I : Inet}
    program args u waits w a p above d below seen :
  w_trace w = [] -> Forall wait_ok waits -> signalled waits ->
  vpn_arguments program args vpn_defaults = Run a ->
  p `prefix_of` w_trace (vpn_main program args u waits w).2 ->
  book_all ([], fresh) p = Some (above ++ d :: below, seen) -> takes_all d = true ->
  (va_ipv6_policy a = refuse -> answered_none p) /\
  (va_ipv6_policy a = block -> answered_none p \/ blocks_ipv6 below).
Proof.
  intros Hw0 Hw Hsig Harg Hp. fold (sheltered (va_ipv6_policy a) p below). revert above d below seen. unfold vpn_main in Hp. rewrite Harg in Hp.
  assert (vpn_valid a) as Ha.
  { eapply (vpn_arguments_valid_n (length args)); [done| |exact Harg]. by unfold vpn_valid, mtu_ok. }
  assert (clear_world w) as Hc by (intros stack seen; rewrite Hw0; intros [= <- _]; constructor).
  assert (forall text code, traces calm (_ ← emit (Stderr text); mret code : M Z)) as Hprint.
  { intros. by apply print_traces. }
  assert (w_trace w `prefix_of` p) as Hwp by (rewrite Hw0; apply prefix_nil).
  destruct (va_server a) as [server|]; [|by eapply calm_moments; [apply Hprint | | | exact Hp]].
  destruct (_ || _); [by eapply calm_moments; [apply Hprint | | | exact Hp]|].
  eapply (catch_good _ (vpn_try a server u waits)); [done | by apply vpn_try_good | done | exact Hp].
Qed.
