(* ===== verification/Killed.v ===== *)
(** * Killed: what is in place at any moment of a run

    [SIGKILL] runs no destructor, so what a killed process leaves behind is what
    its ledger holds at that moment, less the descriptors, which the kernel
    closes, and the changes whose removal had already failed.  The theorem bounds
    both: for the client the host route to the server, the two routes through
    the interface (which go with it) and, when told to block IPv6, the blocking
    rules; for the server the NAT rules and the forwarding sysctl. *)

From Stdlib Require Import ZArith Lia Ascii String.
From stdpp Require Import base tactics numbers list option strings gmap.
From S2P Require Import Prelude Wire Crypto Noise HandshakeProofs Net Host Netcfg NetcfgProofs Replay Session Relay.
From S2P Require Import RelayProofs RelayRuns Programs ProgramsProofs Traces.

(** ** What either program may have to undo *)

Definition left_by_client (policy : Ipv6Policy) (server : string) (d : debt) : Prop :=
  match d with
  | Close _ => True
  | Command ip args =>
      (exists underlay, ri_dev underlay <> "" /\ args = "route" :: "del" :: host_route server underlay) \/
      (exists half tun_dev, half ∈ ["0.0.0.0/1"; "128.0.0.0/1"] /\ args = ["route"; "del"; half; "dev"; tun_dev])
  | Command ip6tables args => policy = block /\ exists rule, rule ∈ ipv6_rules /\ args = "-D" :: rule
  | _ => False
  end.

Definition left_by_server (subnet : string) (d : debt) : Prop :=
  match d with
  | Close _ => True
  | Command iptables args =>
      exists tun_dev wan table spec, (table, spec) ∈ nat_rules tun_dev subnet wan /\
        args = ["-t"; table; "-D"] ++ spec
  | Restore path _ => path = ip_forward_path
  | _ => False
  end.

Lemma client_routes_debts policy server : routes_debts (left_by_client policy server) server.
Proof.
  intros tun_dev underlay Hu. unfold client_routes. apply Forall_cons. split; [left; by exists underlay|].
  apply Forall_map, Forall_forall. intros half Hh. right. by exists half, tun_dev.
Qed.

Lemma client_block_debts server : block_debts (left_by_client block server).
Proof. apply Forall_forall. intros rule Hr. split; [done|]. by exists rule. Qed.

Lemma server_nat_debts subnet : nat_debts (left_by_server subnet) subnet.
Proof.
  split; [|done]. intros tun_dev wan. apply Forall_forall. intros [table spec] Hr.
  by exists tun_dev, wan, table, spec.
Qed.

Section Killed.
Context `{H : Host} `{P : Primitives} `{PO : !PrimitivesOk} `{BO : !Base64Ok} `{I : Inet}.
Variables (u : relay_setup) (waits : list (sysres (list event))).

Lemma vpn_main_traces program args a server :
  vpn_arguments program args vpn_defaults = Run a -> va_server a = Some server ->
  traces (incurs (left_by_client (va_ipv6_policy a) (format_address server))) (vpn_main program args u waits).
Proof.
  intros Ha Hs. unfold vpn_main. rewrite Ha, Hs. destruct (_ || _); [by apply print_traces|].
  apply try_traces; [done|]. apply vpn_try_traces; [done | | apply client_routes_debts].
  intros ->. apply client_block_debts.
Qed.

Lemma vpnd_main_traces program args a subnet :
  vpnd_arguments program args vpnd_defaults = Run a -> subnet_of (vd_tun_addr a) = Some subnet ->
  traces (incurs (left_by_server subnet)) (vpnd_main program args u waits).
Proof.
  intros Ha Hs. unfold vpnd_main. rewrite Ha. destruct (_ || _); [by apply print_traces|].
  apply try_traces; [done|]. apply vpnd_try_traces; [done | | done].
  rewrite Hs. intros subnet' [= <-]. apply server_nat_debts.
Qed.

End Killed.

Section Theorems.
Context `{H : Host} `{P : Primitives} `{PO : !PrimitivesOk} `{BO : !Base64Ok} `{I : Inet}.

(** [C12] What a killed process leaves behind: stop either program after any
    effect of any run, on any machine and with any failures before.  Whatever it
    has done and not yet undone, the changes whose removal was tried and failed
    included, is one of these: an open descriptor; for the
    client, the /32 route to the server, a route of half of the address space
    through the interface, or, only with the policy [block], one of the
    five rules that block IPv6; for the server, one of the three NAT rules for
    the subnet of its tunnel address, or the sysctl [ip_forward].  (The settings
    of the interface itself are not counted: they go with the device.) *)
Theorem programs_killed program args u waits w p :
  w_trace w = [] -> Forall wait_ok waits -> signalled waits ->
  (forall a server, vpn_arguments program args vpn_defaults = Run a -> va_server a = Some server ->
     p `prefix_of` w_trace (vpn_main program args u waits w).2 ->
     exists stack n, book_all ([], fresh) p = Some (stack, n) /\
       Forall (left_by_client (va_ipv6_policy a) (format_address server)) (stack ++ stuck n)) /\
  (forall a subnet, vpnd_arguments program args vpnd_defaults = Run a -> subnet_of (vd_tun_addr a) = Some subnet ->
     subnet_of (vd_tun_addr vpnd_defaults) <> None ->
     p `prefix_of` w_trace (vpnd_main program args u waits w).2 ->
     exists stack n, book_all ([], fresh) p = Some (stack, n) /\
       Forall (left_by_server subnet) (stack ++ stuck n)).
Proof.
  intros Hw0 Hw Hsig. split.
  - intros a server Ha Hs Hp. pose proof (vpn_main_traces u waits program args a server Ha Hs) as Ht.
    destruct (vpn_main_exits program args u waits w Hw0 Hw Hsig) as (code & w' & E & _ & left & Hu & _).
    rewrite E in Hp. destruct (unwinds_prefix _ _ _ Hu Hp) as (stack & n & Hb & _).
    exists stack, n. split; [done|]. eapply (moment_debts _ (vpn_main program args u waits) w p);
      [exact Ht | done | by rewrite E | exact Hb].
  - intros a subnet Ha Hs Hd Hp. pose proof (vpnd_main_traces u waits program args a subnet Ha Hs) as Ht.
    destruct (vpnd_main_exits program args u waits w Hw0 Hw Hsig Hd) as (code & w' & E & _ & left & Hu & _).
    rewrite E in Hp. destruct (unwinds_prefix _ _ _ Hu Hp) as (stack & n & Hb & _).
    exists stack, n. split; [done|]. eapply (moment_debts _ (vpnd_main program args u waits) w p);
      [exact Ht | done | by rewrite E | exact Hb].
Qed.

End Theorems.
