(* ===== verification/Underlay.v ===== *)
(** * Underlay: the packets of the tunnel never go into the tunnel

    The client sends everything into the tunnel with two routes, so before that
    it asks ip(8) how the server is reached now and pins that answer with a /32
    route.  This file says what an answer of ip(8) names ([route_answer], against
    which the parser is proved), follows where in a run the question is asked,
    and shows that at no moment is there a route into the tunnel without the
    pinned one under it. *)

From Stdlib Require Import ZArith Lia Ascii String.
From stdpp Require Import base tactics numbers list option strings gmap.
From S2P Require Import Prelude Wire Crypto Noise HandshakeProofs Net Host Netcfg NetcfgProofs Replay Session Relay.
From S2P Require Import RelayProofs RelayRuns Programs ProgramsProofs Traces.

(** ** What ip route get says *)

(** [value] stands right after [key]. *)
Definition follows (key value : string) (ts : list string) : Prop :=
  exists before after, ts = before ++ key :: value :: after.

(** The words of the first line name a device, and a gateway unless the server
    is on the link: then no word is introduced by "via" (a "via" that is the
    name of the device introduces nothing). *)
Definition route_answer (output : string) (info : RouteInfo) : Prop :=
  let words := tokens (line_of output) in
  follows "dev" (ri_dev info) words /\ ri_dev info <> "" /\
  if String.eqb (ri_gateway info) ""
  then forall before value after, words = before ++ "via" :: value :: after -> last before = Some "dev"
  else follows "via" (ri_gateway info) words.

Lemma tokens_from_nonempty s word : Forall (fun t => t <> "") (tokens_from word s).
Proof.
  revert word. induction s as [|c s IH]; intros word; cbn [tokens_from].
  - destruct (String.eqb_spec word ""); [constructor | by repeat constructor].
  - destruct (is_space c); [|apply IH]. apply Forall_app. split; [|apply IH].
    destruct (String.eqb_spec word ""); [constructor | by repeat constructor].
Qed.

Lemma follows_here key value ts : follows key value (key :: value :: ts).
Proof. by exists [], ts. Qed.
Lemma follows_later key value t ts : follows key value ts -> follows key value (t :: ts).
Proof. intros (before & after & ->). by exists (t :: before), after. Qed.

(** Each field keeps its value or takes a word that its keyword introduces. *)
Lemma route_tokens_fields n ts info : length ts <= n ->
  (ri_dev (route_tokens info ts) = ri_dev info \/ follows "dev" (ri_dev (route_tokens info ts)) ts) /\
  (ri_gateway (route_tokens info ts) = ri_gateway info \/ follows "via" (ri_gateway (route_tokens info ts)) ts).
Proof.
  revert ts info. induction n as [|n IH]; intros [|t [|v ts]] info Hn; cbn [length] in Hn; try lia; try (split; by left).
  cbn [route_tokens]. destruct (String.eqb_spec t "via") as [->|_]; [|destruct (String.eqb_spec t "dev") as [->|_]].
  - destruct (IH ts (mkRoute (ri_dev info) v)) as [Hd Hg]; [lia|]. cbn [ri_dev ri_gateway] in *. split.
    + destruct Hd as [Hd|Hd]; [by left | right; by do 2 apply follows_later].
    + right. destruct Hg as [->|Hg]; [apply follows_here | by do 2 apply follows_later].
  - destruct (IH ts (mkRoute v (ri_gateway info))) as [Hd Hg]; [lia|]. cbn [ri_dev ri_gateway] in *. split.
    + right. destruct Hd as [->|Hd]; [apply follows_here | by do 2 apply follows_later].
    + destruct Hg as [Hg|Hg]; [by left | right; by do 2 apply follows_later].
  - destruct (IH (v :: ts) info) as [Hd Hg]; [cbn; lia|].
    split; [destruct Hd as [Hd|Hd] | destruct Hg as [Hg|Hg]]; try (by left); right; by apply follows_later.
Qed.

Lemma route_tokens_cons info t v ts :
  route_tokens info (t :: v :: ts) =
    if String.eqb t "via" then route_tokens (mkRoute (ri_dev info) v) ts
    else if String.eqb t "dev" then route_tokens (mkRoute v (ri_gateway info)) ts
    else route_tokens info (v :: ts).
Proof. done. Qed.

(** Without a gateway in the end there was no word after a "via" that was read
    as a keyword. *)
Lemma route_tokens_on_link n ts info before value after : length ts <= n ->
  Forall (fun t => t <> "") ts -> ri_gateway (route_tokens info ts) = "" ->
  ts = before ++ "via" :: value :: after -> last before = Some "dev".
Proof.
  revert ts info before. induction n as [|n IH]; intros ts info before Hn Hne Hg E.
  { rewrite E, length_app in Hn. cbn in Hn. lia. }
  assert (forall ts', follows "via" "" ts' -> Forall (fun t => t <> "") ts' -> False) as Hempty.
  { intros ts' (b & a & ->) Hf. by apply Forall_app in Hf as [_ [_ [Hf _]%Forall_cons]%Forall_cons]. }
  assert (forall info' ts', Forall (fun t => t <> "") ts' -> ri_gateway (route_tokens info' ts') = "" ->
    ri_gateway info' = "") as Hkeep.
  { intros info' ts' Hf Hr. destruct (route_tokens_fields (length ts') ts' info' (le_n _)) as [_ [<-|Hv]]; [done|].
    rewrite Hr in Hv. by destruct (Hempty _ Hv Hf). }
  subst ts. destruct before as [|t before]; [|destruct before as [|v before]]; rewrite <- ?app_comm_cons in *;
    rewrite ?app_nil_l, route_tokens_cons in Hg; apply Forall_cons in Hne as [_ Hne];
    rewrite ?last_cons; cbn [length] in Hn;
    try (apply Forall_cons in Hne as [Hv Hne]; by apply Hkeep in Hg);
    (destruct (String.eqb t "via"); [apply Forall_cons in Hne as [Hv Hne]; by apply Hkeep in Hg|]);
    destruct (String.eqb_spec t "dev") as [Ht|_]; try (by rewrite Ht).
  - assert (last (@nil string) = Some "dev") as Hl; [|done].
    eapply IH; [|exact Hne | exact Hg | reflexivity]. by apply le_S_n.
  - apply Forall_cons in Hne as [_ Hne]. assert (last before = Some "dev") as Hl; [|by rewrite Hl].
    eapply IH; [|exact Hne | exact Hg | reflexivity]. lia.
  - assert (last (v :: before) = Some "dev") as Hl; [|rewrite last_cons in Hl; by rewrite Hl].
    eapply IH; [|exact Hne | exact Hg | reflexivity]. cbn [length]. lia.
Qed.

(** What [route_to] returns is what the answer names. *)
Lemma route_tokens_answer output :
  let info := route_tokens (mkRoute "" "") (tokens (line_of output)) in
  ri_dev info <> "" -> route_answer output info.
Proof.
  cbv zeta. intros Hd. destruct (route_tokens_fields _ (tokens (line_of output)) (mkRoute "" "") (le_n _)) as [Hdev Hgw].
  split; [by destruct Hdev|]. split; [done|]. set (info := route_tokens _ _) in *. destruct (String.eqb_spec (ri_gateway info) "") as [Hg|Hg]; [|by destruct Hgw].
  intros before value after. apply (route_tokens_on_link _ _ (mkRoute "" "") _ _ _ (le_n _) (tokens_from_nonempty _ _) Hg).
Qed.

(** ** When the question is asked *)

Definition asks (server output : string) : effect := Asked ip ["route"; "get"; server] (Some output).

(** A debt that is no route. *)
Definition quiet (d : debt) : Prop := match d with Command ip _ => False | _ => True end.

(** Or one of the three routes, the first of them over [underlay]. *)
Definition over (server : string) (underlay : RouteInfo) (d : debt) : Prop :=
  quiet d \/ d = Command ip ("route" :: "del" :: host_route server underlay) \/
  exists half tun_dev, half ∈ ["0.0.0.0/1"; "128.0.0.0/1"] /\ d = Command ip ["route"; "del"; half; "dev"; tun_dev].

(** A trace that touches no route, or touches none until the question is
    answered and from there on only those over the interface of the answer. *)
Definition pinned (server : string) (t : list effect) : Prop :=
  Forall (incurs quiet) t \/
  exists before output rest underlay,
    t = before ++ asks server output :: rest /\ Forall (incurs quiet) before /\
    route_answer output underlay /\ Forall (incurs (over server underlay)) rest.

Lemma incurs_weaken (G G' : debt -> Prop) e : (forall d, G d -> G' d) -> incurs G e -> incurs G' e.
Proof.
  intros HG. destruct e; cbn [incurs]; try done; [apply HG | |].
  - unfold allowed. destruct (change tool args) as [[[] undo]|]; try done. apply HG.
  - intros [Hd|Hr]; [by left | right; intros old; by apply HG].
Qed.

Lemma quiet_over server underlay t : Forall (incurs quiet) t -> Forall (incurs (over server underlay)) t.
Proof. intros Ht. eapply Forall_impl; [exact Ht|]. intros e. apply incurs_weaken. intros d Hd. by left. Qed.

Lemma pinned_after server t q : pinned server t -> Forall (incurs quiet) q -> pinned server (t ++ q).
Proof.
  intros [Ht|(b & o & r & i & -> & Hb & Ha & Hr)] Hq; [left; by apply Forall_app|].
  right. exists b, o, (r ++ q), i. rewrite <- app_assoc. do 3 (split; [done|]).
  apply Forall_app. split; [done | by apply quiet_over].
Qed.

Lemma pinned_before server t q : Forall (incurs quiet) q -> pinned server t -> pinned server (q ++ t).
Proof.
  intros Hq [Ht|(b & o & r & i & -> & Hb & Ha & Hr)]; [left; by apply Forall_app|].
  right. exists (q ++ b), o, r, i. rewrite app_assoc. by split; [|split; [apply Forall_app|]].
Qed.

Lemma pinned_prefix server t p : pinned server t -> p `prefix_of` t -> pinned server p.
Proof.
  intros Ht [q ->]. destruct Ht as [[Hp _]%Forall_app|(b & o & r & i & E & Hb & Ha & Hr)]; [by left|].
  apply app_eq_inv in E as [(k & -> & Eq)|(k & Ep & Eq)].
  - destruct k as [|x k]; [left; by rewrite app_nil_r|]. injection Eq as <- ->. apply Forall_app in Hr as [Hk _].
    right. by exists b, o, k, i.
  - left. rewrite Ep in Hb. by apply Forall_app in Hb as [? _].
Qed.

Section Pins.
Context `{H : Host} `{P : Primitives} `{I : Inet}.
Variable server : string.

(** What [m] does is pinned, whatever the machine. *)
Definition pins {A} (m : M A) : Prop :=
  forall h, exists r h' d, pinned server d /\ forall t, m (mkWorld h t) = (r, mkWorld h' (t ++ d)).

Abbreviation calm := (traces (incurs quiet)).

Lemma pins_calm {A} (m : M A) : calm m -> pins m.
Proof. intros Hm h. destruct (Hm h) as (r & h' & d & Hd & E). exists r, h', d. split; [by left | done]. Qed.

(** Something calm that depends on how [m] ended. *)
Lemma pins_then {A B} (m : M A) (k : outcome A -> M B) (g : M B) :
  pins m -> (forall r, calm (k r)) -> (forall w, g w = k (m w).1 (m w).2) -> pins g.
Proof.
  intros Hm Hk Hg h. destruct (Hm h) as (r & h1 & d1 & F1 & E1). destruct (Hk r h1) as (r2 & h2 & d2 & F2 & E2).
  exists r2, h2, (d1 ++ d2). split; [by apply pinned_after|]. intros t. rewrite Hg, E1. cbn [fst snd].
  by rewrite E2, app_assoc.
Qed.

Lemma pins_bind {A B} (m : M A) (f : A -> M B) Q :
  calm m -> returns m Q -> (forall a, Q a -> pins (f a)) -> pins (m ≫= f).
Proof.
  intros Hm HQ Hf h. destruct (Hm h) as (r & h1 & d1 & F1 & E1). unfold mbind, M_bind.
  destruct r as [a|e| |]; [|eexists _, h1, d1; (split; [by left|]); intros t; by rewrite E1..].
  destruct (Hf a (HQ _ _ _ (E1 [])) h1) as (r2 & h2 & d2 & F2 & E2).
  exists r2, h2, (d1 ++ d2). split; [by apply pinned_before|]. intros t. by rewrite E1, E2, app_assoc.
Qed.

Lemma pins_bind_calm {A B} (m : M A) (f : A -> M B) Q :
  pins m -> returns m Q -> (forall a, Q a -> calm (f a)) -> pins (m ≫= f).
Proof.
  intros Hm HQ Hf h. destruct (Hm h) as (r & h1 & d1 & F1 & E1). unfold mbind, M_bind.
  destruct r as [a|e| |]; [|eexists _, h1, d1; (split; [done|]); intros t; by rewrite E1..].
  destruct (Hf a (HQ _ _ _ (E1 [])) h1) as (r2 & h2 & d2 & F2 & E2).
  exists r2, h2, (d1 ++ d2). split; [by apply pinned_after|]. intros t. by rewrite E1, E2, app_assoc.
Qed.

Lemma pins_scoped {A} d (m : M A) : calm d -> pins m -> pins (scoped d m).
Proof.
  intros Hd Hm. apply (pins_then m (fun r w => match r with Ret _ | Raise _ => (r, (d w).2) | _ => (r, w) end));
    [done | intros []; [by apply traces_after | by apply traces_after | apply traces_fails..] |].
  intros w. unfold scoped. by destruct (m w) as [[] w'].
Qed.

Lemma pins_catch {A} (m : M A) h : pins m -> (forall e, calm (h e)) -> pins (try_catch m h).
Proof.
  intros Hm Hh. apply (pins_then m (fun r => match r with Raise e => h e | _ => fun w => (r, w) end));
    [done | intros []; [apply traces_fails | apply Hh | apply traces_fails..] |].
  intros w. unfold try_catch. by destruct (m w) as [[] w'].
Qed.

(** *** The client *)

Lemma quiet_close fd : quiet (Close fd).
Proof. done. Qed.
Lemma over_close underlay fd : over server underlay (Close fd).
Proof. by left. Qed.

Lemma client_routes_over tun_dev underlay :
  Forall (fun spec => over server underlay (Command ip ("route" :: "del" :: spec))) (client_routes tun_dev server underlay).
Proof.
  constructor; [by right; left|]. apply Forall_map, Forall_forall. intros half Hh. right; right. by exists half, tun_dev.
Qed.

(** The question, and what is done with the answer. *)
Lemma pins_ask {B} (k : string -> M B) :
  (forall output, calm (k output) \/
     exists underlay, route_answer output underlay /\ traces (incurs (over server underlay)) (k output)) ->
  pins (run_capture ip ["route"; "get"; server] ≫= k).
Proof.
  intros Hk h. unfold run_capture, recorded, mbind at 1, M_bind at 1.
  set (inner := prog ← binary_for ip; spawn_and_wait prog ["route"; "get"; server] true).
  assert (calm inner) as Hi.
  { unfold inner. ghost; [by apply binary_for_traces | by apply spawn_and_wait_traces]. }
  destruct (Hi h) as (r & h1 & d1 & F1 & E1).
  destruct r as [output|e| |]; [|exists (Raise e), h1, (d1 ++ [Asked ip ["route"; "get"; server] None])
    |eexists _, h1, d1; (split; [by left|]); intros t; by rewrite E1..].
  2: { split; [left; apply Forall_app; by repeat constructor|]. intros t. rewrite E1. cbn. by rewrite app_assoc. }
  destruct (Hk output) as [Hq|(underlay & Ha & Ho)].
  - destruct (Hq h1) as (r2 & h2 & d2 & F2 & E2). exists r2, h2, (d1 ++ asks server output :: d2).
    split; [left; apply Forall_app; by repeat constructor|]. intros t. rewrite E1. cbn. rewrite E2.
    by rewrite <- !app_assoc.
  - destruct (Ho h1) as (r2 & h2 & d2 & F2 & E2). exists r2, h2, (d1 ++ asks server output :: d2).
    split; [right; by exists d1, output, d2, underlay|]. intros t. rewrite E1. cbn. rewrite E2.
    by rewrite <- !app_assoc.
Qed.

Lemma pins_ext {A} (m g : M A) : pins m -> (forall w, g w = m w) -> pins g.
Proof.
  intros Hm Hg h. destruct (Hm h) as (r & h' & d & Hd & E). exists r, h', d. split; [done|].
  intros t. by rewrite Hg.
Qed.

Lemma pins_route_to {B} (install : RouteInfo -> M B) :
  (forall underlay, traces (incurs (over server underlay)) (install underlay)) ->
  pins (route_to server ≫= install).
Proof.
  intros Ho. eapply (pins_ext (run_capture ip ["route"; "get"; server] ≫= (fun output =>
    (if String.eqb output "" then raise (runtime_error ("ip route get " +:+ server +:+ ": no output")) else
     let line := line_of output in
     let info := route_tokens (mkRoute "" "") (tokens line) in
     if String.eqb (ri_dev info) "" then
       raise (runtime_error ("could not work out which interface reaches " +:+ server +:+
                             " (ip route get said: " +:+ line +:+ ")"))
     else mret info) ≫= install))).
  2: { intros w. unfold route_to, mbind, M_bind. by destruct (run_capture _ _ w) as [[] ?]. }
  apply pins_ask. intros output. assert (forall e, calm ((raise e : M RouteInfo) ≫= install)) as Hr.
  { intros e. apply (traces_fails _ (Raise e)). }
  destruct (String.eqb output ""); [left; apply Hr|]. cbv zeta.
  set (info := route_tokens _ _). destruct (String.eqb_spec (ri_dev info) "") as [Hd|Hd]; [left; apply Hr|].
  right. exists info. split; [by apply route_tokens_answer | apply Ho].
Qed.

Lemma install_client_routes_pins tun_dev : pins (install_client_routes tun_dev server).
Proof.
  apply pins_route_to. intros underlay. apply traces_bind; [|ghost; by apply emit_traces; first [apply over_close | done]].
  apply (add_all_traces _ (over_close underlay) (map route_change _)); [by apply Forall_nil | apply routes_reversible|].
  apply Forall_map, client_routes_over.
Qed.

End Pins.

Section Client.
Context `{H : Host} `{P : Primitives} `{I : Inet}.

Lemma vpn_tunnel_pins a server i u waits : pins (format_address server) (vpn_tunnel a server i u waits).
Proof.
  eapply pins_bind; [apply TunDevice_open_traces, quiet_close | apply returns_any|]. intros tun _.
  apply pins_scoped; [apply destroy_traces, quiet_close|].
  eapply pins_bind; [apply configure_interface_traces, quiet_close | apply returns_any|]. intros [] _.
  eapply pins_bind; [apply bind_any_traces, quiet_close | apply returns_any|]. intros sock _.
  apply pins_scoped; [apply destroy_traces, quiet_close|].
  eapply pins_bind_calm; [| apply routes_returns|].
  - destruct (va_install_routes a); [|apply pins_calm, traces_ret].
    eapply pins_bind_calm; [apply install_client_routes_pins | apply returns_any|].
    intros r _. apply assign_fresh_traces, quiet_close.
  - intros routes Hrs. apply traces_scoped; [apply undo_all_traces; [apply quiet_close | done]|].
    apply (serve_traces _ quiet_close sock (fun port => _)).
Qed.

Lemma quiet_block : block_debts quiet.
Proof. by apply Forall_true. Qed.

Lemma vpn_main_pins program args u waits a server :
  vpn_arguments program args vpn_defaults = Run a -> va_server a = Some server ->
  pins (format_address server) (vpn_main program args u waits).
Proof.
  intros Ha Hs. unfold vpn_main. rewrite Ha, Hs.
  destruct (_ || _); [apply pins_calm, print_traces, quiet_close|].
  apply pins_catch; [|intros e; apply print_traces, quiet_close].
  eapply pins_bind; [apply traces_lift | apply returns_any|]. intros [] _.
  eapply pins_bind; [apply load_identity_traces, quiet_close | apply returns_any|].
  intros [i|] _; [|apply pins_calm, traces_ret].
  eapply pins_bind; [apply guard_ipv6_traces; [apply quiet_close | intros _; apply quiet_block] | apply guard_ipv6_returns|].
  intros cs Hcs. apply pins_scoped; [apply undo_all_traces; [apply quiet_close | done] | apply vpn_tunnel_pins].
Qed.

(** ** The ledger *)

Lemma over_keeps server underlay d :
  over server underlay d -> keeps_underlay d = true ->
  d = Command ip ("route" :: "del" :: host_route server underlay).
Proof.
  intros [Hq|[->|(half & tun & Hh & ->)]] Hk; [by destruct d as [|[]|] | done|].
  cbn in Hk. repeat (apply elem_of_cons in Hh as [->|Hh]; [done|]). by apply elem_of_nil in Hh.
Qed.

Lemma quiet_takes d : quiet d -> takes_all d = false.
Proof. by destruct d as [|[]|]. Qed.

(** No route is added in a part that owes none. *)
Lemma quiet_no_route t : Forall (incurs quiet) t -> forall args ok, Ran ip ("route" :: "add" :: args) ok ∉ t.
Proof. intros Ht args ok Hin. rewrite Forall_forall in Ht. exact (Ht _ Hin). Qed.

End Client.

Section Theorem_.
Context `{H : Host} `{P : Primitives} `{PO : !PrimitivesOk} `{BO : !Base64Ok} `{I : Inet}.

(** [C10] No routing loop at any moment of a run of the client: take the trace
    of effects up to any point, while routes are being added, after a failure
    half way, during the relay or while everything is taken out again, and the
    stack of changes made whose removal has not been run yet.  If a route that
    sends half of the address space into the tunnel is on it, then ip(8) was
    asked for the route to the server given on the command line before any
    route had been added, its answer names a device (and a gateway, unless the
    server is on the link), and below, so added before and removed after, is
    the /32 route to the server over exactly that device and gateway. *)
Theorem programs_no_routing_loop program args u waits w a server p :
  w_trace w = [] -> Forall wait_ok waits -> signalled waits ->
  vpn_arguments program args vpn_defaults = Run a -> va_server a = Some server ->
  p `prefix_of` w_trace (vpn_main program args u waits w).2 ->
  exists stack n, book_all ([], fresh) p = Some (stack, n) /\
    forall above d below, stack = above ++ d :: below -> takes_all d = true ->
      exists before output rest underlay,
        p = before ++ Asked ip ["route"; "get"; format_address server] (Some output) :: rest /\
        (forall args ok, Ran ip ("route" :: "add" :: args) ok ∉ before) /\
        route_answer output underlay /\
        Command ip ("route" :: "del" :: host_route (format_address server) underlay) ∈ below.
Proof.
  intros Hw0 Hw Hsig Ha Hs Hp. pose proof (vpn_main_pins program args u waits a server Ha Hs) as Ht.
  destruct (vpn_main_exits program args u waits w Hw0 Hw Hsig) as (code & w' & E & _ & left & Hu & _).
  destruct w as [h t]. cbn in Hw0. subst t. destruct (Ht h) as (r & h' & d & Hd & Et).
  rewrite E in Hp. rewrite (Et []) in E. injection E as _ <-. cbn [snd w_trace app] in Hp, Hu.
  destruct (unwinds_prefix _ _ _ Hu Hp) as (stack & n & Hb & Hl). exists stack, n. split; [done|].
  intros above d0 below -> Hd0. destruct (loop_free_below _ _ _ Hl Hd0) as (d' & Hin & Hk).
  destruct (pinned_prefix _ _ _ Hd Hp) as [Hq|(before & output & rest & underlay & -> & Hq & Ha' & Ho)].
  - apply (stack_incurs _ _ _ _ _ _ Hq) in Hb; [|constructor]. apply Forall_app in Hb as [_ [Hb _]%Forall_cons].
    by rewrite (quiet_takes _ Hb) in Hd0.
  - exists before, output, rest, underlay. split; [done|]. split; [by apply quiet_no_route|]. split; [done|].
    assert (Forall (incurs (over (format_address server) underlay)) (before ++ asks (format_address server) output :: rest)) as Hall.
    { apply Forall_app. split; [by apply quiet_over | by constructor]. }
    apply (stack_incurs _ _ _ _ _ _ Hall) in Hb; [|constructor]. apply Forall_app in Hb as [_ [_ Hb]%Forall_cons].
    rewrite Forall_forall in Hb. by rewrite <- (over_keeps _ _ _ (Hb _ Hin) Hk).
Qed.

End Theorem_.
