(* ===== verification/ProgramsWitnesses.v ===== *)
(** * ProgramsWitnesses: the theorems on the machine and the programs, evaluated

    [toy_host] is a machine with every tool installed, a key file, forwarding
    off and descriptors numbered from 3; the children whose arguments satisfy
    [fails] exit with status 1. *)

From Stdlib Require Import ZArith Lia Ascii String.
From stdpp Require Import base tactics numbers list option strings gmap relations.
From S2P Require Import Prelude Wire Crypto Toy Noise HandshakeProofs Net Host Ownership Netcfg NetcfgProofs Restore Replay Session Relay.
From S2P Require Import RelayProofs RelayRuns Programs ProgramsProofs ProgramsRestore Traces Ipv6 Killed Underlay.

Record machine : Type := mkMachine { mc_forward : string; mc_next_fd : nat }.

Definition toy_output (argv : list string) : string :=
  match argv with
  | [_; "route"; "get"; a] => a +:+ " via 10.1.0.1 dev eth0 src 10.1.0.2 uid 0" +:+ newline
  | _ => ""
  end.

Definition toy_file (m : machine) (path : string) : string :=
  if String.eqb path ip_forward_path then mc_forward m +:+ newline
  else to_base64 (P := toy) (demo_key 7) +:+ newline.

Definition toy_next (m : machine) : sysres nat * machine :=
  (SysOk (mc_next_fd m), mkMachine (mc_forward m) (S (mc_next_fd m))).

Definition toy_host (fails : list string -> bool) : Host := {|
  host := machine;
  h_access _ _ _ := true;
  h_stat _ _ := Some 384%Z;
  h_read m path := Some (toy_file m path);
  h_write m path text :=
    (true, if String.eqb path ip_forward_path then mkMachine (line_of text) (mc_next_fd m) else m);
  h_spawn_setup m := mkSpawnSetup 0 (SysOk (mc_next_fd m, S (mc_next_fd m))) 0;
  h_spawn m _ argv _ _ :=
    (inr (mkChild [SysErr EINTR; SysOk (toy_output argv)] [EINTR] (if fails argv then 256%Z else 0%Z)), m);
  h_open m _ := toy_next m;
  h_tunsetiff m _ name := (SysOk name, m);
  h_socket m := toy_next m;
  h_signalfd m := toy_next m;
  h_epoll_create1 m := toy_next m;
  h_bind m _ _ := (SysOk tt, m);
  h_getsockname _ _ := SysOk (mkAddr 0 (htons 51820));
  h_close m _ := m;
  h_strerror _ := "error"
|}.

Definition never (_ : list string) : bool := false.
Definition second_half (argv : list string) : bool := existsb (String.eqb "128.0.0.0/1") argv.

Definition boot (fails : list string -> bool) : World (H := toy_host fails) :=
  mkWorld (H := toy_host fails) (mkMachine "0" 3) [].


Lemma netcfg_subnet_of_witness :
  subnet_of (I := toy_inet) "10.9.0.2/24" = Some "xxxxxxxx/24" /\
  subnet_of (I := toy_inet) "xxxxxxxx/24" = Some "xxxxxxxx/24".
Proof.
  split; [vm_compute; reflexivity|].
  destruct (netcfg_subnet_of (I := toy_inet) (IO := toy_inet_ok) "10.9.0.2/24" "xxxxxxxx/24")
    as (h & pt & a & p & n & _ & _ & _ & _ & _ & _ & _ & Hid); [vm_compute; reflexivity | exact Hid].
Defined.

Definition quiet_setup : relay_setup :=
  mkSetup (SysOk tt) (SysOk tt) (SysOk tt) (SysOk tt).
Definition stop : list (sysres (list event)) := [SysErr EINTR; SysOk [OnSignal (Some 15%Z)]].

Lemma stop_ok : Forall wait_ok stop /\ signalled stop.
Proof.
  split; [repeat constructor|]. exists [OnSignal (Some 15%Z)], (Some 15%Z).
  split; [right; left | left].
Qed.

Definition peer_key_text : string := to_base64 (P := toy) (demo_key 9).

Definition client_args : list string :=
  ["--server"; "10.0.0.1:51820"; "--private-key"; "k"; "--peer-key"; peer_key_text].
Definition server_args : list string := ["--mtu"; "1400"; "--private-key"; "k"; "--peer-key"; peer_key_text].

Definition removals_fail (argv : list string) : bool := existsb (String.eqb "del") argv.


(** The same run, up to the moment the second half of the address space is routed. *)
Fixpoint upto (stop : effect -> bool) (t : list effect) : list effect :=
  match t with
  | [] => []
  | e :: t => if stop e then [e] else e :: upto stop t
  end.

Lemma upto_prefix stop t : upto stop t `prefix_of` t.
Proof.
  induction t as [|e t IH]; [done|]. cbn. destruct (stop e); [by exists t | by apply prefix_cons].
Qed.

Definition routes_second_half (e : effect) : bool :=
  match e with Ran ip ["route"; "add"; "128.0.0.0/1"; _; _] _ => true | _ => false end.

Definition client_trace : list effect :=
  w_trace (vpn_main (H := toy_host never) (P := toy) (I := toy_inet) "vpn" client_args
      quiet_setup stop (boot never)).2.

Definition demo_server : sockaddr_in := default (mkAddr 0 0) (parse_endpoint (I := toy_inet) "10.0.0.1:51820").
Definition client_settings : vpn_settings :=
  mkVpn "tun0" "10.9.0.2/24" kDefaultTunnelMtu 0 true refuse "k" peer_key_text (Some demo_server).

(** Above the other half, the route to the server as ip(8) named it, the socket
    and the device. *)
Lemma programs_no_routing_loop_witness :
  exists below n underlay output, book_all ([], fresh) (upto routes_second_half client_trace)
      = Some (Command ip ["route"; "del"; "128.0.0.0/1"; "dev"; "tun0"] :: below, n) /\
    length below = 4 /\ asks (format_address (I := toy_inet) demo_server) output ∈ client_trace /\
    route_answer output underlay /\
    Command ip ("route" :: "del" :: host_route (format_address (I := toy_inet) demo_server) underlay) ∈ below.
Proof.
  destruct (programs_no_routing_loop (H := toy_host never) (P := toy) (I := toy_inet) "vpn" client_args
      quiet_setup stop (boot never) client_settings demo_server (upto routes_second_half client_trace))
    as (stack & n & Hb & Hl);
    [reflexivity | apply stop_ok | apply stop_ok | vm_compute; reflexivity | reflexivity | apply upto_prefix|].
  assert (exists below, stack = Command ip ["route"; "del"; "128.0.0.0/1"; "dev"; "tun0"] :: below /\
            length below = 4) as (below & -> & Hlen).
  { revert Hb. vm_compute. intros [= <- <-]. eexists. by split. }
  destruct (Hl [] _ below eq_refl eq_refl) as (before & output & rest & underlay & Hp & _ & Ha & Hin).
  exists below, n, underlay, output. split; [exact Hb|]. split; [exact Hlen|]. split; [|by split].
  destruct (upto_prefix routes_second_half client_trace) as [q ->]. rewrite Hp.
  apply elem_of_app. left. apply elem_of_app. right. left.
Defined.

(** Both runs go all the way: routes, rules and forwarding are really installed. *)
Example client_run_installs :
  let '(r, w) := vpn_main (H := toy_host never) (P := toy) (I := toy_inet) "vpn"
      ["--server"; "10.0.0.1:51820"; "--private-key"; "k"; "--peer-key"; peer_key_text]
      quiet_setup stop (boot never) in
  r = Ret 0%Z /\ Ran ip ["route"; "add"; "0.0.0.0/1"; "dev"; "tun0"] true ∈ w_trace w.
Proof. vm_compute. split; [reflexivity|]. repeat (left || right). Qed.

Example server_run_installs :
  let '(r, w) := vpnd_main (H := toy_host never) (P := toy) (I := toy_inet) "vpnd"
      ["--mtu"; "1400"; "--private-key"; "k"; "--peer-key"; peer_key_text]
      quiet_setup stop (boot never) in
  r = Ret 0%Z /\ Wrote ip_forward_path "1" true ∈ w_trace w /\ Wrote ip_forward_path "0" true ∈ w_trace w.
Proof. vm_compute. split; [reflexivity|]. split; repeat (left || right). Qed.

Lemma programs_key_roundtrip_witness :
  exists k pub line, generate_keypair (P := toy) (demo_key 3) = Ok (k, pub) /\
    vpnkey_main (P := toy) (fun _ => "error") "vpnkey" ["genkey"] 0 (demo_key 3) "" = Ok (mkPrinted 0 line "").
Proof.
  destruct (programs_key_roundtrip (P := toy) (fun _ => "error") "vpnkey" (demo_key 3) 1 [] (demo_key 5))
    as (k & pub & line & H1 & H2 & _); [reflexivity || (vm_compute; discriminate) | by_dec | by_dec |].
  exists k, pub, line. by split.
Defined.

(** ** A machine with routing and filter tables *)

(** Its tools keep the tables; for additions that satisfy [fails] no process can
    be started. *)
Record tables : Type := mkTables {
  tb_file : string -> option string;
  tb_installed : Tool -> list (list string)
}.

Definition set_table (m : tables) (tool : Tool) (l : list (list string)) : tables :=
  mkTables (tb_file m) (fun t => if decide (t = tool) then l else tb_installed m t).

Definition tool_at (path : string) : Tool :=
  if existsb (String.eqb path) kIp then ip
  else if existsb (String.eqb path) kIptables then iptables else ip6tables.

(** posix_spawn answers EAGAIN. *)
Definition refused (fails : list string -> bool) (args : list string) : bool :=
  fails args && existsb (fun a => String.eqb a "add" || String.eqb a "-A") args.

Definition run_tool (m : tables) (tool : Tool) (args : list string) : bool * tables :=
  let l := tb_installed m tool in
  match change tool args with
  | Some (true, undo) =>
      if bool_decide (tool = ip /\ undo ∈ l) then (false, m)
      else (true, set_table m tool (l ++ [undo]))
  | Some (false, undo) =>
      if bool_decide (undo ∈ l) then (true, set_table m tool (remove_first undo l)) else (false, m)
  | None => (true, m)
  end.

Definition table_output (argv : list string) : string :=
  match argv with
  | [_; "-6"; _; _; _] => "default via fe80::1 dev eth0" +:+ newline
  | _ => toy_output argv
  end.

Definition table_host (fails : list string -> bool) : Host := {|
  host := tables;
  h_access _ _ _ := true;
  h_stat _ _ := Some 384%Z;
  h_read m path := tb_file m path;
  h_write m path text :=
    (true, mkTables (fun p => if String.eqb p path then Some text else tb_file m p) (tb_installed m));
  h_spawn_setup m := mkSpawnSetup 0 (SysOk (7, 8)) 0;
  h_spawn m path argv _ _ :=
    if refused fails argv then (inl 11%Z, m) else
    let '(ok, m) := run_tool m (tool_at path) (tail argv) in
    (inr (mkChild [SysOk (table_output argv)] [EINTR] (if (ok : bool) then 0%Z else 256%Z)), m);
  h_open m _ := (SysOk 3, m);
  h_tunsetiff m _ name := (SysOk name, m);
  h_socket m := (SysOk 4, m);
  h_signalfd m := (SysOk 5, m);
  h_epoll_create1 m := (SysOk 6, m);
  h_bind m _ _ := (SysOk tt, m);
  h_getsockname _ _ := SysOk (mkAddr 0 (htons 51820));
  h_close m fd :=
    set_table m ip (filter (fun e => Nat.eqb fd 3 && bool_decide ("tun0" ∈ e) = false) (tb_installed m ip));
  h_strerror _ := "error"
|}.

#[local] Instance table_machine fails : Machine (H := table_host fails) :=
  {| installed := (tb_installed : @host (table_host fails) -> _);
     through := (fun _ fd e => Nat.eqb fd 3 && bool_decide ("tun0" ∈ e)) |}.

Lemma tool_at_candidate tool path : path ∈ candidates tool -> tool_at path = tool.
Proof.
  intros Hp. destruct tool; cbn [candidates] in Hp; unfold kIp, kIptables, kIp6tables in Hp;
    (repeat (apply elem_of_cons in Hp as [->|Hp]; [reflexivity|])); by apply elem_of_nil in Hp.
Qed.

Lemma run_tool_spec fails m tool args :
  ran (H := table_host fails) tool args (run_tool m tool args).1 m (run_tool m tool args).2.
Proof.
  unfold run_tool, ran, only, same_files. destruct (change tool args) as [[[] undo]|]; [| |done].
  - case_bool_decide as E; cbn; [done|]. split; [split; [done|]; intros; by rewrite decide_False|].
    rewrite decide_True by done. split; [done|]. intros -> Hin. by apply E.
  - case_bool_decide; cbn; [|done]. split; [split; [done|]; intros; by rewrite decide_False|].
    by rewrite decide_True.
Qed.

#[local] Instance table_machine_ok fails : MachineOk (H := table_host fails).
Proof.
  split; try done.
  - intros h tool path args piped Hp. cbn [h_spawn table_host tail]. rewrite (tool_at_candidate _ _ Hp).
    destruct (refused fails (path :: args)); [done|].
    pose proof (run_tool_spec fails h tool args) as Hs. destruct (run_tool h tool args) as [ok m'].
    split; [apply Hs|]. intros _. by destruct ok.
  - intros h path text. cbn. rewrite String.eqb_refl. split; [done|]. split; [|done].
    intros other Hne. by rewrite (proj2 (String.eqb_neq _ _) Hne).
  - intros h fd h' e [= <- _]. reflexivity.
  - intros h fd h' e [= <- _]. reflexivity.
  - intros h fd tool Hne. cbn. by rewrite decide_False.
Qed.

(** A machine with a default route and a filter rule, forwarding off, IPv6 in
    use and no route to the other half of the Internet. *)
Definition table_boot (fails : list string -> bool) : World (H := table_host fails) :=
  mkWorld (H := table_host fails)
    (mkTables (fun p => Some (if String.eqb p ip_forward_path then "0" +:+ newline
                              else to_base64 (P := toy) (demo_key 7) +:+ newline))
       (fun t => if decide (t = ip) then [["route"; "del"; "default"; "dev"; "eth0"]]
                 else [["-t"; "filter"; "-D"; "INPUT"; "-j"; "DROP"]])) [].

Lemma table_client_start fails : client_start (w_host (table_boot fails)).
Proof.
  split.
  - intros e h' fd He. apply list_elem_of_singleton in He as ->. cbn. by rewrite andb_false_r.
  - intros spec Hs Hin. apply list_elem_of_singleton in Hin. discriminate Hin.
Qed.

Lemma table_server_start fails : server_start (w_host (table_boot fails)).
Proof.
  split; [apply table_client_start|]. intros tun subnet wan table spec Hs Hin.
  apply list_elem_of_singleton in Hin. unfold nat_rules in Hs.
  repeat (apply elem_of_cons in Hs as [Hs|Hs]; [injection Hs as -> ->; discriminate Hin|]).
  by apply elem_of_nil in Hs.
Qed.

Definition table_client : M Z (H := table_host second_half) :=
  vpn_main (H := table_host second_half) (P := toy) (I := toy_inet) "vpn"
    ["--server"; "10.0.0.1:51820"; "--host-ipv6"; "block"; "--private-key"; "k"; "--peer-key"; peer_key_text]
    quiet_setup stop.
Definition table_server : M Z (H := table_host never) :=
  vpnd_main (H := table_host never) (P := toy) (I := toy_inet) "vpnd"
    ["--mtu"; "1400"; "--private-key"; "k"; "--peer-key"; peer_key_text] quiet_setup stop.

(** Both runs are clean; in the client's, the process for its third route could
    not be started. *)
Lemma programs_restore_machine_witness :
  (exists code w', table_client (table_boot second_half) = (Ret code, w') /\
     clean (w_trace w') /\ same_config (w_host (table_boot second_half)) (w_host w')) /\
  (exists code w', table_server (table_boot never) = (Ret code, w') /\
     clean (w_trace w') /\ same_config (w_host (table_boot never)) (w_host w')).
Proof.
  split.
  - destruct (proj1 (programs_restore_machine (H := table_host second_half) (P := toy) (N := toy_inet) "vpn"
      ["--server"; "10.0.0.1:51820"; "--host-ipv6"; "block"; "--private-key"; "k"; "--peer-key"; peer_key_text]
      quiet_setup stop (table_boot second_half) ltac:(reflexivity) (proj1 stop_ok) (proj2 stop_ok)) (table_client_start _))
      as (code & w' & E & Hc).
    assert (clean (w_trace w')) as Hcl.
    { apply (f_equal snd) in E. cbn [snd] in E. rewrite <- E. refine (bool_decide_unpack _ _). by vm_compute. }
    exists code, w'. split; [exact E|]. split; [exact Hcl | exact (Hc Hcl)].
  - destruct (proj2 (programs_restore_machine (H := table_host never) (P := toy) (N := toy_inet) "vpnd"
      ["--mtu"; "1400"; "--private-key"; "k"; "--peer-key"; peer_key_text]
      quiet_setup stop (table_boot never) ltac:(reflexivity) (proj1 stop_ok) (proj2 stop_ok)) (table_server_start _))
      as (code & w' & E & Hc); [vm_compute; discriminate|].
    assert (clean (w_trace w')) as Hcl.
    { apply (f_equal snd) in E. cbn [snd] in E. rewrite <- E. refine (bool_decide_unpack _ _). by vm_compute. }
    exists code, w'. split; [exact E|]. split; [exact Hcl | exact (Hc Hcl)].
Defined.

(** The runs do reach the tables: the client's fails at its third route, the
    server's installs its rules; both are as before at the end. *)
Example table_runs :
  let c := table_client (table_boot second_half) in
  let s := table_server (table_boot never) in
  c.1 = Ret 1%Z /\ Ran ip6tables ["-A"; "FORWARD"; "-j"; "DROP"] true ∈ w_trace c.2 /\
  Ran ip ["route"; "add"; "0.0.0.0/1"; "dev"; "tun0"] true ∈ w_trace c.2 /\
  s.1 = Ret 0%Z /\ Wrote ip_forward_path "1" true ∈ w_trace s.2.
Proof. vm_compute. split; [reflexivity|]. split; [repeat (left || right)|]. split; [repeat (left || right)|].
  split; [reflexivity|]. repeat (left || right). Qed.

(** On a host with IPv6, with everything routed into the tunnel: nine changes
    below the last route, the rule that drops forwarded packets among them. *)
Definition block_args : list string :=
  ["--server"; "10.0.0.1:51820"; "--host-ipv6"; "block"; "--private-key"; "k"; "--peer-key"; peer_key_text].

Definition block_settings : vpn_settings :=
  mkVpn "tun0" "10.9.0.2/24" kDefaultTunnelMtu 0 true block "k" peer_key_text (Some demo_server).

Definition block_moment : list effect :=
  upto routes_second_half (w_trace (vpn_main (H := table_host never) (P := toy) (I := toy_inet) "vpn"
      block_args quiet_setup stop (table_boot never)).2).

Definition block_stack : list debt := default [] (fst <$> book_all ([], fresh) block_moment).

Definition block_notes : notes := default fresh (snd <$> book_all ([], fresh) block_moment).

Lemma programs_ipv6_no_leak_witness :
  length (tail block_stack) = 9 /\ (answered_none block_moment \/ blocks_ipv6 (tail block_stack)).
Proof.
  split; [vm_compute; reflexivity|].
  apply (proj2 (programs_ipv6_no_leak (H := table_host never) (P := toy) (I := toy_inet) "vpn" block_args quiet_setup stop
           (table_boot never) block_settings block_moment [] (default (Close 0) (head block_stack))
           (tail block_stack) block_notes ltac:(reflexivity) (proj1 stop_ok) (proj2 stop_ok) ltac:(vm_compute; reflexivity)
           (upto_prefix _ _) ltac:(vm_compute; reflexivity) ltac:(vm_compute; reflexivity))); reflexivity.
Defined.

(** Killed at that moment, the client leaves the rules that block IPv6 behind. *)
Lemma programs_killed_witness :
  Command ip6tables ["-D"; "FORWARD"; "-j"; "DROP"] ∈ block_stack /\
  exists stack n, book_all ([], fresh) block_moment = Some (stack, n) /\
    Forall (left_by_client block (format_address (I := toy_inet) demo_server)) (stack ++ stuck n).
Proof.
  split; [vm_compute; repeat (left || right)|].
  apply (proj1 (programs_killed (H := table_host never) (P := toy) (I := toy_inet) "vpn" block_args quiet_setup stop
           (table_boot never) block_moment ltac:(reflexivity) (proj1 stop_ok) (proj2 stop_ok)) block_settings demo_server);
    [vm_compute; reflexivity | reflexivity | apply upto_prefix].
Defined.

(** ** Objects *)

(** A socket is opened into one object, moved into another, assigned to itself
    and destroyed after the first. *)
Definition socket_open : World (H := toy_host never) :=
  mkWorld (H := toy_host never) (mkMachine "0" 4) [Opened 3].
Definition socket_closed : World (H := toy_host never) :=
  mkWorld (H := toy_host never) (mkMachine "0" 4) [Opened 3; Closed 3].

Lemma socket_history :
  rtc (fd_step (H := toy_host never)) (∅, mkWorld (H := toy_host never) (mkMachine "0" 3) []) (∅, socket_closed).
Proof.
  eapply rtc_l; [apply (fd_acquire _ _ 0 h_socket 3%Z 0%Z socket_open)|].
  { reflexivity. } { intros O [= <-]. set_solver. } { reflexivity. }
  eapply rtc_l; [apply (fd_default _ _ 1)|]. { reflexivity. }
  eapply rtc_l; [apply (fd_assign _ _ 1 0 {[0 := (-1)%Z; 1 := 3%Z]} socket_open)|]. { reflexivity. }
  eapply rtc_l; [apply (fd_assign _ _ 1 1 {[0 := (-1)%Z; 1 := 3%Z]} socket_open)|]. { reflexivity. }
  eapply rtc_l; [apply (fd_destroy _ _ 0 (-1)%Z socket_open)|]. { reflexivity. } { reflexivity. }
  eapply rtc_l; [apply (fd_destroy _ _ 1 3%Z socket_closed)|]. { reflexivity. } { reflexivity. }
  apply rtc_refl.
Qed.

Lemma fd_ownership_witness :
  exists O, open_fds (w_trace socket_closed) = Some O /\ O = ∅.
Proof.
  destruct (fd_ownership (H := toy_host never) (mkMachine "0" 3) ∅ socket_closed socket_history)
    as (O & HO & _ & Hn).
  exists O. split; [exact HO | exact (Hn eq_refl)].
Defined.

(** Memory that is unmapped when it is freed. *)
Definition demo_free (mem : gmap nat cell) (p : nat) : gmap nat cell := foldr delete mem (seq p LockedKey_size).

Lemma demo_free_lookup mem p a :
  demo_free mem p !! a = if decide (p <= a < p + LockedKey_size) then None else mem !! a.
Proof.
  unfold demo_free. generalize LockedKey_size as n. intros n. revert p.
  induction n as [|n IH]; intros p; cbn [seq foldr]; [by rewrite decide_False by lia|].
  destruct (decide (a = p)) as [->|Hne].
  - rewrite lookup_delete_eq, decide_True by lia. done.
  - rewrite lookup_delete_ne, IH by done. by repeat case_decide; try lia.
Qed.

Lemma demo_laws :
  (forall mem p n a, p <= a < p + n -> zero_bytes mem p n !! a = Some (mkCell 0 false)) /\
  (forall mem p n a, ~ p <= a < p + n -> zero_bytes mem p n !! a = mem !! a) /\
  (forall mem p a, demo_free mem p !! a = mem !! a \/ demo_free mem p !! a = None) /\
  (forall mem p a, ~ p <= a < p + LockedKey_size -> demo_free mem p !! a = mem !! a).
Proof.
  split; [intros mem p n a Ha; rewrite zero_bytes_lookup; by rewrite decide_True|].
  split; [intros mem p n a Ha; rewrite zero_bytes_lookup; by rewrite decide_False|].
  split; intros mem p a; rewrite demo_free_lookup; [case_decide; auto | by intros; rewrite decide_False].
Qed.

(** A buffer at 100 is written and destroyed; a locked key is then made over
    the place where it was, and written. *)
Definition demo_memory (step : nat) : gmap nat cell :=
  let m1 := zero_bytes ∅ 100 4 in
  let m2 := <[102 := mkCell 7 true]> m1 in
  let m3 := zero_bytes m2 100 4 in
  let m4 := zero_bytes m3 98 LockedKey_size in
  let m5 := <[103 := mkCell 9 true]> m4 in
  match step with 1 => m1 | 2 => m2 | 3 => m3 | 4 => m4 | _ => m5 end.

Lemma key_history :
  rtc (storage_step zero_bytes demo_free) (∅, ∅) (demo_memory 5, {[1 := Locked (Some 98)]}).
Proof.
  eapply rtc_l; [apply (st_buffer _ _ ∅ ∅ 0 4 100 (demo_memory 1) (Buffer 4 100)); [done | done|]|].
  { by intros k o a ?%lookup_empty_Some. }
  eapply rtc_l; [apply (st_store _ _ _ _ 0 (Buffer 4 100) 2 7 (demo_memory 2)); [reflexivity | reflexivity]|].
  eapply rtc_l; [apply (st_destruct _ _ _ _ 0 (Buffer 4 100)); reflexivity|].
  eapply rtc_l; [apply (st_locked _ _ _ _ 1 (Some 98) (demo_memory 4) (Locked (Some 98))); [reflexivity | reflexivity|]|].
  { intros k o a Ho. by rewrite delete_insert_eq in Ho. }
  eapply rtc_l; [apply (st_store _ _ _ _ 1 (Locked (Some 98)) 5 9 (demo_memory 5)); [reflexivity | reflexivity]|].
  rewrite delete_insert_eq. apply rtc_refl.
Qed.

Lemma demo_start a c : (∅ : gmap nat cell) !! a = Some c -> c_key c = false.
Proof. by intros ?%lookup_empty_Some. Qed.

Lemma storage_keys_contained_witness :
  demo_memory 3 !! 102 = Some (mkCell 0 false) /\ demo_memory 5 !! 103 = Some (mkCell 9 true) /\
  exists k o, ({[1 := Locked (Some 98)]} : gmap nat object) !! k = Some o /\ within 103 o.
Proof.
  split; [vm_compute; reflexivity|]. split; [vm_compute; reflexivity|].
  destruct demo_laws as (H1 & H2 & H3 & H4).
  apply (proj1 (storage_keys_contained zero_bytes demo_free H1 H2 H3 H4 ∅ (demo_memory 5) {[1 := Locked (Some 98)]}
    demo_start key_history) 103 (mkCell 9 true));
    [vm_compute; reflexivity | reflexivity].
Defined.
